(* ===== verification/_CoqProject ===== *)
-Q . S2P
Prelude.v
Pace.v
Ring.v
Spsc.v
Simd.v
Strs.v
Affinity.v
Frame.v
Filter.v
Loss.v
Gen.v
Sink.v
Wire.v
Sys.v
Xsk.v
Loader.v
Netif.v
Blast.v
Datapath.v
Net.v
Threads.v
Share.v
TxSteps.v
Engine.v
Udp.v
RxSteps.v
Xdp.v
Float.v
Report.v
Cli.v
Program.v
XdpProcess.v
Build.v
Tests.v
Loopback.v
