(* ===== verification/Prelude.v ===== *)
(** * RunPerf: a verification library

    RunPerf is a network benchmark.  A client saturates a link with TCP or
    UDP traffic and a server counts what arrives; UDP loss is derived from
    gaps in per-stream sequence numbers.  Traffic goes either through
    ordinary sockets or, with [--xdp], through AF_XDP: memory (the umem) and
    four rings shared with the kernel, driven by raw pointers.  This library
    is a shallow embedding of the Rust code in Rocq with the theorems that
    make it correct.  File names of the program below are relative to the
    crate root.

    ** The program and the files that model it

    - [Prelude] (this file): machine integers with wrap-around, the outcome
      type [res] (a value, a panic, or undefined behaviour), the two build
      profiles ([Debug] panics on overflow, [Release] wraps), checked
      arithmetic, slices, and the list and integer lemmas and tactics
      every file shares.
    - [Pace]: the pacing both senders contain, as a relation between windows
      of a second, and what it amounts to over a whole run.
    - [Strs]: what the program uses of [str] and [char]: [split], [trim],
      [lines], [split_whitespace], [from_str_radix], decimal printing.
    - [Affinity]: [src/affinity.rs], [online_cpus], [pin_to_cpu], the cpulist
      parser, [numa_cpus].  The class [CpuSets] holds the libc calls of
      [pin_to_cpu].
    - [Ring]: [src/xdp/umem.rs], [AddrRing] (fill, completion) and
      [DescRing] (RX, TX).  State: the shared page as [ring_mem] (producer,
      consumer, flags, slots) and the private [size] and [mask].
    - [Spsc]: the same ring operations access by access, with the kernel
      acting in between, stores that reach memory late and loads performed
      early as the fences of the source allow.
    - [Simd]: [src/simd.rs], CPU detection with its process-wide cache and
      the SSE2/AVX2 copy loops.
    - [Frame]: [src/xdp/frame.rs], [FrameHeader], [write_frame], the IPv4
      checksum, [parse_mac], the ARP table.
    - [Filter]: [ebpf/runperf_xdp.c], the XDP program over packet bytes.
    - [Loss]: the sequence accounting both receivers contain
      ([src/net.rs] [udp_server], [src/xdp/sink.rs]): the hash map of last
      numbers and the shared [Counters].
    - [Gen]: [src/xdp/gen.rs], [tx_one] and the paced transmit loop.
      State: [TxState] (area, TX and completion ring, pool of free frames)
      and [loop_state].
    - [Sink]: [src/xdp/sink.rs], the receive loop over [RxSock].
    - [Wire]: what a generator run puts on the wire and leaves in its ring
      ([tx_wire], [tx_handed]), and a whole generator run and a whole sink run
      joined by a network that loses frames.
    - [Sys]: system calls and calls of the aya library as a history; the
      kernel is any function from the history to an answer.  [opened]
      computes what a history leaves open, [bpf] what it leaves loaded,
      attached and registered.
    - [Xsk]: [Umem::new], [create_xsk_socket], [extract_tx] and the ring
      mapping code of [src/xdp/umem.rs] and [src/xdp/socket.rs].
    - [Loader]: [src/xdp/loader.rs], [XdpHandle::load] and
      [register_socket].
    - [Netif]: interface discovery in [src/xdp/socket.rs] ([iface_for_ipv4],
      [get_rx_queue_count], [parent_interface], ...) and [local_ipv4] of
      [src/xdp/frame.rs].
    - [Blast]: [xdp_udp_blast] and [xdp_udp_sink] from their first line to
      the loops of their workers; it joins [Netif], [Frame], [Loader],
      [Xsk], [Gen] and [Sink].
    - [Datapath]: what that set-up leaves open and attached on every path,
      and a frame's way through [Filter] and the registered sockets.
    - [Net]: [src/net.rs], the loops of the TCP and UDP engines over
      sockets, pacing, the pinning ([pin]) and placement of threads, the
      reporter's loop, the listening sockets.
    - [Threads]: workers, reporter and main thread of [src/net.rs] as a step
      relation ([lstep]) over the shared counters and the run flag; a step
      is one access to shared memory.
    - [Share]: any number of threads, each a step relation of its own, that
      add to the shared counters ([sys_step]); no addition is lost, and what
      a rank counts down is bounded ([counted]).
    - [TxSteps]: [tx_loop] of [src/xdp/gen.rs] as a state machine
      ([gen_step], program points [gpc]), one access to shared memory per
      step, with the kernel and the other workers acting in between.
    - [RxSteps]: [rx_loop] of [src/xdp/sink.rs] likewise ([sink_step],
      [spc]); the kernel also writes into the chunks it owns.
    - [Xdp]: the threads [Blast]'s set-ups lead to, which pin themselves
      ([gen_threads], [sink_threads]) before their loops; generator threads on
      one host, sink threads on another and a lossy network between them.
    - [Engine]: [udp_client], [udp_server], [tcp_client], [tcp_server] as
      wholes, their threads running under every interleaving of [Threads].
    - [Udp]: a whole UDP client on one host, a whole UDP server on another
      and a lossy network ([udp_network]) between them.
    - [Float]: non-negative [f64] arithmetic, one rounding function on
      fractions and an error calculus ([near], [approx]).
    - [Report]: what is printed: [net::Summary], the reporter's line,
      [print_summary] and the AF_XDP summaries of [src/main.rs], the usage
      text, the start-up line of [src/simd.rs], and the [field] extractor of
      [tests/loopback.rs].
    - [Cli]: [src/main.rs], arguments, the memory guard, the decision which
      engine runs ([main]) and the whole run with output and exit status
      ([run]).
    - [Program]: a client process from its command line to its exit status
      ([proc_step]): [main], the threads in any schedule, the summary.
    - [XdpProcess]: [client --xdp] and [server --xdp] likewise ([xstep]):
      [main], the set-up, the deadline and the pinning ([client_start],
      [server_start]), the threads with the kernel, the summary; a panic in
      any of these ends the process.
    - [Build]: [build.rs].
    - [Tests]: the unit tests of [src/simd.rs] and [src/xdp/frame.rs], run
      on the model.
    - [Loopback]: the two loopback tests of [tests/loopback.rs], run on the
      processes of [Program].

    How they meet at run time: [Cli] chooses an engine; [Blast] opens one
    socket per queue through [Xsk] and gives each worker a [TxState] or an
    [RxSock]; [Gen] stamps frames with [Frame] (which copies payloads with
    [Simd]) and moves them through the rings of [Ring]; [TxSteps] and
    [RxSteps] run the same loops access by access on the threads of [Share];
    the kernel runs [Filter] on arriving frames; [Sink] and the server of [Net] feed what
    they receive to [Loss]; [Report] prints the counters.  [Program] and
    [XdpProcess] put these together to processes.

    ** What the theorems show

    - Rings: [addr_ring_refines_queue] and [desc_ring_refines_queue]: any
      sequence of calls is a bounded FIFO queue, for all values of the
      free-running [u32] indices.  The classes [Pushes] and [Drains] are the
      interface [Gen] and [Sink] are proved against.
      [producer_linearizable] and [consumer_linearizable] justify treating a
      call as one step: they hold for every interleaving of the accesses,
      the second only where loads stay in order.
    - Ownership: [tx_one_ownership], [tx_loop_safe], [rx_loop_safe]: every
      umem frame is at any time in exactly one of the pool, a ring, or the
      kernel's hands, no frame in flight is written, no access leaves the
      area, and the counters are exact.  [xdp_udp_blast_safe] and
      [xdp_udp_sink_safe] show that the set-up code establishes what these
      need, so they hold from the entry point of the datapath.
    - Schedules: [generator_any_schedule] and [sink_any_schedule]: the same
      for all workers at once, with the kernel acting between any two
      accesses.  [gen_step] and [sink_step] are the loops of [Gen] and [Sink]
      cut at their accesses ([iter_steps], [rx_iter_steps]); that one ring call is one step is
      what [Spsc] shows.  [generator_leaves] and [sink_leaves]: a worker past
      its deadline is out of the loop after a bounded number of its steps.
    - Frames: [write_frame_decodes] and [write_frame_checksum] against an
      independent RFC 791/768/1071 decoder, [sink_reads_generator] for the
      pair of generator and sink, [memcpy_dispatch_copies] for the copy.
    - Loss: [drops_are_stream_gaps], [loss_exact_in_order],
      [loss_never_underreported], and end to end [udp_loss_exact] and
      [udp_lossless_drops] (one client thread, network, one worker),
      [udp_run_exact] (all threads of both engines), [xdp_loss_exact]
      (one generator worker, network, sink) and [xdp_any_schedule] (all
      workers of both sides); [xdp_hosts_any_schedule] starts from the
      set-up code of both hosts.
    - Threads: [reporter_concurrent], [summary_exact],
      [udp_client_summary], [udp_server_any_schedule] and
      [tcp_volume_end_to_end] (both ends of a TCP run count the bytes a
      network, [tcp_network], carries) hold for every schedule;
      [udp_client_thread_terminates] and [engine_terminates] bound the
      iterations and the steps, say when the run flag is cleared, and exclude
      deadlock.
    - The XDP program: [xdp_program_verdict], and from the generator to the
      right worker and what its [rx_frame] makes of the frame
      [generated_frame_reaches_worker].
    - Pacing: [tx_pacing_window], [udp_pacing_window] for one window;
      [tx_loop_rate] and [udp_client_rate] bound what leaves in a whole run, by
      the budget and 63 more for each worker and second, on clocks that do not
      run backwards ([tx_clock_ok], [client_clock_ok]).
    - Set-up and error paths: [create_xsk_socket_builds],
      [create_xsk_socket_leaks], [load_attaches], [sink_setup_resources],
      [sink_run_releases], [blast_setup_resources], [ring_slots_mapped],
      [reuseport_sockets_clean], [xdp_udp_blast_falls_back],
      [build_names_object], [run_status].
    - Output: [summary_figures] and [loss_figures] bound the distance of
      every printed figure from the exact quotient;
      [json_run_reads_back] is the round trip the loopback tests make.
    - Processes: [udp_process], [tcp_process], [xdp_client_process] and
      [xdp_server_process] say what exit status and output of a run tell its
      user, whatever the schedule.  [udp_loopback_exact] and
      [tcp_loopback_exact]: the loopback tests pass exactly if traffic left
      the client; [wait_tcp_listening_terminates]: they do not hang.
    - Text interfaces of the kernel: [iface_for_ipv4_longest_prefix],
      [lookup_arp_table], [numa_cpus_roundtrip], [oom_cap_meminfo]; each
      prints a table as the kernel does and shows what the parser makes of
      it.
    - Limits: [tx_oversize_panics], [burnt_number_is_phantom_loss],
      [oom_guard_bypassed], [acquire_fence_too_early],
      [two_clients_collide], [ipv6_phantom_loss], [large_cpu_panics] state
      precisely where the code does not do what one would want of it.

    ** Parameters, bounds and fuel

    Nothing is assumed globally.  Behaviour of code outside the repository
    is an argument with a named hypothesis, each satisfied by a concrete
    function in a witness: [kernel_contract] (AF_XDP transmit: descriptors
    are taken in order, their addresses come back once, in any order,
    through the completion ring; [tx_kernel] is the same of one action),
    [rx_contract] (receive: descriptors lie in chunks taken from the fill
    ring), [rx_kernel_step] (the same of one action, and the kernel writes
    into chunks it owns only), [network] (what arrives was sent, in order per
    stream and with both ends, one queue per stream), [udp_network] (the same
    of datagrams and sockets), [xsk_contract] (page size, well-formed
    offset tables, a new ring is empty), [grants] and [aya_grants] (which
    system and library calls succeed), [redirect_contract]
    ([bpf_redirect_map] looks the queue up in the registered sockets),
    [CpuSetsOk] ([CPU_SET] returns for the 1024 CPUs of a [cpu_set_t] and
    panics beyond them; [cpus_fit] is what a CPU list needs for the first) and
    [tcp_network] (every stream arrives whole, cut into whatever pieces).

    The loops of the program run until a deadline the clock decides.  Here
    they consume a list with one entry per iteration (clock readings, what
    the operating system returned), so they are structurally recursive and
    the theorems cover runs of every length.  The only loop without such a
    list is the carry folding of the IPv4 checksum; [CARRY_ROUNDS] is 2 and
    [fold_carry_terminates] shows that two rounds are enough for every
    [u32] sum.  Printing decimals uses 20 digits of fuel, the length of
    [2^64 - 1], or one more than the binary logarithm.  [TxSteps] and
    [RxSteps] need no list: a run is any sequence of steps, and each step
    reads a clock of its own.  Theorems about 64-bit counters carry bounds of the form
    [n < 2^64] where the code relies on not reaching them; those about
    printed figures assume runs shorter than [2^64] nanoseconds.

    ** Not modelled

    - Inside third-party code: the aya library, clang, the standard
      library's allocator and thread runtime.  They appear as arguments.
    - [TxSteps] and [RxSteps] take a ring call as one step; that the kernel
      may act within it, and that memory may be reordered, is covered for
      each call in [Spsc], not for the loops.  How long a step takes, the
      sleep of the pacing included, is not modelled there: the clock may read
      anything.  The theorems on rates are about the loops of [Net] and [Gen],
      where it is.
    - [trigger_arp] of [src/xdp/frame.rs] is the socket calls it makes; what
      they cause, the later contents of the ARP table, is an argument.
    - [AddrRing] and [DescRing] contain the same [zeroed] and [needs_wakeup]
      twice; here they are one definition each, at both element types.
    - In [Program] the UDP and TCP servers have no processes: they never end by
      themselves, and what they count is [udp_server_any_schedule] and
      [tcp_volume_end_to_end].  What is printed by the reporter while an
      engine runs is [reporter_concurrent] and [report_text], not part of the
      output of a process.
    - A panic of a thread ends a process, as the release profile has it
      ([panic = "abort"]); how a debug build goes on without that thread is not
      modelled.  Threads pin themselves as the first thing they do; in [Engine]
      and [Xdp] this is part of their start, since it touches nothing that
      other threads see.
    - The rest of the files are imports, module declarations and attributes. *)

From stdpp Require Export base tactics list list_numbers numbers option gmap relations strings.

#[global] Open Scope Z_scope.

(** ** Machine integers

    A [w]-bit unsigned integer is a [Z] in [[0, 2^w)].  [wrap] is the
    reduction that [wrapping_add], [wrapping_sub] and [as uN] perform. *)

Definition wrap (w z : Z) : Z := z mod 2 ^ w.

Definition fits (w z : Z) : Prop := 0 ≤ z < 2 ^ w.

Abbreviation is_u8 := (fits 8).
Abbreviation is_u16 := (fits 16).
Abbreviation is_u32 := (fits 32).
Abbreviation is_u64 := (fits 64).

#[export] Instance fits_dec w z : Decision (fits w z).
Proof. unfold fits. apply _. Defined.

(** ** Outcomes

    A Rust function either returns, panics, or (through raw pointers) runs
    into undefined behaviour.  [res] keeps the three apart, so that "does
    not panic" and "has no undefined behaviour" are both statements about
    the value of a definition. *)

Inductive res (A : Type) : Type :=
| Ok (a : A)
| Panic
| Undefined.
Arguments Ok {A} a.
Arguments Panic {A}.
Arguments Undefined {A}.

#[export] Instance res_ret : MRet res := λ A a, Ok a.
#[export] Instance res_bind : MBind res := λ A B f m,
  match m with
  | Ok a => f a
  | Panic => Panic
  | Undefined => Undefined
  end.
#[export] Instance res_fmap : FMap res := λ A B f m,
  match m with
  | Ok a => Ok (f a)
  | Panic => Panic
  | Undefined => Undefined
  end.

#[export] Instance res_eq_dec `{EqDecision A} : EqDecision (res A).
Proof. solve_decision. Defined.

Lemma res_bind_ok {A B} (a : A) (f : A → res B) : (Ok a ≫= f) = f a.
Proof. done. Qed.

Lemma res_bind_inv {A B} (m : res A) (f : A → res B) b :
  (m ≫= f) = Ok b → ∃ a, m = Ok a ∧ f a = Ok b.
Proof. destruct m as [a| |]; [by exists a|done..]. Qed.

(** Build profile.  [Cargo.toml] leaves [overflow-checks] and
    [debug-assertions] at their defaults: both on in the dev and test
    profiles, both off in the release profile. *)
Inductive profile : Type := Debug | Release.

#[export] Instance profile_eq_dec : EqDecision profile.
Proof. solve_decision. Defined.

(** [arith p w z]: the value of an unchecked [+], [-] or [*] whose exact
    result is [z] at the unsigned width [w]. *)
Definition arith (p : profile) (w z : Z) : res Z :=
  if decide (fits w z) then Ok z
  else match p with Debug => Panic | Release => Ok (wrap w z) end.

(** [debug_assert!]. *)
Definition debug_assert (p : profile) (b : bool) : res unit :=
  match p with
  | Debug => if b then Ok () else Panic
  | Release => Ok ()
  end.

Lemma arith_fits p w z : fits w z → arith p w z = Ok z.
Proof. intros H. unfold arith. by rewrite decide_True. Qed.

Lemma arith_release w z : 0 ≤ w → arith Release w z = Ok (wrap w z).
Proof.
  intros Hw. unfold arith. case_decide as H; [|done].
  unfold fits in H. unfold wrap. by rewrite Z.mod_small.
Qed.

Lemma wrap_fits w z : 0 ≤ w → fits w (wrap w z).
Proof. intros. unfold fits, wrap. apply Z.mod_pos_bound. lia. Qed.

Lemma wrap_small w z : fits w z → wrap w z = z.
Proof. unfold fits, wrap. intros. by apply Z.mod_small. Qed.

Lemma wrap_le w z : 0 ≤ w → 0 ≤ z → wrap w z ≤ z.
Proof. intros Hw Hz. unfold wrap. apply Z.mod_le; [done|]. by apply Z.pow_pos_nonneg. Qed.

Lemma wrap_add_l w a b : wrap w (wrap w a + b) = wrap w (a + b).
Proof. unfold wrap. apply Zplus_mod_idemp_l. Qed.

Lemma wrap_add_r w a b : wrap w (a + wrap w b) = wrap w (a + b).
Proof. unfold wrap. apply Zplus_mod_idemp_r. Qed.

Lemma wrap_sub_l w a b : wrap w (wrap w a - b) = wrap w (a - b).
Proof. unfold wrap. apply Zminus_mod_idemp_l. Qed.

Lemma wrap_sub_r w a b : wrap w (a - wrap w b) = wrap w (a - b).
Proof. unfold wrap. apply Zminus_mod_idemp_r. Qed.

Lemma wrap_add_inj w c a b : fits w a → fits w b → wrap w (c + a) = wrap w (c + b) → a = b.
Proof.
  intros Ha Hb E. rewrite <- (wrap_small w a Ha), <- (wrap_small w b Hb).
  replace a with (c + a - c) by lia. replace b with (c + b - c) by lia.
  by rewrite <- wrap_sub_l, E, wrap_sub_l.
Qed.

Lemma wrap_shift w k z : 0 ≤ w → wrap w (z + k * 2 ^ w) = wrap w z.
Proof. intros. unfold wrap. apply Z.mod_add. lia. Qed.

(** Masking by [2^k - 1] is reduction modulo [2^k], also after a wrap at a
    larger width. *)
Lemma land_mask z k : 0 ≤ k → Z.land z (2 ^ k - 1) = z mod 2 ^ k.
Proof.
  intros Hk. rewrite <- (Z.land_ones z k Hk). f_equal.
  rewrite Z.ones_equiv. lia.
Qed.

Lemma wrap_mod z k w : 0 ≤ k ≤ w → wrap w z mod 2 ^ k = z mod 2 ^ k.
Proof.
  intros [Hk Hw]. unfold wrap.
  apply Z.mod_mod_divide. exists (2 ^ (w - k)). rewrite <- Z.pow_add_r by lia. f_equal. lia.
Qed.

(** ** Lengths, slices and updates of byte buffers *)

Abbreviation zlen l := (Z.of_nat (length l)).

Definition slice {A} (l : list A) (off n : Z) : list A :=
  take (Z.to_nat n) (drop (Z.to_nat off) l).

(** [l[off .. off + len src].copy_from_slice(src)] on a range that fits. *)
Definition splice {A} (l : list A) (off : Z) (src : list A) : list A :=
  take (Z.to_nat off) l ++ src ++ drop (Z.to_nat off + length src)%nat l.

Lemma length_slice {A} (l : list A) off n :
  0 ≤ off → 0 ≤ n → off + n ≤ zlen l → zlen (slice l off n) = n.
Proof. intros. unfold slice. rewrite length_take, length_drop. lia. Qed.

Lemma length_splice {A} (l : list A) off src :
  0 ≤ off → off + zlen src ≤ zlen l → length (splice l off src) = length l.
Proof.
  intros. unfold splice. rewrite !length_app, length_take, length_drop. lia.
Qed.

Lemma lookup_splice {A} (l : list A) off src (i : nat) :
  0 ≤ off → off + zlen src ≤ zlen l →
  splice l off src !! i =
    if decide (off ≤ Z.of_nat i < off + zlen src)
    then src !! (i - Z.to_nat off)%nat else l !! i.
Proof.
  intros Ho Hl. unfold splice.
  destruct (decide (Z.of_nat i < off)).
  { rewrite lookup_app_l by (rewrite length_take; lia).
    rewrite lookup_take_lt by lia. rewrite decide_False by lia. done. }
  rewrite lookup_app_r by (rewrite length_take; lia).
  rewrite length_take, Nat.min_l by lia.
  case_decide as Hd.
  - rewrite lookup_app_l by lia. done.
  - rewrite lookup_app_r by lia. rewrite lookup_drop. f_equal. lia.
Qed.

Lemma lookup_slice {A} (l : list A) off n (i : nat) :
  0 ≤ off →
  slice l off n !! i = if decide (Z.of_nat i < n) then l !! (Z.to_nat off + i)%nat else None.
Proof.
  intros. unfold slice. case_decide.
  - rewrite lookup_take_lt by lia. by rewrite lookup_drop.
  - rewrite lookup_take_ge by lia. done.
Qed.

Lemma slice_splice_eq {A} (l : list A) off src :
  0 ≤ off → off + zlen src ≤ zlen l → slice (splice l off src) off (zlen src) = src.
Proof.
  intros Ho Hl. apply list_eq. intros i. rewrite lookup_slice by done.
  case_decide.
  - rewrite lookup_splice by done. rewrite decide_True by lia. f_equal. lia.
  - symmetry. apply lookup_ge_None. lia.
Qed.

Lemma slice_splice_ne {A} (l : list A) off src off' n :
  0 ≤ off → off + zlen src ≤ zlen l → 0 ≤ off' →
  off' + n ≤ off ∨ off + zlen src ≤ off' →
  slice (splice l off src) off' n = slice l off' n.
Proof.
  intros. apply list_eq. intros i. rewrite !lookup_slice by done.
  case_decide; [|done]. rewrite lookup_splice by done.
  by rewrite decide_False by lia.
Qed.

(** A slice inside a spliced-in region is a slice of what was written. *)
Lemma slice_splice_in {A} (l : list A) off src off' n :
  0 ≤ off → off + zlen src ≤ zlen l → off ≤ off' → off' + n ≤ off + zlen src →
  slice (splice l off src) off' n = slice src (off' - off) n.
Proof.
  intros. apply list_eq. intros i. rewrite !lookup_slice by lia.
  case_decide; [|done]. rewrite lookup_splice by done.
  rewrite decide_True by lia. f_equal. lia.
Qed.

Lemma slice_slice {A} (l : list A) off n off' n' :
  0 ≤ off → 0 ≤ off' → off' + n' ≤ n →
  slice (slice l off n) off' n' = slice l (off + off') n'.
Proof.
  intros. apply list_eq. intros i. rewrite !lookup_slice by lia.
  case_decide; [|done]. rewrite decide_True by lia. f_equal. lia.
Qed.

Lemma slice_full {A} (l : list A) : slice l 0 (zlen l) = l.
Proof. unfold slice. rewrite drop_0. rewrite take_ge; [done|lia]. Qed.

Lemma slice_app_l {A} (l k : list A) n : n = zlen l → slice (l ++ k) 0 n = l.
Proof. intros ->. unfold slice. rewrite drop_0, Nat2Z.id. apply take_app_length. Qed.

Lemma splice_full {A} (l src : list A) : length src = length l → splice l 0 src = src.
Proof.
  intros Hl. unfold splice. rewrite take_0, drop_ge by lia. by rewrite app_nil_r.
Qed.

(** ** Byte encodings *)

Definition is_bytes (l : list Z) : Prop := Forall is_u8 l.

#[export] Instance is_bytes_dec l : Decision (is_bytes l).
Proof. unfold is_bytes. apply _. Defined.

(** [to_le_bytes] of an [n]-byte integer, and [from_le_bytes]. *)
Fixpoint to_le_bytes (n : nat) (z : Z) : list Z :=
  match n with
  | O => []
  | S n => z mod 256 :: to_le_bytes n (z / 256)
  end.

Fixpoint from_le_bytes (l : list Z) : Z :=
  match l with
  | [] => 0
  | b :: l => b + 256 * from_le_bytes l
  end.

Lemma length_to_le_bytes n z : length (to_le_bytes n z) = n.
Proof. revert z. induction n; intros z; simpl; auto. Qed.

Lemma to_le_bytes_bytes n z : is_bytes (to_le_bytes n z).
Proof.
  revert z. induction n; intros z; simpl; constructor; [|apply IHn].
  unfold fits. apply Z.mod_pos_bound. lia.
Qed.

Lemma from_to_le_bytes n z : from_le_bytes (to_le_bytes n z) = wrap (8 * Z.of_nat n) z.
Proof.
  unfold wrap. revert z. induction n as [|n IH]; intros z.
  { simpl. by rewrite Z.mod_1_r. }
  cbn [to_le_bytes from_le_bytes]. rewrite IH.
  replace (8 * Z.of_nat (S n)) with (8 + 8 * Z.of_nat n) by lia.
  rewrite Z.pow_add_r by lia. change (2 ^ 8) with 256.
  rewrite Z.rem_mul_r by lia. lia.
Qed.

Lemma from_to_le_u64 z : is_u64 z → from_le_bytes (to_le_bytes 8 z) = z.
Proof. intros H. rewrite from_to_le_bytes. by apply wrap_small. Qed.

Lemma from_le_bytes_fits l : is_bytes l → fits (8 * zlen l) (from_le_bytes l).
Proof.
  induction 1 as [|b l Hb Hl IH]; [unfold fits; simpl; lia|].
  cbn [from_le_bytes length]. unfold fits in *.
  replace (8 * Z.of_nat (S (length l))) with (8 + 8 * zlen l) by lia.
  rewrite Z.pow_add_r by lia. change (2 ^ 8) with 256 in *. lia.
Qed.

Lemma from_le_bytes_inj l m :
  is_bytes l → is_bytes m → length l = length m → from_le_bytes l = from_le_bytes m → l = m.
Proof.
  intros Hl. revert m. induction Hl as [|a l Ha Hl IH]; intros [|b m] Hm E H; try done.
  apply Forall_cons in Hm as [Hb Hm]. cbn [from_le_bytes] in H. unfold fits in Ha, Hb.
  assert (a = b) as -> by lia. f_equal. apply IH; [done|cbn in E; lia|lia].
Qed.

Lemma to_from_le_bytes l : is_bytes l → to_le_bytes (length l) (from_le_bytes l) = l.
Proof.
  intros Hl. apply from_le_bytes_inj; [apply to_le_bytes_bytes|done|apply length_to_le_bytes|].
  rewrite from_to_le_bytes. apply wrap_small. by apply from_le_bytes_fits.
Qed.

(** Big-endian 16-bit fields, as the code writes them: [(x >> 8) as u8]
    and [x as u8]. *)
Definition hi8 (x : Z) : Z := wrap 8 (Z.shiftr x 8).
Definition lo8 (x : Z) : Z := wrap 8 x.
Definition be16 (h l : Z) : Z := h * 256 + l.

Lemma hi8_u8 x : is_u8 (hi8 x).
Proof. apply wrap_fits. lia. Qed.
Lemma lo8_u8 x : is_u8 (lo8 x).
Proof. apply wrap_fits. lia. Qed.

Lemma be16_hi_lo x : is_u16 x → be16 (hi8 x) (lo8 x) = x.
Proof.
  unfold fits, be16, hi8, lo8, wrap. intros H.
  rewrite Z.shiftr_div_pow2 by lia.
  change (2 ^ 8) with 256. change (2 ^ 16) with 65536 in H.
  Z.div_mod_to_equations. lia.
Qed.

(** A decidable statement about bytes is settled by its 256 cases. *)
Lemma u8_cases (P : Z → Prop) `{∀ b, Decision (P b)} :
  bool_decide (Forall P (seqZ 0 256)) = true → ∀ b, is_u8 b → P b.
Proof.
  intros Hall b Hb. apply bool_decide_eq_true in Hall. rewrite Forall_forall in Hall.
  apply Hall. apply elem_of_seqZ. exact Hb.
Qed.

(** ** Automation *)

Create HintDb runperf.
#[export] Hint Resolve hi8_u8 lo8_u8 wrap_fits to_le_bytes_bytes : runperf.
#[export] Hint Extern 1 (_ ≤ _) => lia : runperf.
#[export] Hint Extern 1 (_ < _) => lia : runperf.

(** Unfold the width predicates and finish with linear arithmetic. *)
Ltac width :=
  unfold fits in *;
  repeat match goal with
  | |- context [2 ^ 8] => change (2 ^ 8) with 256
  | |- context [2 ^ 16] => change (2 ^ 16) with 65536
  | |- context [2 ^ 32] => change (2 ^ 32) with 4294967296
  | |- context [2 ^ 64] => change (2 ^ 64) with 18446744073709551616
  | H : context [2 ^ 8] |- _ => change (2 ^ 8) with 256 in H
  | H : context [2 ^ 16] |- _ => change (2 ^ 16) with 65536 in H
  | H : context [2 ^ 32] |- _ => change (2 ^ 32) with 4294967296 in H
  | H : context [2 ^ 64] |- _ => change (2 ^ 64) with 18446744073709551616 in H
  end; lia.

(** [is_bytes] of an explicit list. *)
Ltac bytes :=
  unfold is_bytes;
  repeat first [ apply Forall_nil_2 | apply Forall_cons_2 ];
  first [ assumption | solve [auto with runperf] | width ].

(** Step through a monadic bind whose first computation is known. *)
Ltac bind H := rewrite H; cbn [mbind res_bind].
