(* ===== verification/Pace.v ===== *)
(** * Pacing ([src/net.rs], [src/xdp/gen.rs])

    Both senders pace themselves in the same way: packets are counted since
    the window opened, and once the count reaches the budget the thread
    sleeps until a second after that and opens a new window.  Here is what
    that amounts to over a whole run; [Net] and [Gen] have the loops. *)

From S2P Require Import Prelude.

(** ** Windows *)

(** The packets sent since the start, those of the current window, and when
    it opened. *)
Record window : Type := Window {
  wd_total : Z;
  wd_sent : Z;
  wd_start : Z;
}.

Section pace.
Context (second pps : Z).

(** One iteration of a paced loop: it stays below the budget, or it reaches
    it with at most 63 packets too many and opens a window at least a second
    later. *)
Inductive paced : window → window → Prop :=
| p_stay n s st r : 0 ≤ r → s + r < pps → paced (Window n s st) (Window (n + r) (s + r) st)
| p_close n s st r st' : 0 ≤ r → pps ≤ s + r ≤ pps + 63 → st + second ≤ st' →
    paced (Window n s st) (Window (n + r) 0 st').

(** Between iterations: every closed window took a second and at most
    [pps + 63] packets. *)
Definition window_ok (start : Z) (w : window) : Prop :=
  0 ≤ wd_sent w < pps ∧ start ≤ wd_start w
  ∧ ∃ k, 0 ≤ k ∧ start + k * second ≤ wd_start w ∧ wd_total w ≤ k * (pps + 63) + wd_sent w.

Lemma window_ok_init start : 0 < pps → window_ok start (Window 0 0 start).
Proof. intros H. split; [cbn; lia|]. split; [cbn; lia|]. exists 0. cbn. lia. Qed.

Lemma window_ok_step start w w' : 0 < second → window_ok start w → paced w w' → window_ok start w'.
Proof.
  intros Hs (Hw & Hst & k & Hk & Hks & Hn) Hp. destruct Hp as [n s st r Hr Hlt|n s st r st' Hr Hlt Hst'];
    cbn [wd_total wd_sent wd_start] in *.
  - split; [cbn; lia|]. split; [done|]. exists k. cbn. lia.
  - split; [cbn; lia|]. split; [cbn; lia|]. exists (k + 1). cbn. lia.
Qed.

(** An iteration that begins within [secs] seconds leaves the total below
    [secs] windows. *)
Lemma paced_total start secs now w w' :
  0 < second → 0 < pps → window_ok start w → paced w w' → wd_start w ≤ now → now < start + secs * second →
  wd_total w' ≤ secs * (pps + 63).
Proof.
  intros Hs Hpps (Hw & _ & k & Hk & Hks & Hn) Hp Hnow Hlt.
  assert (k + 1 ≤ secs) as Hks' by nia.
  assert (wd_total w' ≤ (k + 1) * (pps + 63)) as H by (destruct Hp; cbn [wd_total wd_sent] in *; lia).
  nia.
Qed.
End pace.
