(* ===== verification/Ring.v ===== *)
(** * The AF_XDP rings ([src/xdp/umem.rs], [AddrRing] and [DescRing])

    A ring is a page range shared with the kernel: a producer index, a
    consumer index, a flags word and an array of [size] slots, all reached
    through raw pointers.  The indices are free-running [u32] counters; a
    slot index is a counter masked by [size - 1].

    The file models the four ring operations, states the bounded FIFO queue
    they implement, and proves the refinement for every value of the two
    counters, the wrap-around at [2^32] included. *)

From S2P Require Import Prelude.

(** Geometry of the umem: bytes per frame, frames, slots per ring. *)
Definition FRAME_SIZE : Z := 4096.
Definition FRAME_COUNT : Z := 4096.
Definition RING_SIZE : Z := 2048.

Definition XDP_RING_NEED_WAKEUP : Z := 1.

(** The memory behind the four pointers of a mapped ring. *)
Record ring_mem (A : Type) : Type := RingMem {
  producer : Z;
  consumer : Z;
  flags : Z;
  descs : list A;
}.
Arguments RingMem {A}.
Arguments producer {A}.
Arguments consumer {A}.
Arguments flags {A}.
Arguments descs {A}.

(** A ring handle.  [mem = None] stands for the null pointers of
    [zeroed()]: every access through it is undefined behaviour. *)
Record ring (A : Type) : Type := Ring {
  mem : option (ring_mem A);
  size : Z;
  mask : Z;
}.
Arguments Ring {A}.
Arguments mem {A}.
Arguments size {A}.
Arguments mask {A}.

#[export] Instance ring_mem_eq_dec `{EqDecision A} : EqDecision (ring_mem A).
Proof. solve_decision. Defined.
#[export] Instance ring_eq_dec `{EqDecision A} : EqDecision (ring A).
Proof. solve_decision. Defined.

(** [struct XdpDesc]. *)
Record XdpDesc : Type := mkXdpDesc {
  desc_addr : Z;
  desc_len : Z;
  desc_options : Z;
}.

#[export] Instance XdpDesc_eq_dec : EqDecision XdpDesc.
Proof. solve_decision. Defined.

(** The fill and completion rings carry [u64] umem offsets, the RX and TX
    rings carry descriptors. *)
Abbreviation AddrRing := (ring Z).
Abbreviation DescRing := (ring XdpDesc).

(** [struct SockaddrXdp]. *)
Record SockaddrXdp : Type := mkSockaddrXdp {
  sxdp_family : Z;
  sxdp_flags : Z;
  sxdp_ifindex : Z;
  sxdp_queue_id : Z;
  sxdp_shared_umem_fd : Z;
}.

#[export] Instance SockaddrXdp_eq_dec : EqDecision SockaddrXdp.
Proof. solve_decision. Defined.

(** ** Operations *)

Definition zeroed {A} : ring A := Ring None 0 0.

Section volatile.
Context {A : Type}.
Implicit Types (r : ring A) (m : ring_mem A).

(** A dereference of the handle's pointers. *)
Definition deref (r : ring A) : res (ring_mem A) :=
  match mem r with Some m => Ok m | None => Undefined end.

(** [write_volatile(self.descs.add(idx), a)]: undefined outside the slots
    that were mapped. *)
Definition write_desc (m : ring_mem A) (idx : Z) (a : A) : res (ring_mem A) :=
  if decide (0 ≤ idx < zlen (descs m))
  then Ok (RingMem (producer m) (consumer m) (flags m) (<[Z.to_nat idx := a]> (descs m)))
  else Undefined.

Definition read_desc (m : ring_mem A) (idx : Z) : res A :=
  match (if decide (0 ≤ idx) then descs m !! Z.to_nat idx else None) with
  | Some a => Ok a
  | None => Undefined
  end.

(** [for (i, &a) in addrs[..n].iter().enumerate()]: the slot writes of a
    batch, starting at index [i]. *)
Fixpoint write_batch (mask prod : Z) (i : nat) (l : list A) (m : ring_mem A)
    : res (ring_mem A) :=
  match l with
  | [] => Ok m
  | a :: l =>
      let idx := Z.land (wrap 32 (prod + wrap 32 (Z.of_nat i))) mask in
      m ← write_desc m idx a;
      write_batch mask prod (S i) l m
  end.

(** [for i in 0..available { out.push(..) }], [n] iterations from [i]. *)
Fixpoint read_batch (mask cons : Z) (i n : nat) (m : ring_mem A) : res (list A) :=
  match n with
  | O => Ok []
  | S n =>
      let idx := Z.land (wrap 32 (cons + wrap 32 (Z.of_nat i))) mask in
      a ← read_desc m idx;
      out ← read_batch mask cons (S i) n m;
      Ok (a :: out)
  end.

Definition set_producer (m : ring_mem A) (p : Z) : ring_mem A :=
  RingMem p (consumer m) (flags m) (descs m).
Definition set_consumer (m : ring_mem A) (c : Z) : ring_mem A :=
  RingMem (producer m) c (flags m) (descs m).
Definition with_mem (r : ring A) (m : ring_mem A) : ring A :=
  Ring (Some m) (size r) (mask r).

(** [free] as both producers compute it. *)
Definition free_slots (r : ring A) (m : ring_mem A) : Z :=
  wrap 32 (size r - wrap 32 (producer m - consumer m)).

Definition needs_wakeup (r : ring A) : res bool :=
  m ← deref r;
  Ok (negb (Z.land (flags m) XDP_RING_NEED_WAKEUP =? 0)).
End volatile.

(** [AddrRing::enqueue_batch]: the producer index is written even when
    nothing was enqueued. *)
Definition enqueue_batch (r : AddrRing) (addrs : list Z) : res (Z * AddrRing) :=
  m ← deref r;
  let prod := producer m in
  let free := free_slots r m in
  let n := Z.min (zlen addrs) free in
  m ← write_batch (mask r) prod 0 (take (Z.to_nat n) addrs) m;
  Ok (n, with_mem r (set_producer m (wrap 32 (prod + wrap 32 n)))).

(** [AddrRing::dequeue_all]. *)
Definition dequeue_all (r : AddrRing) : res (list Z * AddrRing) :=
  m ← deref r;
  let cons := consumer m in
  let available := wrap 32 (producer m - cons) in
  out ← read_batch (mask r) cons 0 (Z.to_nat available) m;
  Ok (out,
      if 0 <? available
      then with_mem r (set_consumer m (wrap 32 (cons + wrap 32 available)))
      else r).

(** [DescRing::produce_tx]: the producer index is written only for [n > 0]. *)
Definition produce_tx (r : DescRing) (ds : list XdpDesc) : res (Z * DescRing) :=
  m ← deref r;
  let prod := producer m in
  let free := free_slots r m in
  let n := Z.min (zlen ds) free in
  m ← write_batch (mask r) prod 0 (take (Z.to_nat n) ds) m;
  Ok (n,
      with_mem r (if 0 <? n then set_producer m (wrap 32 (prod + wrap 32 n)) else m)).

(** [DescRing::consume_rx]. *)
Definition consume_rx (r : DescRing) : res (list XdpDesc * DescRing) :=
  m ← deref r;
  let cons := consumer m in
  let available := wrap 32 (producer m - cons) in
  if available =? 0 then Ok ([], r) else
  out ← read_batch (mask r) cons 0 (Z.to_nat available) m;
  Ok (out, with_mem r (set_consumer m (wrap 32 (cons + wrap 32 available)))).

(** ** The bounded queue a ring implements *)

(** [ring_rep k r q]: the handle [r] is mapped with [2^k] slots, and the
    entries between the consumer and the producer index are [q], oldest
    first. *)
Record ring_rep {A} (k : Z) (r : ring A) (q : list A) : Prop := {
  rep_exp : 0 ≤ k < 32;
  rep_size : size r = 2 ^ k;
  rep_mask : mask r = 2 ^ k - 1;
  rep_bound : zlen q ≤ 2 ^ k;
  rep_mem : ∃ m, mem r = Some m
    ∧ zlen (descs m) = 2 ^ k
    ∧ is_u32 (producer m) ∧ is_u32 (consumer m)
    ∧ wrap 32 (producer m - consumer m) = zlen q
    ∧ ∀ i a, q !! i = Some a →
        descs m !! Z.to_nat ((consumer m + Z.of_nat i) mod 2 ^ k) = Some a;
}.

(** What a producer promises: it appends the longest prefix of the batch
    that fits in a queue of capacity [2^k], and reports its length. *)
Class Pushes {A} (push : ring A → list A → res (Z * ring A)) : Prop :=
  push_rep k r q xs :
    ring_rep k r q →
    ∃ r', push r xs = Ok (Z.min (zlen xs) (2 ^ k - zlen q), r')
      ∧ ring_rep k r' (q ++ take (Z.to_nat (2 ^ k - zlen q)) xs).

(** What a consumer promises: it returns the whole queue in order and
    leaves it empty. *)
Class Drains {A} (drain : ring A → res (list A * ring A)) : Prop :=
  drain_rep k r q :
    ring_rep k r q →
    ∃ r', drain r = Ok (q, r') ∧ ring_rep k r' [].

(** *** Slot arithmetic *)

Section slots.
Context (k : Z) (Hk : 0 ≤ k < 32).

Lemma slot_index x (i : nat) :
  Z.land (wrap 32 (x + wrap 32 (Z.of_nat i))) (2 ^ k - 1) = (x + Z.of_nat i) mod 2 ^ k.
Proof. rewrite land_mask by lia. by rewrite wrap_add_r, wrap_mod by lia. Qed.

Lemma slot_range x : 0 ≤ x mod 2 ^ k < 2 ^ k.
Proof. apply Z.mod_pos_bound. lia. Qed.

(** Fewer than [2^k] apart, two counters name different slots. *)
Lemma slot_inj x y : x < y < x + 2 ^ k → x mod 2 ^ k ≠ y mod 2 ^ k.
Proof.
  intros H E. assert (0 < 2 ^ k) by lia.
  pose proof (Z.div_mod x (2 ^ k)) as Ex. pose proof (Z.div_mod y (2 ^ k)) as Ey.
  rewrite E in Ex.
  assert (y - x = 2 ^ k * (y / 2 ^ k - x / 2 ^ k)) by lia.
  assert (0 < y / 2 ^ k - x / 2 ^ k < 1) by nia. lia.
Qed.

(** A counter that wrapped at [2^32] still names the same slot. *)
Lemma slot_wrap x i : (wrap 32 x + i) mod 2 ^ k = (x + i) mod 2 ^ k.
Proof.
  rewrite (Z.add_mod (wrap 32 x)), wrap_mod, <- Z.add_mod by lia. done.
Qed.
End slots.

(** *** The two loops *)

Section loops.
Context {A : Type} (k : Z) (Hk : 0 ≤ k < 32).
Implicit Types (m : ring_mem A) (l : list A).

Lemma write_desc_ok m idx a :
  0 ≤ idx < zlen (descs m) →
  write_desc m idx a =
    Ok (RingMem (producer m) (consumer m) (flags m) (<[Z.to_nat idx := a]> (descs m))).
Proof. intros H. unfold write_desc. by rewrite decide_True. Qed.

Lemma write_batch_spec prod l : ∀ i m,
  zlen (descs m) = 2 ^ k → zlen l ≤ 2 ^ k →
  ∃ m', write_batch (2 ^ k - 1) prod i l m = Ok m'
    ∧ producer m' = producer m ∧ consumer m' = consumer m ∧ flags m' = flags m
    ∧ zlen (descs m') = 2 ^ k
    ∧ (∀ t a, l !! t = Some a →
         descs m' !! Z.to_nat ((prod + Z.of_nat (i + t)) mod 2 ^ k) = Some a)
    ∧ (∀ c, (∀ t, (t < length l)%nat → (prod + Z.of_nat (i + t)) mod 2 ^ k ≠ c) →
         0 ≤ c → descs m' !! Z.to_nat c = descs m !! Z.to_nat c).
Proof.
  induction l as [|a l IH]; intros i m Hlen Hl.
  { exists m. naive_solver. }
  cbn [length] in Hl. cbn [write_batch]. rewrite (slot_index k Hk).
  pose proof (slot_range k Hk (prod + Z.of_nat i)) as Hr.
  rewrite write_desc_ok by lia. cbn [mbind res_bind].
  edestruct (IH (S i)) as (m' & -> & Hp & Hc & Hf & Hd & Hin & Hout); simpl.
  3: exists m'; split_and!; try done.
  { by rewrite length_insert. }
  { lia. }
  - intros [|t] b Hb; simpl in Hb.
    + simplify_eq. rewrite Nat.add_0_r. rewrite Hout; [|..|lia].
      * simpl. apply list_lookup_insert_eq. lia.
      * intros t Ht. apply not_eq_sym, slot_inj; lia.
    + rewrite <- (Hin _ _ Hb). do 3 f_equal. lia.
  - intros c Hne Hc0. rewrite Hout; [|..|lia].
    + simpl. apply list_lookup_insert_ne. intros E.
      apply (Hne 0%nat); [lia|]. rewrite Nat.add_0_r. lia.
    + intros t Ht. replace (S i + t)%nat with (i + S t)%nat by lia. apply Hne. lia.
Qed.

Lemma read_batch_spec cons q : ∀ i m,
  zlen (descs m) = 2 ^ k →
  (∀ t a, q !! t = Some a →
     descs m !! Z.to_nat ((cons + Z.of_nat (i + t)) mod 2 ^ k) = Some a) →
  read_batch (2 ^ k - 1) cons i (length q) m = Ok q.
Proof.
  induction q as [|a q IH]; intros i m Hlen Hq; [done|].
  cbn [length read_batch]. rewrite (slot_index k Hk).
  unfold read_desc. rewrite decide_True by (apply slot_range; lia).
  pose proof (Hq 0%nat a eq_refl) as H0. rewrite Nat.add_0_r in H0. rewrite H0.
  cbn [mbind res_bind]. rewrite IH; [done..|].
  intros t b Hb. rewrite <- (Hq (S t) b Hb). do 3 f_equal. lia.
Qed.
End loops.

(** *** Refinement, shared by the address and the descriptor rings *)

Lemma with_mem_id {A} (r : ring A) m : mem r = Some m → with_mem r m = r.
Proof. destruct r; simpl. by intros ->. Qed.

Section refinement.
Context {A : Type} (k : Z) (r : ring A) (q : list A) (Hrep : ring_rep k r q).

Lemma take_min (xs : list A) n :
  take (Z.to_nat (Z.min (zlen xs) n)) xs = take (Z.to_nat n) xs.
Proof.
  destruct (decide (zlen xs ≤ n)).
  - rewrite Z.min_l by lia. rewrite !take_ge by lia. done.
  - by rewrite Z.min_r by lia.
Qed.

Lemma free_slots_rep m : mem r = Some m → free_slots r m = 2 ^ k - zlen q.
Proof.
  intros Hm. destruct Hrep as [Hk Hs _ Hb (m' & Hm' & _ & _ & _ & Hw & _)].
  simplify_eq. unfold free_slots. rewrite Hs, Hw. apply wrap_small.
  assert (2 ^ k < 2 ^ 32) by (apply Z.pow_lt_mono_r; lia). split; lia.
Qed.

(** Writing a batch behind the producer index extends the queue. *)
Lemma push_core (xs : list A) m :
  mem r = Some m → zlen q + zlen xs ≤ 2 ^ k →
  ∃ m', write_batch (mask r) (producer m) 0 xs m = Ok m'
    ∧ producer m' = producer m ∧ consumer m' = consumer m
    ∧ ring_rep k (with_mem r (set_producer m' (wrap 32 (producer m + zlen xs)))) (q ++ xs).
Proof.
  intros Hm Hxs.
  destruct Hrep as [Hk Hs Hma Hb (m0 & Hm0 & Hd & Hp & Hc & Hw & Hq)]. simplify_eq.
  destruct (write_batch_spec k Hk (producer m) xs 0 m) as
    (m' & Hok & Hp' & Hc' & _ & Hd' & Hin & Hout); [done|lia|].
  exists m'. rewrite Hma. split_and!; [done..|].
  (* the producer sits [length q] slots after the consumer, up to a wrap *)
  assert (Hpos : ∀ i, (producer m + i) mod 2 ^ k = (consumer m + zlen q + i) mod 2 ^ k).
  { intros i. rewrite <- (slot_wrap k Hk (consumer m + zlen q)). f_equal. f_equal.
    rewrite <- Hw. rewrite wrap_add_r.
    replace (consumer m + (producer m - consumer m)) with (producer m) by lia.
    by rewrite wrap_small. }
  split; [done|done|done|rewrite length_app; lia|].
  eexists; split; [done|]; simpl. rewrite Hc'.
  split_and!; [done|apply wrap_fits; lia|done|..].
  - rewrite wrap_sub_l, length_app, Nat2Z.inj_add, <- Hw.
    replace (producer m + zlen xs - consumer m)
      with (producer m - consumer m + zlen xs) by lia.
    rewrite <- wrap_add_l. rewrite Hw. apply wrap_small.
    assert (2 ^ k < 2 ^ 32) by (apply Z.pow_lt_mono_r; lia). split; lia.
  - intros i a Hi. apply lookup_app_Some in Hi as [Hi|[Hge Hi]].
    + rewrite Hout; [by apply Hq|..|apply slot_range; lia].
      apply lookup_lt_Some in Hi.
      intros t Ht. rewrite Hpos. apply not_eq_sym, slot_inj; lia.
    + rewrite <- (Hin _ _ Hi). rewrite Hpos. do 3 f_equal. lia.
Qed.

Lemma drain_core m :
  mem r = Some m →
  wrap 32 (producer m - consumer m) = zlen q
  ∧ read_batch (mask r) (consumer m) 0 (length q) m = Ok q
  ∧ ring_rep k (with_mem r (set_consumer m (wrap 32 (consumer m + wrap 32 (zlen q))))) [].
Proof.
  intros Hm.
  destruct Hrep as [Hk Hs Hma Hb (m0 & Hm0 & Hd & Hp & Hc & Hw & Hq)]. simplify_eq.
  split_and!; [done|rewrite Hma; by apply (read_batch_spec k)|].
  split; [done|done|done|simpl; lia|].
  eexists; split; [done|]; simpl. split_and!; [done|done|apply wrap_fits; lia|..].
  - rewrite wrap_sub_r, <- Hw.
    replace (producer m - (consumer m + wrap 32 (wrap 32 (producer m - consumer m))))
      with (producer m - consumer m - wrap 32 (wrap 32 (producer m - consumer m))) by lia.
    by rewrite !wrap_sub_r, Z.sub_diag.
  - intros i a Hi. by rewrite lookup_nil in Hi.
Qed.

Lemma rep_deref : ∃ m, mem r = Some m ∧ deref r = Ok m.
Proof.
  destruct Hrep as [_ _ _ _ (m & Hm & _)]. exists m. split; [done|].
  unfold deref. by rewrite Hm.
Qed.

Lemma rep_small : 0 ≤ zlen q ≤ 2 ^ k ∧ 2 ^ k < 2 ^ 32.
Proof.
  destruct Hrep. split; [lia|]. apply Z.pow_lt_mono_r; lia.
Qed.

Lemma push_fits (xs : list A) :
  zlen q + zlen (take (Z.to_nat (2 ^ k - zlen q)) xs) ≤ 2 ^ k
  ∧ zlen (take (Z.to_nat (2 ^ k - zlen q)) xs) = Z.min (zlen xs) (2 ^ k - zlen q).
Proof. pose proof rep_small. rewrite length_take. lia. Qed.
End refinement.

(** The queue a ring holds is determined by its memory. *)
Lemma ring_rep_unique {A} k (r : ring A) q1 q2 :
  ring_rep k r q1 → ring_rep k r q2 → q1 = q2.
Proof.
  intros H1 H2.
  destruct (rep_deref _ _ _ H1) as (m & Hm & _).
  destruct (drain_core _ _ _ H1 m Hm) as (E1 & R1 & _).
  destruct (drain_core _ _ _ H2 m Hm) as (E2 & R2 & _).
  assert (length q1 = length q2) as E by lia. rewrite E in R1. congruence.
Qed.

#[export] Instance enqueue_batch_pushes : Pushes enqueue_batch.
Proof.
  intros k r q xs Hrep. unfold enqueue_batch.
  destruct (rep_deref _ _ _ Hrep) as (m & Hm & ->). cbn [mbind res_bind].
  pose proof (rep_small _ _ _ Hrep) as Hs.
  rewrite (free_slots_rep k r q Hrep m Hm), take_min.
  destruct (push_fits _ _ _ Hrep xs) as [Hf Hn].
  destruct (push_core k r q Hrep _ m Hm Hf) as (m' & -> & Hp & _ & Hr). cbn [mbind res_bind].
  eexists; split; [done|]. by rewrite wrap_add_r, <- Hn.
Qed.

#[export] Instance produce_tx_pushes : Pushes produce_tx.
Proof.
  intros k r q xs Hrep. unfold produce_tx.
  destruct (rep_deref _ _ _ Hrep) as (m & Hm & ->). cbn [mbind res_bind].
  pose proof (rep_small _ _ _ Hrep) as Hs.
  rewrite (free_slots_rep k r q Hrep m Hm), take_min.
  destruct (push_fits _ _ _ Hrep xs) as [Hf Hn].
  destruct (Z.ltb_spec 0 (Z.min (zlen xs) (2 ^ k - zlen q))) as [Hpos|Hz].
  - destruct (push_core k r q Hrep _ m Hm Hf) as (m' & -> & Hp & _ & Hr). cbn [mbind res_bind].
    eexists; split; [done|]. by rewrite wrap_add_r, <- Hn.
  - assert (take (Z.to_nat (2 ^ k - zlen q)) xs = []) as -> by (apply nil_length_inv; lia).
    cbn [write_batch mbind res_bind]. rewrite (with_mem_id r m Hm).
    eexists; split; [done|]. by rewrite app_nil_r.
Qed.

#[export] Instance dequeue_all_drains : Drains dequeue_all.
Proof.
  intros k r q Hrep. unfold dequeue_all.
  destruct (rep_deref _ _ _ Hrep) as (m & Hm & ->). cbn [mbind res_bind].
  destruct (drain_core _ _ _ Hrep m Hm) as (Ew & Er & Hr).
  rewrite Ew, Nat2Z.id, Er. cbn [mbind res_bind].
  destruct (Z.ltb_spec 0 (zlen q)) as [Hpos|Hz]; (eexists; split; [done|]); [done|].
  destruct q; [done|simpl in Hz; lia].
Qed.

#[export] Instance consume_rx_drains : Drains consume_rx.
Proof.
  intros k r q Hrep. unfold consume_rx.
  destruct (rep_deref _ _ _ Hrep) as (m & Hm & ->). cbn [mbind res_bind].
  destruct (drain_core _ _ _ Hrep m Hm) as (Ew & Er & Hr).
  rewrite Ew, Nat2Z.id, Er. cbn [mbind res_bind].
  destruct (Z.eqb_spec (zlen q) 0) as [Hz|Hnz]; [|by eexists].
  destruct q; [by exists r|simpl in Hz; lia].
Qed.

(** *** Histories *)

(** One call on a ring, and what its caller observes. *)
Inductive ring_op (A : Type) : Type :=
| Push (xs : list A)
| Drain.
Arguments Push {A} xs.
Arguments Drain {A}.

Inductive ring_obs (A : Type) : Type :=
| Pushed (n : Z)
| Drained (out : list A).
Arguments Pushed {A} n.
Arguments Drained {A} out.

#[export] Instance ring_obs_eq_dec `{EqDecision A} : EqDecision (ring_obs A).
Proof. solve_decision. Defined.

Section history.
Context {A : Type}
  (push : ring A → list A → res (Z * ring A))
  (drain : ring A → res (list A * ring A)).

(** A sequence of calls on the concrete ring. *)
Fixpoint run_ring (r : ring A) (ops : list (ring_op A)) : res (list (ring_obs A)) :=
  match ops with
  | [] => Ok []
  | Push xs :: ops =>
      '(n, r) ← push r xs;
      obs ← run_ring r ops;
      Ok (Pushed n :: obs)
  | Drain :: ops =>
      '(out, r) ← drain r;
      obs ← run_ring r ops;
      Ok (Drained out :: obs)
  end.

(** The same sequence on a FIFO queue of capacity [cap]: the
    specification. *)
Fixpoint run_queue (cap : Z) (q : list A) (ops : list (ring_op A)) : list (ring_obs A) :=
  match ops with
  | [] => []
  | Push xs :: ops =>
      let n := Z.min (zlen xs) (cap - zlen q) in
      Pushed n :: run_queue cap (q ++ take (Z.to_nat n) xs) ops
  | Drain :: ops => Drained q :: run_queue cap [] ops
  end.

Lemma run_ring_queue `{!Pushes push, !Drains drain} k ops : ∀ r q,
  ring_rep k r q → run_ring r ops = Ok (run_queue (2 ^ k) q ops).
Proof.
  induction ops as [|[xs|] ops IH]; intros r q Hr; [done|..]; cbn [run_ring run_queue].
  - destruct (push_rep k r q xs Hr) as (r' & -> & Hr'). cbn [mbind res_bind].
    by rewrite (IH _ _ Hr'), take_min.
  - destruct (drain_rep k r q Hr) as (r' & -> & Hr'). cbn [mbind res_bind].
    by rewrite (IH _ _ Hr').
Qed.
End history.

(** ** Properties *)

(** C7: a fill or completion ring behaves, over any sequence of
    [enqueue_batch] and [dequeue_all] calls and from any pair of index
    values, exactly as a FIFO queue of capacity [size]: no entry is lost,
    duplicated, reordered or read before it was written, no access leaves
    the mapped slots, and a batch is cut exactly at the free space, also
    when the [u32] indices wrap around. *)
Theorem addr_ring_refines_queue k (r : AddrRing) q ops :
  ring_rep k r q →
  run_ring enqueue_batch dequeue_all r ops = Ok (run_queue (2 ^ k) q ops).
Proof. apply (run_ring_queue _ _ k). Qed.

(** Four slots, the producer two steps before the wrap of its counter. *)
Definition wrapping_ring : AddrRing :=
  Ring (Some (RingMem (2 ^ 32 - 2) (2 ^ 32 - 3) 0 [10; 11; 12; 13])) 4 3.

Lemma wrapping_ring_rep : ring_rep 2 wrapping_ring [11].
Proof.
  split; [done..|]. eexists; split; [done|]. split_and!; try done.
  intros [|i] a Hi; naive_solver.
Defined.

Lemma addr_ring_refines_queue_witness :
  run_ring enqueue_batch dequeue_all wrapping_ring
    [Push [20; 21]; Push [22; 23]; Drain; Push [24]; Drain] =
  Ok [Pushed 2; Pushed 1; Drained [11; 20; 21; 22]; Pushed 1; Drained [24]].
Proof. rewrite (addr_ring_refines_queue 2 _ [11]); [reflexivity|exact wrapping_ring_rep]. Defined.

(** An RX or TX ring refines the same bounded FIFO queue, with
    descriptors as entries and the [produce_tx] / [consume_rx] code. *)
Theorem desc_ring_refines_queue k (r : DescRing) q ops :
  ring_rep k r q →
  run_ring produce_tx consume_rx r ops = Ok (run_queue (2 ^ k) q ops).
Proof. apply (run_ring_queue _ _ k). Qed.

Definition desc_of (a : Z) : XdpDesc := mkXdpDesc a 64 0.

Definition wrapping_desc_ring : DescRing :=
  Ring (Some (RingMem 0 (2 ^ 32 - 1) 0 [desc_of 1; desc_of 2])) 2 1.

Lemma desc_ring_refines_queue_witness :
  run_ring produce_tx consume_rx wrapping_desc_ring
    [Push [desc_of 5; desc_of 6]; Push [desc_of 7]; Drain] =
  Ok [Pushed 1; Pushed 0; Drained [desc_of 2; desc_of 5]].
Proof.
  rewrite (desc_ring_refines_queue 1 _ [desc_of 2]); [reflexivity|].
  split; [done..|]. eexists; split; [done|]. split_and!; try done.
  intros [|i] a Hi; naive_solver.
Defined.

(** Producing into a full TX ring transmits nothing and leaves the ring
    as it was, the memory included: the caller's frame is untouched and may
    be returned to its pool. *)
Theorem produce_tx_full k (r : DescRing) q ds :
  ring_rep k r q → zlen q = 2 ^ k → produce_tx r ds = Ok (0, r).
Proof.
  intros Hr Hfull. unfold produce_tx.
  destruct (rep_deref _ _ _ Hr) as (m & Hm & ->). cbn [mbind res_bind].
  rewrite (free_slots_rep k r q Hr m Hm), Hfull, Z.sub_diag, Z.min_r by lia.
  change (Ok (0, with_mem r m) = Ok (0, r)). by rewrite with_mem_id.
Qed.

Lemma produce_tx_full_witness :
  let r : DescRing := Ring (Some (RingMem 1 (2 ^ 32 - 1) 0 [desc_of 1; desc_of 2])) 2 1 in
  produce_tx r [desc_of 9] = Ok (0, r).
Proof.
  apply (produce_tx_full 1 _ [desc_of 2; desc_of 1]); [|reflexivity].
  split; [done..|]. eexists; split; [done|]. split_and!; try done.
  intros [|[|i]] a Hi; naive_solver.
Defined.

(** Every operation on the stub [zeroed()] leaves behind when
    [extract_tx] moves a ring out dereferences a null pointer: the stubs
    must never be used. *)
Theorem zeroed_undefined xs ds :
  enqueue_batch zeroed xs = Undefined ∧ dequeue_all zeroed = Undefined
  ∧ produce_tx zeroed ds = Undefined ∧ consume_rx zeroed = Undefined
  ∧ needs_wakeup (A:=XdpDesc) zeroed = Undefined ∧ needs_wakeup (A:=Z) zeroed = Undefined.
Proof. done. Qed.
