(* ===== verification/Spsc.v ===== *)
(** * The rings under concurrency ([src/xdp/umem.rs])

    [Ring] treats a ring operation as one step.  Here it is the sequence of
    memory accesses the source makes, and the other owner of the ring, the
    kernel, acts between any two of them.  The program's stores go through
    a buffer that empties in any order except across a release fence
    (stores to one location stay in order), and its loads of slots may, on
    a machine that reorders loads, have been performed earlier unless an
    acquire fence lies in between.  The kernel's side uses the protocol
    AF_XDP documents: it reads entries up to the producer index it sees, or
    writes entries before it moves that index.

    The producer half ([enqueue_batch], [produce_tx]) delivers every
    accepted entry exactly once and in order.  The consumer half
    ([dequeue_all], [consume_rx]) does so where loads stay in order; where
    they do not, its acquire fence stands on the wrong side of the load of
    the producer index, and a stale entry can be returned. *)

From S2P Require Import Prelude Ring.
From Stdlib Require Import Sorted.

(** ** The producer half *)

Section producer.
Context {A : Type} (r : ring A).

(** [always]: [enqueue_batch] writes the index even for an empty batch,
    [produce_tx] does not.  [fenced]: the release fence is there, as in the
    source. *)
Context (always fenced : bool).

(** A store of the program that has not reached memory, or a fence between
    stores. *)
Inductive store : Type :=
| StDesc (idx : Z) (a : A)
| StProd (v : Z)
| Fence.

(** Where the program is inside a call. *)
Inductive ppc : Type :=
| PIdle
| PLoadProd (xs : list A)
| PLoadCons (xs : list A) (prod : Z)
| PStore (prod n : Z) (batch : list A) (i : nat) (rest : list A)
| PUndef.

(** Shared memory, pending stores, program counter; the kernel's own
    consumer index; the entries the calls have accepted and the entries the
    kernel has read, in order. *)
Record pstate : Type := PState {
  p_mem : ring_mem A;
  p_sb : list store;
  p_pc : ppc;
  p_kc : Z;
  p_pushed : list A;
  p_taken : list A;
}.

(** The program sees its own latest store to the producer index. *)
Definition own_producer (m : ring_mem A) (sb : list store) : Z :=
  foldl (λ v e, match e with StProd v' => v' | _ => v end) (producer m) sb.

Definition same_loc (e e' : store) : bool :=
  match e, e' with
  | StDesc i _, StDesc j _ => i =? j
  | StProd _, StProd _ => true
  | _, _ => false
  end.

(** A pending store reaches memory. *)
Definition commit (m : ring_mem A) (e : store) : ring_mem A :=
  match e with
  | StDesc idx a => RingMem (producer m) (consumer m) (flags m) (<[Z.to_nat idx := a]> (descs m))
  | StProd v => set_producer m v
  | Fence => m
  end.

(** The two stores at the end of a call. *)
Definition publish (v : Z) : list store := (if fenced then [Fence] else []) ++ [StProd v].

Inductive pstep : pstate → pstate → Prop :=
| p_call m sb kc pu ta xs :
    pstep (PState m sb PIdle kc pu ta) (PState m sb (PLoadProd xs) kc pu ta)
| p_load_prod m sb kc pu ta xs :
    pstep (PState m sb (PLoadProd xs) kc pu ta)
      (PState m sb (PLoadCons xs (own_producer m sb)) kc pu ta)
| p_load_cons m sb kc pu ta xs prod n :
    n = Z.min (zlen xs) (wrap 32 (size r - wrap 32 (prod - consumer m))) →
    pstep (PState m sb (PLoadCons xs prod) kc pu ta)
      (PState m sb (PStore prod n (take (Z.to_nat n) xs) 0 (take (Z.to_nat n) xs)) kc pu ta)
| p_store m sb kc pu ta prod n b i a rest idx :
    idx = Z.land (wrap 32 (prod + wrap 32 (Z.of_nat i))) (mask r) →
    0 ≤ idx < zlen (descs m) →
    pstep (PState m sb (PStore prod n b i (a :: rest)) kc pu ta)
      (PState m (sb ++ [StDesc idx a]) (PStore prod n b (S i) rest) kc pu ta)
| p_store_out m sb kc pu ta prod n b i a rest idx :
    idx = Z.land (wrap 32 (prod + wrap 32 (Z.of_nat i))) (mask r) →
    ¬ 0 ≤ idx < zlen (descs m) →
    pstep (PState m sb (PStore prod n b i (a :: rest)) kc pu ta) (PState m sb PUndef kc pu ta)
| p_publish m sb kc pu ta prod n b i :
    always || (0 <? n) = true →
    pstep (PState m sb (PStore prod n b i []) kc pu ta)
      (PState m (sb ++ publish (wrap 32 (prod + wrap 32 n))) PIdle kc (pu ++ b) ta)
| p_return m sb kc pu ta prod n b i :
    always || (0 <? n) = false →
    pstep (PState m sb (PStore prod n b i []) kc pu ta) (PState m sb PIdle kc (pu ++ b) ta)
| p_flush m l1 e l2 pc kc pu ta :
    Fence ∉ l1 → e ≠ Fence → Forall (λ e', same_loc e' e = false) l1 →
    pstep (PState m (l1 ++ e :: l2) pc kc pu ta) (PState (commit m e) (l1 ++ l2) pc kc pu ta)
| p_fence m sb pc kc pu ta :
    pstep (PState m (Fence :: sb) pc kc pu ta) (PState m sb pc kc pu ta)
| p_kernel_take m sb pc kc pu ta a :
    kc ≠ producer m → read_desc m (Z.land kc (mask r)) = Ok a →
    pstep (PState m sb pc kc pu ta) (PState m sb pc (wrap 32 (kc + 1)) pu (ta ++ [a]))
| p_kernel_release m sb pc kc pu ta :
    pstep (PState m sb pc kc pu ta) (PState (set_consumer m kc) sb pc kc pu ta).

(** The program idle, nothing pending, the kernel at the consumer index. *)
Definition pinit (m : ring_mem A) : pstate := PState m [] PIdle (consumer m) [] [].
End producer.
Arguments store A : clear implicits.
Arguments ppc A : clear implicits.
Arguments pstate A : clear implicits.
Arguments StDesc {A} idx a.
Arguments StProd {A} v.
Arguments Fence {A}.
Arguments PIdle {A}.
Arguments PLoadProd {A} xs.
Arguments PLoadCons {A} xs prod.
Arguments PStore {A} prod n batch i rest.
Arguments PUndef {A}.
Arguments PState {A}.

(** *** The invariant

    Entries are numbered from the first one in the ring at the start, which
    has number 0 and sits at the free-running index [b].  A pending store
    is read as the entry or index value it stands for. *)

Inductive astore (A : Type) : Type :=
| ADesc (j : Z) (a : A)
| AProd (j : Z)
| AFence.
Arguments ADesc {A} j a.
Arguments AProd {A} j.
Arguments AFence {A}.

Section buffer.
Context {A : Type}.
Implicit Types (l : list (astore A)).

(** The part before the first fence. *)
Fixpoint upto_fence (l : list (astore A)) : list (astore A) :=
  match l with
  | [] | AFence :: _ => []
  | e :: l => e :: upto_fence l
  end.

(** An entry is never overtaken by an index that covers it: between the two
    there is a fence.  Index values only grow. *)
Fixpoint sbok (l : list (astore A)) : Prop :=
  match l with
  | [] => True
  | ADesc j _ :: l => (∀ p, AProd p ∈ upto_fence l → p ≤ j) ∧ sbok l
  | AProd p :: l => (∀ j a, ADesc j a ∈ l → p ≤ j) ∧ (∀ p', AProd p' ∈ l → p ≤ p') ∧ sbok l
  | AFence :: l => sbok l
  end.

Lemma upto_fence_subseteq l e : e ∈ upto_fence l → e ∈ l.
Proof. induction l as [|[] l IH]; cbn; set_solver. Qed.

Lemma upto_fence_remove l1 e l2 x : x ∈ upto_fence (l1 ++ l2) → e ≠ AFence → x ∈ upto_fence (l1 ++ e :: l2).
Proof.
  intros Hx He. induction l1 as [|[] l1 IH]; cbn in *; [destruct e; set_solver|set_solver..].
Qed.

Lemma upto_fence_app l1 l2 e : AFence ∉ l1 → e ∈ upto_fence l2 → e ∈ upto_fence (l1 ++ l2).
Proof. intros Hf He. induction l1 as [|[] l1 IH]; cbn; set_solver. Qed.

Lemma sbok_remove l1 e l2 : e ≠ AFence → sbok (l1 ++ e :: l2) → sbok (l1 ++ l2).
Proof.
  intros He. induction l1 as [|x l1 IH]; [destruct e; cbn; naive_solver|].
  destruct x; cbn [app sbok].
  - intros [H1 H2]. split; [|by apply IH]. intros p Hp. apply H1. by apply upto_fence_remove.
  - intros (H1 & H2 & H3). split_and!; [set_solver..|by apply IH].
  - apply IH.
Qed.

(** No entry an index covers is still pending when the index can leave. *)
Lemma sbok_prod l1 p l2 j a :
  sbok (l1 ++ AProd p :: l2) → AFence ∉ l1 → ADesc j a ∈ l1 ++ l2 → p ≤ j.
Proof.
  intros Hok Hf Hj. induction l1 as [|x l1 IH]; cbn [app] in *.
  - destruct Hok as (H1 & _). by eapply H1.
  - apply elem_of_cons in Hj as [<-|Hj].
    + cbn in Hok. destruct Hok as [Hok _]. apply Hok. apply upto_fence_app; [set_solver|]. cbn. set_solver.
    + apply IH; [|set_solver|done]. destruct x; cbn in Hok; naive_solver.
Qed.

Lemma sbok_prod_grows l1 p l2 p' : sbok (l1 ++ AProd p :: l2) → AProd p' ∈ l2 → p ≤ p'.
Proof.
  induction l1 as [|x l1 IH]; cbn [app sbok]; [naive_solver|]. destruct x; naive_solver.
Qed.

Lemma upto_fence_snoc l e x : x ∈ upto_fence (l ++ [e]) → x ∈ upto_fence l ∨ x = e.
Proof.
  induction l as [|[] l IH]; cbn; [destruct e; set_solver|set_solver..].
Qed.

Lemma sbok_snoc_desc l j a : sbok l → (∀ p, AProd p ∈ l → p ≤ j) → sbok (l ++ [ADesc j a]).
Proof.
  induction l as [|x l IH]; cbn [app sbok]; intros Hok Hp.
  { split; [set_solver|done]. }
  destruct x; cbn [sbok] in *.
  - destruct Hok as [H1 H2]. split; [|apply IH; set_solver].
    intros p [Hq|Hq]%upto_fence_snoc; [by apply H1|done].
  - destruct Hok as (H1 & H2 & H3). split_and!; [|set_solver|apply IH; set_solver].
    intros j' a' [Hj|Hj]%elem_of_app; [by eapply H1|]. apply list_elem_of_singleton in Hj. simplify_eq.
    apply Hp. set_solver.
  - apply IH; set_solver.
Qed.

Lemma upto_fence_fence l l' e : e ∈ upto_fence (l ++ AFence :: l') → e ∈ upto_fence l.
Proof. induction l as [|[] l IH]; cbn; set_solver. Qed.

Lemma sbok_snoc_publish l n : sbok l → (∀ p, AProd p ∈ l → p ≤ n) → sbok (l ++ [AFence; AProd n]).
Proof.
  induction l as [|x l IH]; cbn [app]; intros Hok Hp.
  { cbn. split_and!; [set_solver..|done]. }
  destruct x; cbn [sbok] in *.
  - destruct Hok as [H1 H2]. split; [|apply IH; set_solver].
    intros p Hq%upto_fence_fence. by apply H1.
  - destruct Hok as (H1 & H2 & H3). split_and!; [set_solver| |apply IH; set_solver].
    intros p' [Hj|Hj]%elem_of_app; [by apply H2|].
    apply elem_of_cons in Hj as [?|Hj]; [done|]. apply list_elem_of_singleton in Hj as [= ->].
    apply Hp. set_solver.
  - apply IH; set_solver.
Qed.
End buffer.

(** Free-running indices less than [2^32] apart. *)
Lemma wrap_inj b x y : x ≤ y < x + 2 ^ 32 → wrap 32 (b + x) = wrap 32 (b + y) → x = y.
Proof.
  intros H E. assert (wrap 32 (y - x) = 0) as E0.
  { replace (y - x) with (b + y - (b + x)) by lia. rewrite <- wrap_sub_l, <- E, wrap_sub_l.
    by rewrite Z.sub_diag. }
  rewrite wrap_small in E0 by (split; lia). lia.
Qed.

Lemma wrap_diff b x y : 0 ≤ y - x < 2 ^ 32 → wrap 32 (wrap 32 (b + y) - wrap 32 (b + x)) = y - x.
Proof.
  intros H. rewrite wrap_sub_l, wrap_sub_r.
  replace (b + y - (b + x)) with (y - x) by lia. by apply wrap_small.
Qed.

Section producer_inv.
Context {A : Type} (r : ring A) (k b : Z) (q0 : list A).
Context (Hk : 0 ≤ k < 32) (Hsize : size r = 2 ^ k) (Hmask : mask r = 2 ^ k - 1).

(** The slot of entry [j], and a pending store as it appears in memory. *)
Definition slot (j : Z) : Z := (b + j) mod 2 ^ k.
Definition conc (e : astore A) : store A :=
  match e with
  | ADesc j a => StDesc (slot j) a
  | AProd j => StProd (wrap 32 (b + j))
  | AFence => Fence
  end.

(** The entries accepted so far, and those whose stores have been issued. *)
Definition accepted (s : pstate A) : list A := q0 ++ p_pushed s.
Definition issued (s : pstate A) : list A :=
  accepted s ++ match p_pc s with PStore _ _ b i _ => take i b | _ => [] end.

(** The program counter is consistent with the indices: [C] is the consumer
    index in memory. *)
Definition pc_ok (C : Z) (s : pstate A) : Prop :=
  let N := zlen (accepted s) in
  match p_pc s with
  | PUndef => False
  | PLoadCons _ prod => prod = wrap 32 (b + N)
  | PStore prod n batch i rest =>
      prod = wrap 32 (b + N) ∧ n = zlen batch ∧ rest = drop i batch ∧ (i ≤ length batch)%nat
      ∧ N + n ≤ C + 2 ^ k
  | _ => True
  end.

(** [C], [P]: the indices in memory as entry numbers; [sb]: the pending
    stores. *)
Record pinv (s : pstate A) (C P : Z) (sb : list (astore A)) : Prop := {
  inv_sb : p_sb s = conc <$> sb;
  inv_cons : consumer (p_mem s) = wrap 32 (b + C);
  inv_prod : producer (p_mem s) = wrap 32 (b + P);
  inv_own : own_producer (p_mem s) (p_sb s) = wrap 32 (b + zlen (accepted s));
  inv_kc : p_kc s = wrap 32 (b + zlen (p_taken s));
  inv_range : 0 ≤ C ≤ zlen (p_taken s) ∧ zlen (p_taken s) ≤ P ≤ zlen (accepted s)
    ∧ zlen (accepted s) ≤ C + 2 ^ k;
  inv_taken : p_taken s `prefix_of` accepted s;
  inv_pc : pc_ok C s;
  inv_len : zlen (descs (p_mem s)) = 2 ^ k;
  inv_ok : sbok sb;
  inv_desc : ∀ j a, ADesc j a ∈ sb → P ≤ j ∧ issued s !! Z.to_nat j = Some a;
  inv_idx : ∀ j, AProd j ∈ sb → P ≤ j ≤ zlen (accepted s);
  inv_cover : ∀ j a, zlen (p_taken s) ≤ j → issued s !! Z.to_nat j = Some a →
    descs (p_mem s) !! Z.to_nat (slot j) = Some a ∨ ADesc j a ∈ sb;
}.

Lemma pow_small : 0 < 2 ^ k ∧ 2 ^ k < 2 ^ 32.
Proof. split; [lia|]. apply Z.pow_lt_mono_r; lia. Qed.

Lemma slot_of_index j : Z.land (wrap 32 (b + j)) (mask r) = slot j.
Proof. rewrite Hmask, land_mask by lia. by rewrite wrap_mod by lia. Qed.

Lemma slot_ne i j : i < j < i + 2 ^ k → slot i ≠ slot j.
Proof. intros H. apply (slot_inj k Hk); lia. Qed.

Lemma slot_bound j : 0 ≤ slot j < 2 ^ k.
Proof. apply slot_range. lia. Qed.

Lemma slot_to_nat_ne i j : i < j + 2 ^ k → j < i + 2 ^ k → i ≠ j → Z.to_nat (slot i) ≠ Z.to_nat (slot j).
Proof.
  intros H1 H2 Hne E. pose proof (slot_bound i). pose proof (slot_bound j).
  assert (slot i = slot j) as E' by lia. destruct (decide (i < j)).
  - by apply (slot_ne i j ltac:(lia)).
  - by apply (slot_ne j i ltac:(lia)).
Qed.

(** *** Every step keeps the invariant *)

(** A step that only moves the program counter. *)
Lemma pinv_pc s s' C P sb :
  pinv s C P sb → p_mem s' = p_mem s → p_sb s' = p_sb s → p_kc s' = p_kc s →
  p_pushed s' = p_pushed s → p_taken s' = p_taken s → issued s' = issued s →
  pc_ok C s' → pinv s' C P sb.
Proof.
  intros [H1 H2 H3 H4 H5 H6 H7 H8 H9 H10 H11 H12 H13] Em Es Ek Ep Et Ei Hpc.
  assert (accepted s' = accepted s) as Ea by (unfold accepted; by rewrite Ep).
  split; rewrite ?Em, ?Es, ?Ek, ?Et, ?Ea; try done; by setoid_rewrite Ei.
Qed.

Lemma pinv_load_cons m sb0 kc pu ta xs prod n C P sb :
  n = Z.min (zlen xs) (wrap 32 (size r - wrap 32 (prod - consumer m))) →
  pinv (PState m sb0 (PLoadCons xs prod) kc pu ta) C P sb →
  pinv (PState m sb0 (PStore prod n (take (Z.to_nat n) xs) 0 (take (Z.to_nat n) xs)) kc pu ta) C P sb.
Proof.
  intros -> Hi. eapply pinv_pc; [exact Hi|done..|]. pose proof pow_small as [Hp1 Hp2].
  destruct Hi as [_ Hc _ _ _ (Hr1 & Hr2 & Hr3) _ Hpc _ _ _ _ _].
  unfold pc_ok, accepted in *. cbn in *. rewrite Hpc, Hc, Hsize. rewrite wrap_diff by lia.
  rewrite (wrap_small 32 (2 ^ k - (zlen (q0 ++ pu) - C))) by (split; lia).
  split_and!; [done|rewrite length_take; lia|done|lia|lia].
Qed.

Lemma pinv_store m sb0 kc pu ta prod n bt i a rest idx C P sb :
  idx = Z.land (wrap 32 (prod + wrap 32 (Z.of_nat i))) (mask r) →
  pinv (PState m sb0 (PStore prod n bt i (a :: rest)) kc pu ta) C P sb →
  0 ≤ idx < zlen (descs m)
  ∧ pinv (PState m (sb0 ++ [StDesc idx a]) (PStore prod n bt (S i) rest) kc pu ta) C P
      (sb ++ [ADesc (zlen (q0 ++ pu) + Z.of_nat i) a]).
Proof.
  intros Hidx [H1 H2 H3 H4 H5 H6 H7 H8 H9 H10 H11 H12 H13]. cbn in *.
  destruct H8 as (Hp & Hn & Hr & Hi & Hb). set (N := zlen (q0 ++ pu)) in *.
  assert (idx = slot (N + Z.of_nat i)) as ->.
  { rewrite Hidx, Hmask, (slot_index k Hk), Hp, (slot_wrap k Hk). unfold slot. by rewrite Z.add_assoc. }
  split; [rewrite H9; apply slot_bound|].
  assert (bt !! i = Some a) as Ha.
  { rewrite <- (take_drop i bt), lookup_app_r, <- Hr by (rewrite length_take; lia).
    rewrite length_take. replace (i - i `min` length bt)%nat with 0%nat by lia. done. }
  set (s := PState m sb0 (PStore prod n bt i (a :: rest)) kc pu ta) in *.
  assert (length (issued s) = Z.to_nat (N + Z.of_nat i)) as HL.
  { unfold issued. cbn. rewrite length_app, length_take. unfold accepted. cbn. lia. }
  assert (issued (PState m (sb0 ++ [StDesc (slot (N + Z.of_nat i)) a])
      (PStore prod n bt (S i) rest) kc pu ta) = issued s ++ [a]) as EI.
  { unfold issued, accepted. cbn. rewrite (take_S_r _ _ a) by done. by rewrite !app_assoc. }
  split; cbn [p_mem p_sb p_kc p_taken p_pushed]; try done; rewrite ?EI.
  - by rewrite H1, fmap_app.
  - unfold own_producer in *. rewrite foldl_app. done.
  - cbn. split_and!; try done.
    + symmetry. by rewrite <- Nat.add_1_r, <- drop_drop, <- Hr.
    + apply lookup_lt_Some in Ha. lia.
  - apply sbok_snoc_desc; [done|]. intros p Hq. apply H12 in Hq. unfold accepted in Hq. cbn in Hq. lia.
  - intros j x [Hj|Hj]%elem_of_app.
    + apply H11 in Hj as [Hj1 Hj2]. split; [done|]. by apply lookup_app_l_Some.
    + apply list_elem_of_singleton in Hj as [= -> ->]. split; [unfold accepted in H6; cbn in H6; lia|].
      rewrite <- HL, lookup_app_r, Nat.sub_diag; done.
  - intros j Hj%elem_of_app. destruct Hj as [Hj|Hj]; [by apply H12|].
    by apply list_elem_of_singleton in Hj.
  - intros j x Hj Hx. apply lookup_app_Some in Hx as [Hx|[Hge Hx]].
    + destruct (H13 j x Hj Hx); [by left|right; set_solver].
    + right. apply list_lookup_singleton_Some in Hx as [Hx ->].
      assert (j = N + Z.of_nat i) as -> by lia. set_solver.
Qed.
Lemma pinv_publish m sb0 kc pu ta prod n bt i C P sb :
  pinv (PState m sb0 (PStore prod n bt i []) kc pu ta) C P sb →
  pinv (PState m (sb0 ++ publish true (wrap 32 (prod + wrap 32 n))) PIdle kc (pu ++ bt) ta) C P
    (sb ++ [AFence; AProd (zlen (q0 ++ pu ++ bt))]).
Proof.
  intros [H1 H2 H3 H4 H5 H6 H7 H8 H9 H10 H11 H12 H13]. cbn in *.
  destruct H8 as (Hp & Hn & Hr & Hi & Hb).
  assert (take i bt = bt) as Et by (rewrite <- (take_drop i bt) at 2; by rewrite <- Hr, app_nil_r).
  assert (wrap 32 (prod + wrap 32 n) = wrap 32 (b + zlen (q0 ++ pu ++ bt))) as Ew.
  { rewrite wrap_add_r, Hp, wrap_add_l, Hn. f_equal. unfold accepted. cbn. rewrite !length_app. lia. }
  unfold issued, accepted in *. cbn in *. rewrite Et in *. rewrite <- !app_assoc in *.
  split; cbn [p_mem p_sb p_kc p_taken p_pushed p_pc]; try done; unfold issued, accepted; cbn; rewrite ?app_nil_r.
  - rewrite H1, fmap_app. cbn. by rewrite Ew.
  - unfold own_producer. rewrite foldl_app. cbn. exact Ew.
  - rewrite !length_app in *. lia.
  - rewrite app_assoc. by apply prefix_app_r.
  - apply sbok_snoc_publish; [done|]. intros p Hq. apply H12 in Hq. rewrite !length_app in *. lia.
  - intros j x [Hj|Hj]%elem_of_app; [by apply H11|]. set_solver.
  - intros j [Hj|Hj]%elem_of_app.
    + apply H12 in Hj. rewrite !length_app in *. lia.
    + apply elem_of_cons in Hj as [?|Hj]; [done|]. apply list_elem_of_singleton in Hj as [= ->].
      rewrite !length_app in *. lia.
  - intros j x Hj Hx. destruct (H13 j x Hj Hx); [by left|right; set_solver].
Qed.

Lemma pinv_return m sb0 kc pu ta prod n bt i C P sb :
  0 <? n = false → pinv (PState m sb0 (PStore prod n bt i []) kc pu ta) C P sb →
  pinv (PState m sb0 PIdle kc (pu ++ bt) ta) C P sb.
Proof.
  intros Hz Hi. pose proof (inv_pc _ _ _ _ Hi) as (_ & Hn & _). cbn in Hn.
  destruct bt; [|cbn in Hn; lia]. rewrite app_nil_r.
  eapply pinv_pc; [exact Hi|done..| |done]. unfold issued. cbn. by rewrite take_nil.
Qed.

(** Removing pending stores other than indices keeps the program's view. *)
Lemma own_producer_desc m m' l1 l2 j (a : A) :
  producer m' = producer m →
  own_producer m' (l1 ++ l2) = own_producer m (l1 ++ StDesc j a :: l2).
Proof. intros E. unfold own_producer. by rewrite !foldl_app, E. Qed.

Lemma own_producer_prod (m : ring_mem A) l1 l2 v :
  Forall (λ e', same_loc e' (StProd v) = false) l1 →
  own_producer (set_producer m v) (l1 ++ l2) = own_producer m (l1 ++ StProd v :: l2).
Proof.
  intros H. unfold own_producer. rewrite !foldl_app. cbn. f_equal.
  generalize (producer m). intros w. clear -H. revert v H. induction l1 as [|e l1 IH]; [done|].
  intros v [He Hl]%Forall_cons. destruct e; cbn in *; [by apply IH|done|by apply IH].
Qed.

Lemma pinv_flush_desc m l1 j a l2 pc kc pu ta C P :
  pinv (PState m (conc <$> l1 ++ ADesc j a :: l2) pc kc pu ta) C P (l1 ++ ADesc j a :: l2) →
  pinv (PState (commit m (conc (ADesc j a))) (conc <$> l1 ++ l2) pc kc pu ta) C P (l1 ++ l2).
Proof.
  intros Hi. assert (zlen (issued (PState m [] pc kc pu ta)) ≤ C + 2 ^ k) as HM.
  { destruct Hi as [_ _ _ _ _ (_ & _ & H6) _ H8 _ _ _ _ _]. unfold issued, accepted, pc_ok in *.
    cbn in *. destruct pc; rewrite ?app_nil_r; try done. rewrite length_app, length_take.
    unfold accepted in H8. cbn in H8. lia. }
  destruct Hi as [_ H2 H3 H4 H5 H6 H7 H8 H9 H10 H11 H12 H13].
  unfold issued, accepted in *. cbn in *.
  destruct (H11 j a) as [Hj1 Hj2]; [set_solver|].
  split; try done; unfold issued, accepted; cbn.
  - rewrite <- H4, !fmap_app. by apply own_producer_desc.
  - by rewrite length_insert.
  - eapply sbok_remove; [|exact H10]. done.
  - intros j' a' Hin. apply H11. set_solver.
  - intros p Hin. apply H12. set_solver.
  - intros j' a' Hj' Ha'. destruct (decide (j' = j)) as [->|Hne].
    { left. rewrite Hj2 in Ha'. simplify_eq.
      apply list_lookup_insert_eq. pose proof (slot_bound j). lia. }
    rewrite list_lookup_insert_ne.
    { destruct (H13 j' a' Hj' Ha') as [?|Hin]; [by left|right].
      apply elem_of_app in Hin as [?|[?|?]%elem_of_cons]; set_solver. }
    apply lookup_lt_Some in Hj2, Ha'.
    apply slot_to_nat_ne; lia.
Qed.

Lemma pinv_flush_prod m l1 p l2 pc kc pu ta C P :
  AFence ∉ l1 → Forall (λ e, same_loc (conc e) (conc (AProd p)) = false) l1 →
  pinv (PState m (conc <$> l1 ++ AProd p :: l2) pc kc pu ta) C P (l1 ++ AProd p :: l2) →
  pinv (PState (commit m (conc (AProd p))) (conc <$> l1 ++ l2) pc kc pu ta) C p (l1 ++ l2).
Proof.
  intros Hf Hl [_ H2 H3 H4 H5 H6 H7 H8 H9 H10 H11 H12 H13]. unfold issued, accepted in *. cbn in *.
  assert (P ≤ p ≤ zlen (q0 ++ pu)) as Hp by (apply H12; set_solver).
  split; try done; unfold issued, accepted; cbn.
  - rewrite <- H4, !fmap_app. cbn [fmap list_fmap conc]. apply own_producer_prod.
    apply Forall_fmap. exact Hl.
  - lia.
  - eapply sbok_remove; [|exact H10]. done.
  - intros j a Hin. split; [by eapply sbok_prod|]. apply H11. set_solver.
  - intros p' Hin. split; [|apply H12; set_solver].
    apply elem_of_app in Hin as [Hin|Hin]; [|by eapply sbok_prod_grows].
    rewrite Forall_forall in Hl. by apply Hl in Hin.
  - intros j a Hj Ha. destruct (H13 j a Hj Ha) as [?|Hin]; [by left|]. right.
    apply elem_of_app in Hin as [?|[?|?]%elem_of_cons]; set_solver.
Qed.
Lemma pinv_take m sb0 pc kc pu ta a C P sb :
  kc ≠ producer m → read_desc m (Z.land kc (mask r)) = Ok a →
  pinv (PState m sb0 pc kc pu ta) C P sb →
  pinv (PState m sb0 pc (wrap 32 (kc + 1)) pu (ta ++ [a])) C P sb.
Proof.
  intros Hne Hrd [H1 H2 H3 H4 H5 H6 H7 H8 H9 H10 H11 H12 H13].
  unfold issued, accepted in *. cbn in *.
  assert (zlen ta < P) as HT.
  { destruct (decide (zlen ta = P)) as [E|]; [|lia]. by rewrite H5, H3, E in Hne. }
  destruct H7 as [rest Er]. destruct rest as [|x rest].
  { rewrite app_nil_r in Er. rewrite Er in H6. lia. }
  assert (x = a) as ->.
  { rewrite H5, slot_of_index in Hrd. unfold read_desc in Hrd.
    rewrite decide_True in Hrd by apply slot_bound.
    destruct (H13 (zlen ta) x) as [E|Hin]; [lia| | |].
    - rewrite Er, Nat2Z.id. apply lookup_app_l_Some. rewrite lookup_app_r, Nat.sub_diag by lia. done.
    - rewrite E in Hrd. by simplify_eq.
    - apply H11 in Hin. lia. }
  split; try done; unfold issued, accepted; cbn; rewrite ?length_app in *; cbn [length].
  - rewrite H5, wrap_add_l. f_equal. lia.
  - lia.
  - exists rest. by rewrite <- app_assoc.
  - intros j y Hj Hy. apply H13; [lia|done].
Qed.

Lemma pinv_release m sb0 pc kc pu ta C P sb :
  pinv (PState m sb0 pc kc pu ta) C P sb →
  pinv (PState (set_consumer m kc) sb0 pc kc pu ta) (zlen ta) P sb.
Proof.
  intros [H1 H2 H3 H4 H5 H6 H7 H8 H9 H10 H11 H12 H13].
  unfold issued, accepted, pc_ok in *. cbn in *.
  split; try done; unfold issued, accepted, pc_ok; cbn; [lia|].
  destruct pc; try done. unfold accepted in *. cbn in *. naive_solver lia.
Qed.

(** One step of the program, of its store buffer or of the kernel. *)
Lemma pinv_step always s s' C P sb :
  pstep r always true s s' → pinv s C P sb → ∃ C' P' sb', pinv s' C' P' sb'.
Proof.
  intros Hst Hi. destruct Hst as [m sb0 kc pu ta xs|m sb0 kc pu ta xs|m sb0 kc pu ta xs prod n Hn
    |m sb0 kc pu ta prod n bt i a rest idx Hidx Hin|m sb0 kc pu ta prod n bt i a rest idx Hidx Hout
    |m sb0 kc pu ta prod n bt i Hpub|m sb0 kc pu ta prod n bt i Hpub|m l1 e l2 pc kc pu ta Hf He Hl
    |m sb0 pc kc pu ta|m sb0 pc kc pu ta a Hne Hrd|m sb0 pc kc pu ta].
  - do 3 eexists. by eapply pinv_pc.
  - do 3 eexists. eapply pinv_pc; [exact Hi|done..|]. exact (inv_own _ _ _ _ Hi).
  - do 3 eexists. by eapply pinv_load_cons.
  - edestruct pinv_store as [_ Hi']; [exact Hidx|exact Hi|]. by do 3 eexists.
  - by edestruct pinv_store as [Hin _]; [exact Hidx|exact Hi|].
  - do 3 eexists. by eapply pinv_publish.
  - apply orb_false_iff in Hpub as [_ Hpub]. do 3 eexists. by eapply pinv_return.
  - pose proof (inv_sb _ _ _ _ Hi) as E. cbn in E. symmetry in E.
    apply fmap_app_inv in E as (a1 & a2' & -> & E & ->).
    symmetry in E. apply fmap_cons_inv in E as (x & a2 & -> & -> & ->).
    rewrite <- fmap_cons, <- fmap_app in *. destruct x as [j a|p|]; [..|done].
    + do 3 eexists. by eapply pinv_flush_desc.
    + do 3 eexists. eapply pinv_flush_prod; [|by apply Forall_fmap in Hl|exact Hi].
      intros Hin. apply Hf. apply list_elem_of_fmap. by exists AFence.
  - pose proof (inv_sb _ _ _ _ Hi) as E. cbn in E.
    destruct sb as [|[j a|p|] sb]; try done. injection E as ->.
    exists C, P, sb. destruct Hi as [H1 H2 H3 H4 H5 H6 H7 H8 H9 H10 H11 H12 H13].
    split; try done; cbn in *.
    + intros j a Hin. apply H11. set_solver.
    + intros j Hin. apply H12. set_solver.
    + intros j a Hj Ha. destruct (H13 j a Hj Ha) as [?|Hin]; [by left|right; set_solver].
  - do 3 eexists. by eapply pinv_take.
  - do 3 eexists. by eapply pinv_release.
Qed.
End producer_inv.

Lemma pinv_init {A} k (r : ring A) m q0 :
  ring_rep k r q0 → mem r = Some m → pinv k (consumer m) q0 (pinit m) 0 (zlen q0) [].
Proof.
  intros [Hk Hs Hm Hb (m' & Em & Hl & Hp & Hc & Hw & Hq)] E.
  rewrite E in Em. injection Em as <-.
  assert (wrap 32 (consumer m + zlen q0) = producer m) as Hpr.
  { rewrite <- Hw, wrap_add_r. replace (consumer m + (producer m - consumer m)) with (producer m) by lia.
    by apply wrap_small. }
  split; unfold issued, accepted; cbn; rewrite ?app_nil_r, ?Z.add_0_r; try done.
  - symmetry. by apply wrap_small.
  - symmetry. by apply wrap_small.
  - lia.
  - apply prefix_nil.
  - set_solver.
  - set_solver.
  - intros j a Hj Ha. left. unfold slot. rewrite <- (Hq _ _ Ha). rewrite Z2Nat.id by lia. done.
Qed.

Lemma pinv_run {A} k (r : ring A) m q0 always s :
  ring_rep k r q0 → mem r = Some m → rtc (pstep r always true) (pinit m) s →
  ∃ C P sb, pinv k (consumer m) q0 s C P sb.
Proof.
  intros Hr Hm Hst. pose proof (pinv_init k r m q0 Hr Hm) as Hi.
  destruct Hr as [Hk Hs Hma _ _]. revert Hi. generalize 0, (zlen q0), (@nil (astore A)).
  induction Hst as [s|s s' s'' H1 _ IH]; intros C P sb Hi; [by do 3 eexists|].
  destruct (pinv_step r k _ q0 Hk Hs Hma always s s' C P sb H1 Hi) as (C' & P' & sb' & Hi').
  by eapply IH.
Qed.

(** *** The accesses of a call, made alone, are the operation of [Ring] *)

Section alone.
Context {A : Type} (r : ring A) (always : bool).

Lemma store_batch_alone prod n b l : ∀ i m m' kc pu ta,
  write_batch (mask r) prod i l m = Ok m' →
  ∃ i', rtc (pstep r always true) (PState m [] (PStore prod n b i l) kc pu ta)
    (PState m' [] (PStore prod n b i' []) kc pu ta).
Proof.
  induction l as [|a l IH]; intros i m m' kc pu ta H; cbn in H.
  { simplify_eq. eexists. apply rtc_refl. }
  apply res_bind_inv in H as (m1 & Hw & H). unfold write_desc in Hw. case_decide as Hd; [|done].
  simplify_eq. destruct (IH (S i) _ m' kc pu ta H) as [i' Hrun]. exists i'.
  eapply rtc_l; [by apply p_store|]. cbn [app].
  eapply rtc_l; [|exact Hrun].
  apply (p_flush r always true m [] (StDesc _ a) [] _ kc pu ta); [set_solver|done|constructor].
Qed.

Lemma call_alone m m' n xs kc pu ta :
  n = Z.min (zlen xs) (free_slots r m) →
  write_batch (mask r) (producer m) 0 (take (Z.to_nat n) xs) m = Ok m' →
  rtc (pstep r always true) (PState m [] PIdle kc pu ta)
    (PState (if always || (0 <? n) then set_producer m' (wrap 32 (producer m + wrap 32 n)) else m')
       [] PIdle kc (pu ++ take (Z.to_nat n) xs) ta).
Proof.
  intros Hn Hw. eapply rtc_l; [apply (p_call r always true _ _ _ _ _ xs)|].
  eapply rtc_l; [apply p_load_prod|]. cbn [own_producer foldl].
  eapply rtc_l; [apply p_load_cons; exact Hn|].
  destruct (store_batch_alone (producer m) n (take (Z.to_nat n) xs) _ _ _ _ kc pu ta Hw) as [i Hrun].
  etrans; [exact Hrun|]. destruct (always || (0 <? n)) eqn:E.
  - eapply rtc_l; [by apply p_publish|]. cbn [app publish].
    eapply rtc_l; [apply p_fence|].
    eapply rtc_l; [|apply rtc_refl].
    apply (p_flush r always true m' [] (StProd _) [] PIdle); [set_solver|done|constructor].
  - eapply rtc_l; [by apply p_return|]. apply rtc_refl.
Qed.
End alone.

(** ** The consumer half *)

Section consumer.
Context {A : Type} (r : ring A).

(** [weak]: the machine may perform loads early.  [after]: an acquire fence
    stands between the load of the producer index and the loads of the
    slots; the source has one before both, and none there. *)
Context (weak after : bool).

Inductive cpc : Type :=
| CIdle
| CLoadProd
| CLoadCons (prod : Z)
| CRead (cons available : Z) (i : nat) (out : list A)
| CUndef.

(** Shared memory, pending stores to the consumer index, slots loaded
    early; the kernel's own producer index, the entries it has written, and
    the entries the calls have returned. *)
Record cstate : Type := CState {
  c_mem : ring_mem A;
  c_sb : list Z;
  c_early : list (Z * A);
  c_pc : cpc;
  c_kp : Z;
  c_log : list A;
  c_out : list A;
}.

Definition own_consumer (m : ring_mem A) (sb : list Z) : Z := default (consumer m) (last sb).

(** The slot index of iteration [i]. *)
Definition read_index (cons : Z) (i : nat) : Z :=
  Z.land (wrap 32 (cons + wrap 32 (Z.of_nat i))) (mask r).

Inductive cstep : cstate → cstate → Prop :=
| c_call m sb es kp lg ot :
    cstep (CState m sb es CIdle kp lg ot) (CState m sb [] CLoadProd kp lg ot)
| c_load_prod m sb es kp lg ot :
    cstep (CState m sb es CLoadProd kp lg ot)
      (CState m sb (if after then [] else es) (CLoadCons (producer m)) kp lg ot)
| c_load_cons m sb es kp lg ot prod :
    cstep (CState m sb es (CLoadCons prod) kp lg ot)
      (CState m sb es (CRead (own_consumer m sb) (wrap 32 (prod - own_consumer m sb)) 0 []) kp lg ot)
| c_read m sb es kp lg ot cons av i out a :
    Z.of_nat i < av → read_desc m (read_index cons i) = Ok a →
    cstep (CState m sb es (CRead cons av i out) kp lg ot)
      (CState m sb es (CRead cons av (S i) (out ++ [a])) kp lg ot)
| c_read_early m sb es kp lg ot cons av i out a :
    Z.of_nat i < av → (read_index cons i, a) ∈ es →
    cstep (CState m sb es (CRead cons av i out) kp lg ot)
      (CState m sb es (CRead cons av (S i) (out ++ [a])) kp lg ot)
| c_read_out m sb es kp lg ot cons av i out :
    Z.of_nat i < av → read_desc m (read_index cons i) = Undefined →
    cstep (CState m sb es (CRead cons av i out) kp lg ot) (CState m sb es CUndef kp lg ot)
| c_finish m sb es kp lg ot cons av i out :
    ¬ Z.of_nat i < av →
    cstep (CState m sb es (CRead cons av i out) kp lg ot)
      (CState m (if 0 <? av then sb ++ [wrap 32 (cons + wrap 32 av)] else sb) es CIdle kp lg (ot ++ out))
| c_flush m v sb es pc kp lg ot :
    cstep (CState m (v :: sb) es pc kp lg ot) (CState (set_consumer m v) sb es pc kp lg ot)
| c_load_early m sb es pc kp lg ot idx a :
    weak = true → read_desc m idx = Ok a →
    cstep (CState m sb es pc kp lg ot) (CState m sb ((idx, a) :: es) pc kp lg ot)
| c_kernel_write m m' sb es pc kp lg ot a :
    wrap 32 (kp - consumer m) < size r → write_desc m (Z.land kp (mask r)) a = Ok m' →
    cstep (CState m sb es pc kp lg ot) (CState m' sb es pc (wrap 32 (kp + 1)) (lg ++ [a]) ot)
| c_kernel_publish m sb es pc kp lg ot :
    cstep (CState m sb es pc kp lg ot) (CState (set_producer m kp) sb es pc kp lg ot).

Definition cinit (m : ring_mem A) : cstate := CState m [] [] CIdle (producer m) [] [].
End consumer.
Arguments cpc A : clear implicits.
Arguments cstate A : clear implicits.
Arguments CIdle {A}.
Arguments CLoadProd {A}.
Arguments CLoadCons {A} prod.
Arguments CRead {A} cons available i out.
Arguments CUndef {A}.
Arguments CState {A}.

Lemma sorted_last C sb : StronglySorted Z.le (C :: sb) → C ≤ default C (last sb).
Proof.
  revert C. induction sb as [|c sb IH]; intros C Hs; [done|].
  apply StronglySorted_inv in Hs as [Hs Hf]. apply Forall_cons in Hf as [Hc _].
  specialize (IH c Hs). rewrite last_cons. destruct (last sb); cbn in *; lia.
Qed.

Lemma sorted_snoc C sb R : StronglySorted Z.le (C :: sb) → default C (last sb) ≤ R →
  StronglySorted Z.le (C :: sb ++ [R]).
Proof.
  revert C. induction sb as [|c sb IH]; intros C Hs HR.
  - cbn in *. repeat constructor; lia.
  - apply StronglySorted_inv in Hs as [Hs Hf]. rewrite last_cons in HR.
    assert (default c (last sb) ≤ R) as HR' by (by destruct (last sb)).
    specialize (IH c Hs HR'). cbn [app]. constructor; [done|].
    apply Forall_cons in Hf as [Hc Hf]. constructor; [done|]. apply Forall_app. split; [done|].
    constructor; [|constructor]. pose proof (sorted_last c sb Hs). lia.
Qed.

Section consumer_inv.
Context {A : Type} (r : ring A) (k b : Z) (q0 : list A) (weak after : bool).
Context (Hk : 0 ≤ k < 32) (Hsize : size r = 2 ^ k) (Hmask : mask r = 2 ^ k - 1).
Context (Hmode : weak = false ∨ after = true).

(** The entries the kernel has written. *)
Definition written (s : cstate A) : list A := q0 ++ c_log s.

(** What was loaded early from the slots of entries [lo .. hi - 1] is the
    entries themselves. *)
Definition early_ok (s : cstate A) (lo hi : Z) : Prop :=
  ∀ idx a j, (idx, a) ∈ c_early s → lo ≤ j < hi → slot k b j = idx → written s !! Z.to_nat j = Some a.

Definition cpc_ok (P : Z) (s : cstate A) : Prop :=
  let R := zlen (c_out s) in
  match c_pc s with
  | CUndef => False
  | CLoadCons prod => ∃ p, prod = wrap 32 (b + p) ∧ R ≤ p ≤ P ∧ early_ok s R p
  | CRead cn av i out =>
      cn = wrap 32 (b + R) ∧ 0 ≤ av ∧ R + av ≤ P ∧ Z.of_nat i ≤ av ∧ length out = i
      ∧ c_out s ++ out `prefix_of` written s ∧ early_ok s R (R + av)
  | _ => True
  end.

(** [C], [P]: the indices in memory; [sb]: the pending index stores, as
    entry numbers. *)
Record cinv (s : cstate A) (C P : Z) (sb : list Z) : Prop := {
  ci_sb : c_sb s = (λ j, wrap 32 (b + j)) <$> sb;
  ci_cons : consumer (c_mem s) = wrap 32 (b + C);
  ci_prod : producer (c_mem s) = wrap 32 (b + P);
  ci_own : default C (last sb) = zlen (c_out s);
  ci_sorted : StronglySorted Z.le (C :: sb);
  ci_kp : c_kp s = wrap 32 (b + zlen (written s));
  ci_range : 0 ≤ C ∧ zlen (c_out s) ≤ P ≤ zlen (written s) ∧ zlen (written s) ≤ C + 2 ^ k;
  ci_out : c_out s `prefix_of` written s;
  ci_pc : cpc_ok P s;
  ci_early : weak = false → c_early s = [];
  ci_len : zlen (descs (c_mem s)) = 2 ^ k;
  ci_slots : ∀ j a, C ≤ j → written s !! Z.to_nat j = Some a →
    descs (c_mem s) !! Z.to_nat (slot k b j) = Some a;
}.

Lemma read_index_slot R i : read_index r (wrap 32 (b + R)) i = slot k b (R + Z.of_nat i).
Proof.
  unfold read_index, slot. rewrite Hmask, (slot_index k Hk), (slot_wrap k Hk). by rewrite Z.add_assoc.
Qed.

(** The program counter of a state that differs only in pending stores and
    memory, with more entries written and a larger producer index. *)
Lemma cpc_ok_mono s s' P P' :
  c_pc s' = c_pc s → c_out s' = c_out s → c_early s' = c_early s → P ≤ P' →
  written s `prefix_of` written s' → cpc_ok P s → cpc_ok P' s'.
Proof.
  intros E1 E2 E3 HP [ex Hw]. assert (∀ lo hi, early_ok s lo hi → early_ok s' lo hi) as He.
  { intros lo hi H idx a j Hin Hj Hs. rewrite E3 in Hin. rewrite Hw. apply lookup_app_l_Some.
    by eapply H. }
  unfold cpc_ok. rewrite E1, E2. destruct (c_pc s) as [| |prod|cn av i out|]; try done.
  - intros (p & ? & ? & ?). exists p. split_and!; [done|lia|lia|by apply He].
  - intros (? & ? & ? & ? & ? & ? & ?). split_and!; try done; [lia| |by apply He].
    rewrite Hw. by apply prefix_app_r.
Qed.
(** The own consumer index is the number of entries returned. *)
Lemma cinv_own s C P sb : cinv s C P sb →
  own_consumer (c_mem s) (c_sb s) = wrap 32 (b + zlen (c_out s)) ∧ C ≤ zlen (c_out s).
Proof.
  intros [H1 H2 _ H4 H5 _ _ _ _ _ _ _]. pose proof (sorted_last _ _ H5) as Hs. rewrite H4 in Hs.
  split; [|done]. rewrite <- H4. unfold own_consumer. rewrite H1, H2, fmap_last.
  by destruct (last sb).
Qed.

(** Slots that hold entries are read as those entries. *)
Lemma cinv_read s C P sb j :
  cinv s C P sb → C ≤ j < zlen (written s) →
  ∃ a, written s !! Z.to_nat j = Some a ∧ read_desc (c_mem s) (slot k b j) = Ok a.
Proof.
  intros Hi Hj. assert (0 ≤ C) as HC by (destruct Hi as [_ _ _ _ _ _ [HC _] _ _ _ _ _]; lia).
  destruct (lookup_lt_is_Some_2 (written s) (Z.to_nat j)) as [a Ha]; [lia|].
  exists a. split; [done|]. unfold read_desc. rewrite decide_True by (apply slot_bound; lia).
  rewrite (ci_slots _ _ _ _ Hi j a) by (done || lia). done.
Qed.

(** A step that only moves the program counter or changes early loads. *)
Lemma cinv_pc s s' C P sb :
  cinv s C P sb → c_mem s' = c_mem s → c_sb s' = c_sb s → c_kp s' = c_kp s →
  c_log s' = c_log s → c_out s' = c_out s → (weak = false → c_early s' = []) →
  cpc_ok P s' → cinv s' C P sb.
Proof.
  intros [H1 H2 H3 H4 H5 H6 H7 H8 H9 H10 H11 H12] Em Es Ek El Eo He Hpc.
  assert (written s' = written s) as Ew by (unfold written; by rewrite El).
  split; rewrite ?Em, ?Es, ?Ek, ?Eo, ?Ew; done.
Qed.

Lemma prefix_snoc_lookup (l L : list A) a :
  l `prefix_of` L → L !! length l = Some a → l ++ [a] `prefix_of` L.
Proof.
  intros [m ->] Ha. rewrite lookup_app_r, Nat.sub_diag in Ha by lia. destruct m as [|x m]; [done|].
  cbn in Ha. simplify_eq. exists m. by rewrite <- app_assoc.
Qed.

(** One more slot read: its value is the next entry. *)
Lemma cinv_read_step m sb0 es kp lg ot cn av i out a C P sb :
  Z.of_nat i < av →
  read_desc m (read_index r cn i) = Ok a ∨ (read_index r cn i, a) ∈ es →
  cinv (CState m sb0 es (CRead cn av i out) kp lg ot) C P sb →
  cinv (CState m sb0 es (CRead cn av (S i) (out ++ [a])) kp lg ot) C P sb.
Proof.
  intros Hlt Hrd Hi. pose proof (cinv_own _ _ _ _ Hi) as [_ HC]. cbn in HC.
  pose proof (ci_pc _ _ _ _ Hi) as (Hcn & H0 & HP & Hiv & Hlen & Hpre & He). cbn in *.
  pose proof (ci_range _ _ _ _ Hi) as (_ & [_ HW] & _). cbn in HW.
  assert (written (CState m sb0 es (CRead cn av i out) kp lg ot) !! Z.to_nat (zlen ot + Z.of_nat i) = Some a) as Ha.
  { rewrite Hcn, read_index_slot in Hrd. destruct Hrd as [Hrd|Hin].
    - destruct (cinv_read _ _ _ _ (zlen ot + Z.of_nat i) Hi) as (a' & Hw & Hr); [lia|].
      cbn in Hr. rewrite Hr in Hrd. by simplify_eq.
    - eapply He; [exact Hin|lia|done]. }
  eapply cinv_pc; [exact Hi|done..|exact (ci_early _ _ _ _ Hi)|]. cbn.
  split_and!; [done|lia|lia|lia|rewrite length_app; cbn; lia| |done].
  rewrite app_assoc. apply prefix_snoc_lookup; [done|].
  rewrite <- Ha. f_equal. rewrite length_app. lia.
Qed.

Lemma cinv_finish m sb0 es kp lg ot cn av i out C P sb :
  ¬ Z.of_nat i < av → cinv (CState m sb0 es (CRead cn av i out) kp lg ot) C P sb →
  ∃ sb', cinv (CState m (if 0 <? av then sb0 ++ [wrap 32 (cn + wrap 32 av)] else sb0) es CIdle kp lg
    (ot ++ out)) C P sb'.
Proof.
  intros Hge Hi. pose proof (cinv_own _ _ _ _ Hi) as [_ HC].
  destruct Hi as [H1 H2 H3 H4 H5 H6 H7 H8 (Hcn & H0 & HP & Hiv & Hlen & Hpre & He) H10 H11 H12].
  unfold written in *. cbn in *. assert (Z.of_nat i = av) as Ei by lia.
  assert (zlen (ot ++ out) = zlen ot + av) as EL by (rewrite length_app; lia).
  destruct (Z.ltb_spec 0 av) as [Hpos|Hz].
  - exists (sb ++ [zlen ot + av]). split; try done; unfold written; cbn; rewrite ?EL.
    + rewrite H1, fmap_app. cbn. do 2 f_equal. rewrite Hcn, wrap_add_r, wrap_add_l. by rewrite Z.add_assoc.
    + by rewrite last_snoc.
    + apply sorted_snoc; [done|]. rewrite H4. lia.
    + lia.
  - exists sb. assert (out = []) as -> by (apply nil_length_inv; lia). rewrite app_nil_r. done.
Qed.

Lemma cinv_flush m v sb0 es pc kp lg ot C P sb :
  cinv (CState m (v :: sb0) es pc kp lg ot) C P sb →
  ∃ C' sb', cinv (CState (set_consumer m v) sb0 es pc kp lg ot) C' P sb'.
Proof.
  intros [H1 H2 H3 H4 H5 H6 H7 H8 H9 H10 H11 H12]. unfold written in *. cbn in *.
  destruct sb as [|c sb]; [done|]. injection H1 as -> ->. exists c, sb.
  apply StronglySorted_inv in H5 as [H5 Hf]. apply Forall_cons in Hf as [Hc _].
  rewrite last_cons in H4.
  split; unfold written; cbn; try done.
  - by destruct (last sb).
  - lia.
  - intros j a Hj Ha. apply H12; [lia|done].
Qed.
Lemma cinv_load_early m sb0 es pc kp lg ot idx a C P sb :
  weak = true → read_desc m idx = Ok a →
  cinv (CState m sb0 es pc kp lg ot) C P sb →
  cinv (CState m sb0 ((idx, a) :: es) pc kp lg ot) C P sb.
Proof.
  intros Hw Hrd Hi. pose proof (cinv_own _ _ _ _ Hi) as [_ HC].
  pose proof (ci_range _ _ _ _ Hi) as (_ & [_ HW] & _).
  assert (∀ hi, hi ≤ P → early_ok (CState m sb0 es pc kp lg ot) (zlen ot) hi →
    early_ok (CState m sb0 ((idx, a) :: es) pc kp lg ot) (zlen ot) hi) as He.
  { intros hi Hhi H idx' a' j Hin Hj Hs. apply elem_of_cons in Hin as [Hin|Hin]; [|by eapply H].
    simplify_eq. cbn in HC. destruct (cinv_read _ _ _ _ j Hi) as (x & Hx & Hr); [lia|].
    cbn in Hr. rewrite Hr in Hrd. by simplify_eq. }
  eapply cinv_pc; [exact Hi|done..|by rewrite Hw|].
  pose proof (ci_pc _ _ _ _ Hi) as Hpc. unfold cpc_ok in *. cbn in *. destruct pc; try done.
  - destruct Hpc as (p & ? & ? & ?). exists p. split_and!; [done|lia|lia|]. by apply He; [lia|].
  - destruct Hpc as (? & ? & ? & ? & ? & ? & ?). split_and!; try done. by apply He; [lia|].
Qed.

Lemma cinv_kernel_write m m' sb0 es pc kp lg ot a C P sb :
  wrap 32 (kp - consumer m) < size r → write_desc m (Z.land kp (mask r)) a = Ok m' →
  cinv (CState m sb0 es pc kp lg ot) C P sb →
  cinv (CState m' sb0 es pc (wrap 32 (kp + 1)) (lg ++ [a]) ot) C P sb.
Proof.
  intros Hfree Hwr Hi. pose proof (cinv_own _ _ _ _ Hi) as [_ HC].
  pose proof (ci_pc _ _ _ _ Hi) as Hpc.
  destruct Hi as [H1 H2 H3 H4 H5 H6 H7 H8 H9 H10 H11 H12]. pose proof (pow_small k Hk) as [Hp1 Hp2].
  unfold written in *. cbn in *. set (W := zlen (q0 ++ lg)) in *.
  rewrite H6, H2, (wrap_diff b C W), Hsize in Hfree by lia.
  rewrite H6, (slot_of_index r k b Hk Hmask) in Hwr. unfold write_desc in Hwr.
  rewrite decide_True in Hwr by (rewrite H11; apply slot_bound; lia). simplify_eq.
  assert (zlen (q0 ++ lg ++ [a]) = W + 1) as EW by (subst W; rewrite !length_app; cbn; lia).
  split; unfold written; cbn; rewrite ?EW; try done.
  - rewrite wrap_add_l. by rewrite Z.add_assoc.
  - lia.
  - rewrite app_assoc. by apply prefix_app_r.
  - eapply cpc_ok_mono; [..|exact H9]; try done. unfold written. cbn. exists [a]. by rewrite app_assoc.
  - by rewrite length_insert.
  - intros j x Hj Hx. rewrite app_assoc in Hx. apply lookup_app_Some in Hx as [Hx|[Hge Hx]].
    + rewrite list_lookup_insert_ne; [by apply H12|]. apply lookup_lt_Some in Hx.
      apply (slot_to_nat_ne k b Hk); lia.
    + apply list_lookup_singleton_Some in Hx as [Hx ->]. assert (j = W) as -> by lia.
      apply list_lookup_insert_eq. pose proof (slot_bound k b Hk W). lia.
Qed.

Lemma cinv_step s s' C P sb :
  cstep r weak after s s' → cinv s C P sb → ∃ C' P' sb', cinv s' C' P' sb'.
Proof.
  intros Hst Hi. pose proof (cinv_own _ _ _ _ Hi) as [Hown HC].
  pose proof (ci_range _ _ _ _ Hi) as HR. pose proof (pow_small k Hk) as [Hp1 Hp2].
  destruct Hst as [m sb0 es kp lg ot|m sb0 es kp lg ot|m sb0 es kp lg ot prod|m sb0 es kp lg ot cn av i out a Hlt Hrd
    |m sb0 es kp lg ot cn av i out a Hlt Hrd|m sb0 es kp lg ot cn av i out Hlt Hrd|m sb0 es kp lg ot cn av i out Hge
    |m v sb0 es pc kp lg ot|m sb0 es pc kp lg ot idx a Hw Hrd|m m' sb0 es pc kp lg ot a Hfree Hwr|m sb0 es pc kp lg ot].
  - exists C, P, sb. by eapply cinv_pc.
  - exists C, P, sb. assert (∀ x, x ∉ if after then [] else es) as He.
    { intros x. destruct after; [set_solver|]. destruct Hmode as [Hm|]; [|done].
      pose proof (ci_early _ _ _ _ Hi Hm) as E. cbn in E. subst es. set_solver. }
    eapply cinv_pc; [exact Hi|done..| |].
    + intros Hm. pose proof (ci_early _ _ _ _ Hi Hm) as E. cbn in *. subst es. by destruct after.
    + cbn in *. exists P. split_and!; [exact (ci_prod _ _ _ _ Hi)|lia|lia|].
      intros idx a j Hin. by apply He in Hin.
  - exists C, P, sb. cbn -[own_consumer] in Hown, HC. eapply cinv_pc; [exact Hi|done..|exact (ci_early _ _ _ _ Hi)|].
    pose proof (ci_pc _ _ _ _ Hi) as (p & Hp & Hr & He). cbn -[own_consumer] in *. rewrite Hown, Hp.
    rewrite (wrap_diff b (zlen ot) p) by lia.
    split_and!; [done|lia|lia|lia|done|rewrite app_nil_r; exact (ci_out _ _ _ _ Hi)|].
    by replace (zlen ot + (p - zlen ot)) with p by lia.
  - exists C, P, sb. eapply cinv_read_step; eauto.
  - exists C, P, sb. eapply cinv_read_step; eauto.
  - exfalso. pose proof (ci_pc _ _ _ _ Hi) as (Hcn & H0 & HP & _). cbn in *.
    rewrite Hcn, read_index_slot in Hrd.
    destruct (cinv_read _ _ _ _ (zlen ot + Z.of_nat i) Hi) as (x & _ & Hr); [lia|].
    cbn in Hr. by rewrite Hr in Hrd.
  - destruct (cinv_finish _ _ _ _ _ _ _ _ _ _ _ _ _ Hge Hi) as [sb' Hi']. by exists C, P, sb'.
  - destruct (cinv_flush _ _ _ _ _ _ _ _ _ _ _ Hi) as (C' & sb' & Hi'). by exists C', P, sb'.
  - exists C, P, sb. by apply cinv_load_early.
  - exists C, P, sb. by eapply cinv_kernel_write.
  - exists C, (zlen (q0 ++ lg)), sb. destruct Hi as [H1 H2 H3 H4 H5 H6 H7 H8 H9 H10 H11 H12].
    split; try done; unfold written in *; cbn in *; [lia|].
    eapply cpc_ok_mono; [..|exact H9]; try done. lia.
Qed.
End consumer_inv.

Lemma cinv_run {A} k (r : ring A) m q0 weak after s :
  weak = false ∨ after = true → ring_rep k r q0 → mem r = Some m →
  rtc (cstep r weak after) (cinit m) s → ∃ C P sb, cinv k (consumer m) q0 weak s C P sb.
Proof.
  intros Hmode [Hk Hs Hma Hb (m' & Em & Hl & Hp & Hc & Hw & Hq)] E Hst.
  rewrite E in Em. injection Em as <-.
  assert (wrap 32 (consumer m + zlen q0) = producer m) as Hpr.
  { rewrite <- Hw, wrap_add_r. replace (consumer m + (producer m - consumer m)) with (producer m) by lia.
    by apply wrap_small. }
  assert (cinv k (consumer m) q0 weak (cinit m) 0 (zlen q0) []) as Hi.
  { split; unfold written; cbn; rewrite ?app_nil_r, ?Z.add_0_r; try done.
    - symmetry. by apply wrap_small.
    - repeat constructor.
    - lia.
    - apply prefix_nil.
    - intros j a Hj Ha. unfold slot. rewrite <- (Hq _ _ Ha), Z2Nat.id by lia. done. }
  revert Hi. generalize 0, (zlen q0), (@nil Z).
  induction Hst as [s|s s' s'' H1 _ IH]; intros C P sb Hi; [by do 3 eexists|].
  destruct (cinv_step r k _ q0 weak after Hk Hs Hma Hmode s s' C P sb H1 Hi) as (C' & P' & sb' & Hi').
  by eapply IH.
Qed.

(** *** The accesses of a call, made alone, are the operation of [Ring] *)

Lemma read_batch_alone {A} (r : ring A) weak after cn av n : ∀ i m sb es kp lg ot acc out,
  read_batch (mask r) cn i n m = Ok out → Z.of_nat (i + n) ≤ av →
  rtc (cstep r weak after) (CState m sb es (CRead cn av i acc) kp lg ot)
    (CState m sb es (CRead cn av (i + n) (acc ++ out)) kp lg ot).
Proof.
  induction n as [|n IH]; intros i m sb es kp lg ot acc out H Hav; cbn in H.
  { simplify_eq. rewrite Nat.add_0_r, app_nil_r. apply rtc_refl. }
  apply res_bind_inv in H as (a & Ha & H). apply res_bind_inv in H as (out' & Hout & H). simplify_eq.
  eapply rtc_l; [apply c_read; [lia|exact Ha]|].
  replace (i + S n)%nat with (S i + n)%nat by lia.
  replace (acc ++ a :: out') with ((acc ++ [a]) ++ out') by by rewrite <- app_assoc.
  apply IH; [done|lia].
Qed.

Lemma drain_alone {A} (r : ring A) weak after m kp lg ot out :
  let av := wrap 32 (producer m - consumer m) in
  read_batch (mask r) (consumer m) 0 (Z.to_nat av) m = Ok out →
  rtc (cstep r weak after) (CState m [] [] CIdle kp lg ot)
    (CState (if 0 <? av then set_consumer m (wrap 32 (consumer m + wrap 32 av)) else m)
       [] [] CIdle kp lg (ot ++ out)).
Proof.
  intros av H. assert (0 ≤ av) as H0 by (apply wrap_fits; lia).
  eapply rtc_l; [apply c_call|]. eapply rtc_l; [apply c_load_prod|].
  replace (if after then [] else []) with (@nil (Z * A)) by by destruct after.
  eapply rtc_l; [apply c_load_cons|]. cbn [own_consumer last default].
  change (default (consumer m) None) with (consumer m). fold av.
  etrans; [apply (read_batch_alone _ _ _ _ _ (Z.to_nat av)); [exact H|lia]|].
  cbn [app Nat.add]. eapply rtc_l; [apply c_finish; lia|].
  destruct (0 <? av); [|apply rtc_refl]. eapply rtc_l; [apply c_flush|]. apply rtc_refl.
Qed.

(** ** Properties *)

(** C12: publication to the kernel is linearizable.  Whatever the kernel
    does between the single memory accesses of [enqueue_batch] and
    [produce_tx], and in whatever order the program's stores reach memory
    between fences, what the kernel reads is always a prefix of the entries
    the calls accepted, in order: nothing is read before it is written,
    overwritten before it is read, lost or duplicated.  No access leaves
    the slots, an entry the kernel may read is there to be read, and once
    the stores have settled the kernel can read everything. *)
Theorem producer_linearizable {A} k (r : ring A) m q0 always s :
  ring_rep k r q0 → mem r = Some m → rtc (pstep r always true) (pinit m) s →
  p_pc s ≠ PUndef
  ∧ p_taken s `prefix_of` q0 ++ p_pushed s
  ∧ zlen (q0 ++ p_pushed s) - zlen (p_taken s) ≤ 2 ^ k
  ∧ (p_kc s ≠ producer (p_mem s) → ∃ a, read_desc (p_mem s) (Z.land (p_kc s) (mask r)) = Ok a)
  ∧ (p_sb s = [] → p_kc s = producer (p_mem s) → p_taken s = q0 ++ p_pushed s).
Proof.
  intros Hr Hm Hst. destruct (pinv_run k r m q0 always s Hr Hm Hst) as (C & P & sb & Hi).
  destruct Hr as [Hk _ Hma _ _]. pose proof (pow_small k Hk) as [Hp1 Hp2].
  destruct Hi as [H1 H2 H3 H4 H5 H6 H7 H8 H9 H10 H11 H12 H13]. unfold accepted in *.
  split_and!; [intros E; unfold pc_ok in H8; by rewrite E in H8|done|lia|..].
  - intros _. rewrite H5, (slot_of_index r k _ Hk Hma). unfold read_desc.
    rewrite decide_True by (apply slot_bound; lia).
    destruct (lookup_lt_is_Some_2 (descs (p_mem s)) (Z.to_nat (slot k (consumer m) (zlen (p_taken s))))) as [a Ha].
    { pose proof (slot_bound k (consumer m) Hk (zlen (p_taken s))). lia. }
    exists a. by rewrite Ha.
  - intros Hsb Hkc. rewrite Hsb in H4. cbn in H4.
    assert (zlen (p_taken s) = zlen (q0 ++ p_pushed s)) as E.
    { apply (wrap_inj (consumer m)); [lia|]. rewrite <- H5, Hkc. exact H4. }
    destruct H7 as [rest Er]. destruct rest as [|x rest]; [by rewrite app_nil_r in Er|].
    rewrite Er, !length_app in E. cbn in E. lia.
Qed.

(** A ring of two slots with stale contents. *)
Definition stale_ring : ring Z := Ring (Some (RingMem 0 0 0 [7; 8])) 2 1.
Definition stale_mem : ring_mem Z := RingMem 0 0 0 [7; 8].

Lemma stale_ring_rep : ring_rep 1 stale_ring [].
Proof.
  split; [done..|]. eexists; split; [done|]. split_and!; done.
Defined.

Lemma producer_linearizable_witness : ∃ s,
  rtc (pstep stale_ring true true) (pinit stale_mem) s ∧ p_pushed s = [1; 2] ∧ p_taken s = [1; 2]
  ∧ p_taken s `prefix_of` [] ++ p_pushed s.
Proof.
  assert (∃ s, rtc (pstep stale_ring true true) (pinit stale_mem) s ∧ p_pushed s = [1; 2]
    ∧ p_taken s = [1; 2]) as (s & Hs & H1 & H2).
  { eexists. split; [|shelve].
    etrans; [apply (call_alone stale_ring true stale_mem (RingMem 0 0 0 [1; 2]) 2 [1; 2] 0 [] []); reflexivity|].
    eapply rtc_l; [apply (p_kernel_take _ _ _ _ _ _ _ _ _ 1); [done|reflexivity]|].
    eapply rtc_l; [apply (p_kernel_take _ _ _ _ _ _ _ _ _ 2); [done|reflexivity]|]. apply rtc_refl.
    Unshelve. split; reflexivity. }
  exists s. split; [exact Hs|]. split; [exact H1|]. split; [exact H2|].
  destruct (producer_linearizable 1 stale_ring stale_mem [] true s stale_ring_rep eq_refl Hs)
    as (_ & H3 & _). exact H3.
Defined.

(** The release fence is needed: without it the index may reach memory
    before the slot it covers, and the kernel reads the stale slot. *)
Theorem producer_needs_fence : ∃ s,
  rtc (pstep stale_ring true false) (pinit stale_mem) s
  ∧ p_pushed s = [1] ∧ p_taken s = [7].
Proof.
  eexists. split; [|shelve].
  eapply rtc_l; [apply (p_call _ _ _ _ _ _ _ _ [1])|].
  eapply rtc_l; [apply p_load_prod|]. eapply rtc_l; [by apply p_load_cons|].
  eapply rtc_l; [by apply p_store|]. eapply rtc_l; [by apply p_publish|].
  eapply rtc_l.
  { apply (p_flush _ _ _ _ [StDesc 0 1] (StProd 1) []); [set_solver|done|by repeat constructor]. }
  eapply rtc_l; [by apply p_kernel_take|]. apply rtc_refl.
  Unshelve. split; reflexivity.
Qed.

(** The single accesses of a call, made with nothing in between, are
    the ring operation of the sequential model: the same result and the
    same memory, for all four operations. *)
Theorem ring_calls_alone :
  (∀ (r : AddrRing) m xs n r' kc pu ta, mem r = Some m → enqueue_batch r xs = Ok (n, r') →
    ∃ m', mem r' = Some m' ∧ rtc (pstep r true true) (PState m [] PIdle kc pu ta)
      (PState m' [] PIdle kc (pu ++ take (Z.to_nat n) xs) ta))
  ∧ (∀ (r : DescRing) m xs n r' kc pu ta, mem r = Some m → produce_tx r xs = Ok (n, r') →
    ∃ m', mem r' = Some m' ∧ rtc (pstep r false true) (PState m [] PIdle kc pu ta)
      (PState m' [] PIdle kc (pu ++ take (Z.to_nat n) xs) ta))
  ∧ (∀ (r : AddrRing) m out r' weak kp lg ot, mem r = Some m → dequeue_all r = Ok (out, r') →
    ∃ m', mem r' = Some m' ∧ rtc (cstep r weak false) (CState m [] [] CIdle kp lg ot)
      (CState m' [] [] CIdle kp lg (ot ++ out)))
  ∧ (∀ (r : DescRing) m out r' weak kp lg ot, mem r = Some m → consume_rx r = Ok (out, r') →
    ∃ m', mem r' = Some m' ∧ rtc (cstep r weak false) (CState m [] [] CIdle kp lg ot)
      (CState m' [] [] CIdle kp lg (ot ++ out))).
Proof.
  split_and!.
  - intros r m xs n r' kc pu ta Hm H. unfold enqueue_batch, deref in H. rewrite Hm in H.
    apply res_bind_inv in H as (m0 & [= <-] & H). apply res_bind_inv in H as (m' & Hw & H). simplify_eq.
    eexists. split; [done|]. by apply (call_alone r true).
  - intros r m xs n r' kc pu ta Hm H. unfold produce_tx, deref in H. rewrite Hm in H.
    apply res_bind_inv in H as (m0 & [= <-] & H). apply res_bind_inv in H as (m' & Hw & H). simplify_eq.
    eexists. split; [done|]. by apply (call_alone r false).
  - intros r m out r' weak kp lg ot Hm H. unfold dequeue_all, deref in H. rewrite Hm in H.
    apply res_bind_inv in H as (m0 & [= <-] & H). apply res_bind_inv in H as (o & Ho & H).
    exists (if 0 <? wrap 32 (producer m - consumer m)
            then set_consumer m (wrap 32 (consumer m + wrap 32 (wrap 32 (producer m - consumer m)))) else m).
    simplify_eq. split; [by destruct (0 <? _)|]. by apply drain_alone.
  - intros r m out r' weak kp lg ot Hm H. unfold consume_rx, deref in H. rewrite Hm in H.
    apply res_bind_inv in H as (m0 & [= <-] & H). cbn zeta in H.
    pose proof (wrap_fits 32 (producer m - consumer m) ltac:(lia)) as [Hw _].
    destruct (Z.eqb_spec (wrap 32 (producer m - consumer m)) 0) as [Hz|Hz].
    + injection H as <- <-. exists m. split; [done|].
      pose proof (drain_alone r weak false m kp lg ot [] ) as Hd. cbn zeta in Hd. rewrite Hz in Hd. by apply Hd.
    + apply res_bind_inv in H as (o & Ho & H). simplify_eq. eexists. split; [done|].
      pose proof (drain_alone r weak false m kp lg ot out Ho) as Hd. cbn zeta in Hd.
      by rewrite (proj2 (Z.ltb_lt 0 _)) in Hd by lia.
Qed.

(** C23: reception from the kernel is linearizable on a machine that keeps
    loads in order, and on any machine once an acquire fence follows the
    load of the producer index.  Whatever the kernel does between the
    single accesses of [dequeue_all] and [consume_rx], what the calls have
    returned is a prefix of the entries the kernel wrote, in order; no
    access leaves the slots; and the kernel never overwrites an entry that
    was not returned. *)
Theorem consumer_linearizable {A} k (r : ring A) m q0 weak after s :
  weak = false ∨ after = true → ring_rep k r q0 → mem r = Some m →
  rtc (cstep r weak after) (cinit m) s →
  c_pc s ≠ CUndef
  ∧ c_out s `prefix_of` q0 ++ c_log s
  ∧ zlen (q0 ++ c_log s) - zlen (c_out s) ≤ 2 ^ k
  ∧ (own_consumer (c_mem s) (c_sb s) = c_kp s → c_out s = q0 ++ c_log s).
Proof.
  intros Hmode Hr Hm Hst. destruct (cinv_run k r m q0 weak after s Hmode Hr Hm Hst) as (C & P & sb & Hi).
  destruct Hr as [Hk _ Hma _ _]. pose proof (pow_small k Hk) as [Hp1 Hp2].
  destruct (cinv_own _ _ _ _ _ _ _ _ Hi) as [Hown HC].
  destruct Hi as [H1 H2 H3 H4 H5 H6 H7 H8 H9 H10 H11 H12]. unfold written in *.
  split_and!; [intros E; unfold cpc_ok in H9; by rewrite E in H9|done|lia|].
  intros Hq. assert (zlen (c_out s) = zlen (q0 ++ c_log s)) as E.
  { apply (wrap_inj (consumer m)); [lia|]. rewrite <- Hown, Hq. exact H6. }
  destruct H8 as [rest Er]. destruct rest as [|x rest]; [by rewrite app_nil_r in Er|].
  rewrite Er, !length_app in E. cbn in E. lia.
Qed.

Lemma consumer_linearizable_witness : ∃ s,
  rtc (cstep stale_ring false false) (cinit stale_mem) s ∧ c_log s = [1] ∧ c_out s = [1]
  ∧ c_out s `prefix_of` [] ++ c_log s.
Proof.
  assert (∃ s, rtc (cstep stale_ring false false) (cinit stale_mem) s ∧ c_log s = [1] ∧ c_out s = [1])
    as (s & Hs & H1 & H2).
  { eexists. split; [|shelve].
    eapply rtc_l; [by apply (c_kernel_write _ _ _ _ (RingMem 0 0 0 [1; 8]) _ _ _ _ _ _ 1)|].
    eapply rtc_l; [apply c_kernel_publish|].
    apply (drain_alone stale_ring false false (RingMem 1 0 0 [1; 8]) 1 [1] [] [1]). reflexivity.
    Unshelve. split; reflexivity. }
  exists s. split; [exact Hs|]. split; [exact H1|]. split; [exact H2|].
  destruct (consumer_linearizable 1 stale_ring stale_mem [] false false s (or_introl eq_refl)
    stale_ring_rep eq_refl Hs) as (_ & H3 & _). exact H3.
Defined.

(** The acquire fence of [dequeue_all] and [consume_rx] comes before the
    load of the producer index, so on a machine that reorders loads a slot
    may be read before the index that says it is filled: the kernel
    published the entry 1, and the call returns the stale 7. *)
Theorem acquire_fence_too_early : ∃ s,
  rtc (cstep stale_ring true false) (cinit stale_mem) s
  ∧ c_pc s = CIdle ∧ c_log s = [1] ∧ c_out s = [7].
Proof.
  eexists. split; [|shelve].
  eapply rtc_l; [apply c_call|].
  eapply rtc_l; [by apply (c_load_early _ _ _ _ _ _ _ _ _ _ 0 7)|].
  eapply rtc_l; [by apply (c_kernel_write _ _ _ _ (RingMem 0 0 0 [1; 8]) _ _ _ _ _ _ 1)|].
  eapply rtc_l; [apply c_kernel_publish|].
  eapply rtc_l; [apply c_load_prod|]. eapply rtc_l; [apply c_load_cons|].
  eapply rtc_l; [apply (c_read_early _ _ _ _ _ _ _ _ _ _ _ _ _ 7); [done|cbn; set_solver]|].
  eapply rtc_l; [by apply c_finish|]. apply rtc_refl.
  Unshelve. split_and!; reflexivity.
Qed.
