(* ===== verification/Simd.v ===== *)
(** * SIMD dispatch and memory copy ([src/simd.rs])

    Feature detection with its process-wide cache, and the SSE2 and AVX2
    copy loops over raw pointers.  A pointer is an offset into the buffer it
    was derived from; an access outside the buffer, or an instruction the
    CPU does not have, is [Undefined]. *)

From S2P Require Import Prelude.
From Equations Require Import Equations.

Inductive SimdLevel : Type := Scalar | Sse2 | Sse42 | Avx2 | Avx512.

#[export] Instance SimdLevel_eq_dec : EqDecision SimdLevel.
Proof. solve_decision. Defined.

(** The order [derive(PartialOrd, Ord)] gives: the constructors' positions. *)
Definition level_rank (l : SimdLevel) : Z :=
  match l with Scalar => 0 | Sse2 => 1 | Sse42 => 2 | Avx2 => 3 | Avx512 => 4 end.

(** What the target and [is_x86_feature_detected!] report. *)
Record cpu : Type := Cpu {
  x86_64 : bool;
  has_sse42 : bool;
  has_avx2 : bool;
  has_avx512f : bool;
}.

Definition detect (c : cpu) : SimdLevel :=
  if x86_64 c then
    if has_avx512f c then Avx512
    else if has_avx2 c then Avx2
    else if has_sse42 c then Sse42
    else Sse2
  else Scalar.

(** [simd_level]: [get_or_init] on the static [OnceLock]; the second
    component is the cell afterwards. *)
Definition simd_level (c : cpu) (LEVEL : option SimdLevel) : SimdLevel * option SimdLevel :=
  match LEVEL with
  | Some l => (l, Some l)
  | None => (detect c, Some (detect c))
  end.

(** ** Copy loops *)

(** One unaligned [n]-byte load and store ([movdqu] / [vmovdqu]). *)
Definition move (n : Z) (dst : list Z) (d : Z) (src : list Z) (s : Z) : res (list Z) :=
  if decide (0 ≤ s ∧ s + n ≤ zlen src ∧ 0 ≤ d ∧ d + n ≤ zlen dst)
  then Ok (splice dst d (slice src s n))
  else Undefined.

(** [for i in 0..len { *dst.add(i) = *src.add(i) }], from index [i]. *)
Fixpoint scalar_tail (dst : list Z) (d : Z) (src : list Z) (s : Z) (i : Z) (n : nat)
    : res (list Z) :=
  match n with
  | O => Ok dst
  | S n =>
      dst ← move 1 dst (d + i) src (s + i);
      scalar_tail dst d src s (i + 1) n
  end.

(** [while len >= n { move; src += n; dst += n; len -= n }] for a positive
    chunk size; the result is the buffer, both pointers and what is left. *)
Equations? chunk_loop (n : nat) (dst : list Z) (d : Z) (src : list Z) (s : Z) (len : nat)
    : res (list Z * Z * Z * nat) by wf len lt :=
  chunk_loop n dst d src s len with decide (0 < n ≤ len)%nat => {
    | left H :=
        match move (Z.of_nat n) dst d src s with
        | Ok dst' => chunk_loop n dst' (d + Z.of_nat n) src (s + Z.of_nat n) (len - n)
        | Panic => Panic
        | Undefined => Undefined
        end;
    | right H := Ok (dst, d, s, len) }.
Proof. lia. Qed.

Definition memcpy_sse2 (dst src : list Z) (len : nat) : res (list Z) :=
  '(dst, d, s, len) ← chunk_loop 16 dst 0 src 0 len;
  scalar_tail dst d src s 0 len.

(** The AVX2 body runs on a CPU without AVX2 only as an illegal
    instruction. *)
Definition memcpy_avx2 (c : cpu) (dst src : list Z) (len : nat) : res (list Z) :=
  if has_avx2 c then
    '(dst, d, s, len) ← chunk_loop 32 dst 0 src 0 len;
    if (16 <=? len)%nat then
      dst ← move 16 dst d src s;
      scalar_tail dst (d + 16) src (s + 16) 0 (len - 16)
    else scalar_tail dst d src s 0 len
  else Undefined.

Definition memcpy_dispatch (p : profile) (c : cpu) (LEVEL : option SimdLevel)
    (dst src : list Z) : res (list Z) :=
  debug_assert p (length src <=? length dst)%nat;;
  let len := length src in
  if x86_64 c then
    match (simd_level c LEVEL).1 with
    | Avx2 | Avx512 => memcpy_avx2 c dst src len
    | _ => memcpy_sse2 dst src len
    end
  else if decide (len ≤ length dst)%nat then Ok (splice dst 0 src) else Panic.

(** ** Lemmas *)

(** Copying a prefix and then the rest copies the whole range. *)
Lemma splice_chain (dst src : list Z) d s n m :
  0 ≤ d → 0 ≤ s → 0 ≤ n → 0 ≤ m →
  s + n + m ≤ zlen src → d + n + m ≤ zlen dst →
  splice (splice dst d (slice src s n)) (d + n) (slice src (s + n) m) =
  splice dst d (slice src s (n + m)).
Proof.
  intros. pose proof (length_slice src s n). pose proof (length_slice src (s + n) m).
  pose proof (length_slice src s (n + m)).
  pose proof (length_splice dst d (slice src s n)).
  apply list_eq. intros i. rewrite !lookup_splice by lia.
  repeat case_decide; try lia; try done; rewrite !lookup_slice by lia;
    repeat case_decide; try lia; f_equal; lia.
Qed.

Lemma move_ok n dst d src s :
  0 ≤ s → s + n ≤ zlen src → 0 ≤ d → d + n ≤ zlen dst →
  move n dst d src s = Ok (splice dst d (slice src s n)).
Proof. intros. unfold move. by rewrite decide_True by lia. Qed.

Lemma splice_nil (dst : list Z) d : splice dst d [] = dst.
Proof. unfold splice. simpl. rewrite Nat.add_0_r. apply take_drop. Qed.

Section copy.
Context (src : list Z).

Lemma scalar_tail_spec n : ∀ dst d s i,
  0 ≤ d + i → 0 ≤ s + i →
  s + i + Z.of_nat n ≤ zlen src → d + i + Z.of_nat n ≤ zlen dst →
  scalar_tail dst d src s i n = Ok (splice dst (d + i) (slice src (s + i) (Z.of_nat n))).
Proof.
  induction n as [|n IH]; intros dst d s i Hd Hs Hsl Hdl.
  { simpl. unfold slice. by rewrite take_0, splice_nil. }
  cbn [scalar_tail]. rewrite move_ok by lia. cbn [mbind res_bind].
  pose proof (length_slice src (s + i) 1) as L1.
  rewrite IH; rewrite ?length_splice; try lia. f_equal.
  rewrite !Z.add_assoc, splice_chain by lia. do 3 f_equal. lia.
Qed.

(** The chunked loop copies a prefix and leaves less than a chunk. *)
Lemma chunk_loop_spec n dst d s len :
  (0 < n)%nat → 0 ≤ d → 0 ≤ s →
  s + Z.of_nat len ≤ zlen src → d + Z.of_nat len ≤ zlen dst →
  ∃ j r, (len = j + r ∧ r < n)%nat
    ∧ chunk_loop n dst d src s len =
        Ok (splice dst d (slice src s (Z.of_nat j)), d + Z.of_nat j, s + Z.of_nat j, r).
Proof.
  revert dst d s. induction (lt_wf len) as [len _ IH]. intros dst d s Hn Hd Hs Hsl Hdl.
  rewrite chunk_loop_equation_1.
  destruct (decide (0 < n ≤ len)%nat) as [H|H]; simpl.
  - rewrite move_ok by lia.
    pose proof (length_slice src s (Z.of_nat n)) as L1.
    destruct (IH (len - n)%nat ltac:(lia) (splice dst d (slice src s (Z.of_nat n)))
      (d + Z.of_nat n) (s + Z.of_nat n)) as (j & r & [Hj Hr] & ->);
      rewrite ?length_splice; try lia.
    exists (n + j)%nat, r. split; [lia|].
    rewrite splice_chain, Nat2Z.inj_add by lia. by rewrite !Z.add_assoc.
  - exists 0%nat, len. split; [lia|].
    unfold slice. by rewrite take_0, splice_nil, !Z.add_0_r.
Qed.
End copy.

(** Both kernels copy exactly [len] bytes to the front of [dst]. *)
Lemma memcpy_sse2_spec (dst src : list Z) (len : nat) :
  (len ≤ length src)%nat → (len ≤ length dst)%nat →
  memcpy_sse2 dst src len = Ok (splice dst 0 (slice src 0 (Z.of_nat len))).
Proof.
  intros Hs Hd. unfold memcpy_sse2.
  destruct (chunk_loop_spec src 16 dst 0 0 len) as (j & r & [-> _] & ->); try lia.
  cbn [mbind res_bind]. pose proof (length_slice src 0 (Z.of_nat j)).
  rewrite scalar_tail_spec, !Z.add_0_r by (rewrite ?length_splice; lia).
  rewrite splice_chain by lia. by rewrite Nat2Z.inj_add.
Qed.

Lemma memcpy_avx2_spec c (dst src : list Z) (len : nat) :
  has_avx2 c = true → (len ≤ length src)%nat → (len ≤ length dst)%nat →
  memcpy_avx2 c dst src len = Ok (splice dst 0 (slice src 0 (Z.of_nat len))).
Proof.
  intros Hc Hs Hd. unfold memcpy_avx2. rewrite Hc.
  destruct (chunk_loop_spec src 32 dst 0 0 len) as (j & r & [-> _] & ->); try lia.
  cbn [mbind res_bind]. pose proof (length_slice src 0 (Z.of_nat j)).
  destruct (Nat.leb_spec 16 r).
  - rewrite move_ok by (rewrite ?length_splice; lia). cbn [mbind res_bind].
    pose proof (length_slice src (0 + Z.of_nat j) 16).
    rewrite scalar_tail_spec, !Z.add_0_r by (rewrite ?length_splice; rewrite ?length_splice; lia).
    rewrite splice_chain by (rewrite ?length_splice; lia).
    rewrite splice_chain by lia. do 3 f_equal. lia.
  - rewrite scalar_tail_spec, !Z.add_0_r by (rewrite ?length_splice; lia).
    rewrite splice_chain by lia. by rewrite Nat2Z.inj_add.
Qed.

(** The ISA fact the dispatch relies on: a CPU that reports AVX-512F also
    has AVX2. *)
Definition isa_ok (c : cpu) : Prop := has_avx512f c = true → has_avx2 c = true.

(** The cell is either empty or holds what [detect] computed. *)
Definition oncelock_ok (c : cpu) (LEVEL : option SimdLevel) : Prop :=
  LEVEL = None ∨ LEVEL = Some (detect c).

Lemma simd_level_detect c LEVEL :
  oncelock_ok c LEVEL → simd_level c LEVEL = (detect c, Some (detect c)).
Proof. by intros [-> | ->]. Qed.

Lemma memcpy_dispatch_spec p c LEVEL (dst src : list Z) :
  isa_ok c → oncelock_ok c LEVEL → (length src ≤ length dst)%nat →
  memcpy_dispatch p c LEVEL dst src = Ok (splice dst 0 src).
Proof.
  intros Hisa Hcell Hlen. unfold memcpy_dispatch.
  assert (debug_assert p (length src <=? length dst)%nat = Ok ()) as ->.
  { destruct p; [|done]. simpl. by rewrite (proj2 (Nat.leb_le _ _) Hlen). }
  cbn [mbind res_bind]. rewrite (simd_level_detect c LEVEL Hcell). cbn [fst].
  pose proof (slice_full src) as Hfull. unfold detect.
  destruct (x86_64 c) eqn:Hx; [|by rewrite decide_True].
  destruct (has_avx512f c) eqn:H5.
  { rewrite memcpy_avx2_spec; [by rewrite Hfull|by apply Hisa|done..]. }
  destruct (has_avx2 c) eqn:H2.
  { rewrite memcpy_avx2_spec; [by rewrite Hfull|done..]. }
  destruct (has_sse42 c); rewrite memcpy_sse2_spec by done; by rewrite Hfull.
Qed.

(** ** Properties *)

(** C24: on every CPU and in both build profiles the dispatched copy (AVX2,
    SSE2 or portable) writes exactly the source bytes to the front of the
    destination and leaves every byte behind them alone, with no access
    outside either slice, no illegal instruction and no panic. *)
Theorem memcpy_dispatch_copies p c LEVEL (dst src : list Z) :
  isa_ok c → oncelock_ok c LEVEL → (length src ≤ length dst)%nat →
  memcpy_dispatch p c LEVEL dst src = Ok (src ++ drop (length src) dst).
Proof. intros. by rewrite memcpy_dispatch_spec. Qed.

Definition haswell : cpu := Cpu true true true false.

Lemma memcpy_dispatch_copies_witness :
  memcpy_dispatch Debug haswell None (replicate 60 7) (seqZ 0 55) =
  Ok (seqZ 0 55 ++ replicate 5 7).
Proof.
  rewrite (memcpy_dispatch_copies Debug haswell None);
    [reflexivity|intros [=]|by left|vm_compute; lia].
Defined.

(** The AVX2 and the SSE2 kernel compute the same result, so the level
    the CPU reports never changes what is copied. *)
Theorem memcpy_kernels_agree c (dst src : list Z) (len : nat) :
  has_avx2 c = true → (len ≤ length src)%nat → (len ≤ length dst)%nat →
  memcpy_avx2 c dst src len = memcpy_sse2 dst src len.
Proof. intros. by rewrite memcpy_avx2_spec, memcpy_sse2_spec. Qed.

Lemma memcpy_kernels_agree_witness :
  memcpy_avx2 haswell (replicate 50 0) (seqZ 0 50) 49 =
  memcpy_sse2 (replicate 50 0) (seqZ 0 50) 49.
Proof. apply (memcpy_kernels_agree haswell); [reflexivity|vm_compute; lia..]. Defined.
