(* ===== verification/Strs.v ===== *)
(** * Rust strings

    The parts of [str] the program uses: splitting, trimming, line
    iteration, prefix tests and [from_str_radix].  A [str] is the list of
    its Unicode scalar values, which is how [split], [trim] and the
    comparisons see it. *)

From S2P Require Import Prelude.

Abbreviation str := (list Z).

(** String literals. *)
Definition lit (s : string) : str :=
  (λ a, Z.of_N (Ascii.N_of_ascii a)) <$> String.list_ascii_of_string s.

(** [char::is_whitespace]: the Unicode White_Space property. *)
Definition is_whitespace (c : Z) : bool :=
  ((9 <=? c) && (c <=? 13)) || (c =? 32) || (c =? 133) || (c =? 160)
  || (c =? 5760) || ((8192 <=? c) && (c <=? 8202)) || (c =? 8232)
  || (c =? 8233) || (c =? 8239) || (c =? 8287) || (c =? 12288).

(** [split(p)]: never empty, one more piece than separators. *)
Fixpoint split (p : Z → bool) (s : str) : list str :=
  match s with
  | [] => [[]]
  | c :: s =>
      if p c then [] :: split p s
      else match split p s with
           | h :: t => (c :: h) :: t
           | [] => [[c]]
           end
  end.

Definition split_char (c : Z) : str → list str := split (Z.eqb c).

(** [split_whitespace]: the non-empty pieces. *)
Definition split_whitespace (s : str) : list str :=
  filter (λ w, w ≠ []) (split is_whitespace s).

Fixpoint split_once (c : Z) (s : str) : option (str * str) :=
  match s with
  | [] => None
  | a :: s =>
      if a =? c then Some ([], s)
      else '(x, y) ← split_once c s; Some (a :: x, y)
  end.

Fixpoint trim_start (s : str) : str :=
  match s with
  | c :: s' => if is_whitespace c then trim_start s' else s
  | [] => []
  end.

Definition trim_end (s : str) : str := reverse (trim_start (reverse s)).
Definition trim (s : str) : str := trim_end (trim_start s).

Fixpoint strip_prefix (p s : str) : option str :=
  match p, s with
  | [], _ => Some s
  | a :: p, b :: s => if a =? b then strip_prefix p s else None
  | _ :: _, [] => None
  end.

Definition starts_with (p s : str) : bool :=
  match strip_prefix p s with Some _ => true | None => false end.

(** [lines]: pieces end at a line feed; a carriage return before the line
    feed is dropped with it, and a final empty piece is not a line. *)
Definition strip_cr (s : str) : str :=
  match reverse s with
  | 13 :: r => reverse r
  | _ => s
  end.

Definition lines (s : str) : list str :=
  let pieces := split_char 10 s in
  let n := (length pieces - 1)%nat in
  (strip_cr <$> take n pieces) ++
  match drop n pieces with
  | [[]] => []
  | last => last
  end.

(** [char::to_digit] on the radixes in use. *)
Definition to_digit (radix c : Z) : option Z :=
  let d := if (48 <=? c) && (c <=? 57) then c - 48
           else if (97 <=? c) && (c <=? 122) then c - 87
           else if (65 <=? c) && (c <=? 90) then c - 55
           else radix in
  if d <? radix then Some d else None.

(** The accumulation loop of [from_str_radix] with its overflow check. *)
Fixpoint digits (w radix acc : Z) (s : str) : option Z :=
  match s with
  | [] => Some acc
  | c :: s =>
      d ← to_digit radix c;
      let r := acc * radix + d in
      if r <? 2 ^ w then digits w radix r s else None
  end.

(** [uN::from_str_radix(s, radix).ok()]: a leading [+] is accepted, a lone
    sign and the empty string are not; on an unsigned type [-] is not a
    digit. *)
Definition from_str_radix (w radix : Z) (s : str) : option Z :=
  match s with
  | [] => None
  | [43] => None
  | [45] => None
  | 43 :: s => digits w radix 0 s
  | s => digits w radix 0 s
  end.

(** [s.parse::<usize>().ok()] and [s.parse::<u64>().ok()]. *)
Definition parse_u64 : str → option Z := from_str_radix 64 10.

(** ** Printing, to state the round trips *)

(** Decimal display of an unsigned integer below [10^fuel]. *)
Fixpoint dec_go (fuel : nat) (z : Z) : str :=
  match fuel with
  | O => []
  | S f => (if z <? 10 then [] else dec_go f (z / 10)) ++ [48 + z mod 10]
  end.

(** 20 digits hold every [u64]. *)
Definition dec (z : Z) : str := dec_go 20 z.

Definition hex_digit (d : Z) : Z := if d <? 10 then 48 + d else 87 + d.
Definition hex2 (b : Z) : str := [hex_digit (b / 16); hex_digit (b mod 16)].

Fixpoint join (sep : Z) (l : list str) : str :=
  match l with
  | [] => []
  | [s] => s
  | s :: l => s ++ sep :: join sep l
  end.

(** ** Lemmas *)

Lemma split_not_nil p s : split p s ≠ [].
Proof. destruct s as [|c s]; simpl; [done|]. destruct (p c); [done|]. by destruct (split p s). Qed.

Lemma split_none p s : Forall (λ c, p c = false) s → split p s = [s].
Proof. induction 1 as [|c s Hc _ IH]; [done|]. simpl. by rewrite Hc, IH. Qed.

Lemma split_app p s c rest :
  Forall (λ c, p c = false) s → p c = true → split p (s ++ c :: rest) = s :: split p rest.
Proof.
  intros Hs Hc. induction Hs as [|a s Ha _ IH]; simpl; [by rewrite Hc|]. by rewrite Ha, IH.
Qed.

(** Splitting at the separator undoes joining with it. *)
Lemma split_join sep l :
  l ≠ [] → Forall (Forall (λ c, (sep =? c) = false)) l → split_char sep (join sep l) = l.
Proof.
  unfold split_char. intros Hne Hl. induction Hl as [|s l Hs Hl IH]; [done|].
  destruct l as [|s' l]; simpl; [by apply split_none|].
  rewrite split_app; [|done|lia]. f_equal. by apply IH.
Qed.

(** Concatenation splits at a separator. *)
Lemma split_app_sep sep s1 s2 :
  split_char sep (s1 ++ sep :: s2) = split_char sep s1 ++ split_char sep s2.
Proof.
  unfold split_char. induction s1 as [|a s1 IH]; simpl; [by rewrite Z.eqb_refl|].
  rewrite IH. destruct (sep =? a); [done|].
  destruct (split (Z.eqb sep) s1) eqn:E; [by apply split_not_nil in E|done].
Qed.

(** What precedes and what follows the first separator. *)
Lemma split_once_app sep a b :
  Forall (λ c, (sep =? c) = false) a → split_once sep (a ++ sep :: b) = Some (a, b).
Proof.
  induction 1 as [|c a Hc _ IH]; cbn; [by rewrite Z.eqb_refl|].
  rewrite Z.eqb_sym, Hc, IH. done.
Qed.

(** The value of a digit string, without the width check. *)
Fixpoint digits_val (radix acc : Z) (s : str) : option Z :=
  match s with
  | [] => Some acc
  | c :: s => d ← to_digit radix c; digits_val radix (acc * radix + d) s
  end.

Lemma to_digit_range radix c d : to_digit radix c = Some d → 0 ≤ d < radix.
Proof.
  unfold to_digit. intros H. repeat case_match; simplify_eq; split; lia.
Qed.

Lemma digits_val_ge radix acc s v :
  0 < radix → 0 ≤ acc → digits_val radix acc s = Some v → acc ≤ v.
Proof.
  intros Hr. revert acc. induction s as [|c s IH]; intros acc Ha Hv; simpl in Hv.
  { simplify_eq. lia. }
  destruct (to_digit radix c) as [d|] eqn:Hd; [|done]. simpl in Hv.
  apply to_digit_range in Hd. apply IH in Hv; nia.
Qed.

(** The running overflow check accepts exactly the values that fit. *)
Lemma digits_spec w radix acc s :
  0 < radix → fits w acc →
  digits w radix acc s =
    match digits_val radix acc s with
    | Some v => if v <? 2 ^ w then Some v else None
    | None => None
    end.
Proof.
  intros Hr. revert acc. induction s as [|c s IH]; intros acc Ha; simpl.
  { destruct Ha as [_ Ha]. by rewrite (proj2 (Z.ltb_lt _ _) Ha). }
  destruct (to_digit radix c) as [d|] eqn:Hd; [|done]. simpl.
  apply to_digit_range in Hd. destruct Ha as [Ha0 Ha].
  destruct (Z.ltb_spec (acc * radix + d) (2 ^ w)) as [Hlt|Hge].
  { apply IH. split; [nia|done]. }
  destruct (digits_val radix (acc * radix + d) s) as [v|] eqn:Hv; [|done].
  apply digits_val_ge in Hv; [|done|nia].
  by rewrite (proj2 (Z.ltb_ge _ _)) by lia.
Qed.

Lemma digits_val_app radix acc s1 s2 :
  digits_val radix acc (s1 ++ s2) = (digits_val radix acc s1 ≫= λ a, digits_val radix a s2).
Proof.
  revert acc. induction s1 as [|c s1 IH]; intros acc; simpl; [done|].
  destruct (to_digit radix c); simpl; [apply IH|done].
Qed.

Lemma to_digit_dec d : 0 ≤ d < 10 → to_digit 10 (48 + d) = Some d.
Proof.
  intros. unfold to_digit.
  replace ((48 <=? 48 + d) && (48 + d <=? 57)) with true by lia.
  replace (48 + d - 48) with d by lia. by rewrite (proj2 (Z.ltb_lt _ _)) by lia.
Qed.

Lemma dec_go_val f : ∀ z, 0 ≤ z < 10 ^ Z.of_nat f → digits_val 10 0 (dec_go f z) = Some z.
Proof.
  induction f as [|f IH]; intros z Hz.
  { simpl in *. f_equal. lia. }
  rewrite Nat2Z.inj_succ, Z.pow_succ_r in Hz by lia.
  cbn [dec_go]. rewrite digits_val_app.
  pose proof (Z.mod_pos_bound z 10 ltac:(lia)) as Hm.
  destruct (Z.ltb_spec z 10).
  - simpl. rewrite to_digit_dec by lia. simpl. f_equal. rewrite Z.mod_small; lia.
  - rewrite IH.
    + simpl. rewrite to_digit_dec by lia. simpl. f_equal.
      pose proof (Z.div_mod z 10). lia.
    + split; [apply Z.div_pos; lia|apply Z.div_lt_upper_bound; lia].
Qed.

(** Every character of a decimal number is a digit. *)
Definition is_dec_digit (c : Z) : Prop := 48 ≤ c ≤ 57.

Lemma dec_go_digits f z : 0 ≤ z → Forall is_dec_digit (dec_go f z).
Proof.
  revert z. induction f as [|f IH]; intros z Hz; [constructor|]. cbn [dec_go].
  apply Forall_app. split.
  - destruct (z <? 10); [constructor|]. apply IH. apply Z.div_pos; lia.
  - constructor; [|constructor]. unfold is_dec_digit.
    pose proof (Z.mod_pos_bound z 10 ltac:(lia)). lia.
Qed.

Lemma from_str_radix_digit w radix c s :
  48 ≤ c → from_str_radix w radix (c :: s) = digits w radix 0 (c :: s).
Proof.
  intros Hc. unfold from_str_radix. repeat case_match; simplify_eq; try done; lia.
Qed.

Lemma parse_u64_digits s :
  Forall is_dec_digit s → s ≠ [] →
  parse_u64 s =
    match digits_val 10 0 s with
    | Some v => if v <? 2 ^ 64 then Some v else None
    | None => None
    end.
Proof.
  intros Hs Hne. destruct Hs as [|c s Hc Hs]; [done|]. unfold is_dec_digit in Hc.
  unfold parse_u64. rewrite from_str_radix_digit by lia. apply digits_spec; [lia|width].
Qed.

Lemma dec_not_nil z : dec z ≠ [].
Proof. unfold dec. cbn [dec_go]. intros E. apply app_eq_nil in E as [_ ?]. done. Qed.

Lemma parse_dec z : is_u64 z → parse_u64 (dec z) = Some z.
Proof.
  intros Hz. pose proof Hz as [Hz0 Hz1].
  rewrite parse_u64_digits; [|by apply dec_go_digits|apply dec_not_nil].
  unfold dec. rewrite dec_go_val.
  - by rewrite (proj2 (Z.ltb_lt _ _) Hz1).
  - split; [done|]. etrans; [exact Hz1|]. vm_compute. done.
Qed.

(** *** Words and lines *)

Definition is_word (w : str) : Prop := w ≠ [] ∧ Forall (λ c, is_whitespace c = false) w.

Lemma split_whitespace_skip c s :
  is_whitespace c = true → split_whitespace (c :: s) = split_whitespace s.
Proof. intros Hc. unfold split_whitespace. simpl. by rewrite Hc, filter_cons_False by auto. Qed.

Lemma split_whitespace_word w c s :
  is_word w → is_whitespace c = true →
  split_whitespace (w ++ c :: s) = w :: split_whitespace s.
Proof.
  intros [Hne Hw] Hc. unfold split_whitespace.
  by rewrite split_app, filter_cons_True by done.
Qed.

Lemma split_whitespace_last w : is_word w → split_whitespace w = [w].
Proof.
  intros [Hne Hw]. unfold split_whitespace.
  by rewrite split_none, filter_cons_True by done.
Qed.

(** A run of blanks separates words like a single one. *)
Lemma split_whitespace_run ws s :
  Forall (λ c, is_whitespace c = true) ws → split_whitespace (ws ++ s) = split_whitespace s.
Proof. induction 1; simpl; [done|]. by rewrite split_whitespace_skip. Qed.

Lemma split_whitespace_gap w ws s :
  is_word w → ws ≠ [] → Forall (λ c, is_whitespace c = true) ws →
  split_whitespace (w ++ ws ++ s) = w :: split_whitespace s.
Proof.
  intros Hw Hne Hws. destruct Hws as [|c ws Hc Hws]; [done|]. simpl.
  rewrite split_whitespace_word by done. by rewrite split_whitespace_run.
Qed.

(** A text line: no line feed inside and no carriage return at its end. *)
Definition is_line (l : str) : Prop :=
  Forall (λ c, (10 =? c) = false) l ∧ strip_cr l = l.

Definition unlines (ls : list str) : str := concat ((λ l, l ++ [10]) <$> ls).

Lemma split_unlines ls :
  Forall (Forall (λ c, (10 =? c) = false)) ls → split_char 10 (unlines ls) = ls ++ [[]].
Proof.
  unfold unlines, split_char. induction 1 as [|l ls Hl _ IH]; [done|].
  rewrite fmap_cons. cbn [concat]. rewrite <- app_assoc. cbn [app].
  rewrite split_app by done. by rewrite IH.
Qed.

Lemma lines_unlines ls : Forall is_line ls → lines (unlines ls) = ls.
Proof.
  intros Hls. unfold lines. rewrite split_unlines.
  2:{ eapply Forall_impl; [exact Hls|]. by intros l [? _]. }
  rewrite length_app. cbn [length]. replace (_ + 1 - 1)%nat with (length ls) by lia.
  rewrite take_app_length, drop_app_length, app_nil_r.
  rewrite <- (list_fmap_id ls) at 2. apply list_fmap_ext. intros i l Hl.
  rewrite Forall_lookup in Hls. by destruct (Hls i l Hl).
Qed.

(** *** Hexadecimal *)

Lemma parse_hex2 b : is_u8 b → from_str_radix 8 16 (hex2 b) = Some b.
Proof. revert b. apply (u8_cases _). vm_compute. reflexivity. Qed.

Lemma hex2_no_sep b : is_u8 b → Forall (λ c, (58 =? c) = false) (hex2 b).
Proof. revert b. apply (u8_cases _). vm_compute. reflexivity. Qed.

Lemma hex2_word b : is_u8 b → Forall (λ c, is_whitespace c = false) (hex2 b).
Proof. revert b. apply (u8_cases _). vm_compute. reflexivity. Qed.

Lemma dec_no_sep z sep : 0 ≤ z → sep < 48 → Forall (λ c, (sep =? c) = false) (dec z).
Proof.
  intros Hz Hs. eapply Forall_impl; [by apply dec_go_digits|].
  unfold is_dec_digit. intros c Hc. lia.
Qed.

Lemma digit_not_space c : is_dec_digit c → is_whitespace c = false.
Proof. unfold is_dec_digit, is_whitespace. intros H. lia. Qed.

Lemma dec_inj a b : is_u64 a → is_u64 b → dec a = dec b → a = b.
Proof. intros Ha Hb E. apply parse_dec in Ha, Hb. congruence. Qed.

Lemma strip_cr_snoc s c : c ≠ 13 → strip_cr (s ++ [c]) = s ++ [c].
Proof.
  intros Hc. unfold strip_cr. rewrite reverse_app. cbn [reverse rev_append app].
  repeat case_match; simplify_eq; done.
Qed.

Lemma word_no_lf w : Forall (λ c, is_whitespace c = false) w → Forall (λ c, (10 =? c) = false) w.
Proof.
  intros Hw. eapply Forall_impl; [exact Hw|]. intros c Hc. apply Z.eqb_neq.
  intros <-. done.
Qed.

(** Words separated by single tabs, with blanks behind, split back. *)
Lemma split_whitespace_spaces n : split_whitespace (replicate n 32) = [].
Proof. induction n; [done|]. cbn [replicate]. by rewrite split_whitespace_skip. Qed.

Lemma split_whitespace_join ws n :
  Forall is_word ws → split_whitespace (join 9 ws ++ replicate n 32) = ws.
Proof.
  induction 1 as [|w ws Hw H IH]; [apply split_whitespace_spaces|]. cbn [join].
  destruct ws as [|w' ws].
  - destruct n as [|n]; [rewrite app_nil_r; by apply split_whitespace_last|].
    cbn [replicate]. by rewrite split_whitespace_word, split_whitespace_spaces.
  - rewrite <- app_assoc. cbn [app]. by rewrite split_whitespace_word, IH.
Qed.

(** *** Fixed-width hexadecimal, as [%0nX] prints it *)

Definition HEX_digit (d : Z) : Z := if d <? 10 then 48 + d else 55 + d.

Fixpoint hexn (n : nat) (z : Z) : str :=
  match n with
  | O => []
  | S n => hexn n (z / 16) ++ [HEX_digit (z mod 16)]
  end.

Lemma to_digit_HEX d : 0 ≤ d < 16 → to_digit 16 (HEX_digit d) = Some d.
Proof.
  intros Hd. assert (d ∈ seqZ 0 16) as Hin by (apply elem_of_seqZ; lia). clear Hd. revert d Hin.
  apply Forall_forall. apply (bool_decide_unpack _). vm_compute. exact I.
Qed.

Lemma hexn_val n : ∀ z, 0 ≤ z < 16 ^ Z.of_nat n → digits_val 16 0 (hexn n z) = Some z.
Proof.
  induction n as [|n IH]; intros z Hz.
  { simpl in *. f_equal. lia. }
  rewrite Nat2Z.inj_succ, Z.pow_succ_r in Hz by lia. cbn [hexn]. rewrite digits_val_app, IH.
  - pose proof (Z.mod_pos_bound z 16 ltac:(lia)). cbn. rewrite to_digit_HEX by lia. cbn. f_equal.
    pose proof (Z.div_mod z 16). lia.
  - split; [apply Z.div_pos; lia|apply Z.div_lt_upper_bound; lia].
Qed.

Lemma hexn_chars n z : 0 ≤ z → Forall (λ c, 48 ≤ c ≤ 70) (hexn n z).
Proof.
  revert z. induction n as [|n IH]; intros z Hz; [constructor|]. cbn [hexn].
  apply Forall_app. split; [apply IH, Z.div_pos; lia|]. constructor; [|constructor].
  pose proof (Z.mod_pos_bound z 16 ltac:(lia)). unfold HEX_digit.
  destruct (Z.ltb_spec (z mod 16) 10); lia.
Qed.

Lemma length_hexn n z : length (hexn n z) = n.
Proof. revert z. induction n; intros z; [done|]. cbn. rewrite length_app, IHn. cbn. lia. Qed.

Lemma hexn_word n z : 0 ≤ z → is_word (hexn (S n) z).
Proof.
  intros Hz. split.
  - intros E. apply (f_equal length) in E. by rewrite length_hexn in E.
  - eapply Forall_impl; [by apply hexn_chars|]. intros c Hc. cbn in Hc. unfold is_whitespace. lia.
Qed.

Lemma parse_hex8 z : is_u32 z → from_str_radix 32 16 (hexn 8 z) = Some z.
Proof.
  intros [Hz0 Hz1]. pose proof (hexn_chars 8 z Hz0) as Hc. pose proof (hexn_val 8 z) as Hv.
  pose proof (length_hexn 8 z) as Hl. destruct (hexn 8 z) as [|c s]; [done|].
  apply Forall_cons in Hc as [Hc _]. rewrite from_str_radix_digit by lia.
  rewrite digits_spec; [|lia|width]. rewrite Hv by (split; [done|exact Hz1]).
  by rewrite (proj2 (Z.ltb_lt _ _) Hz1).
Qed.

Lemma strip_prefix_app p s r : strip_prefix p s = Some r → s = p ++ r.
Proof.
  revert s. induction p as [|a p IH]; intros s H; cbn in H; [by simplify_eq|].
  destruct s as [|b s]; [done|]. destruct (Z.eqb_spec a b) as [->|]; [|done].
  cbn. f_equal. by apply IH.
Qed.
