(* ===== verification/Affinity.v ===== *)
(** * CPU lists and pinning ([src/affinity.rs])

    The CPUs of the process, the cpulist parser behind [--cpus] and the
    NUMA lookup behind [--numa].  The affinity system calls are arguments:
    [sched_getaffinity] is the set it filled in, [None] when it failed;
    [CpuSets] is what [libc] offers for building a set and passing it to the
    kernel, with the documented behaviour in [CpuSetsOk]. *)

From S2P Require Import Prelude Strs.

(** [libc::CPU_SETSIZE]: the number of CPUs a [cpu_set_t] describes. *)
Definition CPU_SETSIZE : Z := 1024.

Definition online_cpus (sched_getaffinity : option (Z → bool)) : list Z :=
  let v := match sched_getaffinity with
           | Some isset => filter (λ c, isset c = true) (seqZ 0 CPU_SETSIZE)
           | None => []
           end in
  match v with [] => v ++ [0] | _ => v end.

(** What [libc] offers for pinning: the cleared set, setting a CPU's bit, and
    the system call, whose answer is [0] on success. *)
Class CpuSets : Type := {
  cpu_set : Type;
  CPU_ZERO : cpu_set;
  CPU_SET : Z → cpu_set → res cpu_set;
  sched_setaffinity : cpu_set → Z;
}.

(** [CPU_SET] indexes an array of [CPU_SETSIZE] bits, with Rust's bounds
    check. *)
Class CpuSetsOk (L : CpuSets) : Prop := {
  CPU_SET_ok c s : 0 ≤ c < CPU_SETSIZE → ∃ s', CPU_SET c s = Ok s';
  CPU_SET_panics c s : ¬ 0 ≤ c < CPU_SETSIZE → CPU_SET c s = Panic;
}.

(** [pin_to_cpu]: a set with the one CPU is passed to the kernel, whose
    answer decides. *)
Definition pin_to_cpu {L : CpuSets} (cpu : Z) : res bool :=
  set ← CPU_SET cpu CPU_ZERO;
  Ok (sched_setaffinity set =? 0).

(** One comma-separated part of a cpulist: a range, a single CPU, or
    nothing when it does not parse. *)
Definition parse_part (part : str) : list Z :=
  let part := trim part in
  match part with
  | [] => []
  | _ =>
      match split_once 45 part with
      | Some (a, b) =>
          match parse_u64 (trim a), parse_u64 (trim b) with
          | Some a, Some b => seqZ a (b - a + 1)
          | _, _ => []
          end
      | None =>
          match parse_u64 part with
          | Some c => [c]
          | None => []
          end
      end
  end.

Definition parse_cpulist (s : str) : list Z :=
  concat (parse_part <$> split_char 44 s).

(** [numa_cpus]; [cpulist] is what reading the node's sysfs file gave. *)
Definition numa_cpus (cpulist : option str) : list Z :=
  match cpulist with
  | Some s => parse_cpulist (trim s)
  | None => []
  end.

(** [resolve_cpus]; [node_file] reads a node's cpulist. *)
Definition resolve_cpus (node_file : Z → option str) (cpus : option str) (numa : option Z)
    : list Z :=
  match cpus, numa with
  | Some list, _ => parse_cpulist list
  | None, Some n => numa_cpus (node_file n)
  | None, None => []
  end.

(** ** The kernel's cpulist format *)

(** A list of CPUs cut into maximal runs of consecutive numbers. *)
Fixpoint runs (l : list Z) : list (Z * Z) :=
  match l with
  | [] => []
  | c :: l =>
      match runs l with
      | (a, b) :: r => if decide (a = c + 1) then (c, b) :: r else (c, c) :: (a, b) :: r
      | [] => [(c, c)]
      end
  end.

Definition print_run (r : Z * Z) : str :=
  if decide (r.1 = r.2) then dec r.1 else dec r.1 ++ 45 :: dec r.2.

(** How the kernel prints a CPU set ([%*pbl]): runs in order, separated by
    commas. *)
Definition print_cpulist (l : list Z) : str := join 44 (print_run <$> runs l).

(** ** Lemmas *)

Definition expand (r : Z * Z) : list Z := seqZ r.1 (r.2 - r.1 + 1).

Lemma seqZ_run c b : c ≤ b → c :: seqZ (c + 1) (b - c) = seqZ c (b - c + 1).
Proof.
  intros H. rewrite (seqZ_cons c) by lia. f_equal. f_equal; lia.
Qed.

Lemma runs_ok l : Forall is_u64 l →
  Forall (λ r, is_u64 r.1 ∧ is_u64 r.2 ∧ r.1 ≤ r.2) (runs l) ∧ concat (expand <$> runs l) = l.
Proof.
  induction 1 as [|c l Hc Hl [IH1 IH2]]; [done|]. cbn [runs].
  assert (expand (c, c) = [c]) as Hsingle.
  { unfold expand. cbn. by replace (c - c + 1) with 1 by lia. }
  destruct (runs l) as [|[a b] r].
  { split; [constructor; [by split_and!|done]|]. cbn in IH2 |- *. by rewrite Hsingle, <- IH2. }
  apply Forall_cons in IH1 as [(Ha & Hb & Hab) Hr]. cbn in Ha, Hb, Hab.
  case_decide as E; split.
  - constructor; [|done]. cbn. split_and!; [done|done|lia].
  - rewrite <- IH2. cbn. subst a. unfold expand. cbn.
    rewrite <- seqZ_run by lia. cbn. do 2 f_equal. f_equal. lia.
  - constructor; [by split_and!|]. by constructor.
  - rewrite <- IH2 at 1. cbn. by rewrite Hsingle.
Qed.

(** [trim] strips nothing from a word, and only the newline behind one. *)
Lemma trim_start_word s : Forall (λ c, is_whitespace c = false) s → trim_start s = s.
Proof. destruct 1 as [|c s Hc _]; [done|]. cbn. by rewrite Hc. Qed.

Lemma trim_word s : Forall (λ c, is_whitespace c = false) s → trim s = s.
Proof.
  intros H. unfold trim, trim_end. rewrite (trim_start_word s H), trim_start_word.
  - apply reverse_involutive.
  - by apply Forall_reverse.
Qed.

Lemma trim_newline s : Forall (λ c, is_whitespace c = false) s → trim (s ++ [10]) = s.
Proof.
  intros H. unfold trim, trim_end. destruct H as [|c s Hc Hs]; [done|].
  cbn [app trim_start]. rewrite Hc, app_comm_cons, reverse_snoc.
  change (trim_start (10 :: reverse (c :: s))) with (trim_start (reverse (c :: s))).
  rewrite trim_start_word; [apply reverse_involutive|].
  apply Forall_reverse. by constructor.
Qed.

Lemma dec_not_space z : 0 ≤ z → Forall (λ c, is_whitespace c = false) (dec z).
Proof.
  intros Hz. eapply Forall_impl; [by apply dec_go_digits|]. apply digit_not_space.
Qed.

Lemma print_run_chars r : 0 ≤ r.1 → 0 ≤ r.2 →
  Forall (λ c, is_whitespace c = false) (print_run r) ∧ Forall (λ c, (44 =? c) = false) (print_run r).
Proof.
  intros Ha Hb. unfold print_run.
  pose proof (dec_no_sep _ 44 Ha ltac:(lia)). pose proof (dec_no_sep _ 44 Hb ltac:(lia)).
  pose proof (dec_not_space _ Ha). pose proof (dec_not_space _ Hb).
  case_decide; [by split|]. split; apply Forall_app; split; try done; by constructor.
Qed.

Lemma split_once_none sep a : Forall (λ c, (sep =? c) = false) a → split_once sep a = None.
Proof.
  induction 1 as [|c a Hc _ IH]; cbn; [done|]. by rewrite Z.eqb_sym, Hc, IH.
Qed.

Lemma print_run_not_nil r : print_run r ≠ [].
Proof.
  unfold print_run. pose proof (dec_not_nil r.1). case_decide; [done|].
  intros E. apply app_eq_nil in E as [? _]. done.
Qed.

(** A printed run parses to its CPUs. *)
Lemma parse_print_run r : is_u64 r.1 → is_u64 r.2 → parse_part (print_run r) = expand r.
Proof.
  intros Ha Hb. pose proof Ha as [Ha0 _]. pose proof Hb as [Hb0 _]. unfold parse_part.
  rewrite trim_word by (by apply print_run_chars).
  destruct (print_run r) as [|c s] eqn:E; [by apply print_run_not_nil in E|]. rewrite <- E. clear E c s.
  unfold print_run, expand. case_decide as E.
  - rewrite split_once_none by (apply dec_no_sep; lia). rewrite parse_dec by done.
    rewrite E. by replace (r.2 - r.2 + 1) with 1 by lia.
  - rewrite split_once_app by (apply dec_no_sep; lia).
    by rewrite !trim_word, !parse_dec by (done || by apply dec_not_space).
Qed.

Lemma join_forall (P : Z → Prop) sep l : P sep → Forall (Forall P) l → Forall P (join sep l).
Proof.
  intros Hs. induction 1 as [|s l Hl H IH]; [constructor|]. cbn.
  destruct l; [done|]. apply Forall_app. split; [done|]. by constructor.
Qed.

Lemma parse_print_cpulist l : Forall is_u64 l → parse_cpulist (print_cpulist l) = l.
Proof.
  intros H. destruct (runs_ok l H) as [Hr Hl]. unfold parse_cpulist, print_cpulist.
  destruct (decide (runs l = [])) as [E|Hne]; [rewrite E in *; by rewrite <- Hl|].
  rewrite split_join.
  - rewrite <- list_fmap_compose. rewrite <- Hl at 2. f_equal. apply list_fmap_ext.
    intros i r Hi. rewrite Forall_lookup in Hr. destruct (Hr i r Hi) as (? & ? & _).
    by apply parse_print_run.
  - by destruct (runs l).
  - apply Forall_fmap. eapply Forall_impl; [exact Hr|]. intros r ([? _] & [? _] & _).
    by apply print_run_chars.
Qed.

Lemma print_cpulist_not_space l :
  Forall is_u64 l → Forall (λ c, is_whitespace c = false) (print_cpulist l).
Proof.
  intros H. destruct (runs_ok l H) as [Hr _]. apply join_forall; [done|]. apply Forall_fmap.
  eapply Forall_impl; [exact Hr|]. intros r ([? _] & [? _] & _). by apply print_run_chars.
Qed.

Lemma online_cpus_not_nil a : online_cpus a ≠ [].
Proof. unfold online_cpus. by destruct (match a with Some _ => _ | None => _ end). Qed.

(** The CPUs a set can hold. *)
Definition cpus_fit (cpus : list Z) : Prop := Forall (λ c, 0 ≤ c < CPU_SETSIZE) cpus.

#[export] Instance cpus_fit_dec cpus : Decision (cpus_fit cpus).
Proof. unfold cpus_fit. apply _. Defined.

(** Whatever the kernel answers, pinning goes on with a CPU of the set, and
    panics with any other. *)
Lemma pin_to_cpu_ok {L : CpuSets} `{!CpuSetsOk L} c : 0 ≤ c < CPU_SETSIZE → ∃ b, pin_to_cpu c = Ok b.
Proof. intros Hc. unfold pin_to_cpu. destruct (CPU_SET_ok c CPU_ZERO Hc) as [s ->]. by eexists. Qed.

Lemma pin_to_cpu_panics {L : CpuSets} `{!CpuSetsOk L} c : ¬ 0 ≤ c < CPU_SETSIZE → pin_to_cpu c = Panic.
Proof. intros Hc. unfold pin_to_cpu. by rewrite CPU_SET_panics. Qed.

(** A set as a number with a bit per CPU, on a machine with [n] CPUs, where
    the kernel refuses a set without one of them. *)
Definition bit_sets (n : Z) : CpuSets := {|
  cpu_set := Z;
  CPU_ZERO := 0;
  CPU_SET c s := if decide (0 ≤ c < CPU_SETSIZE) then Ok (Z.setbit s c) else Panic;
  sched_setaffinity s := if Z.land s (2 ^ n - 1) =? 0 then -1 else 0;
|}.

Lemma bit_sets_ok n : CpuSetsOk (bit_sets n).
Proof.
  split; intros c s Hc; cbn.
  - rewrite decide_True by done. by eexists.
  - by rewrite decide_False.
Qed.

(** ** Properties *)

(** C40: the CPU list the kernel prints for a NUMA node, newline included,
    is read back as exactly the node's CPUs, in order: ranges are inclusive
    at both ends, singletons and ranges mix freely, and the empty list of a
    memory-only node gives no CPU. *)
Theorem numa_cpus_roundtrip l :
  Forall is_u64 l → numa_cpus (Some (print_cpulist l ++ [10])) = l.
Proof.
  intros H. unfold numa_cpus. rewrite trim_newline by (by apply print_cpulist_not_space).
  by apply parse_print_cpulist.
Qed.

Lemma numa_cpus_roundtrip_witness :
  print_cpulist [0; 1; 2; 3; 8; 10; 11] = lit "0-3,8,10-11"
  ∧ numa_cpus (Some (print_cpulist [0; 1; 2; 3; 8; 10; 11] ++ [10])) = [0; 1; 2; 3; 8; 10; 11].
Proof.
  split; [vm_compute; reflexivity|].
  apply numa_cpus_roundtrip. apply (bool_decide_unpack _). vm_compute. exact I.
Defined.

(** The parts of a cpulist are independent: a list around a comma is
    the concatenation of the two lists, so a malformed part contributes
    nothing and hides nothing, and CPUs keep the order they are given in. *)
Theorem parse_cpulist_app s1 s2 :
  parse_cpulist (s1 ++ 44 :: s2) = parse_cpulist s1 ++ parse_cpulist s2.
Proof. unfold parse_cpulist. by rewrite split_app_sep, fmap_app, concat_app. Qed.

(** [online_cpus] is never empty; when the kernel reports a non-empty
    set it is exactly that set's CPUs below 1024 in ascending order, and
    CPU 0 otherwise. *)
Theorem online_cpus_spec affinity :
  online_cpus affinity ≠ []
  ∧ (∀ isset, affinity = Some isset → (∃ c, 0 ≤ c < CPU_SETSIZE ∧ isset c = true) →
       (∀ c, c ∈ online_cpus affinity ↔ 0 ≤ c < CPU_SETSIZE ∧ isset c = true)
       ∧ online_cpus affinity `sublist_of` seqZ 0 CPU_SETSIZE)
  ∧ (∀ isset, affinity = Some isset → (∀ c, 0 ≤ c < CPU_SETSIZE → isset c = false) →
       online_cpus affinity = [0])
  ∧ (affinity = None → online_cpus affinity = [0]).
Proof.
  split_and!; [apply online_cpus_not_nil|..|by intros ->]; intros isset ->; unfold online_cpus.
  - intros (c0 & Hc0). set (v := filter _ (seqZ 0 CPU_SETSIZE)).
    assert (∀ c, c ∈ v ↔ 0 ≤ c < CPU_SETSIZE ∧ isset c = true) as Hv.
    { intros c. unfold v. rewrite list_elem_of_filter, elem_of_seqZ. naive_solver. }
    destruct v as [|x v'] eqn:E; [by apply Hv, elem_of_nil in Hc0|]. split; [done|].
    rewrite <- E. apply sublist_filter.
  - intros Hno. destruct (filter _ _) as [|x v] eqn:E; [done|].
    assert (x ∈ filter (λ c, isset c = true) (seqZ 0 CPU_SETSIZE)) as Hx by (rewrite E; left).
    apply list_elem_of_filter in Hx as [Hx Hr]. apply elem_of_seqZ in Hr.
    rewrite Hno in Hx; [done|lia].
Qed.
