(* ===== verification/Frame.v ===== *)
(** * Ethernet/IPv4/UDP frames ([src/xdp/frame.rs])

    The header template, the per-frame stamping with the IPv4 header
    checksum, and the MAC address parser; then an independent decoder for
    UDP datagrams in Ethernet frames (RFC 791, RFC 768, RFC 1071) and the
    proof that it reads back exactly what was stamped. *)

From S2P Require Import Prelude Strs Simd.

Definition ETH_HDR : Z := 14.
Definition IPV4_HDR : Z := 20.
Definition UDP_HDR : Z := 8.
Definition OUTER_HDR : Z := ETH_HDR + IPV4_HDR + UDP_HDR.

(** [struct FrameHeader]: the 42-byte template. *)
Record FrameHeader : Type := mkFrameHeader { tpl : list Z }.

(** [l[i] = v] at an index in range. *)
Definition upd (i v : Z) (l : list Z) : list Z := <[Z.to_nat i := v]> l.

(** [FrameHeader::new].  A MAC address is 6 bytes, an [Ipv4Addr] its 4
    octets. *)
Definition FrameHeader_new (src_mac dst_mac src_ip dst_ip : list Z) (src_port dst_port : Z)
    : FrameHeader :=
  let t := replicate (Z.to_nat OUTER_HDR) 0 in
  let t := splice t 0 dst_mac in
  let t := splice t 6 src_mac in
  let t := splice t 12 [0x08; 0x00] in
  let t := upd ETH_HDR 0x45 t in
  let t := upd (ETH_HDR + 6) 0x40 t in
  let t := upd (ETH_HDR + 8) 64 t in
  let t := upd (ETH_HDR + 9) 17 t in
  let t := splice t (ETH_HDR + 12) src_ip in
  let t := splice t (ETH_HDR + 16) dst_ip in
  let t := upd (ETH_HDR + IPV4_HDR) (hi8 src_port) t in
  let t := upd (ETH_HDR + IPV4_HDR + 1) (lo8 src_port) t in
  let t := upd (ETH_HDR + IPV4_HDR + 2) (hi8 dst_port) t in
  let t := upd (ETH_HDR + IPV4_HDR + 3) (lo8 dst_port) t in
  mkFrameHeader t.

(** ** The checksum *)

(** [for i in 0..(hdr.len() / 2) { sum += u16::from_be_bytes(..) as u32 }]. *)
Fixpoint sum_words (p : profile) (sum : Z) (hdr : list Z) : res Z :=
  match hdr with
  | a :: b :: hdr => sum ← arith p 32 (sum + be16 a b); sum_words p sum hdr
  | _ => Ok sum
  end.

(** [while sum >> 16 != 0 { sum = (sum & 0xFFFF) + (sum >> 16) }], at most
    [fuel] rounds. *)
Fixpoint fold_carry (fuel : nat) (sum : Z) : Z :=
  match fuel with
  | O => sum
  | S fuel =>
      if Z.shiftr sum 16 =? 0 then sum
      else fold_carry fuel (Z.land sum 0xFFFF + Z.shiftr sum 16)
  end.

(** Two rounds bring every [u32] below [2^16] ([fold_carry_exits]). *)
Definition CARRY_ROUNDS : nat := 2.

(** [!(x as u16)]. *)
Definition not16 (x : Z) : Z := Z.land (Z.lnot (wrap 16 x)) 0xFFFF.

Definition ipv4_checksum (p : profile) (hdr : list Z) : res Z :=
  sum ← sum_words p 0 hdr;
  Ok (not16 (fold_carry CARRY_ROUNDS sum)).

(** ** Stamping a frame *)

Section write_frame.
Context (p : profile) (c : cpu) (LEVEL : option SimdLevel).

(** [write_frame]: the buffer afterwards and the frame length. *)
Definition write_frame (h : FrameHeader) (out dns : list Z) : res (list Z * Z) :=
  let total := OUTER_HDR + zlen dns in
  let udp_len := wrap 16 (UDP_HDR + zlen dns) in
  ip_tot ← arith p 16 (IPV4_HDR + udp_len);
  debug_assert p (total <=? zlen out);;
  (* out[..OUTER_HDR].copy_from_slice(&self.tpl) *)
  if decide (OUTER_HDR ≤ zlen out) then
    let out := splice out 0 (tpl h) in
    let out := upd (ETH_HDR + 2) (hi8 ip_tot) out in
    let out := upd (ETH_HDR + 3) (lo8 ip_tot) out in
    cksum ← ipv4_checksum p (slice out ETH_HDR IPV4_HDR);
    let out := upd (ETH_HDR + 10) (hi8 cksum) out in
    let out := upd (ETH_HDR + 11) (lo8 cksum) out in
    let out := upd (ETH_HDR + IPV4_HDR + 4) (hi8 udp_len) out in
    let out := upd (ETH_HDR + IPV4_HDR + 5) (lo8 udp_len) out in
    (* &mut out[OUTER_HDR..total] *)
    if decide (total ≤ zlen out) then
      dst ← memcpy_dispatch p c LEVEL (slice out OUTER_HDR (zlen dns)) dns;
      Ok (splice out OUTER_HDR dst, total)
    else Panic
  else Panic.
End write_frame.

(** ** MAC addresses *)

(** The parsing loop of [parse_mac]: [u8::from_str_radix(x, 16).ok()?]. *)
Fixpoint parse_octets (l : list str) : option (list Z) :=
  match l with
  | [] => Some []
  | x :: l => b ← from_str_radix 8 16 x; m ← parse_octets l; Some (b :: m)
  end.

Definition parse_mac (s : str) : option (list Z) :=
  let l := split_char 58 s in
  if decide (length l = 6%nat) then parse_octets l else None.

(** ** The ARP table *)

(** [Ipv4Addr]'s [Display]. *)
Definition ipv4_display (ip : list Z) : str := join 46 (dec <$> ip).

(** The loop of [lookup_arp] over the table's lines, header skipped. *)
Fixpoint arp_lines (target : str) (l : list str) : option (list Z) :=
  match l with
  | [] => None
  | line :: l =>
      match split_whitespace line with
      | [] => None
      | ip :: rest =>
          if decide (ip = target) then
            match rest with
            | _hw :: flags :: rest =>
                if decide (flags = lit "0x0") then None
                else match rest with
                     | mac :: _ => parse_mac mac
                     | [] => None
                     end
            | _ => None
            end
          else arp_lines target l
      end
  end.

(** [lookup_arp]; [content] is what reading [/proc/net/arp] gave. *)
Definition lookup_arp (content : option str) (server : list Z) : option (list Z) :=
  content ← content;
  arp_lines (ipv4_display server) (drop 1 (lines content)).

(** [resolve_server_mac]: one lookup, then up to five more after the ARP
    probe; [arp n] is the table at the [n]-th read. *)
Fixpoint arp_retry (arp : nat → option str) (n tries : nat) (server : list Z) : option (list Z) :=
  match tries with
  | O => None
  | S tries =>
      match lookup_arp (arp n) server with
      | Some m => Some m
      | None => arp_retry arp (S n) tries server
      end
  end.

Definition resolve_server_mac (arp : nat → option str) (server : list Z) : option (list Z) :=
  match lookup_arp (arp 0%nat) server with
  | Some m => Some m
  | None => arp_retry arp 1 5 server
  end.

(** What the resolution does to the outside: a UDP socket that is bound and
    connected, so that the kernel asks for the MAC, and pauses. *)
Inductive arp_effect : Type :=
| UdpBind (ip : list Z) (port : Z)
| UdpConnect (ip : list Z) (port : Z)
| ArpSleep (ms : Z).

(** [trigger_arp]; [bound] tells whether the socket could be bound. *)
Definition trigger_arp (bound : bool) (server : list Z) : list arp_effect :=
  UdpBind [0; 0; 0; 0] 0 :: (if bound then [UdpConnect server 53] else []).

Fixpoint arp_waits (arp : nat → option str) (n tries : nat) (server : list Z) : list arp_effect :=
  match tries with
  | O => []
  | S tries =>
      ArpSleep 60 ::
        match lookup_arp (arp n) server with
        | Some _ => []
        | None => arp_waits arp (S n) tries server
        end
  end.

(** The effects of [resolve_server_mac]. *)
Definition resolve_effects (arp : nat → option str) (bound : bool) (server : list Z) : list arp_effect :=
  match lookup_arp (arp 0%nat) server with
  | Some _ => []
  | None => trigger_arp bound server ++ arp_waits arp 1 5 server
  end.

(** [local_mac]; [address] is the content of the interface's sysfs file. *)
Definition local_mac (address : option str) : option (list Z) :=
  s ← address; parse_mac (trim s).

(** ** Checksum lemmas *)

(** The sum of the big-endian 16-bit words. *)
Fixpoint words_sum (l : list Z) : Z :=
  match l with
  | a :: b :: l => be16 a b + words_sum l
  | _ => 0
  end.

Lemma words_ind (P : list Z → Prop) :
  P [] → (∀ a, P [a]) → (∀ a b l, P l → P (a :: b :: l)) → ∀ l, P l.
Proof.
  intros H0 H1 H2. fix IH 1. intros [|a [|b l]]; [done|done|]. apply H2, IH.
Qed.

Lemma words_sum_bound l : is_bytes l → 0 ≤ words_sum l ≤ 65535 * (zlen l / 2).
Proof.
  induction l as [|a|a b l IH] using words_ind; intros Hb; [done|done|].
  apply Forall_cons in Hb as [Ha Hb]. apply Forall_cons in Hb as [Hb Hl].
  cbn [words_sum length]. specialize (IH Hl).
  replace (Z.of_nat (S (S (length l))) / 2) with (zlen l / 2 + 1)
    by (Z.div_mod_to_equations; lia).
  unfold be16. width.
Qed.

Lemma sum_words_ok p l : ∀ sum,
  is_bytes l → 0 ≤ sum → sum + 65535 * (zlen l / 2) < 2 ^ 32 →
  sum_words p sum l = Ok (sum + words_sum l).
Proof.
  induction l as [|a|a b l IH] using words_ind; intros sum Hb Hs Hlt;
    [by rewrite Z.add_0_r|by rewrite Z.add_0_r|].
  apply Forall_cons in Hb as [Ha Hb]. apply Forall_cons in Hb as [Hb Hl].
  cbn [words_sum sum_words length] in *.
  replace (Z.of_nat (S (S (length l))) / 2) with (zlen l / 2 + 1) in Hlt
    by (Z.div_mod_to_equations; lia).
  assert (0 ≤ zlen l / 2) by (apply Z.div_pos; lia).
  assert (0 ≤ be16 a b ≤ 65535) by (unfold be16; width).
  rewrite arith_fits by (split; lia). cbn [mbind res_bind].
  rewrite IH by (done || lia). f_equal. lia.
Qed.

Lemma fold_round sum :
  Z.land sum 0xFFFF + Z.shiftr sum 16 = sum - 65535 * (sum / 65536).
Proof.
  change 0xFFFF with (2 ^ 16 - 1). rewrite land_mask, Z.shiftr_div_pow2 by lia.
  change (2 ^ 16) with 65536. pose proof (Z.div_mod sum 65536). lia.
Qed.

Lemma fold_carry_S fuel sum :
  fold_carry (S fuel) sum =
    if sum / 65536 =? 0 then sum else fold_carry fuel (sum - 65535 * (sum / 65536)).
Proof.
  cbn [fold_carry]. rewrite Z.shiftr_div_pow2 by lia. change (2 ^ 16) with 65536.
  by rewrite <- fold_round, Z.shiftr_div_pow2 by lia.
Qed.

(** Folding keeps the value modulo [65535] and its being positive. *)
Lemma fold_carry_mod fuel : ∀ sum, 0 ≤ sum →
  fold_carry fuel sum mod 65535 = sum mod 65535
  ∧ (0 < sum → 0 < fold_carry fuel sum) ∧ 0 ≤ fold_carry fuel sum.
Proof.
  induction fuel as [|fuel IH]; intros sum Hs; [done|].
  rewrite fold_carry_S. destruct (Z.eqb_spec (sum / 65536) 0) as [|Hne]; [done|].
  assert (0 < sum / 65536 ∧ 0 < sum - 65535 * (sum / 65536)) as [Hq Hp].
  { Z.div_mod_to_equations. lia. }
  destruct (IH (sum - 65535 * (sum / 65536)) ltac:(lia)) as (Hm & Hpos & Hn).
  split_and!; [|auto..]. rewrite Hm.
  replace (sum - 65535 * (sum / 65536)) with (sum + (- (sum / 65536)) * 65535) by lia.
  apply Z.mod_add. lia.
Qed.

(** The carry loop has left by the time the fuel is spent. *)
Lemma fold_carry_exits sum : is_u32 sum → is_u16 (fold_carry CARRY_ROUNDS sum).
Proof.
  intros H. unfold CARRY_ROUNDS. rewrite !fold_carry_S. cbn [fold_carry].
  destruct (Z.eqb_spec (sum / 65536) 0).
  { unfold fits in *. change (2 ^ 16) with 65536. Z.div_mod_to_equations. lia. }
  set (s1 := sum - 65535 * (sum / 65536)).
  assert (0 ≤ s1 ≤ 131070).
  { subst s1. unfold fits in H. change (2 ^ 32) with 4294967296 in H.
    Z.div_mod_to_equations. lia. }
  destruct (Z.eqb_spec (s1 / 65536) 0);
    unfold fits; change (2 ^ 16) with 65536; Z.div_mod_to_equations; lia.
Qed.

Lemma not16_u16 x : is_u16 x → not16 x = 65535 - x.
Proof.
  intros H. unfold not16. rewrite (wrap_small _ _ H).
  change 0xFFFF with (2 ^ 16 - 1). rewrite land_mask, Z.lnot_eq_pred_opp by lia.
  unfold fits in H. change (2 ^ 16) with 65536 in *. symmetry.
  apply (Z.mod_unique _ _ (-1)); lia.
Qed.

(** RFC 1071: the code's checksum is the complement of the one's complement
    sum, the representative in [[1, 65535]] of a positive word sum. *)
Lemma ipv4_checksum_ok p hdr :
  is_bytes hdr → 65535 * (zlen hdr / 2) < 2 ^ 32 → 0 < words_sum hdr →
  ∃ k, ipv4_checksum p hdr = Ok (65535 - k)
    ∧ 0 < k ≤ 65535 ∧ k mod 65535 = words_sum hdr mod 65535.
Proof.
  intros Hb Hl Hpos. unfold ipv4_checksum.
  pose proof (words_sum_bound hdr Hb) as Hw.
  rewrite sum_words_ok by (done || lia). cbn [mbind res_bind]. rewrite Z.add_0_l.
  destruct (fold_carry_mod CARRY_ROUNDS (words_sum hdr)) as (Hm & Hp & _); [lia|].
  assert (is_u16 (fold_carry CARRY_ROUNDS (words_sum hdr))) as Hk.
  { apply fold_carry_exits. split; lia. }
  exists (fold_carry CARRY_ROUNDS (words_sum hdr)). rewrite not16_u16 by done.
  split_and!; [done|auto| |done]. unfold fits in Hk. change (2 ^ 16) with 65536 in Hk. lia.
Qed.

Lemma ipv4_checksum_zero p hdr :
  is_bytes hdr → 65535 * (zlen hdr / 2) < 2 ^ 32 → 0 < words_sum hdr →
  words_sum hdr mod 65535 = 0 → ipv4_checksum p hdr = Ok 0.
Proof.
  intros Hb Hl Hpos Hz. destruct (ipv4_checksum_ok p hdr) as (k & -> & Hk & Hm); [done..|].
  rewrite Hz in Hm. f_equal.
  assert (k = 65535); [|lia]. apply Z.mod_divide in Hm as [q Hq]; [|lia]. nia.
Qed.

(** ** What is stamped *)

(** The header of a frame with an [n]-byte payload, before and after the
    checksum is known. *)
Definition header_lengths (h : FrameHeader) (n : Z) : list Z :=
  upd (ETH_HDR + 3) (lo8 (IPV4_HDR + UDP_HDR + n))
    (upd (ETH_HDR + 2) (hi8 (IPV4_HDR + UDP_HDR + n)) (tpl h)).

Definition header_bytes (h : FrameHeader) (n cksum : Z) : list Z :=
  upd (ETH_HDR + IPV4_HDR + 5) (lo8 (UDP_HDR + n))
    (upd (ETH_HDR + IPV4_HDR + 4) (hi8 (UDP_HDR + n))
       (upd (ETH_HDR + 11) (lo8 cksum)
          (upd (ETH_HDR + 10) (hi8 cksum) (header_lengths h n)))).

(** The largest UDP payload of an IPv4 datagram. *)
Definition MAX_PAYLOAD : Z := 65507.

Lemma upd_app i v (l k : list Z) : 0 ≤ i < zlen l → upd i v (l ++ k) = upd i v l ++ k.
Proof. intros. unfold upd. apply insert_app_l. lia. Qed.

Lemma length_upd i v l : length (upd i v l) = length l.
Proof. apply length_insert. Qed.

Lemma length_header_bytes h n ck : length (header_bytes h n ck) = length (tpl h).
Proof. unfold header_bytes, header_lengths. by rewrite !length_upd. Qed.

Lemma slice_app (l k : list Z) off n :
  0 ≤ off → off + n ≤ zlen l → slice (l ++ k) off n = slice l off n.
Proof.
  intros. apply list_eq. intros i. rewrite !lookup_slice by done.
  case_decide; [|done]. apply lookup_app_l. lia.
Qed.

Section stamp.
Context (p : profile) (c : cpu) (LEVEL : option SimdLevel).
Context (Hisa : isa_ok c) (Hcell : oncelock_ok c LEVEL).

(** On a template of the right size and a buffer that holds the frame,
    [write_frame] is: stamped header, payload, the rest of the buffer. *)
Lemma write_frame_spec h (out dns : list Z) ck :
  zlen (tpl h) = OUTER_HDR → zlen dns ≤ MAX_PAYLOAD → OUTER_HDR + zlen dns ≤ zlen out →
  ipv4_checksum p (slice (header_lengths h (zlen dns)) ETH_HDR IPV4_HDR) = Ok ck →
  write_frame p c LEVEL h out dns =
    Ok (header_bytes h (zlen dns) ck ++ dns ++ drop (Z.to_nat (OUTER_HDR + zlen dns)) out,
        OUTER_HDR + zlen dns).
Proof.
  intros Ht Hd Ho Hck. unfold MAX_PAYLOAD in Hd. unfold write_frame.
  rewrite (wrap_small 16 (UDP_HDR + zlen dns)) by (unfold UDP_HDR; width).
  rewrite arith_fits by (unfold UDP_HDR, IPV4_HDR; width). cbn [mbind res_bind].
  assert (debug_assert p (OUTER_HDR + zlen dns <=? zlen out) = Ok ()) as ->.
  { destruct p; [|done]. simpl. by rewrite (proj2 (Z.leb_le _ _) Ho). }
  cbn [mbind res_bind]. rewrite decide_True by lia.
  set (rest := drop (length (tpl h)) out).
  assert (splice out 0 (tpl h) = tpl h ++ rest) as -> by done.
  rewrite Z.add_assoc. unfold OUTER_HDR, ETH_HDR, IPV4_HDR, UDP_HDR in *.
  rewrite !upd_app by (rewrite ?length_upd; lia).
  change (upd (14 + 3) _ (upd (14 + 2) _ (tpl h))) with (header_lengths h (zlen dns)).
  assert (zlen (header_lengths h (zlen dns)) = 42) as Hh.
  { unfold header_lengths. rewrite !length_upd. lia. }
  rewrite slice_app by lia. rewrite Hck. cbn [mbind res_bind].
  rewrite !upd_app by (rewrite ?length_upd; lia).
  change (upd (14 + 20 + 5) _ _) with (header_bytes h (zlen dns) ck).
  pose proof (length_header_bytes h (zlen dns) ck) as Hb.
  assert (zlen dns ≤ zlen rest) by (subst rest; rewrite length_drop; lia).
  set (hb := header_bytes h (zlen dns) ck) in *.
  rewrite decide_True by (rewrite length_app; lia).
  change (14 + 20 + 8) with 42 in *.
  assert (length (slice (hb ++ rest) 42 (zlen dns)) = length dns) as Hs.
  { apply Nat2Z.inj. apply length_slice; rewrite ?length_app; lia. }
  rewrite memcpy_dispatch_spec by (done || lia). cbn [mbind res_bind].
  rewrite splice_full by done. do 2 f_equal.
  unfold splice. rewrite take_app_length' by lia. do 2 f_equal.
  rewrite drop_app_ge by lia. subst rest. rewrite drop_drop. f_equal. lia.
Qed.
End stamp.

(** ** An independent decoder *)

(** What a UDP datagram in an Ethernet frame says. *)
Record udp_frame : Type := UdpFrame {
  f_dst_mac : list Z;
  f_src_mac : list Z;
  f_src_ip : list Z;
  f_dst_ip : list Z;
  f_src_port : Z;
  f_dst_port : Z;
  f_payload : list Z;
}.

#[export] Instance udp_frame_eq_dec : EqDecision udp_frame.
Proof. solve_decision. Defined.

Definition byte_at (f : list Z) (i : nat) : Z := default 0 (f !! i).
Definition field16 (f : list Z) (i : nat) : Z := be16 (byte_at f i) (byte_at f (S i)).

(** Ethernet II with EtherType IPv4; version 4, no options, a total length
    that matches the frame, unfragmented with DF, protocol UDP, a header
    whose one's complement sum is zero (RFC 1071); a UDP length that matches
    and no UDP checksum. *)
Definition decode_frame (f : list Z) : option udp_frame :=
  if decide (42 ≤ zlen f ∧ field16 f 12 = 0x0800 ∧ byte_at f 14 = 0x45
             ∧ field16 f 16 = zlen f - 14 ∧ field16 f 20 = 0x4000 ∧ byte_at f 23 = 17
             ∧ words_sum (slice f 14 20) mod 65535 = 0
             ∧ field16 f 38 = zlen f - 34 ∧ field16 f 40 = 0)
  then Some (UdpFrame (slice f 0 6) (slice f 6 6) (slice f 26 4) (slice f 30 4)
               (field16 f 34) (field16 f 36) (drop 42 f))
  else None.

Definition is_mac (m : list Z) : Prop := length m = 6%nat ∧ is_bytes m.
Definition is_ip (a : list Z) : Prop := length a = 4%nat ∧ is_bytes a.

#[export] Instance is_mac_dec m : Decision (is_mac m).
Proof. unfold is_mac. apply _. Defined.
#[export] Instance is_ip_dec a : Decision (is_ip a).
Proof. unfold is_ip. apply _. Defined.

Lemma mac_elements m : is_mac m → ∃ a b c d e f, m = [a; b; c; d; e; f].
Proof.
  intros [L _]. do 6 (destruct m as [|? m]; [discriminate|]).
  destruct m; [|discriminate]. by repeat eexists.
Qed.

Lemma ip_elements m : is_ip m → ∃ a b c d, m = [a; b; c; d].
Proof.
  intros [L _]. do 4 (destruct m as [|? m]; [discriminate|]).
  destruct m; [|discriminate]. by repeat eexists.
Qed.

(** Replace a MAC or IPv4 address by its bytes. *)
Ltac explode H :=
  let E := fresh "E" in
  first [ destruct (mac_elements _ H) as (?&?&?&?&?&?&E)
        | destruct (ip_elements _ H) as (?&?&?&?&E) ];
  rewrite ?E.

Section template.
Context (src_mac dst_mac src_ip dst_ip : list Z) (src_port dst_port : Z).
Context (Hsm : is_mac src_mac) (Hdm : is_mac dst_mac) (Hsi : is_ip src_ip) (Hdi : is_ip dst_ip).

Abbreviation hdr := (FrameHeader_new src_mac dst_mac src_ip dst_ip src_port dst_port).

Lemma length_new : length (tpl hdr) = 42%nat.
Proof.
  explode Hsm; explode Hdm; explode Hsi; explode Hdi. reflexivity.
Qed.

(** The stamped header, byte by byte. *)
Lemma header_bytes_new n ck :
  header_bytes hdr n ck =
    dst_mac ++ src_mac ++ [8; 0] ++
    [0x45; 0; hi8 (28 + n); lo8 (28 + n); 0; 0; 0x40; 0; 64; 17; hi8 ck; lo8 ck] ++
    src_ip ++ dst_ip ++
    [hi8 src_port; lo8 src_port; hi8 dst_port; lo8 dst_port; hi8 (8 + n); lo8 (8 + n); 0; 0].
Proof.
  explode Hsm; explode Hdm; explode Hsi; explode Hdi. reflexivity.
Qed.

(** The IPv4 header proper, with the checksum field as given. *)
Definition ip_header (n : Z) (cks : list Z) : list Z :=
  [0x45; 0; hi8 (28 + n); lo8 (28 + n); 0; 0; 0x40; 0; 64; 17] ++ cks ++ src_ip ++ dst_ip.

Lemma header_lengths_new n :
  slice (header_lengths hdr n) ETH_HDR IPV4_HDR = ip_header n [0; 0].
Proof.
  unfold ip_header.
  explode Hsm; explode Hdm; explode Hsi; explode Hdi. reflexivity.
Qed.

Lemma ip_header_sum n a b :
  words_sum (ip_header n [a; b]) = words_sum (ip_header n [0; 0]) + be16 a b.
Proof.
  unfold ip_header. explode Hsi; explode Hdi. cbn [app words_sum]. unfold be16. lia.
Qed.

Lemma ip_header_bytes n cks : is_bytes cks → is_bytes (ip_header n cks).
Proof.
  intros Hc. destruct Hsi as [_ Bsi], Hdi as [_ Bdi].
  unfold ip_header, is_bytes. rewrite !Forall_app. split_and!; try done.
  bytes.
Qed.

Lemma ip_header_length n a b : zlen (ip_header n [a; b]) = 20.
Proof. destruct Hsi as [Lsi _], Hdi as [Ldi _]. unfold ip_header. simpl. rewrite length_app. lia. Qed.

Lemma ip_header_pos n a b : is_u8 a → is_u8 b → 0 < words_sum (ip_header n [a; b]).
Proof.
  intros Ha Hb. pose proof (ip_header_bytes n [a; b] ltac:(bytes)) as H.
  unfold ip_header in *. cbn [app] in *.
  apply Forall_cons in H as [_ H]. apply Forall_cons in H as [_ H].
  apply words_sum_bound in H. cbn [words_sum] in *. unfold be16 in *. lia.
Qed.

(** The stamped checksum makes the header's one's complement sum zero. *)
Lemma ip_header_checksum p n :
  ∃ ck, ipv4_checksum p (ip_header n [0; 0]) = Ok ck ∧ is_u16 ck
    ∧ words_sum (ip_header n [hi8 ck; lo8 ck]) mod 65535 = 0.
Proof.
  destruct (ipv4_checksum_ok p (ip_header n [0; 0])) as (k & Hk & Hr & Hm).
  { apply ip_header_bytes. bytes. }
  { rewrite ip_header_length. vm_compute. done. }
  { apply ip_header_pos; width. }
  exists (65535 - k). assert (is_u16 (65535 - k)) by width. split_and!; [done..|].
  rewrite ip_header_sum, be16_hi_lo by done.
  rewrite Z.add_mod, <- Hm, <- Z.add_mod by lia.
  replace (k + (65535 - k)) with (1 * 65535) by lia. apply Z.mod_mul. lia.
Qed.

Lemma header_bytes_ip n ck :
  slice (header_bytes hdr n ck) 14 20 = ip_header n [hi8 ck; lo8 ck].
Proof.
  rewrite header_bytes_new. unfold ip_header.
  explode Hsm; explode Hdm; explode Hsi; explode Hdi. reflexivity.
Qed.

(** The decoder reads back a stamped header followed by the payload. *)
Lemma decode_header (dns : list Z) ck :
  is_u16 src_port → is_u16 dst_port → zlen dns ≤ MAX_PAYLOAD →
  words_sum (ip_header (zlen dns) [hi8 ck; lo8 ck]) mod 65535 = 0 →
  decode_frame (header_bytes hdr (zlen dns) ck ++ dns) =
    Some (UdpFrame dst_mac src_mac src_ip dst_ip src_port dst_port dns).
Proof.
  intros Hsp Hdp Hn Hck. unfold MAX_PAYLOAD in Hn.
  assert (zlen (header_bytes hdr (zlen dns) ck) = 42) as Hl.
  { rewrite length_header_bytes, length_new. done. }
  assert (is_u16 (28 + zlen dns) ∧ is_u16 (8 + zlen dns)) as [H28 H8] by (split; width).
  unfold decode_frame. rewrite slice_app, header_bytes_ip by lia.
  rewrite length_app, Nat2Z.inj_add, Hl, header_bytes_new.
  explode Hsm; explode Hdm; explode Hsi; explode Hdi.
  unfold field16, byte_at. cbn [app lookup list_lookup default from_option id].
  rewrite !be16_hi_lo by done. rewrite decide_True; [reflexivity|].
  split_and!; (done || lia).
Qed.
End template.

(** [write_frame] on a template made by [FrameHeader::new]. *)
Lemma write_frame_new p c LEVEL src_mac dst_mac src_ip dst_ip src_port dst_port out dns :
  isa_ok c → oncelock_ok c LEVEL →
  is_mac src_mac → is_mac dst_mac → is_ip src_ip → is_ip dst_ip →
  zlen dns ≤ MAX_PAYLOAD → OUTER_HDR + zlen dns ≤ zlen out →
  let h := FrameHeader_new src_mac dst_mac src_ip dst_ip src_port dst_port in
  ∃ ck, is_u16 ck
    ∧ words_sum (ip_header src_ip dst_ip (zlen dns) [hi8 ck; lo8 ck]) mod 65535 = 0
    ∧ write_frame p c LEVEL h out dns =
        Ok (header_bytes h (zlen dns) ck ++ dns ++ drop (Z.to_nat (OUTER_HDR + zlen dns)) out,
            OUTER_HDR + zlen dns).
Proof.
  intros Hisa Hcell Hsm Hdm Hsi Hdi Hn Ho h.
  destruct (ip_header_checksum src_ip dst_ip Hsi Hdi p (zlen dns)) as (ck & Hck & Hu & Hm).
  exists ck. split_and!; [done..|]. apply write_frame_spec; [done|done|..|done|done|].
  - subst h. by rewrite length_new.
  - subst h. by rewrite header_lengths_new.
Qed.

(** In the release profile the checksum always returns. *)
Lemma ipv4_checksum_release hdr : ∃ ck, ipv4_checksum Release hdr = Ok ck.
Proof.
  unfold ipv4_checksum.
  assert (∀ s, ∃ v, sum_words Release s hdr = Ok v) as H.
  { induction hdr as [|a|a b hdr IH] using words_ind; intros s; [by eexists..|].
    cbn [sum_words]. rewrite arith_release by lia. apply IH. }
  destruct (H 0) as [v ->]. by eexists.
Qed.

Lemma write_frame_short p c LEVEL h (out dns : list Z) :
  zlen out < OUTER_HDR + zlen dns → length (tpl h) = 42%nat →
  write_frame p c LEVEL h out dns = Panic.
Proof.
  intros Hs Ht. unfold write_frame. destruct p.
  { unfold arith. destruct (decide (is_u16 (IPV4_HDR + _))); [|reflexivity]. cbn [mbind res_bind debug_assert].
    rewrite (proj2 (Z.leb_gt _ _)) by lia. reflexivity. }
  rewrite arith_release by lia. cbn [mbind res_bind debug_assert].
  case_decide; [|reflexivity].
  destruct (ipv4_checksum_release (slice (upd (ETH_HDR + 3) (lo8 (wrap 16 (IPV4_HDR + wrap 16 (UDP_HDR + zlen dns))))
    (upd (ETH_HDR + 2) (hi8 (wrap 16 (IPV4_HDR + wrap 16 (UDP_HDR + zlen dns)))) (splice out 0 (tpl h)))) ETH_HDR IPV4_HDR)) as [ck ->].
  cbn [mbind res_bind]. rewrite decide_False; [done|].
  change OUTER_HDR with 42 in *. rewrite !length_upd, length_splice by lia. lia.
Qed.

(** ** Properties *)

(** C8: stamping a frame and decoding it with the independent RFC decoder
    gives back the MAC and IP addresses, the ports and the payload that went
    in, for every payload that fits the buffer and an IPv4 datagram; the
    returned length is the frame's, and the buffer behind the frame is not
    touched. *)
Theorem write_frame_decodes p c LEVEL src_mac dst_mac src_ip dst_ip src_port dst_port out dns :
  isa_ok c → oncelock_ok c LEVEL →
  is_mac src_mac → is_mac dst_mac → is_ip src_ip → is_ip dst_ip →
  is_u16 src_port → is_u16 dst_port →
  zlen dns ≤ MAX_PAYLOAD → OUTER_HDR + zlen dns ≤ zlen out →
  let h := FrameHeader_new src_mac dst_mac src_ip dst_ip src_port dst_port in
  let n := OUTER_HDR + zlen dns in
  ∃ out', write_frame p c LEVEL h out dns = Ok (out', n)
    ∧ decode_frame (slice out' 0 n) =
        Some (UdpFrame dst_mac src_mac src_ip dst_ip src_port dst_port dns)
    ∧ length out' = length out
    ∧ drop (Z.to_nat n) out' = drop (Z.to_nat n) out.
Proof.
  intros Hisa Hcell Hsm Hdm Hsi Hdi Hsp Hdp Hn Ho h n.
  destruct (write_frame_new p c LEVEL src_mac dst_mac src_ip dst_ip src_port dst_port out dns)
    as (ck & Hu & Hm & Hw); [done..|]. fold h n in Hw. rewrite Hw.
  assert (zlen (header_bytes h (zlen dns) ck ++ dns) = n) as Hl.
  { rewrite length_app, length_header_bytes. subst h. rewrite length_new by done.
    unfold n. change OUTER_HDR with 42. lia. }
  eexists. split; [done|]. rewrite app_assoc, slice_app_l by done.
  split_and!.
  - by apply decode_header.
  - rewrite length_app, length_drop. lia.
  - rewrite drop_app_ge by lia. replace (_ - _)%nat with 0%nat by lia. done.
Qed.

Lemma write_frame_decodes_witness :
  ∃ out', write_frame Release haswell None
      (FrameHeader_new [0;17;34;51;68;85] [170;187;204;221;238;255]
         [198;51;100;1] [198;51;100;2] 12345 53) (replicate 64 9) [104;105] = Ok (out', 44)
    ∧ decode_frame (slice out' 0 44) =
        Some (UdpFrame [170;187;204;221;238;255] [0;17;34;51;68;85]
                [198;51;100;1] [198;51;100;2] 12345 53 [104;105])
    ∧ length out' = 64%nat
    ∧ drop (Z.to_nat 44) out' = replicate 20 9.
Proof.
  apply (write_frame_decodes Release haswell None _ _ _ _ _ _ (replicate 64 9) [104;105]);
    apply (bool_decide_unpack _); vm_compute; exact I.
Defined.

(** The IPv4 header of every stamped frame verifies: recomputing the
    code's own checksum over the 20 header bytes, checksum included, gives
    0, in both build profiles. *)
Theorem write_frame_checksum p c LEVEL src_mac dst_mac src_ip dst_ip src_port dst_port out dns :
  isa_ok c → oncelock_ok c LEVEL →
  is_mac src_mac → is_mac dst_mac → is_ip src_ip → is_ip dst_ip →
  zlen dns ≤ MAX_PAYLOAD → OUTER_HDR + zlen dns ≤ zlen out →
  ∃ out' n,
    write_frame p c LEVEL (FrameHeader_new src_mac dst_mac src_ip dst_ip src_port dst_port) out dns
      = Ok (out', n)
    ∧ ipv4_checksum p (slice out' ETH_HDR IPV4_HDR) = Ok 0.
Proof.
  intros Hisa Hcell Hsm Hdm Hsi Hdi Hn Ho.
  destruct (write_frame_new p c LEVEL src_mac dst_mac src_ip dst_ip src_port dst_port out dns)
    as (ck & Hu & Hm & ->); [done..|].
  do 2 eexists. split; [done|].
  rewrite slice_app by (rewrite ?length_header_bytes, ?length_new by done; done).
  change ETH_HDR with 14. change IPV4_HDR with 20. rewrite header_bytes_ip by done.
  apply ipv4_checksum_zero; [apply ip_header_bytes; [done..|bytes]|..|done].
  - rewrite ip_header_length by done. vm_compute. done.
  - apply ip_header_pos; auto with runperf.
Qed.

Lemma write_frame_checksum_witness :
  ∃ out' n, write_frame Debug haswell None
      (FrameHeader_new [0;17;34;51;68;85] [170;187;204;221;238;255]
         [198;51;100;1] [198;51;100;2] 12345 53) (replicate 64 9) [104;105] = Ok (out', n)
    ∧ ipv4_checksum Debug (slice out' ETH_HDR IPV4_HDR) = Ok 0.
Proof.
  apply write_frame_checksum;
    apply (bool_decide_unpack _); vm_compute; exact I.
Defined.

(** A buffer too short for the frame is never overrun: [write_frame]
    panics, in both profiles, whatever the header and payload. *)
Theorem write_frame_short_panics p c LEVEL h (out dns : list Z) :
  zlen out < OUTER_HDR + zlen dns → length (tpl h) = 42%nat →
  write_frame p c LEVEL h out dns = Panic.
Proof. apply write_frame_short. Qed.

Lemma write_frame_short_panics_witness :
  write_frame Release haswell None
    (FrameHeader_new [0;17;34;51;68;85] [170;187;204;221;238;255]
       [198;51;100;1] [198;51;100;2] 40000 53) (replicate 64 9) (replicate 23 1) = Panic.
Proof. apply write_frame_short_panics; vm_compute; reflexivity. Defined.

(** The carry loop of the checksum ends for every [u32] sum: after at
    most two rounds its exit condition holds. *)
Theorem fold_carry_terminates sum :
  is_u32 sum → Z.shiftr (fold_carry CARRY_ROUNDS sum) 16 = 0.
Proof.
  intros H. pose proof (fold_carry_exits sum H) as [H0 H1].
  rewrite Z.shiftr_div_pow2 by lia. by apply Z.div_small.
Qed.

Lemma fold_carry_terminates_witness :
  Z.shiftr (fold_carry CARRY_ROUNDS 0xFFFFFFFF) 16 = 0.
Proof. apply fold_carry_terminates. apply (bool_decide_unpack _). vm_compute. exact I. Defined.

(** ** MAC addresses and the ARP table *)

(** The colon-separated form sysfs and [/proc/net/arp] print. *)
Definition print_mac (m : list Z) : str := join 58 (hex2 <$> m).

Lemma parse_octets_hex m : is_bytes m → parse_octets (hex2 <$> m) = Some m.
Proof.
  induction 1 as [|b m Hb _ IH]; [done|]. rewrite fmap_cons. cbn [parse_octets].
  rewrite parse_hex2 by done. cbn [mbind option_bind]. by rewrite IH.
Qed.

Lemma parse_print_mac m : is_mac m → parse_mac (print_mac m) = Some m.
Proof.
  intros [Hl Hb]. unfold parse_mac, print_mac.
  rewrite split_join.
  - rewrite length_fmap. rewrite decide_True by done. by apply parse_octets_hex.
  - by destruct m.
  - apply Forall_fmap. eapply Forall_impl; [exact Hb|]. intros b. apply hex2_no_sep.
Qed.

Lemma parse_octets_length l m : parse_octets l = Some m → length m = length l ∧ is_bytes m.
Proof.
  revert m. induction l as [|x l IH]; intros m H; cbn in H; simplify_eq; [by split; [|constructor]|].
  destruct (from_str_radix 8 16 x) as [b|] eqn:Hb; [|done]. simpl in H.
  destruct (parse_octets l) as [m'|] eqn:Hm; [|done]. simpl in H. simplify_eq.
  destruct (IH m' eq_refl) as [Hl Hm']. simpl. split; [by f_equal|]. constructor; [|done].
  assert (∀ s, digits 8 16 0 s = Some b → is_u8 b) as Hd.
  { intros s Hs. rewrite digits_spec in Hs by (lia || width).
    destruct (digits_val 16 0 s) as [v|] eqn:Hv; [|done].
    apply digits_val_ge in Hv; [|lia..]. case_match; simplify_eq. split; lia. }
  unfold from_str_radix in Hb. repeat case_match; simplify_eq; eauto.
Qed.

Lemma word_app w1 w2 : is_word w1 → is_word w2 → is_word (w1 ++ w2).
Proof. intros [H1 F1] [H2 F2]. split; [by destruct w1|]. by apply Forall_app. Qed.

Lemma join_chars (P : Z → Prop) sep l : P sep → Forall (Forall P) l → Forall P (join sep l).
Proof.
  intros Hs. induction 1 as [|s l Hl Hls IH]; [constructor|].
  destruct l; cbn [join]; [done|]. apply Forall_app. split; [done|]. by constructor.
Qed.

Lemma dec_word z : 0 ≤ z → Forall (λ c, is_whitespace c = false) (dec z).
Proof.
  intros Hz. eapply Forall_impl; [by apply dec_go_digits|]. intros c. apply digit_not_space.
Qed.

Lemma ipv4_display_word ip : is_ip ip → is_word (ipv4_display ip).
Proof.
  intros Hip. pose proof Hip as [_ Hb]. split.
  - destruct (ip_elements ip Hip) as (a & b & c & d & ->). unfold ipv4_display. cbn.
    intros E. apply app_eq_nil in E as [_ ?]. done.
  - apply join_chars; [done|]. apply Forall_fmap. eapply Forall_impl; [exact Hb|].
    intros z Hz. apply dec_word. apply Hz.
Qed.

Lemma print_mac_word m : is_mac m → is_word (print_mac m).
Proof.
  intros Hm. pose proof Hm as [_ Hb]. split.
  - by destruct (mac_elements m Hm) as (?&?&?&?&?&?& ->).
  - apply join_chars; [done|]. apply Forall_fmap. eapply Forall_impl; [exact Hb|].
    intros z. apply hex2_word.
Qed.

(** Two addresses with the same dotted form are the same. *)
Lemma ipv4_display_inj a b : is_ip a → is_ip b → ipv4_display a = ipv4_display b → a = b.
Proof.
  intros [La Ba] [Lb Bb] E. unfold ipv4_display in E.
  assert (∀ x, length x = 4%nat → is_bytes x → split_char 46 (join 46 (dec <$> x)) = dec <$> x) as S.
  { intros x Lx Bx. apply split_join; [by destruct x|]. apply Forall_fmap.
    eapply Forall_impl; [exact Bx|]. intros z Hz. apply dec_no_sep; [apply Hz|lia]. }
  apply (f_equal (split_char 46)) in E. rewrite !S in E by done. clear S La Lb.
  revert b Bb E. induction Ba as [|x a Hx _ IH]; intros [|y b] Bb E; try done.
  apply Forall_cons in Bb as [Hy Bb]. rewrite !fmap_cons in E.
  assert (∀ (u v : str) l k, u :: l = v :: k → u = v ∧ l = k) as Hinj by (by intros u v l k [= -> ->]).
  apply Hinj in E as [E1 E2].
  f_equal; [apply dec_inj; [width..|done]|by apply IH].
Qed.

(** A row of the table: address, completeness, MAC; and how the kernel
    prints it. *)
Record arp_row : Type := ArpRow { row_ip : list Z; row_complete : bool; row_mac : list Z }.

Definition row_ok (r : arp_row) : Prop := is_ip (row_ip r) ∧ is_mac (row_mac r).

Definition print_row (r : arp_row) : str :=
  ipv4_display (row_ip r) ++ lit "      " ++ lit "0x1" ++ lit "         " ++
  lit (if row_complete r then "0x2" else "0x0") ++ lit "         " ++
  print_mac (row_mac r) ++ lit "     " ++ lit "*        eth0".

Definition ARP_HEAD : str :=
  lit "IP address       HW type     Flags       HW address            Mask     Device".

Lemma print_row_words r : row_ok r →
  split_whitespace (print_row r) =
    [ipv4_display (row_ip r); lit "0x1"; lit (if row_complete r then "0x2" else "0x0");
     print_mac (row_mac r); lit "*"; lit "eth0"].
Proof.
  intros [Hi Hm]. unfold print_row.
  assert (∀ b : bool, is_word (lit (if b then "0x2" else "0x0"))) as Hf.
  { intros []; (split; [done|]); apply (bool_decide_unpack _); done. }
  assert (∀ n : string, bool_decide (Forall (λ c, is_whitespace c = true) (lit n)) = true →
    Forall (λ c, is_whitespace c = true) (lit n)) as Hg.
  { intros n. apply bool_decide_eq_true_1. }
  rewrite split_whitespace_gap; [|by apply ipv4_display_word|done|by apply Hg].
  rewrite split_whitespace_gap;
    [|split; [done|apply (bool_decide_unpack _); done]|done|by apply Hg].
  rewrite split_whitespace_gap; [|apply Hf|done|by apply Hg].
  rewrite split_whitespace_gap; [|by apply print_mac_word|done|by apply Hg].
  reflexivity.
Qed.

(** The specification: the first row for the address decides. *)
Fixpoint arp_find (server : list Z) (rows : list arp_row) : option (list Z) :=
  match rows with
  | [] => None
  | r :: rows =>
      if decide (row_ip r = server) then
        if row_complete r then Some (row_mac r) else None
      else arp_find server rows
  end.

Lemma arp_lines_find server rows :
  is_ip server → Forall row_ok rows →
  arp_lines (ipv4_display server) (print_row <$> rows) = arp_find server rows.
Proof.
  intros Hs. induction 1 as [|r rows Hr _ IH]; [done|].
  rewrite fmap_cons. cbn [arp_lines arp_find]. rewrite print_row_words by done.
  destruct Hr as [Hi Hm].
  destruct (decide (row_ip r = server)) as [<-|Hne].
  - rewrite decide_True by done. destruct (row_complete r).
    + rewrite decide_False by done. by apply parse_print_mac.
    + by rewrite decide_True.
  - rewrite decide_False; [done|]. intros E. by apply ipv4_display_inj in E.
Qed.

Lemma print_row_line r : row_ok r → is_line (print_row r).
Proof.
  intros [Hi Hm]. split.
  - unfold print_row. rewrite !Forall_app.
    assert (∀ n : string, bool_decide (Forall (λ c, (10 =? c) = false) (lit n)) = true →
      Forall (λ c, (10 =? c) = false) (lit n)) as Hg by (intros n; apply bool_decide_eq_true_1).
    split_and!; try (by apply Hg).
    + apply word_no_lf, ipv4_display_word, Hi.
    + destruct (row_complete r); by apply Hg.
    + apply word_no_lf, print_mac_word, Hm.
  - unfold print_row. change (lit "*        eth0") with (lit "*        eth" ++ [48]).
    rewrite !app_assoc. by apply strip_cr_snoc.
Qed.

Lemma arp_retry_first arp server tries : ∀ n m,
  arp_retry arp n tries server = Some m ↔
  ∃ i, (n ≤ i < n + tries)%nat ∧ lookup_arp (arp i) server = Some m
    ∧ ∀ j, (n ≤ j < i)%nat → lookup_arp (arp j) server = None.
Proof.
  induction tries as [|tries IH]; intros n m; cbn [arp_retry].
  { split; [done|]. intros (i & Hi & _). lia. }
  destruct (lookup_arp (arp n) server) as [m'|] eqn:E.
  - split.
    + intros [= <-]. exists n. split_and!; [lia|lia|done|]. intros j Hj. lia.
    + intros (i & Hi & Hm & Hlt). destruct (decide (i = n)) as [->|]; [congruence|].
      rewrite Hlt in E by lia. done.
  - rewrite IH. split.
    + intros (i & Hi & Hm & Hlt). exists i. split_and!; [lia|lia|done|].
      intros j Hj. destruct (decide (j = n)) as [->|]; [done|]. apply Hlt. lia.
    + intros (i & Hi & Hm & Hlt). assert (i ≠ n) by congruence.
      exists i. split_and!; [lia|lia|done|]. intros j Hj. apply Hlt. lia.
Qed.

(** A printed MAC address parses back to itself, and whatever
    [parse_mac] accepts is exactly six bytes. *)
Theorem parse_mac_roundtrip :
  (∀ m, is_mac m → parse_mac (print_mac m) = Some m)
  ∧ (∀ s m, parse_mac s = Some m → is_mac m).
Proof.
  split; [apply parse_print_mac|]. intros s m. unfold parse_mac. case_decide as Hl; [|done].
  intros Hm. apply parse_octets_length in Hm as [H1 H2]. split; [lia|done].
Qed.

(** On the table the kernel prints, [lookup_arp] returns the MAC of the
    first row for the address when that row is complete, and nothing when it
    is incomplete or absent: no other host's MAC is ever returned. *)
Theorem lookup_arp_table server rows :
  is_ip server → Forall row_ok rows →
  lookup_arp (Some (unlines (ARP_HEAD :: (print_row <$> rows)))) server = arp_find server rows.
Proof.
  intros Hs Hrows. unfold lookup_arp. cbn [mbind option_bind].
  rewrite lines_unlines; [by apply arp_lines_find|].
  constructor; [split; [apply (bool_decide_unpack _); done|done]|].
  apply Forall_fmap. eapply Forall_impl; [exact Hrows|]. intros r. apply print_row_line.
Qed.

Lemma lookup_arp_table_witness :
  lookup_arp (Some (unlines (ARP_HEAD :: (print_row <$>
    [ArpRow [10;0;0;20] true [1;2;3;4;5;6]; ArpRow [10;0;0;2] true [170;187;204;221;238;255]]))))
    [10;0;0;2] = Some [170;187;204;221;238;255].
Proof.
  rewrite (lookup_arp_table [10;0;0;2]); [reflexivity|..].
  - apply (bool_decide_unpack _). vm_compute. exact I.
  - repeat constructor; apply (bool_decide_unpack _); vm_compute; exact I.
Defined.

(** [resolve_server_mac] succeeds with the first of at most six reads of
    the ARP table that has an entry, and fails only when all six have none. *)
Theorem resolve_server_mac_first arp server m :
  resolve_server_mac arp server = Some m ↔
  ∃ i, (i < 6)%nat ∧ lookup_arp (arp i) server = Some m
    ∧ ∀ j, (j < i)%nat → lookup_arp (arp j) server = None.
Proof.
  change (resolve_server_mac arp server) with (arp_retry arp 0 6 server).
  rewrite arp_retry_first. split.
  - intros (i & Hi & Hm & Hlt). exists i. split_and!; [lia|done|]. intros j Hj. apply Hlt. lia.
  - intros (i & Hi & Hm & Hlt). exists i. split_and!; [lia|lia|done|]. intros j Hj. apply Hlt. lia.
Qed.

Lemma arp_waits_spec arp server tries : ∀ n,
  ∃ i, (i ≤ tries)%nat ∧ arp_waits arp n tries server = replicate i (ArpSleep 60)
  ∧ (∀ j, (n ≤ j < n + (i - 1))%nat → lookup_arp (arp j) server = None)
  ∧ (i = tries ∨ ∃ m, (0 < i)%nat ∧ lookup_arp (arp (n + (i - 1))%nat) server = Some m).
Proof.
  induction tries as [|tries IH]; intros n; cbn [arp_waits].
  { exists 0%nat. split_and!; [lia|done|intros j Hj; lia|by left]. }
  destruct (lookup_arp (arp n) server) as [m|] eqn:E.
  - exists 1%nat. split_and!; [lia|done|intros j Hj; lia|]. right. exists m. split; [lia|].
    by replace (n + (1 - 1))%nat with n by lia.
  - destruct (IH (S n)) as (i & Hi & -> & Hnone & Hlast). exists (S i). split_and!; [lia|done| |].
    + intros j Hj. destruct (decide (j = n)) as [->|]; [done|]. apply Hnone. lia.
    + destruct Hlast as [->|(m & Hpos & Hm)]; [by left|right]. exists m. split; [lia|].
      by replace (n + (S i - 1))%nat with (S n + (i - 1))%nat by lia.
Qed.

Lemma arp_retry_none arp server tries : ∀ n,
  arp_retry arp n tries server = None → ∀ j, (n ≤ j < n + tries)%nat → lookup_arp (arp j) server = None.
Proof.
  induction tries as [|tries IH]; intros n; cbn [arp_retry]; [intros _ j Hj; lia|].
  destruct (lookup_arp (arp n) server) eqn:E; [done|]. intros H j Hj.
  destruct (decide (j = n)) as [->|]; [done|]. apply (IH (S n)); [done|lia].
Qed.

(** A server in the ARP table is resolved without touching the network; else
    the kernel is asked once, and the caller is held up for at most 300 ms. *)
Theorem resolve_effects_bounded arp bound server :
  match lookup_arp (arp 0%nat) server with
  | Some _ => resolve_effects arp bound server = []
  | None => ∃ i, (i ≤ 5)%nat
      ∧ resolve_effects arp bound server = trigger_arp bound server ++ replicate i (ArpSleep 60)
      ∧ (resolve_server_mac arp server = None → i = 5%nat)
  end.
Proof.
  unfold resolve_effects. destruct (lookup_arp (arp 0%nat) server) as [m|] eqn:E0; [done|].
  destruct (arp_waits_spec arp server 5 1) as (i & Hi & -> & _ & Hlast). exists i. split; [done|]. split; [done|].
  intros Hn. destruct Hlast as [->|(m & Hpos & Hm)]; [done|].
  revert Hn. unfold resolve_server_mac. rewrite E0. intros Hn.
  by rewrite (arp_retry_none arp server 5 1 Hn) in Hm by lia.
Qed.
