(* ===== verification/Filter.v ===== *)
(** * The XDP program ([ebpf/runperf_xdp.c])

    The program the kernel runs on every frame a queue receives: UDP over
    IPv4 (without options) or IPv6 goes to the socket that serves the queue,
    everything else to the network stack.  Packet memory is a list of bytes
    and a load outside it is undefined behaviour, so the bounds checks of
    the C code are what makes the program total.  The BPF target is little
    endian, as on every platform the crate is built for.  The kernel's
    helper [bpf_redirect_map] is a parameter. *)

From S2P Require Import Prelude Simd Frame.

(** [struct xdp_md], as far as it is read: the bytes from [data] to
    [data_end], and the receiving queue. *)
Record xdp_md : Type := XdpMd { data : list Z; rx_queue_index : Z }.

(** What happens to a frame: it goes on to the network stack
    ([XDP_PASS]) or to the socket with a descriptor ([XDP_REDIRECT]). *)
Inductive xdp_action : Type := XDP_PASS | XDP_REDIRECT (fd : Z).

#[export] Instance xdp_action_eq_dec : EqDecision xdp_action.
Proof. solve_decision. Defined.

(** Loads from packet memory. *)
Definition load8 (d : list Z) (off : Z) : res Z :=
  match d !! Z.to_nat off with Some b => Ok b | None => Undefined end.

Definition load16 (d : list Z) (off : Z) : res Z :=
  lo ← load8 d off; hi ← load8 d (off + 1); Ok (from_le_bytes [lo; hi]).

(** [__builtin_bswap16]. *)
Definition bswap16 (x : Z) : Z := Z.lor (Z.shiftl (Z.land x 0xFF) 8) (Z.shiftr x 8).

Section program.
Context (bpf_redirect_map : Z → xdp_action → xdp_action).

(** From the end of the IP header on: the bounds check of [udp + 1]. *)
Definition udp_verdict (ctx : xdp_md) (udp : Z) : res xdp_action :=
  if zlen (data ctx) <? udp + 8 then Ok XDP_PASS
  else Ok (bpf_redirect_map (rx_queue_index ctx) XDP_PASS).

Definition dns_xdp_client (ctx : xdp_md) : res xdp_action :=
  let d := data ctx in
  let data_end := zlen d in
  let eth := 0 in
  if data_end <? eth + 14 then Ok XDP_PASS else
  h_proto ← load16 d (eth + 12);
  let eth_proto := bswap16 h_proto in
  if eth_proto =? 0x0800 then
    let ip := eth + 14 in
    if data_end <? ip + 20 then Ok XDP_PASS else
    protocol ← load8 d (ip + 9);
    if negb (protocol =? 17) then Ok XDP_PASS else
    ver_ihl ← load8 d ip;
    if negb (Z.land (Z.land ver_ihl 0xF) 0xF =? 5) then Ok XDP_PASS else
    udp_verdict ctx (ip + 20)
  else if eth_proto =? 0x86DD then
    let ip6 := eth + 14 in
    if data_end <? ip6 + 40 then Ok XDP_PASS else
    nexthdr ← load8 d (ip6 + 6);
    if negb (nexthdr =? 17) then Ok XDP_PASS else
    udp_verdict ctx (ip6 + 40)
  else Ok XDP_PASS.
End program.

(** What Linux documents of [bpf_redirect_map] on an XSKMAP with the flags
    [XDP_PASS]: the socket of the key, or [XDP_PASS] if there is none. *)
Definition redirect_contract (xsks : gmap Z Z) (f : Z → xdp_action → xdp_action) : Prop :=
  ∀ q a, f q a = match xsks !! q with Some fd => XDP_REDIRECT fd | None => a end.

Definition linux_redirect (xsks : gmap Z Z) (q : Z) (a : xdp_action) : xdp_action :=
  match xsks !! q with Some fd => XDP_REDIRECT fd | None => a end.

Lemma linux_redirect_contract xsks : redirect_contract xsks (linux_redirect xsks).
Proof. done. Defined.

(** ** What the program recognises *)

(** An IPv4 header of 20 bytes with protocol UDP and room for a UDP
    header. *)
Definition udp4 (f : list Z) : Prop :=
  42 ≤ zlen f ∧ field16 f 12 = 0x0800 ∧ byte_at f 23 = 17 ∧ byte_at f 14 mod 16 = 5.

(** An IPv6 header whose next header is UDP, and room for it. *)
Definition udp6 (f : list Z) : Prop :=
  62 ≤ zlen f ∧ field16 f 12 = 0x86DD ∧ byte_at f 20 = 17.

#[export] Instance udp4_dec f : Decision (udp4 f).
Proof. unfold udp4. apply _. Defined.
#[export] Instance udp6_dec f : Decision (udp6 f).
Proof. unfold udp6. apply _. Defined.

Lemma load8_ok d off : 0 ≤ off < zlen d → load8 d off = Ok (byte_at d (Z.to_nat off)).
Proof.
  intros H. unfold load8, byte_at. destruct (lookup_lt_is_Some_2 d (Z.to_nat off)) as [b ->]; [lia|done].
Qed.

Lemma byte_at_u8 d i : is_bytes d → is_u8 (byte_at d i).
Proof.
  intros Hd. unfold byte_at. destruct (d !! i) as [b|] eqn:E; [|done].
  unfold is_bytes in Hd. rewrite Forall_lookup in Hd. by eapply Hd.
Qed.

Lemma bswap16_le a b : is_u8 a → is_u8 b → bswap16 (from_le_bytes [a; b]) = be16 a b.
Proof.
  intros Ha Hb. unfold bswap16, be16. cbn [from_le_bytes].
  replace (a + 256 * (b + 256 * 0)) with (a + b * 2 ^ 8) by lia.
  change 0xFF with (2 ^ 8 - 1). rewrite land_mask, Z.shiftr_div_pow2, Z.shiftl_mul_pow2 by lia.
  rewrite Z.mod_add, Z.div_add, (Z.mod_small a), (Z.div_small a), Z.add_0_l by width.
  assert (Z.land (a * 2 ^ 8) b = 0) as H0.
  { rewrite <- Z.shiftl_mul_pow2 by lia. apply Z.bits_inj_0. intros n. rewrite Z.land_spec.
    destruct (Z.ltb_spec n 0); [by rewrite !Z.testbit_neg_r|].
    destruct (Z.ltb_spec n 8); [by rewrite Z.shiftl_spec_low|].
    rewrite (Z.bits_above_log2 b n), andb_false_r; [done|width|].
    destruct (Z.eq_dec b 0) as [->|]; [cbn; lia|].
    apply Z.log2_lt_pow2; [width|]. apply Z.lt_le_trans with (2 ^ 8); [width|].
    apply Z.pow_le_mono_r; lia. }
  pose proof (Z.add_lor_land (a * 2 ^ 8) b) as E. rewrite H0 in E. change (2 ^ 8) with 256 in *. lia.
Qed.

Lemma load_proto d : is_bytes d → 14 ≤ zlen d →
  (h ← load16 d (0 + 12); Ok (bswap16 h)) = Ok (field16 d 12).
Proof.
  intros Hd Hl. unfold load16. rewrite !load8_ok by lia. cbn [mbind res_bind].
  rewrite bswap16_le by (by apply byte_at_u8). done.
Qed.

Lemma ihl_nibble b : is_u8 b → Z.land (Z.land b 0xF) 0xF = b mod 16.
Proof.
  intros Hb. change 0xF with (2 ^ 4 - 1). rewrite !land_mask by lia.
  change (2 ^ 4) with 16. by rewrite Z.mod_mod.
Qed.

(** Every datagram the RFC decoder accepts is recognised. *)
Lemma decode_udp4 f x : decode_frame f = Some x → udp4 f.
Proof.
  unfold decode_frame. case_decide as H; [|done]. intros _.
  destruct H as (Hl & Ht & Hv & _ & _ & Hp & _). split_and!; [done..|]. by rewrite Hv.
Qed.

Lemma verdict f redirect q :
  is_bytes f →
  dns_xdp_client redirect (XdpMd f q) =
    Ok (if decide (udp4 f ∨ udp6 f) then redirect q XDP_PASS else XDP_PASS).
Proof.
  intros Hd. unfold dns_xdp_client, udp_verdict. cbn [data rx_queue_index].
  unfold udp4, udp6.
  destruct (Z.ltb_spec (zlen f) (0 + 14)); [rewrite decide_False by lia; done|].
  pose proof (load_proto f Hd ltac:(lia)) as Hp.
  destruct (load16 f (0 + 12)) as [h| |]; try discriminate. cbn [mbind res_bind] in *.
  injection Hp as ->.
  destruct (Z.eqb_spec (field16 f 12) 0x0800) as [E4|N4].
  - destruct (Z.ltb_spec (zlen f) (0 + 14 + 20)); [rewrite decide_False by lia; done|].
    rewrite !load8_ok by lia. cbn [mbind res_bind].
    change (Z.to_nat (0 + 14 + 9)) with 23%nat. change (Z.to_nat (0 + 14)) with 14%nat.
    destruct (Z.eqb_spec (byte_at f 23) 17); cbn [negb]; [|rewrite decide_False by lia; done].
    rewrite ihl_nibble by (by apply byte_at_u8).
    destruct (Z.eqb_spec (byte_at f 14 mod 16) 5); cbn [negb]; [|rewrite decide_False by lia; done].
    destruct (Z.ltb_spec (zlen f) (0 + 14 + 20 + 8)); [rewrite decide_False by lia; done|].
    rewrite decide_True by (left; lia). done.
  - destruct (Z.eqb_spec (field16 f 12) 0x86DD); [|rewrite decide_False by lia; done].
    destruct (Z.ltb_spec (zlen f) (0 + 14 + 40)); [rewrite decide_False by lia; done|].
    rewrite !load8_ok by lia. cbn [mbind res_bind]. change (Z.to_nat (0 + 14 + 6)) with 20%nat.
    destruct (Z.eqb_spec (byte_at f 20) 17); cbn [negb]; [|rewrite decide_False by lia; done].
    destruct (Z.ltb_spec (zlen f) (0 + 14 + 40 + 8)); [rewrite decide_False by lia; done|].
    rewrite decide_True by (right; lia). done.
Qed.

(** ** Properties *)

(** C25: the XDP program.  On every frame and queue it returns without a
    load outside the packet.  It sends the frame to the queue's socket, if
    the map has one, exactly when the frame is UDP over IPv4 without options
    or over IPv6 with room for the UDP header; every other frame goes to the
    network stack.  In particular no datagram a strict RFC decoder accepts
    is missed. *)
Theorem xdp_program_verdict redirect xsks f q :
  redirect_contract xsks redirect → is_bytes f →
  ∃ a, dns_xdp_client redirect (XdpMd f q) = Ok a
    ∧ (∀ fd, a = XDP_REDIRECT fd ↔ (udp4 f ∨ udp6 f) ∧ xsks !! q = Some fd)
    ∧ (∀ x, decode_frame f = Some x → a = linux_redirect xsks q XDP_PASS).
Proof.
  intros Hr Hf. eexists. split; [by apply verdict|]. split.
  - intros fd. case_decide as H; [|naive_solver]. rewrite (Hr q XDP_PASS).
    destruct (xsks !! q); naive_solver.
  - intros x Hx. rewrite decide_True by (left; by eapply decode_udp4). apply Hr.
Qed.

(** A 42-byte header on queue 1, served by descriptor 9, and on queue 0,
    which nothing serves. *)
Lemma xdp_program_verdict_witness :
  let f := replicate 12 0 ++ [8; 0; 0x45] ++ replicate 8 0 ++ [17] ++ replicate 18 0 in
  dns_xdp_client (linux_redirect {[1 := 9]}) (XdpMd f 1) = Ok (XDP_REDIRECT 9)
  ∧ dns_xdp_client (linux_redirect {[1 := 9]}) (XdpMd f 0) = Ok XDP_PASS.
Proof.
  intros f. assert (is_bytes f) as Hf by (apply (bool_decide_unpack _); vm_compute; exact I).
  assert (udp4 f) as Hu by (apply (bool_decide_unpack _); vm_compute; exact I).
  destruct (xdp_program_verdict _ {[1 := 9]} f 1 (linux_redirect_contract _) Hf) as (a & -> & Ha & _).
  destruct (xdp_program_verdict _ {[1 := 9]} f 0 (linux_redirect_contract _) Hf) as (b & -> & Hb & _).
  split; f_equal.
  - apply (proj2 (Ha 9)). split; [by left|reflexivity].
  - destruct b as [|fd]; [done|]. destruct (proj1 (Hb fd) eq_refl) as [_ E]. vm_compute in E. discriminate E.
Defined.
