(* ===== verification/Loss.v ===== *)
(** * Loss from sequence gaps ([src/net.rs], [src/xdp/sink.rs])

    Both receivers keep the last sequence number of every stream in a hash
    map and add the size of each forward gap to a shared drop counter.  The
    file models that step, its shared counters, and relates the counter to
    what was really lost. *)

From S2P Require Import Prelude.
From Stdlib Require Import Sorted.

(** [struct Counters]: three [AtomicU64]. *)
Record Counters : Type := mkCounters { bytes : Z; packets : Z; drops : Z }.

#[export] Instance Counters_eq_dec : EqDecision Counters.
Proof. solve_decision. Defined.

Definition Counters_default : Counters := mkCounters 0 0 0.

(** [fetch_add] wraps around in every profile. *)
Definition add_bytes (n : Z) (c : Counters) : Counters :=
  mkCounters (wrap 64 (bytes c + n)) (packets c) (drops c).
Definition add_packets (n : Z) (c : Counters) : Counters :=
  mkCounters (bytes c) (wrap 64 (packets c + n)) (drops c).
Definition add_drops (n : Z) (c : Counters) : Counters :=
  mkCounters (bytes c) (packets c) (wrap 64 (drops c + n)).

(** [if seq > prev + 1 { drops.fetch_add(seq - prev - 1) }]: the amount, 0
    when the branch is not taken. *)
Definition gap (p : profile) (prev seq : Z) : res Z :=
  next ← arith p 64 (prev + 1);
  if next <? seq then
    d ← arith p 64 (seq - prev);
    arith p 64 (d - 1)
  else Ok 0.

(** [if let Some(prev) = last_seq.insert(sid, seq) { .. }]. *)
Definition note_seq (p : profile) (last_seq : gmap Z Z) (c : Counters) (sid seq : Z)
    : res (gmap Z Z * Counters) :=
  match last_seq !! sid with
  | None => Ok (<[sid := seq]> last_seq, c)
  | Some prev =>
      d ← gap p prev seq;
      Ok (<[sid := seq]> last_seq, if d =? 0 then c else add_drops d c)
  end.

(** The header of a payload: stream id and sequence number, [u64] little
    endian each. *)
Definition HDR : Z := 16.
Definition payload_sid (b : list Z) : Z := from_le_bytes (slice b 0 8).
Definition payload_seq (b : list Z) : Z := from_le_bytes (slice b 8 8).

(** A run of [note_seq] over arrivals, in order. *)
Fixpoint note_all (p : profile) (last_seq : gmap Z Z) (c : Counters) (l : list (Z * Z))
    : res (gmap Z Z * Counters) :=
  match l with
  | [] => Ok (last_seq, c)
  | (sid, seq) :: l =>
      '(last_seq, c) ← note_seq p last_seq c sid seq;
      note_all p last_seq c l
  end.

(** ** What a gap count should be *)

(** The numbers missing between consecutive arrivals of one stream; [prev]
    is the arrival before the first, if any. *)
Fixpoint gaps (prev : option Z) (l : list Z) : Z :=
  match l with
  | [] => 0
  | s :: l => match prev with Some q => Z.max 0 (s - q - 1) | None => 0 end + gaps (Some s) l
  end.

Definition stream (sid : Z) (l : list (Z * Z)) : list Z :=
  (filter (λ x, x.1 = sid) l).*2.

Definition zsum {A} (f : A → Z) (l : list A) : Z := foldr (λ x a, f x + a) 0 l.

(** Sequence numbers a sender can reach: one below the [u64] maximum, since
    [prev + 1] must not overflow. *)
Definition seq_ok (s : Z) : Prop := 0 ≤ s < 2 ^ 64 - 1.

#[export] Instance seq_ok_dec s : Decision (seq_ok s).
Proof. unfold seq_ok. apply _. Defined.

(** *** Counting, batches and stamped payloads *)

Lemma note_seq_counters p last c sid seq b k :
  note_seq p last (add_packets k (add_bytes b c)) sid seq =
    prod_map id (add_packets k ∘ add_bytes b) <$> note_seq p last c sid seq.
Proof.
  unfold note_seq. destruct (last !! sid); [|done].
  destruct (gap p _ seq) as [d| |]; cbn; [|done..]. by destruct (d =? 0).
Qed.

Lemma note_all_counters p l b k : ∀ last c,
  note_all p last (add_packets k (add_bytes b c)) l =
    prod_map id (add_packets k ∘ add_bytes b) <$> note_all p last c l.
Proof.
  induction l as [|[sid seq] l IH]; intros last c; [done|]. cbn [note_all].
  rewrite note_seq_counters. destruct (note_seq p last c sid seq) as [[last' c']| |]; cbn; done.
Qed.

Lemma counts_comm b1 k1 b2 k2 c :
  add_packets k2 (add_bytes b2 (add_packets k1 (add_bytes b1 c))) =
  add_packets (k1 + k2) (add_bytes (b1 + b2) c).
Proof. unfold add_packets, add_bytes. cbn. by rewrite !wrap_add_l, !Z.add_assoc. Qed.

(** Detecting leaves the other two counters alone. *)
Lemma note_seq_totals p last c sid seq last' c' :
  note_seq p last c sid seq = Ok (last', c') → bytes c' = bytes c ∧ packets c' = packets c.
Proof.
  unfold note_seq. destruct (last !! sid); [|by intros [= <- <-]].
  destruct (gap p _ seq) as [d| |]; cbn; [|done..]. intros [= <- <-]. by destruct (d =? 0).
Qed.

Lemma note_all_totals p l : ∀ last c last' c',
  note_all p last c l = Ok (last', c') → bytes c' = bytes c ∧ packets c' = packets c.
Proof.
  induction l as [|[sid seq] l IH]; intros last c last' c' H; cbn in H; [by simplify_eq|].
  destruct (note_seq p last c sid seq) as [[l1 c1]| |] eqn:E; cbn in H; [|done..].
  apply note_seq_totals in E as [<- <-]. by eapply IH.
Qed.

(** The receive step both engines share: count a message of [n] bytes, note
    its header if it has one, and go on. *)
Lemma note_all_count p last c n (hd : option (Z * Z)) N B A F :
  is_u64 (bytes c) → is_u64 (packets c) →
  (∀ last' c', is_u64 (bytes c') → is_u64 (packets c') →
     F last' c' = note_all p last' (add_packets N (add_bytes B c')) A) →
  (let c1 := add_packets 1 (add_bytes n c) in
   match hd with
   | Some (sid, seq) => note_seq p last c1 sid seq
   | None => Ok (last, c1)
   end ≫= λ '(last', c'), F last' c') =
  note_all p last (add_packets (N + 1) (add_bytes (n + B) c))
    (match hd with Some x => x :: A | None => A end).
Proof.
  intros Hb Hp HF. destruct hd as [[sid seq]|]; cbn [note_all mbind res_bind].
  - rewrite !note_seq_counters.
    destruct (note_seq p last c sid seq) as [[last' c']| |] eqn:E;
      cbn [fmap res_fmap mbind res_bind]; [|done..]. cbn [prod_map id compose fst snd].
    rewrite HF by (apply wrap_fits; lia). rewrite counts_comm. do 2 f_equal. lia.
  - rewrite HF by (apply wrap_fits; lia). rewrite counts_comm. do 2 f_equal. lia.
Qed.

Lemma note_all_release l : ∀ last c, ∃ r, note_all Release last c l = Ok r.
Proof.
  induction l as [|[sid seq] l IH]; intros last c; [by eexists|]. cbn [note_all].
  assert (∃ r, note_seq Release last c sid seq = Ok r) as [[last' c'] ->]; [|apply IH].
  unfold note_seq. destruct (last !! sid) as [q|]; [|by eexists].
  unfold gap. rewrite (arith_release 64 (q + 1)) by lia. cbn [mbind res_bind].
  destruct (_ <? _); [|by eexists].
  rewrite (arith_release 64 (seq - q)) by lia. cbn [mbind res_bind].
  rewrite arith_release by lia. by eexists.
Qed.

Lemma note_all_app p l k last c last' c' :
  note_all p last c l = Ok (last', c') →
  note_all p last c (l ++ k) = note_all p last' c' k.
Proof.
  revert last c. induction l as [|[sid seq] l IH]; intros last c H; cbn in *; [by simplify_eq|].
  destruct (note_seq p last c sid seq) as [[last1 c1]| |]; cbn in *; [by apply IH|done..].
Qed.

Lemma note_all_bind p l k : ∀ last c,
  note_all p last c (l ++ k) = (note_all p last c l ≫= λ '(last', c'), note_all p last' c' k).
Proof.
  induction l as [|[sid seq] l IH]; intros last c; [done|]. cbn [note_all app].
  destruct (note_seq p last c sid seq) as [[l1 c1]| |]; cbn; [apply IH|done..].
Qed.

Lemma zsum_app {A} (f : A → Z) l k : zsum f (l ++ k) = zsum f l + zsum f k.
Proof. unfold zsum. induction l as [|x l IH]; cbn; [done|]. rewrite IH. lia. Qed.

(** Counting first and detecting later is the same. *)
Lemma note_all_chain p l k last c last1 c1 b n :
  note_all p last c l = Ok (last1, c1) →
  note_all p last (add_packets n (add_bytes b c)) (l ++ k) =
  note_all p last1 (add_packets n (add_bytes b c1)) k.
Proof.
  intros H. rewrite (note_all_app p l k last _ last1 (add_packets n (add_bytes b c1))); [done|].
  rewrite note_all_counters, H. done.
Qed.

(** The payload of the frame with number [seq]. *)
Definition numbered (payload : list Z) (seq : Z) : list Z :=
  splice payload 8 (to_le_bytes 8 seq).

Lemma length_numbered payload seq :
  16 ≤ zlen payload → length (numbered payload seq) = length payload.
Proof. intros H. apply length_splice; rewrite ?length_to_le_bytes; lia. Qed.

Lemma numbered_numbered payload a b :
  16 ≤ zlen payload → numbered (numbered payload a) b = numbered payload b.
Proof.
  intros H. unfold numbered. pose proof (length_numbered payload a H) as L.
  unfold numbered in L. apply list_eq. intros i.
  rewrite !lookup_splice by (rewrite ?length_to_le_bytes, ?L; lia).
  rewrite !length_to_le_bytes. repeat case_decide; done.
Qed.

Lemma payload_seq_numbered payload seq :
  16 ≤ zlen payload → is_u64 seq → payload_seq (numbered payload seq) = seq.
Proof.
  intros H16 Hs. unfold payload_seq, numbered.
  change 8 with (zlen (to_le_bytes 8 seq)) at 3.
  rewrite slice_splice_eq; [by apply from_to_le_u64|lia|].
  rewrite length_to_le_bytes. lia.
Qed.

Lemma payload_seqs payload a n :
  16 ≤ zlen payload → 0 ≤ a → a + n < 2 ^ 64 →
  payload_seq <$> (numbered payload <$> seqZ a n) = seqZ a n.
Proof.
  intros H16 Ha Hn. rewrite <- list_fmap_compose.
  rewrite <- (list_fmap_id (seqZ a n)) at 2. apply list_fmap_ext. intros i x Hx.
  apply list_elem_of_lookup_2, elem_of_seqZ in Hx. cbn.
  apply payload_seq_numbered; [done|]. split; lia.
Qed.

(** ** Lemmas *)

Lemma gap_exact p prev seq :
  seq_ok prev → is_u64 seq → gap p prev seq = Ok (Z.max 0 (seq - prev - 1)).
Proof.
  intros Hp Hs. unfold gap, seq_ok in *. rewrite (arith_fits p 64 (prev + 1)) by width. cbn [mbind res_bind].
  destruct (Z.ltb_spec (prev + 1) seq) as [H|H].
  - rewrite arith_fits by width. cbn [mbind res_bind].
    rewrite arith_fits by width. f_equal. lia.
  - f_equal. lia.
Qed.

Lemma gaps_nonneg prev l : 0 ≤ gaps prev l.
Proof.
  revert prev. induction l as [|s l IH]; intros prev; simpl; [lia|].
  specialize (IH (Some s)). destruct prev; lia.
Qed.

Lemma zsum_ext {A} (f g : A → Z) l : (∀ x, x ∈ l → f x = g x) → zsum f l = zsum g l.
Proof.
  induction l as [|x l IH]; intros H; [done|]. cbn. rewrite (H x) by set_solver.
  unfold zsum in IH. rewrite IH; [done|set_solver].
Qed.

Lemma zsum_cons {A} (f : A → Z) x l : zsum f (x :: l) = f x + zsum f l.
Proof. done. Qed.

Lemma zsum_between {A} (f g : A → Z) l : (∀ x, x ∈ l → f x ≤ g x) → zsum f l ≤ zsum g l.
Proof.
  induction l as [|x l IH]; intros H; [done|]. rewrite !zsum_cons.
  pose proof (H x ltac:(by left)). assert (zsum f l ≤ zsum g l); [|lia]. apply IH. intros y Hy. apply H. by right.
Qed.

(** Changing one summand of a duplicate-free sum. *)
Lemma zsum_update {A} (f g : A → Z) l x d :
  NoDup l → x ∈ l → f x = g x + d → (∀ y, y ≠ x → f y = g y) → zsum f l = zsum g l + d.
Proof.
  intros Hnd Hx Hfx Hfy. induction Hnd as [|y l Hy Hnd IH]; [by apply not_elem_of_nil in Hx|].
  rewrite !zsum_cons. apply elem_of_cons in Hx as [->|Hx].
  - rewrite Hfx. rewrite (zsum_ext f g l); [lia|].
    intros z Hz. apply Hfy. intros ->. done.
  - rewrite IH by done. rewrite (Hfy y); [lia|]. intros ->. done.
Qed.

Lemma zsum_zero {A} (f : A → Z) l : (∀ x, x ∈ l → f x = 0) → zsum f l = 0.
Proof.
  induction l as [|x l IH]; intros H; [done|].
  rewrite zsum_cons, IH, (H x); set_solver.
Qed.

Lemma stream_cons_eq sid s l : stream sid ((sid, s) :: l) = s :: stream sid l.
Proof. unfold stream. by rewrite filter_cons_True. Qed.

Lemma stream_cons_ne sid sid' s l : sid' ≠ sid → stream sid ((sid', s) :: l) = stream sid l.
Proof. intros H. unfold stream. by rewrite filter_cons_False. Qed.

Definition good_arrival (x : Z * Z) : Prop := is_u64 x.1 ∧ seq_ok x.2.

Lemma add_drops_add a b c : add_drops b (add_drops a c) = add_drops (a + b) c.
Proof. unfold add_drops. simpl. by rewrite wrap_add_l, Z.add_assoc. Qed.

Lemma add_drops_0 c : is_u64 (drops c) → add_drops 0 c = c.
Proof. intros H. destruct c. unfold add_drops. simpl in *. by rewrite Z.add_0_r, wrap_small. Qed.

Lemma note_seq_exact p last c sid seq :
  (∀ i s, last !! i = Some s → seq_ok s) → is_u64 (drops c) → seq_ok seq →
  note_seq p last c sid seq =
    Ok (<[sid := seq]> last, add_drops (gaps (last !! sid) [seq]) c).
Proof.
  intros Hl Hc Hs. unfold note_seq. destruct (last !! sid) as [q|] eqn:E.
  - rewrite gap_exact by (eauto || (unfold seq_ok in *; width)).
    cbn [mbind res_bind gaps]. rewrite Z.add_0_r.
    destruct (Z.eqb_spec (Z.max 0 (seq - q - 1)) 0) as [->|]; [|done].
    by rewrite add_drops_0.
  - simpl. by rewrite add_drops_0.
Qed.

(** Over any arrivals, the drop counter grows by the per-stream gaps,
    whatever the interleaving of the streams. *)
Lemma note_all_sum p sids l : ∀ last c,
  NoDup sids → (∀ x, x ∈ l → x.1 ∈ sids) → Forall good_arrival l →
  (∀ i s, last !! i = Some s → seq_ok s) → is_u64 (drops c) →
  ∃ last', note_all p last c l =
    Ok (last', add_drops (zsum (λ sid, gaps (last !! sid) (stream sid l)) sids) c).
Proof.
  induction l as [|[sid s] l IH]; intros last c Hnd Hin Hg Hl Hc.
  { exists last. cbn [note_all]. rewrite zsum_zero by done. by rewrite add_drops_0. }
  apply Forall_cons in Hg as [[Hsid Hs] Hg]. cbn [fst snd] in *.
  cbn [note_all]. rewrite note_seq_exact by done. cbn [mbind res_bind].
  edestruct (IH (<[sid := s]> last)) as [last' ->]; [done|set_solver|done|..].
  { intros i s' Hi. apply lookup_insert_Some in Hi as [[_ <-]|[_ Hi]]; eauto. }
  { apply wrap_fits. lia. }
  exists last'. rewrite add_drops_add. do 3 f_equal. symmetry.
  rewrite (zsum_update _ (λ i, gaps (<[sid:=s]> last !! i) (stream i l)) sids sid
    (gaps (last !! sid) [s])); [lia|done| | |].
  - apply (Hin (sid, s)). set_solver.
  - rewrite stream_cons_eq, lookup_insert_eq. cbn [gaps]. lia.
  - intros i Hi. by rewrite stream_cons_ne, lookup_insert_ne.
Qed.

(** *** Gap counts and real losses *)

Lemma gaps_increasing l : ∀ q,
  StronglySorted Z.lt (q :: l) → gaps (Some q) l + zlen l = default q (last l) - q.
Proof.
  induction l as [|s l IH]; intros q Hs; [cbn; lia|].
  apply StronglySorted_inv in Hs as [Hs Hq]. apply Forall_cons in Hq as [Hq _].
  specialize (IH s Hs). rewrite last_cons. cbn [gaps length].
  destruct (last l) as [x|]; simpl in *; lia.
Qed.

(** Any order at all: never fewer gaps than the span needs. *)
Lemma gaps_span l : ∀ q, default q (last l) - q ≤ gaps (Some q) l + zlen l.
Proof.
  induction l as [|s l IH]; intros q; [cbn; lia|].
  specialize (IH s). rewrite last_cons. cbn [gaps length].
  destruct (last l) as [x|]; simpl in *; lia.
Qed.

Lemma seqZ_sorted a n : StronglySorted Z.lt (seqZ a n).
Proof.
  destruct (decide (0 ≤ n)) as [Hn|]; [|rewrite seqZ_nil by lia; constructor].
  revert a. pattern n. apply natlike_ind; [constructor| |done]. clear n Hn.
  intros n Hn IH a. rewrite seqZ_cons by lia.
  replace (Z.pred (Z.succ n)) with n by lia. constructor; [apply IH|].
  apply Forall_forall. intros x Hx. apply elem_of_seqZ in Hx. lia.
Qed.

Lemma sublist_sorted (l k : list Z) : sublist l k → StronglySorted Z.lt k → StronglySorted Z.lt l.
Proof.
  induction 1 as [|x l k Hsub IH|x l k Hsub IH]; intros Hs; [done|..];
    apply StronglySorted_inv in Hs as [Hs Hx]; [|by apply IH].
  constructor; [by apply IH|].
  rewrite Forall_forall in *. intros y Hy. apply Hx. by eapply elem_of_sublist.
Qed.

(** In-order delivery of part of [a .. a + n - 1], both ends included:
    the gaps are exactly the numbers that did not arrive. *)
Lemma gaps_exact (r : list Z) a n :
  sublist r (seqZ a n) → head r = Some a → last r = Some (a + n - 1) →
  gaps None r = n - zlen r.
Proof.
  intros Hsub Hh Hl. destruct r as [|s r]; [done|]. injection Hh as ->.
  apply sublist_sorted in Hsub; [|apply seqZ_sorted].
  pose proof (gaps_increasing r a Hsub) as H. rewrite last_cons in Hl.
  cbn [gaps length]. destruct (last r) as [x|]; simpl in *; simplify_eq; lia.
Qed.

Lemma gaps_app l k : ∀ q,
  gaps (Some q) (l ++ k) = gaps (Some q) l + gaps (Some (default q (last l))) k.
Proof.
  induction l as [|s l IH]; intros q; [done|]. cbn [app gaps].
  rewrite IH, last_cons. destruct (last l); cbn; lia.
Qed.

(** In-order delivery of a part [r] of the rising numbers [w], with both
    ends: the gaps are those of [w] and the numbers that did not arrive. *)
Lemma gaps_lost w r :
  StronglySorted Z.lt w → sublist r w → head r = head w → last r = last w →
  gaps None r = gaps None w + (zlen w - zlen r).
Proof.
  intros Hw Hsub Hh Hl. destruct r as [|q r], w as [|q' w]; try done. cbn [head] in Hh. injection Hh as <-.
  pose proof (sublist_sorted _ _ Hsub Hw) as Hr.
  pose proof (gaps_increasing r q Hr) as G. pose proof (gaps_increasing w q Hw) as G'.
  rewrite !last_cons in Hl. cbn [gaps length].
  assert (default q (last r) = default q (last w)) as EL by (destruct (last r), (last w); cbn in *; congruence). lia.
Qed.

Lemma last_seqZ a n : 0 < n → last (seqZ a n) = Some (a + n - 1).
Proof.
  intros Hn. replace n with (n - 1 + 1) by lia. rewrite seqZ_app by lia.
  change (seqZ (a + (n - 1)) 1) with [0 + (a + (n - 1))]. rewrite last_snoc. f_equal. lia.
Qed.

(** Consecutive numbers have no gaps. *)
Lemma gaps_consecutive a n : gaps None (seqZ a n) = 0.
Proof.
  destruct (decide (0 < n)) as [Hn|]; [|by rewrite seqZ_nil by lia].
  rewrite (gaps_exact _ a n); [rewrite length_seqZ; lia|done| |by apply last_seqZ].
  by rewrite seqZ_cons by lia.
Qed.

(** A jump of one number between two consecutive runs is one gap. *)
Lemma gaps_jump a m n :
  0 < m → 0 < n → gaps None (seqZ a m ++ seqZ (a + m + 1) n) = 1.
Proof.
  intros Hm Hn. pose proof (gaps_consecutive a m) as H1.
  pose proof (gaps_consecutive (a + m + 1) n) as H2.
  pose proof (last_seqZ a m Hm) as Hl.
  rewrite (seqZ_cons a m) in * by lia. rewrite (seqZ_cons (a + m + 1) n) in * by lia.
  cbn [app gaps] in *. rewrite gaps_app. cbn [gaps].
  rewrite last_cons in Hl. destruct (last (seqZ (Z.succ a) (Z.pred m))); cbn in *; simplify_eq; lia.
Qed.

Lemma stream_total sids l :
  NoDup sids → (∀ x, x ∈ l → x.1 ∈ sids) → zsum (λ sid, zlen (stream sid l)) sids = zlen l.
Proof.
  intros Hnd. induction l as [|[sid s] l IH]; intros Hin; [by apply zsum_zero|].
  rewrite (zsum_update _ (λ i, zlen (stream i l)) sids sid 1); [|done|..].
  - rewrite IH by set_solver. cbn [length]. lia.
  - apply (Hin (sid, s)). set_solver.
  - rewrite stream_cons_eq. cbn [length]. lia.
  - intros i Hi. by rewrite stream_cons_ne.
Qed.

Lemma zsum_sub {A} (f g : A → Z) l : zsum (λ x, f x - g x) l = zsum f l - zsum g l.
Proof. induction l as [|x l IH]; [done|]. rewrite !zsum_cons, IH. lia. Qed.

(** ** Properties *)

(** For any interleaving of any number of streams, the shared drop
    counter grows by the sum over the streams of each stream's own sequence
    gaps: streams never disturb each other's loss count. *)
Theorem drops_are_stream_gaps p sids l c :
  NoDup sids → (∀ x, x ∈ l → x.1 ∈ sids) → Forall good_arrival l → is_u64 (drops c) →
  ∃ last', note_all p ∅ c l =
    Ok (last', add_drops (zsum (λ sid, gaps None (stream sid l)) sids) c).
Proof.
  intros Hnd Hin Hg Hc. destruct (note_all_sum p sids l ∅ c) as [last' ->]; try done.
  by eexists.
Qed.

Lemma drops_are_stream_gaps_witness :
  ∃ last', note_all Debug ∅ Counters_default [(0, 5); (7, 1); (0, 8); (7, 2); (0, 9)] =
    Ok (last', mkCounters 0 0 2).
Proof.
  apply (drops_are_stream_gaps Debug [0; 7] [(0, 5); (7, 1); (0, 8); (7, 2); (0, 9)]
           Counters_default).
  - apply (bool_decide_unpack _). vm_compute. exact I.
  - intros x Hx. repeat (apply elem_of_cons in Hx as [->|Hx]; [set_solver|]). set_solver.
  - repeat constructor; done.
  - done.
Defined.

(** Loss is exact on in-order networks.  If every stream [i] sent the
    [count i] consecutive numbers from [first i] and the receiver sees an
    in-order part of them with both ends, then after all arrivals the drop
    counter is the number of packets sent minus the number received. *)
Theorem loss_exact_in_order p sids (first count : Z → Z) l c :
  NoDup sids → (∀ x, x ∈ l → x.1 ∈ sids) → Forall good_arrival l → is_u64 (drops c) →
  (∀ i, i ∈ sids → sublist (stream i l) (seqZ (first i) (count i))
     ∧ head (stream i l) = Some (first i)
     ∧ last (stream i l) = Some (first i + count i - 1)) →
  ∃ last', note_all p ∅ c l = Ok (last', add_drops (zsum count sids - zlen l) c).
Proof.
  intros Hnd Hin Hg Hc Hsub. destruct (note_all_sum p sids l ∅ c) as [last' ->]; try done.
  eexists. do 3 f_equal. rewrite <- (stream_total sids l) by done. rewrite <- zsum_sub.
  apply zsum_ext. intros i Hi. rewrite lookup_empty.
  destruct (Hsub i Hi) as (H1 & H2 & H3). by rewrite (gaps_exact _ (first i) (count i)).
Qed.

Lemma loss_exact_in_order_witness :
  ∃ last', note_all Release ∅ Counters_default [(3, 0); (3, 1); (3, 4)] =
    Ok (last', mkCounters 0 0 2).
Proof.
  apply (loss_exact_in_order Release [3] (λ _, 0) (λ _, 5) [(3, 0); (3, 1); (3, 4)]
           Counters_default).
  - apply (bool_decide_unpack _). vm_compute. exact I.
  - intros x Hx. repeat (apply elem_of_cons in Hx as [->|Hx]; [set_solver|]). set_solver.
  - repeat constructor; done.
  - done.
  - intros i Hi. apply list_elem_of_singleton in Hi as ->. split; [|done].
    change (sublist [0; 1; 4] [0; 1; 2; 3; 4]). repeat constructor.
Defined.

(** In any delivery order, reordering and duplication included, a
    stream's drops plus its arrivals after the first cover the distance
    between its first and its last arrival: loss inside that span is never
    under-reported. *)
Theorem loss_never_underreported p sid (s : Z) l c :
  is_u64 sid → seq_ok s → Forall seq_ok l → drops c = 0 → gaps (Some s) l < 2 ^ 64 →
  ∃ last' c', note_all p ∅ c ((sid, s) :: ((λ q, (sid, q)) <$> l)) = Ok (last', c')
    ∧ default s (last l) - s ≤ drops c' + zlen l.
Proof.
  intros Hsid Hs Hl Hc Hg.
  assert (stream sid ((sid, s) :: ((λ q, (sid, q)) <$> l)) = s :: l) as Hst.
  { rewrite stream_cons_eq. f_equal. clear Hg Hl. induction l as [|q l IH]; [done|].
    rewrite fmap_cons, stream_cons_eq. by f_equal. }
  destruct (note_all_sum p [sid] ((sid, s) :: ((λ q, (sid, q)) <$> l)) ∅ c) as [last' ->].
  - apply NoDup_singleton.
  - intros x [->|(q & -> & _)%list_elem_of_fmap]%elem_of_cons; set_solver.
  - constructor; [done|]. apply Forall_fmap. eapply Forall_impl; [exact Hl|]. done.
  - done.
  - rewrite Hc. width.
  - do 2 eexists. split; [done|]. cbn [zsum foldr drops add_drops].
    rewrite Hst, lookup_empty, Hc, Z.add_0_r, Z.add_0_l. cbn [gaps]. rewrite Z.add_0_l.
    pose proof (gaps_span l s). pose proof (gaps_nonneg (Some s) l).
    rewrite wrap_small; [lia|split; lia].
Qed.

Lemma loss_never_underreported_witness :
  ∃ last' c', note_all Debug ∅ Counters_default [(1, 4); (1, 9); (1, 6); (1, 7)] = Ok (last', c')
    ∧ 3 ≤ drops c' + 3.
Proof.
  apply (loss_never_underreported Debug 1 4 [9; 6; 7] Counters_default);
    [done|done|repeat constructor; done|done|done].
Defined.

(** Reordering alone is counted as loss: two packets swapped on a
    network that loses nothing add 2 to the drop counter. *)
Theorem reorder_counts_as_loss p sid s :
  is_u64 sid → 0 ≤ s → s + 3 < 2 ^ 64 - 1 →
  ∃ last', note_all p ∅ Counters_default [(sid, s); (sid, s + 2); (sid, s + 1); (sid, s + 3)]
    = Ok (last', mkCounters 0 0 2).
Proof.
  intros Hsid H0 H1.
  destruct (note_all_sum p [sid] [(sid, s); (sid, s + 2); (sid, s + 1); (sid, s + 3)] ∅
    Counters_default) as [last' ->].
  - apply NoDup_singleton.
  - apply Forall_forall. repeat constructor; set_solver.
  - repeat constructor; simpl; unfold seq_ok; try apply Hsid; lia.
  - done.
  - done.
  - eexists. do 2 f_equal. cbn [zsum foldr]. rewrite lookup_empty.
    rewrite !stream_cons_eq. cbn [gaps stream filter list_filter fmap list_fmap].
    unfold add_drops. cbn. f_equal.
    rewrite (Z.max_r 0 (s + 2 - s - 1)), (Z.max_l 0 (s + 1 - (s + 2) - 1)),
      (Z.max_r 0 (s + 3 - (s + 1) - 1)) by lia.
    rewrite wrap_small; [lia|width].
Qed.

Lemma reorder_counts_as_loss_witness :
  ∃ last', note_all Release ∅ Counters_default [(0, 10); (0, 12); (0, 11); (0, 13)]
    = Ok (last', mkCounters 0 0 2).
Proof. apply (reorder_counts_as_loss Release 0 10); done. Defined.
