(* ===== verification/Gen.v ===== *)
(** * The AF_XDP generator ([src/xdp/gen.rs])

    One worker's transmit state, [tx_one] (pop a frame, stamp it, hand it to
    the TX ring), and the paced transmit loop with its frame recycling.
    The kernel is the other owner of the two rings: it takes descriptors
    from the TX ring and returns their addresses through the completion
    ring.  Its behaviour is a parameter with the contract AF_XDP documents;
    the theorems are about every run of the worker against any kernel that
    keeps it. *)

From S2P Require Import Prelude Pace Ring Simd Frame Loss.

Definition TX_BATCH : nat := 64.

(** [struct TxState]; [area] is the umem's memory. *)
Record TxState : Type := mkTxState {
  ts_fd : Z;
  tx : DescRing;
  comp : AddrRing;
  pool : list Z;
  hdr : FrameHeader;
  sa : SockaddrXdp;
  area : list Z;
}.

Definition set_tx (s : TxState) (r : DescRing) : TxState :=
  mkTxState (ts_fd s) r (comp s) (pool s) (hdr s) (sa s) (area s).
Definition set_comp (s : TxState) (r : AddrRing) : TxState :=
  mkTxState (ts_fd s) (tx s) r (pool s) (hdr s) (sa s) (area s).
Definition set_pool (s : TxState) (l : list Z) : TxState :=
  mkTxState (ts_fd s) (tx s) (comp s) l (hdr s) (sa s) (area s).
Definition set_area (s : TxState) (a : list Z) : TxState :=
  mkTxState (ts_fd s) (tx s) (comp s) (pool s) (hdr s) (sa s) a.

(** [Vec::pop]: the last element. *)
Definition vec_pop {A} (l : list A) : option (A * list A) :=
  match last l with
  | Some a => Some (a, take (length l - 1) l)
  | None => None
  end.

Section worker.
Context (p : profile) (c : cpu) (LEVEL : option SimdLevel).

Definition tx_one (s : TxState) (payload : list Z) : res (bool * TxState) :=
  match vec_pop (pool s) with
  | None => Ok (false, s)
  | Some (addr, pool') =>
      let s := set_pool s pool' in
      (* from_raw_parts_mut(state.area.add(addr), FRAME_SIZE) *)
      if decide (0 ≤ addr ∧ addr + FRAME_SIZE ≤ zlen (area s)) then
        '(buf, len) ← write_frame p c LEVEL (hdr s) (slice (area s) addr FRAME_SIZE) payload;
        let s := set_area s (splice (area s) addr buf) in
        let desc := mkXdpDesc addr (wrap 32 len) 0 in
        '(n, tx') ← produce_tx (tx s) [desc];
        let s := set_tx s tx' in
        if n =? 0 then Ok (false, set_pool s (pool s ++ [addr]))
        else Ok (true, s)
      else Undefined
  end.

(** The recycling block at the head of an iteration. *)
Definition recycle (s : TxState) : res TxState :=
  '(done, comp') ← dequeue_all (comp s);
  let s := set_comp s comp' in
  Ok (match done with [] => s | _ => set_pool s (pool s ++ done) end).

(** [payload[8..16].copy_from_slice(&seq.to_le_bytes())]. *)
Definition stamp_seq (payload : list Z) (seq : Z) : res (list Z) :=
  if decide (16 ≤ zlen payload) then Ok (splice payload 8 (to_le_bytes 8 seq)) else Panic.

(** [for _ in 0..TX_BATCH]: the number stamped is consumed before the
    frame is known to be accepted.  Result: state, payload buffer, next
    sequence number, frames sent. *)
Fixpoint tx_batch (n : nat) (s : TxState) (payload : list Z) (seq sent : Z)
    : res (TxState * list Z * Z * Z) :=
  match n with
  | O => Ok (s, payload, seq, sent)
  | S n =>
      payload ← stamp_seq payload seq;
      seq ← arith p 64 (seq + 1);
      '(ok, s) ← tx_one s payload;
      if (ok : bool) then sent ← arith p 64 (sent + 1); tx_batch n s payload seq sent
      else Ok (s, payload, seq, sent)
  end.

(** A [sendto] of [st_len] bytes. *)
Record sendto : Type := Sendto {
  st_fd : Z;
  st_len : Z;
  st_flags : Z;
  st_addr : SockaddrXdp;
  st_addrlen : Z;
}.

#[export] Instance sendto_eq_dec : EqDecision sendto.
Proof. solve_decision. Defined.

Definition MSG_DONTWAIT : Z := 0x40.

(** [kick]: an empty message to the queue's address, whatever the wakeup flag
    says; its result is not looked at. *)
Definition kick (s : TxState) : sendto := Sendto (ts_fd s) 0 MSG_DONTWAIT (sa s) 16.

(** The local variables of [tx_loop], the shared counters, and the calls
    [kick] made. *)
Record loop_state : Type := LoopState {
  ls_tx : TxState;
  ls_payload : list Z;
  ls_seq : Z;
  ls_sent_sec : Z;
  ls_sec_start : Z;
  ls_counters : Counters;
  ls_kicks : list sendto;
}.

(** What the environment supplies in one iteration: the [run] flag, the
    clock at the loop test, at [elapsed()] and at the window reset (in
    nanoseconds), and the kernel's action before the body runs: on the
    shared rings and on the descriptors it holds in flight. *)
Record iter_env : Type := IterEnv {
  ev_run : bool;
  ev_now : Z;
  ev_now_pace : Z;
  ev_now_reset : Z;
  ev_kernel : TxState → list XdpDesc → TxState * list XdpDesc;
}.

Definition SECOND : Z := 1000000000.

(** The body of the [while] loop; the second component is how long it
    slept. *)
Definition tx_iter (frame_total pps_per : Z) (e : iter_env) (l : loop_state)
    : res (loop_state * Z) :=
  s ← recycle (ls_tx l);
  '(s, payload, seq, sent) ← tx_batch TX_BATCH s (ls_payload l) (ls_seq l) 0;
  '(counters, sent_sec, kicks) ←
    (if 0 <? sent then
       b ← arith p 64 (sent * frame_total);
       sent_sec ← arith p 64 (ls_sent_sec l + sent);
       Ok (add_bytes b (add_packets sent (ls_counters l)), sent_sec, ls_kicks l ++ [kick s])
     else Ok (ls_counters l, ls_sent_sec l, ls_kicks l));
  if (0 <? pps_per) && (pps_per <=? sent_sec) then
    let el := ev_now_pace e - ls_sec_start l in
    Ok (LoopState s payload seq 0 (ev_now_reset e) counters kicks,
        if el <? SECOND then SECOND - el else 0)
  else Ok (LoopState s payload seq sent_sec (ls_sec_start l) counters kicks, 0).

Definition set_ls_tx (l : loop_state) (s : TxState) : loop_state :=
  LoopState s (ls_payload l) (ls_seq l) (ls_sent_sec l) (ls_sec_start l) (ls_counters l)
    (ls_kicks l).

(** [tx_loop]'s [while], over the iterations the environment drives, with
    the descriptors the kernel holds threaded along; the flag tells
    whether the loop has left. *)
Fixpoint tx_while (frame_total pps_per deadline : Z) (envs : list iter_env)
    (l : loop_state) (inflight : list XdpDesc) : res (loop_state * list XdpDesc * bool) :=
  match envs with
  | [] => Ok (l, inflight, false)
  | e :: envs =>
      if ev_run e && (ev_now e <? deadline) then
        let '(s, inflight) := ev_kernel e (ls_tx l) inflight in
        '(l, _) ← tx_iter frame_total pps_per e (set_ls_tx l s);
        tx_while frame_total pps_per deadline envs l inflight
      else Ok (l, inflight, true)
  end.

(** [tx_loop]: the payload buffer carries the worker index in its first
    eight bytes. *)
Definition tx_loop (s : TxState) (worker payload_len deadline pps_per start : Z)
    (counters : Counters) (envs : list iter_env) : res (loop_state * list XdpDesc * bool) :=
  if decide (8 ≤ payload_len) then
    let payload := splice (replicate (Z.to_nat payload_len) 0) 0 (to_le_bytes 8 worker) in
    tx_while (OUTER_HDR + payload_len) pps_per deadline envs
      (LoopState s payload 0 0 start counters []) []
  else Panic.
End worker.

(** ** Ownership of the umem frames *)

Lemma vec_pop_snoc {A} (l : list A) a : vec_pop (l ++ [a]) = Some (a, l).
Proof.
  unfold vec_pop. rewrite last_snoc. do 2 f_equal.
  rewrite length_app. cbn [length]. rewrite Nat.add_sub. apply take_app_length.
Qed.

Lemma vec_pop_nil {A} : vec_pop ([] : list A) = None.
Proof. done. Qed.

(** Two distinct frames do not overlap. *)
Lemma frames_apart a b :
  (FRAME_SIZE | a) → (FRAME_SIZE | b) → a ≠ b → a + FRAME_SIZE ≤ b ∨ b + FRAME_SIZE ≤ a.
Proof.
  unfold FRAME_SIZE. intros [x ->] [y ->] Hne.
  destruct (decide (x < y)); [left|right]; nia.
Qed.

Section ownership.
Context (p : profile) (c : cpu) (LEVEL : option SimdLevel).
Context (src_mac dst_mac src_ip dst_ip : list Z) (src_port dst_port : Z).
(** The capacities of the TX and the completion ring, as powers of two,
    and the frames of the TX pool. *)
Context (kt kc : Z) (frames : list Z).

(** The frame descriptor [d] points at carries the payload [pl]. *)
Definition intact (area : list Z) (d : XdpDesc) (pl : list Z) : Prop :=
  desc_len d = OUTER_HDR + zlen pl ∧ desc_len d ≤ FRAME_SIZE ∧
  decode_frame (slice area (desc_addr d) (desc_len d)) =
    Some (UdpFrame dst_mac src_mac src_ip dst_ip src_port dst_port pl).

(** Every TX frame is in exactly one of four places: the pool, the TX ring
    ([qt]), the kernel's hands ([fl]) or the completion ring ([qc]); and
    every frame handed over still carries the payload it was handed over
    with. *)
Record tx_inv (s : TxState) (qt fl : list (XdpDesc * list Z)) (qc : list Z) : Prop := {
  inv_tx : ring_rep kt (tx s) qt.*1;
  inv_comp : ring_rep kc (comp s) qc;
  inv_hdr : hdr s = FrameHeader_new src_mac dst_mac src_ip dst_ip src_port dst_port;
  inv_nodup : NoDup frames;
  inv_frames : ∀ a, a ∈ frames → 0 ≤ a ∧ (FRAME_SIZE | a) ∧ a + FRAME_SIZE ≤ zlen (area s);
  inv_part : pool s ++ (desc_addr <$> qt.*1) ++ (desc_addr <$> fl.*1) ++ qc ≡ₚ frames;
  inv_data : Forall (λ x, intact (area s) x.1 x.2) (qt ++ fl);
}.

Context (Hisa : isa_ok c) (Hcell : oncelock_ok c LEVEL).
Context (Hsm : is_mac src_mac) (Hdm : is_mac dst_mac).
Context (Hsi : is_ip src_ip) (Hdi : is_ip dst_ip).
Context (Hsp : is_u16 src_port) (Hdp : is_u16 dst_port).

(** Stamping the frame at [a] makes it intact and leaves every other
    frame as it was. *)
Lemma stamp_frame (ar : list Z) a (payload : list Z) :
  0 ≤ a → a + FRAME_SIZE ≤ zlen ar → OUTER_HDR + zlen payload ≤ FRAME_SIZE →
  ∃ buf,
    write_frame p c LEVEL (FrameHeader_new src_mac dst_mac src_ip dst_ip src_port dst_port)
      (slice ar a FRAME_SIZE) payload = Ok (buf, OUTER_HDR + zlen payload)
    ∧ zlen buf = FRAME_SIZE
    ∧ intact (splice ar a buf) (mkXdpDesc a (OUTER_HDR + zlen payload) 0) payload.
Proof.
  intros Ha Hb Hl. pose proof (length_slice ar a FRAME_SIZE) as Hs.
  change OUTER_HDR with 42 in *. unfold FRAME_SIZE in *.
  destruct (write_frame_new p c LEVEL src_mac dst_mac src_ip dst_ip src_port dst_port
    (slice ar a 4096) payload) as (ck & Hu & Hm & Hw);
    [done..|unfold MAX_PAYLOAD; lia|change OUTER_HDR with 42; lia|].
  rewrite Hw. change OUTER_HDR with 42.
  set (hb := header_bytes _ _ _). set (tail := drop _ (slice ar a 4096)).
  assert (zlen hb = 42) as Hhb.
  { subst hb. by rewrite length_header_bytes, length_new. }
  assert (zlen (hb ++ payload ++ tail) = 4096) as Hlen.
  { rewrite !length_app. subst tail. rewrite length_drop. lia. }
  eexists. split_and!; [done|done|]. unfold intact, FRAME_SIZE. cbn [desc_addr desc_len].
  change OUTER_HDR with 42. split_and!; [done|lia|].
  rewrite slice_splice_in, Z.sub_diag, app_assoc, slice_app_l
    by (rewrite ?length_app in *; lia).
  apply decode_header; try done. unfold MAX_PAYLOAD. lia.
Qed.

Lemma intact_other ar a buf d pl :
  0 ≤ a → zlen buf = FRAME_SIZE → a + FRAME_SIZE ≤ zlen ar → (FRAME_SIZE | a) →
  0 ≤ desc_addr d → (FRAME_SIZE | desc_addr d) → desc_addr d ≠ a →
  intact ar d pl → intact (splice ar a buf) d pl.
Proof.
  intros Ha Hb Hl Hda Hd Hdd Hne (E & Hle & Hdec). unfold intact.
  split_and!; [done|done|]. rewrite slice_splice_ne; [done|done|lia|done|].
  destruct (frames_apart (desc_addr d) a); [done|done|done|left; lia|right; lia].
Qed.

(** A frame in the pool is in nobody else's hands. *)
Lemma pool_frame s qt fl qc pool' a :
  tx_inv s qt fl qc → pool s = pool' ++ [a] →
  a ∈ frames ∧ (∀ x, x ∈ qt ++ fl → desc_addr x.1 ∈ frames ∧ desc_addr x.1 ≠ a).
Proof.
  intros Hinv Epool. pose proof (inv_part _ _ _ _ Hinv) as Hpart. rewrite Epool in Hpart.
  pose proof (inv_nodup _ _ _ _ Hinv) as Hnd. rewrite <- Hpart in Hnd.
  apply NoDup_app in Hnd as (_ & Hdis & _).
  assert (a ∈ pool' ++ [a]) as Ha by (apply elem_of_app; right; by apply list_elem_of_singleton).
  split; [rewrite <- Hpart; apply elem_of_app; by left|].
  intros x Hx. specialize (Hdis a Ha).
  assert (desc_addr x.1 ∈ (desc_addr <$> qt.*1) ++ (desc_addr <$> fl.*1)) as Hda.
  { rewrite <- fmap_app, <- fmap_app. by do 2 apply list_elem_of_fmap_2. }
  rewrite app_assoc in Hdis. split.
  - rewrite <- Hpart, (app_assoc (desc_addr <$> qt.*1)). apply elem_of_app. right.
    apply elem_of_app. by left.
  - intros E. apply Hdis. rewrite <- E. apply elem_of_app. by left.
Qed.

(** Stamping a pool frame keeps the invariant's data part. *)
Lemma restamp s qt fl qc pool' a buf :
  tx_inv s qt fl qc → pool s = pool' ++ [a] → zlen buf = FRAME_SIZE →
  Forall (λ x, intact (splice (area s) a buf) x.1 x.2) (qt ++ fl).
Proof.
  intros Hinv Epool Hb. destruct (pool_frame _ _ _ _ _ _ Hinv Epool) as [Ha Hothers].
  destruct (inv_frames _ _ _ _ Hinv a Ha) as (Ha0 & Hdiv & Hab).
  pose proof (inv_data _ _ _ _ Hinv) as Hdata. rewrite Forall_forall in *.
  intros x Hx. destruct (Hothers x Hx) as [Hxf Hxa].
  destruct (inv_frames _ _ _ _ Hinv _ Hxf) as (Hd0 & Hdd & _).
  apply intact_other; auto.
Qed.

(** The three outcomes of [tx_one]. *)
Lemma tx_one_spec s qt fl qc payload :
  tx_inv s qt fl qc → OUTER_HDR + zlen payload ≤ FRAME_SIZE →
  (pool s = [] ∧ tx_one p c LEVEL s payload = Ok (false, s))
  ∨ (∃ pool' a s', pool s = pool' ++ [a] ∧ zlen qt < 2 ^ kt
       ∧ tx_one p c LEVEL s payload = Ok (true, s') ∧ pool s' = pool'
       ∧ tx_inv s' (qt ++ [(mkXdpDesc a (OUTER_HDR + zlen payload) 0, payload)]) fl qc)
  ∨ (∃ s', zlen qt = 2 ^ kt ∧ pool s ≠ []
       ∧ tx_one p c LEVEL s payload = Ok (false, s') ∧ pool s' = pool s
       ∧ tx_inv s' qt fl qc).
Proof.
  intros Hinv Hl. destruct (pool s) as [|a pool' _] eqn:Epool using rev_ind.
  { left. split; [done|]. unfold tx_one. by rewrite Epool. }
  right. destruct (pool_frame _ _ _ _ _ _ Hinv Epool) as [Hin _].
  pose proof Hinv as [Htx Hcp Hh Hnd Hfr Hpart _]. rewrite Epool in Hpart.
  destruct (Hfr a Hin) as (Ha0 & Hdiv & Hab).
  destruct (stamp_frame (area s) a payload) as (buf & Hw & Hbl & Hint); [done..|].
  pose proof (restamp _ _ _ _ _ _ _ Hinv Epool Hbl) as Hdata.
  assert (length (splice (area s) a buf) = length (area s)) as Hal
    by (apply length_splice; lia).
  unfold tx_one. rewrite Epool, vec_pop_snoc. cbn [area hdr set_pool pool tx set_area].
  rewrite decide_True by done. rewrite Hh, Hw. cbn [mbind res_bind].
  rewrite (wrap_small 32) by (unfold FRAME_SIZE in Hl; change OUTER_HDR with 42 in *; width).
  set (d := mkXdpDesc a (OUTER_HDR + zlen payload) 0) in *.
  destruct (push_rep kt (tx s) qt.*1 [d] Htx) as (r' & Hr & Hrep).
  pose proof (rep_small _ _ _ Htx) as [Hsz _]. rewrite length_fmap in Hsz, Hrep, Hr.
  cbn [tx set_area set_pool]. rewrite Hr. cbn [mbind res_bind length]. clear Hr.
  destruct (decide (zlen qt = 2 ^ kt)) as [Hfull|Hroom].
  - right. rewrite Hfull, Z.sub_diag in *. rewrite take_0, app_nil_r in Hrep.
    eexists. split_and!; [done|intros E; by apply app_eq_nil in E as [_ ?]|reflexivity|done|].
    split; cbn; rewrite ?Hal; done.
  - left. rewrite take_ge in Hrep by (cbn [length]; lia).
    assert ((Z.of_nat 1 `min` (2 ^ kt - zlen qt) =? 0) = false) as ->
      by (apply Z.eqb_neq; lia).
    exists pool', a. eexists. split_and!; [done|lia|reflexivity|done|].
    split; cbn; rewrite ?Hal; try done.
    + by rewrite fmap_app.
    + rewrite <- Hpart, !fmap_app. cbn. solve_Permutation.
    + rewrite !Forall_app in *. destruct Hdata as [D1 D2].
      split_and!; [done| |done]. by constructor.
Qed.

(** Recycling moves every completed frame to the pool. *)
Lemma recycle_spec s qt fl qc :
  tx_inv s qt fl qc →
  ∃ s', recycle s = Ok s' ∧ pool s' = pool s ++ qc ∧ tx_inv s' qt fl [].
Proof.
  intros [Htx Hcp Hh Hnd Hfr Hpart Hdata]. unfold recycle.
  destruct (drain_rep kc (comp s) qc Hcp) as (r' & -> & Hr'). cbn [mbind res_bind].
  eexists. split; [reflexivity|].
  assert (∀ s', pool s' = pool s ++ qc → tx s' = tx s → comp s' = r' → hdr s' = hdr s →
    area s' = area s → tx_inv s' qt fl []) as Hgo.
  { intros s' E1 E2 E3 E4 E5. split; rewrite ?E2, ?E3, ?E4, ?E5; try done.
    rewrite E1, <- Hpart. solve_Permutation. }
  destruct qc as [|a qc]; (split; [|by apply Hgo; cbn; rewrite ?app_nil_r]);
    cbn; by rewrite ?app_nil_r.
Qed.

Context (Hcap : zlen frames ≤ 2 ^ kt).

(** With at least as many ring slots as frames, a frame in the pool
    implies room in the ring. *)
Lemma room s qt fl qc : tx_inv s qt fl qc → pool s ≠ [] → zlen qt < 2 ^ kt.
Proof.
  intros Hinv Hp. pose proof (Permutation_length (inv_part _ _ _ _ Hinv)) as HL.
  rewrite !length_app, !length_fmap in HL. destruct (pool s); [done|].
  cbn [length] in HL. lia.
Qed.

(** A batch of [n] attempts sends as many frames as the pool has, up to
    [n], numbered consecutively; a batch cut short by an empty pool has
    consumed one more number. *)
Lemma tx_batch_spec payload (n : nat) : 16 ≤ zlen payload →
  OUTER_HDR + zlen payload ≤ FRAME_SIZE → ∀ pay s qt fl qc seq sent,
  (pay = payload ∨ ∃ k, pay = numbered payload k) →
  tx_inv s qt fl qc → 0 ≤ seq → seq + Z.of_nat n < 2 ^ 64 →
  0 ≤ sent → sent + Z.of_nat n < 2 ^ 64 →
  let m := Nat.min n (length (pool s)) in
  ∃ s' pay' new,
    tx_batch p c LEVEL n s pay seq sent =
      Ok (s', pay', seq + Z.of_nat m + (if decide (m < n)%nat then 1 else 0), sent + Z.of_nat m)
    ∧ tx_inv s' (qt ++ new) fl qc
    ∧ new.*2 = numbered payload <$> seqZ seq (Z.of_nat m)
    ∧ (pay' = payload ∨ ∃ k, pay' = numbered payload k).
Proof.
  intros H16 Hl. induction n as [|n IH]; intros pay s qt fl qc seq sent Hpay Hinv H0 H1 H2 H3 m.
  { exists s, pay, []. rewrite app_nil_r. split_and!; [|done..].
    subst m. cbn [tx_batch Nat.min]. rewrite decide_False by lia. by rewrite !Z.add_0_r. }
  assert (16 ≤ zlen pay ∧ numbered pay seq = numbered payload seq) as [Hp16 Hnum].
  { destruct Hpay as [->|[k ->]]; [done|]. by rewrite length_numbered, numbered_numbered. }
  cbn [tx_batch]. unfold stamp_seq. rewrite decide_True by done. cbn [mbind res_bind].
  fold (numbered pay seq). rewrite Hnum.
  rewrite (arith_fits p 64 (seq + 1)) by width. cbn [mbind res_bind].
  destruct (tx_one_spec s qt fl qc (numbered payload seq) Hinv)
    as [[Epool ->]|[(pool' & a & s' & Epool & _ & -> & Epool' & Hinv')|(s' & Hfull & Hne & _)]].
  { by rewrite length_numbered. }
  - exists s, (numbered payload seq), []. rewrite app_nil_r. split_and!; [|done|..|eauto].
    + subst m. rewrite Epool. cbn [mbind res_bind length Nat.min].
      rewrite decide_True by lia. rewrite !Z.add_0_r. reflexivity.
    + subst m. by rewrite Epool.
  - cbn [mbind res_bind]. rewrite (arith_fits p 64 (sent + 1)) by width. cbn [mbind res_bind].
    destruct (IH (numbered payload seq) s' (qt ++ [_]) fl qc (seq + 1) (sent + 1)
      ltac:(eauto) Hinv') as (s'' & pay'' & new & Hbatch & Hinv'' & Hnew & Hpay''); [lia..|].
    rewrite Hbatch. clear Hbatch.
    assert (m = S (Nat.min n (length (pool s')))) as ->.
    { subst m. rewrite Epool, Epool', length_app. cbn [length]. lia. }
    exists s'', pay''. eexists. split_and!.
    + f_equal. f_equal; [f_equal|lia]. repeat case_decide; lia.
    + rewrite <- app_assoc in Hinv''. exact Hinv''.
    + rewrite fmap_app, Hnew, (seqZ_cons seq), Nat2Z.inj_succ, Z.pred_succ by lia. done.
    + done.
  - pose proof (room _ _ _ _ Hinv Hne). lia.
Qed.

(** ** The loop *)

(** What AF_XDP documents of the kernel's side.  It takes descriptors
    from the TX ring oldest first, completes frames it holds in any order
    by appending their addresses to the completion ring, and touches
    neither the pool nor the bytes of a frame. *)
Definition tx_kernel (s : TxState) (fl : list XdpDesc) (s' : TxState) (fl' : list XdpDesc) : Prop :=
  ∀ qt qc,
    ring_rep kt (tx s) qt → ring_rep kc (comp s) qc →
    zlen qt + zlen fl + zlen qc ≤ 2 ^ kc →
    ∃ taken qt' dn,
      qt = taken ++ qt'
      ∧ fl ++ taken ≡ₚ fl' ++ dn
      ∧ ring_rep kt (tx s') qt'
      ∧ ring_rep kc (comp s') (qc ++ (desc_addr <$> dn))
      ∧ pool s' = pool s ∧ hdr s' = hdr s ∧ area s' = area s.

Definition kernel_contract (kernel : TxState → list XdpDesc → TxState * list XdpDesc) : Prop :=
  ∀ s fl, tx_kernel s fl (kernel s fl).1 (kernel s fl).2.

Context (Hcapc : zlen frames ≤ 2 ^ kc).

(** A permutation of projections lifts to the pairs. *)
Lemma perm_lift {A B} (l : list (A * B)) (k1 k2 : list A) :
  l.*1 ≡ₚ k1 ++ k2 → ∃ l1 l2, l1.*1 = k1 ∧ l2.*1 = k2 ∧ l ≡ₚ l1 ++ l2.
Proof.
  intros H. symmetry in H. apply Permutation_map_inv in H as (l' & E & HP).
  symmetry in E. apply map_eq_app in E as (l1 & l2 & -> & E1 & E2).
  exists l1, l2. split_and!; [done|done|]. by symmetry.
Qed.

(** The kernel keeps the invariant; it takes the oldest descriptors. *)
Lemma kernel_step_inv s s' l' qt fl qc :
  tx_kernel s fl.*1 s' l' → tx_inv s qt fl qc →
  ∃ tk qt' fl' qc', qt = tk ++ qt' ∧ tx_inv s' qt' fl' qc' ∧ fl'.*1 = l'.
Proof.
  intros Hk [Htx Hcp Hh Hnd Hfr Hpart Hdata].
  pose proof (Permutation_length Hpart) as HL. rewrite !length_app, !length_fmap in HL.
  destruct (Hk qt.*1 qc Htx Hcp) as (taken & qt1 & dn & E & HP & R1 & R2 & Ep & Eh & Ea).
  { rewrite !length_fmap. lia. }
  apply fmap_app_inv in E as (tk & qt' & -> & -> & ->).
  rewrite <- fmap_app in HP. apply perm_lift in HP as (fl' & dn' & E1 & <- & HP).
  exists tk, qt', fl', (qc ++ (desc_addr <$> dn'.*1)). split; [done|]. split; [|done]. split.
  - done.
  - done.
  - by rewrite Eh.
  - done.
  - by rewrite Ea.
  - rewrite Ep, <- Hpart.
    assert (Hm : desc_addr <$> (fl ++ tk).*1 ≡ₚ desc_addr <$> (fl' ++ dn').*1) by (by rewrite HP).
    rewrite !fmap_app in Hm. rewrite !fmap_app.
    transitivity (pool s ++ (desc_addr <$> qt'.*1) ++
      ((desc_addr <$> fl'.*1) ++ (desc_addr <$> dn'.*1)) ++ qc); [solve_Permutation|].
    rewrite <- Hm. solve_Permutation.
  - rewrite Ea. rewrite !Forall_app in *. destruct Hdata as [[D1 D2] D3].
    split; [done|].
    assert (Forall (λ x, intact (area s) x.1 x.2) (fl' ++ dn')) as D.
    { rewrite <- HP. by apply Forall_app. }
    by apply Forall_app in D as [D _].
Qed.

Lemma kernel_inv kernel s qt fl qc :
  kernel_contract kernel → tx_inv s qt fl qc →
  ∃ tk qt' fl' qc', qt = tk ++ qt' ∧ tx_inv (kernel s fl.*1).1 qt' fl' qc'
    ∧ fl'.*1 = (kernel s fl.*1).2.
Proof. intros Hk. by apply kernel_step_inv. Qed.

(** The payload buffer only ever differs in its number. *)
Definition pay_ok (payload pay : list Z) : Prop :=
  pay = payload ∨ ∃ k, pay = numbered payload k.

Lemma account_zero t cs :
  is_u64 (bytes cs) → is_u64 (packets cs) → add_bytes (0 * t) (add_packets 0 cs) = cs.
Proof.
  intros Hb Hp. destruct cs. unfold add_bytes, add_packets. cbn in *.
  by rewrite Z.mul_0_l, !Z.add_0_r, !wrap_small.
Qed.

(** One iteration: frames recycled, a consecutively numbered batch handed
    to the ring, counters advanced by exactly that batch. *)
Lemma tx_iter_spec e l payload qt fl qc pps :
  16 ≤ zlen payload → OUTER_HDR + zlen payload ≤ FRAME_SIZE →
  pay_ok payload (ls_payload l) → tx_inv (ls_tx l) qt fl qc →
  0 ≤ ls_sent_sec l ≤ ls_seq l → ls_seq l + 128 < 2 ^ 64 →
  is_u64 (bytes (ls_counters l)) → is_u64 (packets (ls_counters l)) →
  let m := Nat.min TX_BATCH (length (pool (ls_tx l)) + length qc) in
  ∃ l' slept new,
    tx_iter p c LEVEL (OUTER_HDR + zlen payload) pps e l = Ok (l', slept)
    ∧ tx_inv (ls_tx l') (qt ++ new) fl []
    ∧ new.*2 = numbered payload <$> seqZ (ls_seq l) (Z.of_nat m)
    ∧ pay_ok payload (ls_payload l')
    ∧ ls_seq l' = ls_seq l + Z.of_nat m + (if decide (m < TX_BATCH)%nat then 1 else 0)
    ∧ ls_counters l' =
        add_bytes (Z.of_nat m * (OUTER_HDR + zlen payload))
          (add_packets (Z.of_nat m) (ls_counters l))
    ∧ 0 ≤ ls_sent_sec l' ≤ ls_seq l'
    ∧ ls_kicks l' = ls_kicks l ++ (if (0 <? m)%nat then [kick (ls_tx l')] else []).
Proof.
  intros H16 Hl Hpay Hinv Hss Hseq Hb Hp m. unfold tx_iter.
  destruct (recycle_spec _ _ _ _ Hinv) as (s1 & -> & Ep & Hinv1). cbn [mbind res_bind].
  destruct (tx_batch_spec payload TX_BATCH H16 Hl (ls_payload l) s1 qt fl [] (ls_seq l) 0)
    as (s2 & pay2 & new & Hbatch & Hinv2 & Hnew & Hpay2); try (done || (unfold TX_BATCH; lia)).
  rewrite Ep, length_app in Hbatch, Hnew. fold m in Hbatch, Hnew. rewrite Hbatch.
  cbn [mbind res_bind]. clear Hbatch. rewrite Z.add_0_l.
  assert (Z.of_nat m ≤ 64) as Hm by (subst m; unfold TX_BATCH; lia).
  set (seq' := ls_seq l + Z.of_nat m + _).
  assert (ls_seq l + Z.of_nat m ≤ seq') as Hseq' by (subst seq'; case_decide; lia).
  set (total := OUTER_HDR + zlen payload) in *.
  assert (∃ kicks, (if 0 <? Z.of_nat m
    then b ← arith p 64 (Z.of_nat m * total); ss ← arith p 64 (ls_sent_sec l + Z.of_nat m);
         Ok (add_bytes b (add_packets (Z.of_nat m) (ls_counters l)), ss, ls_kicks l ++ [kick s2])
    else Ok (ls_counters l, ls_sent_sec l, ls_kicks l)) =
    Ok (add_bytes (Z.of_nat m * total) (add_packets (Z.of_nat m) (ls_counters l)),
        ls_sent_sec l + Z.of_nat m, kicks) ∧ kicks = ls_kicks l ++ (if (0 <? m)%nat then [kick s2] else []))
    as (kicks & -> & Hkicks).
  { destruct (Z.ltb_spec 0 (Z.of_nat m)) as [Hpos|Hz].
    - unfold FRAME_SIZE in Hl. change OUTER_HDR with 42 in *.
      rewrite (arith_fits p 64 (Z.of_nat m * total)) by (split; nia). cbn [mbind res_bind].
      rewrite arith_fits by (split; lia). eexists. split; [done|].
      by rewrite (proj2 (Nat.ltb_lt 0 m)) by lia.
    - assert (Z.of_nat m = 0) as Hm0 by lia. eexists. split.
      + rewrite Hm0, account_zero, Z.add_0_r by done. reflexivity.
      + rewrite (proj2 (Nat.ltb_ge 0 m)) by lia. by rewrite app_nil_r. }
  cbn [mbind res_bind].
  destruct ((0 <? pps) && _); do 2 eexists; exists new; (split; [done|]);
    cbn [ls_tx ls_payload ls_seq ls_sent_sec ls_counters ls_kicks];
    split_and!; try done; lia.
Qed.

(** What holds between iterations; [n0] iterations of head room are left
    before the [u64] counters could overflow. *)
Record loop_inv (payload : list Z) (n0 : Z) (l : loop_state) (inflight : list XdpDesc)
    : Prop := {
  li_frames : ∃ qt fl qc, tx_inv (ls_tx l) qt fl qc ∧ fl.*1 = inflight;
  li_pay : pay_ok payload (ls_payload l);
  li_sec : 0 ≤ ls_sent_sec l ≤ ls_seq l;
  li_room : ls_seq l + 128 * (n0 + 1) < 2 ^ 64;
  li_bytes : is_u64 (bytes (ls_counters l));
  li_packets : is_u64 (packets (ls_counters l));
}.

Lemma counters_add b1 k1 b2 k2 cs :
  add_bytes b2 (add_packets k2 (add_bytes b1 (add_packets k1 cs))) =
  add_bytes (b1 + b2) (add_packets (k1 + k2) cs).
Proof. unfold add_bytes, add_packets. cbn. by rewrite !wrap_add_l, !Z.add_assoc. Qed.

Lemma tx_while_spec payload pps deadline envs :
  16 ≤ zlen payload → OUTER_HDR + zlen payload ≤ FRAME_SIZE →
  Forall (λ e, kernel_contract (ev_kernel e)) envs → ∀ l inflight,
  loop_inv payload (zlen envs) l inflight →
  ∃ l' inflight' left n burnt,
    tx_while p c LEVEL (OUTER_HDR + zlen payload) pps deadline envs l inflight
      = Ok (l', inflight', left)
    ∧ loop_inv payload 0 l' inflight'
    ∧ 0 ≤ n ∧ 0 ≤ burnt ≤ zlen envs
    ∧ ls_seq l' = ls_seq l + n + burnt
    ∧ ls_counters l' =
        add_bytes (n * (OUTER_HDR + zlen payload)) (add_packets n (ls_counters l)).
Proof.
  intros H16 Hl. induction 1 as [|e envs Hk _ IH]; intros l inflight Hinv.
  { exists l, inflight, false, 0, 0. pose proof Hinv as [_ _ _ _ Hb Hp].
    rewrite account_zero by done. cbn [length] in *. split_and!; try done; lia. }
  pose proof Hinv as [(qt & fl & qc & Htx & <-) Hpay Hsec Hroom Hb Hp].
  cbn [length] in Hroom. cbn [tx_while].
  destruct (ev_run e && (ev_now e <? deadline)).
  2:{ exists l, fl.*1, true, 0, 0. rewrite account_zero by done.
      split_and!; try done; try lia. split; try done; [by eauto|lia]. }
  destruct (kernel_inv _ _ _ _ _ Hk Htx) as (tk & qt' & fl' & qc' & -> & Htx' & Efl).
  destruct (ev_kernel e (ls_tx l) fl.*1) as [s1 fl1]. cbn [fst snd] in *.
  destruct (tx_iter_spec e (set_ls_tx l s1) payload qt' fl' qc' pps H16 Hl)
    as (l1 & slept & new & Hit & Htx1 & _ & Hpay1 & Hseq1 & Hc1 & Hsec1 & _);
    try (done || (cbn; lia)).
  rewrite Hit. cbn [mbind res_bind].
  set (m := Nat.min TX_BATCH _) in *. cbn [ls_seq ls_counters set_ls_tx] in *.
  assert (Z.of_nat m ≤ 64) as Hm by (subst m; unfold TX_BATCH; lia).
  destruct (IH l1 fl1) as (l2 & fl2 & left & n & burnt & -> & Hinv2 & Hn & Hbt & Hseq2 & Hc2).
  { split; [by eauto|done|done| |rewrite Hc1; apply wrap_fits; lia..].
    rewrite Hseq1. case_decide; lia. }
  exists l2, fl2, left, (Z.of_nat m + n), (burnt + (if decide (m < TX_BATCH)%nat then 1 else 0)).
  rewrite Hc2, Hc1, counters_add. cbn [length].
  split_and!; try done; try (case_decide; lia); try lia.
  f_equal. lia.
Qed.
End ownership.

(** ** A kernel that keeps the contract *)

(** It transmits at once whatever is in the TX ring. *)
Definition instant_kernel (s : TxState) (fl : list XdpDesc) : TxState * list XdpDesc :=
  match consume_rx (tx s) with
  | Ok (ds, tx') =>
      match enqueue_batch (comp s) (desc_addr <$> ds) with
      | Ok (_, comp') => (set_comp (set_tx s tx') comp', fl)
      | _ => (s, fl)
      end
  | _ => (s, fl)
  end.

Lemma instant_kernel_contract kt kc : kernel_contract kt kc instant_kernel.
Proof.
  intros s fl qt qc Htx Hcp Hroom. unfold instant_kernel.
  destruct (drain_rep kt (tx s) qt Htx) as (tx' & -> & Htx').
  destruct (push_rep kc (comp s) qc (desc_addr <$> qt) Hcp) as (comp' & -> & Hcp').
  rewrite take_ge in Hcp' by (rewrite length_fmap; lia).
  exists qt, [], qt. cbn. by rewrite app_nil_r.
Qed.

(** ** Properties *)

Section properties.
Context (p : profile) (c : cpu) (LEVEL : option SimdLevel).
Context (src_mac dst_mac src_ip dst_ip : list Z) (src_port dst_port kt kc : Z).
Context (frames : list Z).

Abbreviation inv := (tx_inv src_mac dst_mac src_ip dst_ip src_port dst_port kt kc frames).

(** The addresses of a run and the machine it runs on. *)
Definition flow_ok : Prop :=
  isa_ok c ∧ oncelock_ok c LEVEL ∧ is_mac src_mac ∧ is_mac dst_mac
  ∧ is_ip src_ip ∧ is_ip dst_ip ∧ is_u16 src_port ∧ is_u16 dst_port.

(** [tx_one] keeps every umem frame in exactly one place and never
    writes a frame the kernel may still read.  With an empty pool it does
    nothing; with a frame and room in the ring it appends one descriptor
    whose frame decodes to exactly the given payload, and all frames
    already handed over keep their contents; with a full ring it returns
    the frame to the pool.  It neither panics nor leaves the umem. *)
Theorem tx_one_ownership s qt fl qc payload :
  flow_ok → inv s qt fl qc → OUTER_HDR + zlen payload ≤ FRAME_SIZE →
  (pool s = [] ∧ tx_one p c LEVEL s payload = Ok (false, s))
  ∨ (∃ pool' a s', pool s = pool' ++ [a] ∧ zlen qt < 2 ^ kt
       ∧ tx_one p c LEVEL s payload = Ok (true, s') ∧ pool s' = pool'
       ∧ inv s' (qt ++ [(mkXdpDesc a (OUTER_HDR + zlen payload) 0, payload)]) fl qc)
  ∨ (∃ s', zlen qt = 2 ^ kt ∧ pool s ≠ []
       ∧ tx_one p c LEVEL s payload = Ok (false, s') ∧ pool s' = pool s
       ∧ inv s' qt fl qc).
Proof. intros (?&?&?&?&?&?&?&?). by apply tx_one_spec. Qed.

(** A whole run of the loop. *)
Lemma tx_loop_run s worker payload_len deadline pps start counters envs :
  flow_ok → inv s [] [] [] → zlen frames ≤ 2 ^ kt → zlen frames ≤ 2 ^ kc →
  16 ≤ payload_len → OUTER_HDR + payload_len ≤ FRAME_SIZE →
  128 * (zlen envs + 1) < 2 ^ 64 → is_u64 (bytes counters) → is_u64 (packets counters) →
  Forall (λ e, kernel_contract kt kc (ev_kernel e)) envs →
  ∃ l' inflight left n burnt,
    tx_loop p c LEVEL s worker payload_len deadline pps start counters envs
      = Ok (l', inflight, left)
    ∧ (∃ qt fl qc, inv (ls_tx l') qt fl qc ∧ fl.*1 = inflight)
    ∧ ls_seq l' = n + burnt ∧ 0 ≤ n ∧ 0 ≤ burnt ≤ zlen envs
    ∧ ls_counters l' = add_bytes (n * (OUTER_HDR + payload_len)) (add_packets n counters).
Proof.
  intros (?&?&?&?&?&?&?&?) Hinv Hkt Hkc H16 Hlen Hroom Hb Hp Hk. unfold tx_loop.
  rewrite decide_True by lia.
  set (payload := splice _ 0 _).
  assert (zlen payload = payload_len) as Hpl.
  { subst payload. rewrite length_splice; rewrite ?length_replicate, ?length_to_le_bytes; lia. }
  rewrite <- Hpl in *.
  destruct (tx_while_spec p c LEVEL src_mac dst_mac src_ip dst_ip src_port dst_port kt kc frames)
    with (payload := payload) (pps := pps) (deadline := deadline) (envs := envs)
         (l := LoopState s payload 0 0 start counters []) (inflight := [] : list XdpDesc)
    as (l' & fl' & lf & n & burnt & Hrun & Hli & Hn & Hbt & Hseq & Hc); try done.
  { split; cbn; try done; try lia; [by exists [], [], []|by left]. }
  exists l', fl', lf, n, burnt. pose proof (li_frames _ _ _ _ _ _ _ _ _ _ _ _ _ Hli).
  cbn in Hseq. split_and!; try done; lia.
Qed.

(** A whole generator run is safe.  Against any kernel that keeps the
    AF_XDP contract, for any clock readings and any number of iterations
    short of a [u64] overflow, [tx_loop] neither panics nor has undefined
    behaviour; at the end every TX frame is still in exactly one place
    with intact contents, and the shared counters have grown by the number
    of frames handed to the ring and by their total length. *)
Theorem tx_loop_safe s worker payload_len deadline pps start counters envs :
  flow_ok → inv s [] [] [] → zlen frames ≤ 2 ^ kt → zlen frames ≤ 2 ^ kc →
  16 ≤ payload_len → OUTER_HDR + payload_len ≤ FRAME_SIZE →
  128 * (zlen envs + 1) < 2 ^ 64 → is_u64 (bytes counters) → is_u64 (packets counters) →
  Forall (λ e, kernel_contract kt kc (ev_kernel e)) envs →
  ∃ l' inflight left n burnt,
    tx_loop p c LEVEL s worker payload_len deadline pps start counters envs
      = Ok (l', inflight, left)
    ∧ (∃ qt fl qc, inv (ls_tx l') qt fl qc ∧ fl.*1 = inflight)
    ∧ ls_seq l' = n + burnt ∧ 0 ≤ n ∧ 0 ≤ burnt ≤ zlen envs
    ∧ ls_counters l' = add_bytes (n * (OUTER_HDR + payload_len)) (add_packets n counters).
Proof. apply tx_loop_run. Qed.
End properties.

(** *** A concrete worker: two frames, rings of two slots *)

Definition demo_hdr : FrameHeader :=
  FrameHeader_new [0;17;34;51;68;85] [170;187;204;221;238;255] [10;0;0;1] [10;0;0;2] 40000 5201.

Definition demo_tx : TxState :=
  mkTxState 3
    (Ring (Some (RingMem 0 0 0 [mkXdpDesc 0 0 0; mkXdpDesc 0 0 0])) 2 1)
    (Ring (Some (RingMem 0 0 0 [0; 0])) 2 1)
    [0; 4096] demo_hdr (mkSockaddrXdp 44 0 2 0 0) (replicate (Z.to_nat 8192) 0).

Abbreviation demo_inv :=
  (tx_inv [0;17;34;51;68;85] [170;187;204;221;238;255] [10;0;0;1] [10;0;0;2] 40000 5201 1 1
     [0; 4096]).

Lemma empty_ring_rep {A} (a b : A) :
  ring_rep 1 (Ring (Some (RingMem 0 0 0 [a; b])) 2 1) [].
Proof.
  split; [done..|]. eexists; split; [done|]. split_and!; try done.
Qed.

Lemma demo_tx_inv : demo_inv demo_tx [] [] [].
Proof.
  split; try apply empty_ring_rep; try done.
  - apply (bool_decide_unpack _). vm_compute. exact I.
  - assert (zlen (area demo_tx) = 8192) as ->
      by (cbn [area demo_tx]; rewrite length_replicate; lia).
    intros a Ha. unfold FRAME_SIZE.
    apply elem_of_cons in Ha as [->|Ha]; [split_and!; [lia|by exists 0|lia]|].
    apply list_elem_of_singleton in Ha as ->. split_and!; [lia|by exists 1|lia].
Qed.

Lemma demo_flow_ok :
  flow_ok haswell None [0;17;34;51;68;85] [170;187;204;221;238;255] [10;0;0;1] [10;0;0;2]
    40000 5201.
Proof.
  unfold flow_ok. split_and!; apply (bool_decide_unpack _); vm_compute; exact I.
Qed.

Lemma tx_one_ownership_witness :
  let payload := replicate 16 7 in
  (pool demo_tx = [] ∧ tx_one Debug haswell None demo_tx payload = Ok (false, demo_tx))
  ∨ (∃ pool' a s', pool demo_tx = pool' ++ [a] ∧ 0 < 2 ^ 1
       ∧ tx_one Debug haswell None demo_tx payload = Ok (true, s') ∧ pool s' = pool'
       ∧ demo_inv s' [(mkXdpDesc a 58 0, payload)] [] [])
  ∨ (∃ s', 0 = 2 ^ 1 ∧ pool demo_tx ≠ []
       ∧ tx_one Debug haswell None demo_tx payload = Ok (false, s') ∧ pool s' = pool demo_tx
       ∧ demo_inv s' [] [] []).
Proof.
  apply (tx_one_ownership Debug haswell None _ _ _ _ _ _ 1 1 [0; 4096] demo_tx [] [] []
           (replicate 16 7));
    [exact demo_flow_ok|exact demo_tx_inv|vm_compute; discriminate].
Defined.

Definition demo_env (t : Z) : iter_env := IterEnv true t t t instant_kernel.

Lemma tx_loop_safe_witness :
  ∃ l' inflight left n burnt,
    tx_loop Release haswell None demo_tx 0 64 100 0 0 Counters_default
      [demo_env 10; demo_env 20; demo_env 100] = Ok (l', inflight, left)
    ∧ (∃ qt fl qc, demo_inv (ls_tx l') qt fl qc ∧ fl.*1 = inflight)
    ∧ ls_seq l' = n + burnt ∧ 0 ≤ n ∧ 0 ≤ burnt ≤ 3
    ∧ ls_counters l' = add_bytes (n * 106) (add_packets n Counters_default).
Proof.
  apply (tx_loop_safe Release haswell None _ _ _ _ _ _ 1 1 [0; 4096] demo_tx 0 64 100 0 0
           Counters_default [demo_env 10; demo_env 20; demo_env 100]);
    [exact demo_flow_ok|exact demo_tx_inv|vm_compute; discriminate..|vm_compute; done| | |].
  - done.
  - done.
  - repeat constructor; apply instant_kernel_contract.
Defined.

(** The run itself, evaluated: two frames per iteration, each iteration cut
    short by the empty pool, so 6 numbers for 4 frames. *)
Example demo_run :
  (match tx_loop Release haswell None demo_tx 0 64 100 0 0 Counters_default
      [demo_env 10; demo_env 20; demo_env 100] with
   | Ok (l, fl, lft) => (ls_seq l, ls_counters l, length (ls_kicks l), length fl, lft)
   | _ => (0, Counters_default, 0%nat, 0%nat, false)
   end) = (6, mkCounters 424 4 0, 2%nat, 0%nat, true).
Proof. vm_compute. reflexivity. Qed.

Section defects.
Context (p : profile) (c : cpu) (LEVEL : option SimdLevel).
Context (src_mac dst_mac src_ip dst_ip : list Z) (src_port dst_port kt kc : Z).
Context (frames : list Z).

Abbreviation inv := (tx_inv src_mac dst_mac src_ip dst_ip src_port dst_port kt kc frames).

(** The failure branch behind [produce_tx] is dead in this program: as
    long as the TX ring has at least as many slots as the pool has frames
    (2048 of each here), [tx_one] fails only because the pool is empty. *)
Theorem tx_one_fails_only_on_empty_pool s qt fl qc payload :
  flow_ok c LEVEL src_mac dst_mac src_ip dst_ip src_port dst_port →
  inv s qt fl qc → zlen frames ≤ 2 ^ kt → OUTER_HDR + zlen payload ≤ FRAME_SIZE →
  (∃ s', tx_one p c LEVEL s payload = Ok (false, s')) ↔ pool s = [].
Proof.
  intros (?&?&?&?&?&?&?&?) Hinv Hcap Hl.
  destruct (tx_one_spec p c LEVEL src_mac dst_mac src_ip dst_ip src_port dst_port kt kc frames)
    with (s := s) (qt := qt) (fl := fl) (qc := qc) (payload := payload)
    as [[E ->]|[(pool' & a & s' & E & _ & -> & _)|(s' & Hfull & Hne & _)]]; try done.
  - split; [done|]. by eexists.
  - split; [by intros [? ?]|]. intros E'. rewrite E' in E. by destruct pool'.
  - assert (zlen qt < 2 ^ kt); [|lia]. eapply (room _ _ _ _ _ _ kt kc frames); eauto.
Qed.

(** A batch that finds the pool empty has already consumed a sequence
    number.  Let one batch send [1 <= m1 < 64] frames (the pool ran dry)
    and the next one, started with the number the first left behind, send
    at least one frame: a receiver that gets every single frame in order
    still sees one gap, so it reports a loss that never happened. *)
Theorem burnt_number_is_phantom_loss s1 s2 qt1 qt2 fl1 fl2 qc1 qc2 payload seq :
  flow_ok c LEVEL src_mac dst_mac src_ip dst_ip src_port dst_port →
  inv s1 qt1 fl1 qc1 → inv s2 qt2 fl2 qc2 → zlen frames ≤ 2 ^ kt →
  16 ≤ zlen payload → OUTER_HDR + zlen payload ≤ FRAME_SIZE →
  0 ≤ seq → seq + 256 < 2 ^ 64 →
  (0 < length (pool s1) < TX_BATCH)%nat → (0 < length (pool s2))%nat →
  ∃ s1' pay1 seq1 sent1 new1 s2' pay2 seq2 sent2 new2,
    tx_batch p c LEVEL TX_BATCH s1 payload seq 0 = Ok (s1', pay1, seq1, sent1)
    ∧ inv s1' (qt1 ++ new1) fl1 qc1
    ∧ tx_batch p c LEVEL TX_BATCH s2 pay1 seq1 0 = Ok (s2', pay2, seq2, sent2)
    ∧ inv s2' (qt2 ++ new2) fl2 qc2
    ∧ gaps None (payload_seq <$> (new1.*2 ++ new2.*2)) = 1.
Proof.
  intros (?&?&?&?&?&?&?&?) Hinv1 Hinv2 Hcap H16 Hl Hs0 Hs1 Hp1 Hp2. unfold TX_BATCH in *.
  destruct (tx_batch_spec p c LEVEL src_mac dst_mac src_ip dst_ip src_port dst_port kt kc frames)
    with (payload := payload) (n := 64%nat) (pay := payload) (s := s1) (qt := qt1) (fl := fl1)
         (qc := qc1) (seq := seq) (sent := 0)
    as (s1' & pay1 & new1 & Hb1 & Hi1 & Hn1 & Hpay1); try done; try lia; [by left|].
  rewrite Nat.min_r, decide_True in Hb1 by lia. rewrite Nat.min_r in Hn1 by lia.
  set (seq1 := seq + Z.of_nat (length (pool s1)) + 1) in *.
  destruct (tx_batch_spec p c LEVEL src_mac dst_mac src_ip dst_ip src_port dst_port kt kc frames)
    with (payload := payload) (n := 64%nat) (pay := pay1) (s := s2) (qt := qt2) (fl := fl2)
         (qc := qc2) (seq := seq1) (sent := 0)
    as (s2' & pay2 & new2 & Hb2 & Hi2 & Hn2 & _); try done; try lia.
  do 5 eexists. do 5 eexists. split_and!; [exact Hb1|exact Hi1|exact Hb2|exact Hi2|].
  rewrite Hn1, Hn2, fmap_app, !payload_seqs by (done || lia).
  subst seq1. apply gaps_jump; lia.
Qed.

(** Nothing caps the payload at what a umem frame holds: with a frame
    in the pool, a payload longer than [FRAME_SIZE - 42 = 4054] bytes makes
    [tx_one] panic, which ends the process in the release profile. *)
Theorem tx_oversize_panics s qt fl qc payload :
  flow_ok c LEVEL src_mac dst_mac src_ip dst_ip src_port dst_port →
  inv s qt fl qc → pool s ≠ [] → FRAME_SIZE < OUTER_HDR + zlen payload →
  tx_one p c LEVEL s payload = Panic.
Proof.
  intros (_&_&Hsm&Hdm&Hsi&Hdi&_) Hinv Hne Hl.
  destruct (pool s) as [|a pool' _] eqn:Epool using rev_ind; [done|].
  destruct (pool_frame _ _ _ _ _ _ _ _ _ _ _ _ _ _ _ Hinv Epool) as [Hin _].
  destruct (inv_frames _ _ _ _ _ _ _ _ _ _ _ _ _ Hinv a Hin) as (Ha0 & _ & Hab).
  unfold tx_one. rewrite Epool, vec_pop_snoc. cbn [area hdr set_pool].
  rewrite decide_True by done. rewrite write_frame_short; [done|..].
  - unfold FRAME_SIZE in *. rewrite length_slice by lia. done.
  - rewrite (inv_hdr _ _ _ _ _ _ _ _ _ _ _ _ _ Hinv). by apply length_new.
Qed.

(** Pacing.  With a per-worker budget [pps] and fewer than [pps]
    packets counted so far, an iteration either stays below the budget
    without sleeping, or reaches it with at most 63 packets too many (one
    batch, less one); then the worker sleeps until at least one second
    after the window opened and starts a new window at zero. *)
Theorem tx_pacing_window e l l' slept payload qt fl qc pps :
  flow_ok c LEVEL src_mac dst_mac src_ip dst_ip src_port dst_port →
  inv (ls_tx l) qt fl qc → zlen frames ≤ 2 ^ kt →
  16 ≤ zlen payload → OUTER_HDR + zlen payload ≤ FRAME_SIZE →
  pay_ok payload (ls_payload l) → ls_seq l + 128 < 2 ^ 64 →
  0 ≤ ls_sent_sec l < pps → ls_sent_sec l ≤ ls_seq l →
  tx_iter p c LEVEL (OUTER_HDR + zlen payload) pps e l = Ok (l', slept) →
  let m := Z.min 64 (zlen (pool (ls_tx l)) + zlen qc) in
  (ls_sent_sec l' = ls_sent_sec l + m ∧ ls_sent_sec l' < pps ∧ slept = 0
     ∧ ls_sec_start l' = ls_sec_start l)
  ∨ (pps ≤ ls_sent_sec l + m ≤ pps + 63 ∧ ls_sent_sec l' = 0
     ∧ SECOND ≤ ev_now_pace e - ls_sec_start l + slept ∧ ls_sec_start l' = ev_now_reset e).
Proof.
  intros (?&?&?&?&?&?&?&?) Hinv Hcap H16 Hl Hpay Hroom Hss Hsq Hit m. unfold tx_iter in Hit.
  destruct (recycle_spec _ _ _ _ _ _ _ _ _ _ _ _ _ Hinv) as (s1 & Hr & Ep & Hinv1).
  rewrite Hr in Hit. cbn [mbind res_bind] in Hit.
  destruct (tx_batch_spec p c LEVEL src_mac dst_mac src_ip dst_ip src_port dst_port kt kc frames)
    with (payload := payload) (n := TX_BATCH) (pay := ls_payload l) (s := s1) (qt := qt)
         (fl := fl) (qc := [] : list Z) (seq := ls_seq l) (sent := 0)
    as (s2 & pay2 & new & Hb & _); try (done || (unfold TX_BATCH; lia)).
  rewrite Ep, length_app in Hb. rewrite Hb in Hit. cbn [mbind res_bind] in Hit. clear Hb.
  replace (0 + Z.of_nat (TX_BATCH `min` (length (pool (ls_tx l)) + length qc))) with m in Hit
    by (subst m; unfold TX_BATCH; lia).
  assert (0 ≤ m ≤ 64) as Hm by (subst m; lia).
  set (seq' := ls_seq l + _ + _) in Hit. clearbody seq' m.
  unfold FRAME_SIZE in Hl. change OUTER_HDR with 42 in *.
  rewrite (arith_fits p 64 (m * (42 + zlen payload))) in Hit by (split; nia).
  rewrite (arith_fits p 64 (ls_sent_sec l + m)) in Hit by (split; lia).
  cbn [mbind res_bind] in Hit.
  destruct (Z.ltb_spec 0 m) as [Hpos|Hz]; cbn [mbind res_bind] in Hit;
    rewrite (proj2 (Z.ltb_lt 0 pps)) in Hit by lia; cbn [andb] in Hit.
  - destruct (Z.leb_spec pps (ls_sent_sec l + m)); simplify_eq; cbn [ls_sent_sec ls_sec_start].
    + right. destruct (Z.ltb_spec (ev_now_pace e - ls_sec_start l) SECOND); split_and!; lia.
    + left. split_and!; lia.
  - destruct (Z.leb_spec pps (ls_sent_sec l)); [lia|]. simplify_eq. cbn [ls_sent_sec ls_sec_start].
    left. split_and!; lia.
Qed.

(** *** The rate of a whole run *)

(** The readings of a monotone clock: [clk] is the last one; a thread that
    sleeps wakes up no earlier than it asked for. *)
Fixpoint tx_clock_ok (frame_total pps deadline clk : Z) (envs : list iter_env) (l : loop_state)
    (inflight : list XdpDesc) : Prop :=
  match envs with
  | [] => True
  | e :: envs =>
      clk ≤ ev_now e ∧
      (ev_run e = true → ev_now e < deadline →
       ev_now e ≤ ev_now_pace e ∧
       let '(s, inflight) := ev_kernel e (ls_tx l) inflight in
       match tx_iter p c LEVEL frame_total pps e (set_ls_tx l s) with
       | Ok (l', slept) => ev_now_pace e + slept ≤ ev_now_reset e
           ∧ tx_clock_ok frame_total pps deadline (ev_now_reset e) envs l' inflight
       | _ => True
       end)
  end.

(** The pacing of a state after [n] packets. *)
Definition tx_window (n : Z) (l : loop_state) : window := Window n (ls_sent_sec l) (ls_sec_start l).

Lemma tx_while_rate payload pps deadline start secs envs :
  flow_ok c LEVEL src_mac dst_mac src_ip dst_ip src_port dst_port →
  zlen frames ≤ 2 ^ kt → zlen frames ≤ 2 ^ kc →
  16 ≤ zlen payload → OUTER_HDR + zlen payload ≤ FRAME_SIZE →
  0 < pps → deadline ≤ start + secs * SECOND →
  Forall (λ e, kernel_contract kt kc (ev_kernel e)) envs → ∀ l inflight clk n0 l' inflight' left,
  loop_inv src_mac dst_mac src_ip dst_ip src_port dst_port kt kc frames payload (zlen envs) l inflight →
  window_ok SECOND pps start (tx_window n0 l) → n0 ≤ secs * (pps + 63) → ls_sec_start l ≤ clk →
  tx_clock_ok (OUTER_HDR + zlen payload) pps deadline clk envs l inflight →
  tx_while p c LEVEL (OUTER_HDR + zlen payload) pps deadline envs l inflight = Ok (l', inflight', left) →
  ∃ n, ls_counters l' = add_bytes (n * (OUTER_HDR + zlen payload)) (add_packets n (ls_counters l))
    ∧ 0 ≤ n ≤ 64 * zlen envs ∧ n0 + n ≤ secs * (pps + 63).
Proof.
  intros Hflow Hkt Hkc H16 Hl Hpps Hdl. pose proof Hflow as (?&?&?&?&?&?&?&?).
  induction 1 as [|e envs Hk _ IH]; intros l inflight clk n0 l' inflight' left Hinv Hw Htot Hst Hck Hrun;
    pose proof Hinv as [(qt & fl & qc & Htx & <-) Hpay Hsec Hroom Hb Hp]; cbn [tx_while tx_clock_ok] in *.
  { simplify_eq. exists 0. rewrite account_zero by done. split_and!; [done|cbn [length]; lia..]. }
  destruct Hck as [Hnow Hck]. cbn [length] in Hroom.
  destruct (ev_run e) eqn:Er; cbn [andb] in *.
  2:{ simplify_eq. exists 0. rewrite account_zero by done. split_and!; [done|cbn [length]; lia..]. }
  destruct (Z.ltb_spec (ev_now e) deadline) as [Hd|].
  2:{ simplify_eq. exists 0. rewrite account_zero by done. split_and!; [done|cbn [length]; lia..]. }
  destruct (Hck eq_refl Hd) as [Hpace Hck']. clear Hck.
  destruct (kernel_inv src_mac dst_mac src_ip dst_ip src_port dst_port kt kc frames Hkc _ _ _ _ _ Hk Htx)
    as (tk & qt' & fl' & qc' & -> & Htx' & Efl).
  destruct (ev_kernel e (ls_tx l) fl.*1) as [s1 fl1]. cbn [fst snd] in *.
  destruct (tx_iter_spec p c LEVEL src_mac dst_mac src_ip dst_ip src_port dst_port kt kc frames)
    with (e := e) (l := set_ls_tx l s1) (payload := payload) (qt := qt') (fl := fl') (qc := qc') (pps := pps)
    as (l1 & slept & new & Hit & Htx1 & _ & Hpay1 & Hseq1 & Hc1 & Hsec1 & _);
    try (done || (cbn; lia)).
  rewrite Hit in Hrun, Hck'. cbn [mbind res_bind] in Hrun. destruct Hck' as [Hreset Hck'].
  pose proof (tx_pacing_window e (set_ls_tx l s1) l1 slept payload qt' fl' qc' pps) as Hwin.
  cbn [ls_tx ls_payload ls_seq ls_sent_sec ls_sec_start ls_counters set_ls_tx] in *.
  specialize (Hwin Hflow Htx' Hkt H16 Hl Hpay ltac:(lia) (proj1 Hw) ltac:(lia) Hit). cbv zeta in Hwin.
  set (m := Z.min 64 _) in *.
  replace (Z.of_nat (TX_BATCH `min` (length (pool s1) + length qc'))) with m in *
    by (subst m; unfold TX_BATCH; lia).
  assert (0 ≤ m ≤ 64) as Hm by (subst m; lia).
  assert (paced SECOND pps (tx_window n0 l) (tx_window (n0 + m) l1) ∧ ls_sec_start l1 ≤ ev_now_reset e) as [Hp1 Hst1].
  { unfold tx_window. destruct l1. cbn [ls_sent_sec ls_sec_start] in *.
    destruct Hwin as [(-> & ? & -> & ->)|(? & -> & ? & ->)]; (split; [|lia]); constructor; lia. }
  destruct (IH l1 fl1 (ev_now_reset e) (n0 + m) l' inflight' left) as (n & Hc & Hn & Hle); try done.
  { split; [by eauto|done|done| |rewrite Hc1; apply wrap_fits; lia..]. rewrite Hseq1. case_decide; lia. }
  { by eapply (window_ok_step SECOND pps). }
  { apply (paced_total SECOND pps start secs (ev_now e) (tx_window n0 l) (tx_window (n0 + m) l1)); try done; cbn; lia. }
  exists (m + n). rewrite Hc, Hc1, counters_add. cbn [length]. split_and!; [|lia..]. f_equal. lia.
Qed.

(** A whole run, by its counters; [Wire] says what they are in frames. *)
Lemma tx_loop_paced s worker payload_len deadline pps start counters envs secs l' inflight left :
  flow_ok c LEVEL src_mac dst_mac src_ip dst_ip src_port dst_port →
  inv s [] [] [] → zlen frames ≤ 2 ^ kt → zlen frames ≤ 2 ^ kc →
  16 ≤ payload_len → OUTER_HDR + payload_len ≤ FRAME_SIZE →
  128 * (zlen envs + 1) < 2 ^ 64 → is_u64 (bytes counters) → is_u64 (packets counters) →
  Forall (λ e, kernel_contract kt kc (ev_kernel e)) envs →
  0 < pps → 0 ≤ secs → deadline ≤ start + secs * SECOND →
  let payload := splice (replicate (Z.to_nat payload_len) 0) 0 (to_le_bytes 8 worker) in
  tx_clock_ok (OUTER_HDR + payload_len) pps deadline start envs
    (LoopState s payload 0 0 start counters []) [] →
  tx_loop p c LEVEL s worker payload_len deadline pps start counters envs = Ok (l', inflight, left) →
  ∃ n, ls_counters l' = add_bytes (n * (OUTER_HDR + payload_len)) (add_packets n counters)
    ∧ 0 ≤ n ≤ 64 * zlen envs ∧ n ≤ secs * (pps + 63).
Proof.
  intros Hflow Hinv Hkt Hkc H16 Hlen Hroom Hb Hp Hk Hpps Hsecs Hdl payload Hck Hrun. unfold tx_loop in Hrun.
  rewrite decide_True in Hrun by lia. fold payload in Hrun.
  assert (zlen payload = payload_len) as Hpl.
  { subst payload. rewrite length_splice; rewrite ?length_replicate, ?length_to_le_bytes; lia. }
  rewrite <- Hpl in Hck, Hrun, Hlen, H16 |- *.
  destruct (tx_while_rate payload pps deadline start secs envs Hflow Hkt Hkc H16 Hlen Hpps Hdl Hk
    (LoopState s payload 0 0 start counters []) [] start 0 l' inflight left) as (n & Hc & Hn & Hle); try done.
  - split; cbn; try done; try lia; [by exists [], [], []|by left].
  - by apply window_ok_init.
  - nia.
  - exists n. cbn [ls_counters] in Hc. split_and!; [done|lia..].
Qed.
End defects.

Lemma tx_one_fails_only_on_empty_pool_witness :
  (∃ s', tx_one Release haswell None demo_tx (replicate 16 7) = Ok (false, s'))
  ↔ pool demo_tx = [].
Proof.
  apply (tx_one_fails_only_on_empty_pool Release haswell None _ _ _ _ _ _ 1 1 [0; 4096] demo_tx
           [] [] [] (replicate 16 7) demo_flow_ok demo_tx_inv); vm_compute; discriminate.
Defined.

Lemma burnt_number_is_phantom_loss_witness :
  ∃ s1' pay1 seq1 sent1 new1 s2' pay2 seq2 sent2 new2,
    tx_batch Release haswell None TX_BATCH demo_tx (replicate 16 7) 0 0
      = Ok (s1', pay1, seq1, sent1)
    ∧ demo_inv s1' new1 [] []
    ∧ tx_batch Release haswell None TX_BATCH demo_tx pay1 seq1 0 = Ok (s2', pay2, seq2, sent2)
    ∧ demo_inv s2' new2 [] []
    ∧ gaps None (payload_seq <$> (new1.*2 ++ new2.*2)) = 1.
Proof.
  apply (burnt_number_is_phantom_loss Release haswell None _ _ _ _ _ _ 1 1 [0; 4096]
    demo_tx demo_tx [] [] [] [] [] [] (replicate 16 7) 0 demo_flow_ok demo_tx_inv demo_tx_inv);
    try (vm_compute; discriminate); try lia; (vm_compute; lia).
Defined.

Lemma tx_oversize_panics_witness :
  tx_one Release haswell None demo_tx (replicate (Z.to_nat 4055) 1) = Panic.
Proof.
  apply (tx_oversize_panics Release haswell None _ _ _ _ _ _ 1 1 [0; 4096] demo_tx [] [] []
           _ demo_flow_ok demo_tx_inv); [done|].
  rewrite length_replicate. reflexivity.
Defined.

Definition demo_loop : loop_state :=
  LoopState demo_tx (replicate 16 7) 5 3 0 Counters_default [].

Lemma tx_pacing_window_witness :
  ∃ l', tx_iter Release haswell None 58 4 (demo_env 300) demo_loop = Ok (l', SECOND - 300)
    ∧ ((ls_sent_sec l' = 3 + 2 ∧ ls_sent_sec l' < 4 ∧ SECOND - 300 = 0 ∧ ls_sec_start l' = 0)
       ∨ (4 ≤ 3 + 2 ≤ 4 + 63 ∧ ls_sent_sec l' = 0 ∧ SECOND ≤ 300 - 0 + (SECOND - 300)
          ∧ ls_sec_start l' = 300)).
Proof.
  eexists. split; [vm_compute; reflexivity|].
  apply (tx_pacing_window Release haswell None _ _ _ _ _ _ 1 1 [0; 4096] (demo_env 300) demo_loop
    _ _ (replicate 16 7) [] [] [] 4 demo_flow_ok demo_tx_inv);
    try (vm_compute; discriminate); [by left|vm_compute; reflexivity|..].
  - split; vm_compute; [discriminate|reflexivity].
  - vm_compute. reflexivity.
Defined.

(** Two seconds at one packet per second: each second sends its two frames. *)
Definition slow_envs : list iter_env :=
  [IterEnv true 10 20 SECOND instant_kernel; IterEnv true (SECOND + 5) (SECOND + 6) (2 * SECOND) instant_kernel;
   IterEnv true (2 * SECOND + 1) 0 0 instant_kernel].
