(* ===== verification/Sink.v ===== *)
(** * The AF_XDP sink ([src/xdp/sink.rs])

    One receive worker: drain the RX ring, account each frame and its
    sequence number, and give the frames back through the fill ring.  As in
    the generator, the kernel is a parameter with the documented contract:
    it takes chunks from the fill ring and delivers each of them as an RX
    descriptor that points inside the chunk (the offset is the driver's
    head room). *)

From S2P Require Import Prelude Ring Simd Frame Loss Gen.

(** Eth(14) + IPv4(20) + UDP(8). *)
Definition HDRS : Z := 42.

(** The parts of [XskSocket] the receive loop uses. *)
Record RxSock : Type := mkRxSock {
  rs_fd : Z;
  rs_rx : DescRing;
  rs_fill : AddrRing;
  rs_area : list Z;
}.

(** The body of [for desc in &descs] without the recycling. *)
Definition rx_frame (p : profile) (area : list Z) (d : XdpDesc)
    (last_seq : gmap Z Z) (c : Counters) : res (gmap Z Z * Counters) :=
  let len := desc_len d in
  (* from_raw_parts(sock.umem.ptr_at(desc.addr), len) *)
  if decide (0 ≤ desc_addr d ∧ desc_addr d + len ≤ zlen area) then
    let frame := slice area (desc_addr d) len in
    let c := add_packets 1 (add_bytes len c) in
    if HDRS + 16 <=? len then
      let b := drop (Z.to_nat HDRS) frame in
      note_seq p last_seq c (payload_sid b) (payload_seq b)
    else Ok (last_seq, c)
  else Undefined.

Fixpoint rx_frames (p : profile) (area : list Z) (descs : list XdpDesc)
    (last_seq : gmap Z Z) (c : Counters) : res (gmap Z Z * Counters) :=
  match descs with
  | [] => Ok (last_seq, c)
  | d :: descs =>
      '(last_seq, c) ← rx_frame p area d last_seq c;
      rx_frames p area descs last_seq c
  end.

(** One iteration of [rx_loop] after the [poll]; the result of
    [enqueue_batch] is discarded as in the code. *)
Definition rx_iter (p : profile) (s : RxSock) (last_seq : gmap Z Z) (c : Counters)
    : res (RxSock * gmap Z Z * Counters) :=
  '(descs, rx') ← consume_rx (rs_rx s);
  let s := mkRxSock (rs_fd s) rx' (rs_fill s) (rs_area s) in
  match descs with
  | [] => Ok (s, last_seq, c)
  | _ =>
      '(last_seq, c) ← rx_frames p (rs_area s) descs last_seq c;
      '(_, fill') ← enqueue_batch (rs_fill s) (desc_addr <$> descs);
      Ok (mkRxSock (rs_fd s) (rs_rx s) fill' (rs_area s), last_seq, c)
  end.

(** The environment of an iteration: the run flag, the clock, and what the
    kernel does up to the drain, given the chunks it holds. *)
Record rx_env : Type := RxEnv {
  rx_run : bool;
  rx_now : Z;
  rx_kernel : RxSock → list Z → RxSock * list Z;
}.

Fixpoint rx_while (p : profile) (deadline : Z) (envs : list rx_env) (s : RxSock) (held : list Z)
    (last_seq : gmap Z Z) (c : Counters) : res (RxSock * list Z * gmap Z Z * Counters * bool) :=
  match envs with
  | [] => Ok (s, held, last_seq, c, false)
  | e :: envs =>
      if rx_run e && (rx_now e <? deadline) then
        let '(s, held) := rx_kernel e s held in
        '(s, last_seq, c) ← rx_iter p s last_seq c;
        rx_while p deadline envs s held last_seq c
      else Ok (s, held, last_seq, c, true)
  end.

(** [rx_loop] starts with an empty map of streams. *)
Definition rx_loop (p : profile) (deadline : Z) (envs : list rx_env) (s : RxSock)
    (c : Counters) : res (RxSock * list Z * gmap Z Z * Counters * bool) :=
  rx_while p deadline envs s [] ∅ c.

(** What a run receives: for every iteration that drained the ring, the
    contents of the umem and the descriptors, in order. *)
Fixpoint rx_log (p : profile) (deadline : Z) (envs : list rx_env) (s : RxSock) (held : list Z)
    (last_seq : gmap Z Z) (c : Counters) : list (list Z * list XdpDesc) :=
  match envs with
  | [] => []
  | e :: envs =>
      if rx_run e && (rx_now e <? deadline) then
        let '(s, held) := rx_kernel e s held in
        match consume_rx (rs_rx s), rx_iter p s last_seq c with
        | Ok (descs, _), Ok (s', last_seq, c) =>
            (rs_area s, descs) :: rx_log p deadline envs s' held last_seq c
        | _, _ => []
        end
      else []
  end.

(** ** What a batch of descriptors adds up to *)

(** The sequence header of a frame long enough to have one. *)
Definition arrival (area : list Z) (d : XdpDesc) : option (Z * Z) :=
  if HDRS + 16 <=? desc_len d then
    let b := drop (Z.to_nat HDRS) (slice area (desc_addr d) (desc_len d)) in
    Some (payload_sid b, payload_seq b)
  else None.

(** Frames, bytes and sequence headers of a whole log. *)
Definition log_packets (l : list (list Z * list XdpDesc)) : Z := zsum (λ x, zlen x.2) l.
Definition log_bytes (l : list (list Z * list XdpDesc)) : Z := zsum (λ x, zsum desc_len x.2) l.
Definition log_arrivals (l : list (list Z * list XdpDesc)) : list (Z * Z) :=
  concat ((λ x : list Z * list XdpDesc, omap (arrival x.1) x.2) <$> l).

Definition in_area (area : list Z) (d : XdpDesc) : Prop :=
  0 ≤ desc_addr d ∧ desc_addr d + desc_len d ≤ zlen area.

(** A drained batch counts every frame and every byte, and runs the loss
    detector over the sequence headers in ring order. *)
Lemma rx_frames_spec p area descs : ∀ last c,
  Forall (in_area area) descs → is_u64 (bytes c) → is_u64 (packets c) →
  rx_frames p area descs last c =
    note_all p last
      (add_packets (zlen descs) (add_bytes (zsum desc_len descs) c))
      (omap (arrival area) descs).
Proof.
  induction descs as [|d descs IH]; intros last c Hin Hb Hp.
  { cbn. unfold add_packets, add_bytes. cbn. rewrite !Z.add_0_r, !wrap_small by done.
    by destruct c. }
  apply Forall_cons in Hin as [Hd Hin]. cbn [rx_frames]. unfold rx_frame.
  rewrite decide_True by done. rewrite zsum_cons. cbn [length omap list_omap].
  replace (Z.of_nat (S (length descs))) with (zlen descs + 1) by lia.
  rewrite <- (note_all_count p last c (desc_len d) (arrival area d) (zlen descs) _ _
    (rx_frames p area descs)) by (try done; by intros; apply IH).
  unfold arrival. by destruct (HDRS + 16 <=? desc_len d).
Qed.

(** ** Ownership of the receive frames *)

(** The chunk an address lies in; the kernel rounds fill-ring entries down
    to it. *)
Definition chunk (a : Z) : Z := FRAME_SIZE * (a / FRAME_SIZE).

Definition desc_chunk (d : XdpDesc) : Z := chunk (desc_addr d).

(** A delivered descriptor stays inside its chunk. *)
Definition desc_in_chunk (d : XdpDesc) : Prop :=
  0 ≤ desc_len d ∧ desc_addr d + desc_len d ≤ desc_chunk d + FRAME_SIZE.

Section ownership.
Context (kr kf : Z) (frames : list Z).

(** Every receive chunk is in exactly one place: the fill ring ([qf]), the
    kernel's hands ([held]), or the RX ring ([qr]). *)
Record rx_inv (s : RxSock) (qr : list XdpDesc) (qf held : list Z) : Prop := {
  rinv_rx : ring_rep kr (rs_rx s) qr;
  rinv_fill : ring_rep kf (rs_fill s) qf;
  rinv_frames : ∀ a, a ∈ frames → 0 ≤ a ∧ a + FRAME_SIZE ≤ zlen (rs_area s);
  rinv_part : (desc_chunk <$> qr) ++ (chunk <$> qf) ++ held ≡ₚ frames;
  rinv_descs : Forall desc_in_chunk qr;
}.

(** AF_XDP's receive side: entries leave the fill ring oldest first; each
    chunk taken is either still held or was delivered at the end of the RX
    ring, as a descriptor inside the chunk; the umem keeps its size. *)
Definition rx_contract (kernel : RxSock → list Z → RxSock * list Z) : Prop :=
  ∀ s held qr qf,
    ring_rep kr (rs_rx s) qr → ring_rep kf (rs_fill s) qf →
    zlen qr + zlen qf + zlen held ≤ 2 ^ kr →
    ∃ taken qf' dl,
      qf = taken ++ qf'
      ∧ held ++ (chunk <$> taken) ≡ₚ (kernel s held).2 ++ (desc_chunk <$> dl)
      ∧ ring_rep kf (rs_fill (kernel s held).1) qf'
      ∧ ring_rep kr (rs_rx (kernel s held).1) (qr ++ dl)
      ∧ Forall desc_in_chunk dl
      ∧ length (rs_area (kernel s held).1) = length (rs_area s).

Lemma rx_kernel_inv kernel s qr qf held :
  rx_contract kernel → zlen frames ≤ 2 ^ kr → rx_inv s qr qf held →
  ∃ qr' qf', rx_inv (kernel s held).1 qr' qf' (kernel s held).2.
Proof.
  intros Hk Hcap [Hrx Hfill Hfr Hpart Hds].
  pose proof (Permutation_length Hpart) as HL. rewrite !length_app, !length_fmap in HL.
  destruct (Hk s held qr qf Hrx Hfill) as (taken & qf' & dl & -> & HP & R1 & R2 & Hd & Ha).
  { lia. }
  exists (qr ++ dl), qf'. split; [done|done|by rewrite Ha| |by apply Forall_app].
  rewrite <- Hpart, !fmap_app.
  transitivity ((desc_chunk <$> qr) ++ (chunk <$> qf') ++ ((kernel s held).2 ++ (desc_chunk <$> dl)));
    [solve_Permutation|]. rewrite <- HP. solve_Permutation.
Qed.

Lemma rx_inv_area s qr qf held : rx_inv s qr qf held → Forall (in_area (rs_area s)) qr.
Proof.
  intros [_ _ Hfr Hpart Hds]. rewrite Forall_forall in *. intros d Hd.
  destruct (Hds d Hd) as [Hl0 Hl].
  destruct (Hfr (desc_chunk d)) as [Hc0 Hc].
  { rewrite <- Hpart. apply elem_of_app. left. by apply list_elem_of_fmap_2. }
  unfold in_area, desc_chunk, chunk, FRAME_SIZE in *.
  pose proof (Z.mul_div_le (desc_addr d) 4096). lia.
Qed.

Context (Hcap : zlen frames ≤ 2 ^ kf).

(** One iteration takes everything from the RX ring, accounts for it, and
    returns every chunk to the fill ring: none is lost although the result
    of [enqueue_batch] is not looked at. *)
Lemma rx_iter_spec p s qr qf held last c last' c' :
  rx_inv s qr qf held → is_u64 (bytes c) → is_u64 (packets c) →
  note_all p last (add_packets (zlen qr) (add_bytes (zsum desc_len qr) c))
    (omap (arrival (rs_area s)) qr) = Ok (last', c') →
  ∃ s', rx_iter p s last c = Ok (s', last', c')
    ∧ rx_inv s' [] (qf ++ (desc_addr <$> qr)) held.
Proof.
  intros Hinv Hb Hp Hnote. pose proof (rx_inv_area _ _ _ _ Hinv) as Hin.
  pose proof Hinv as [Hrx Hfill Hfr Hpart Hds].
  pose proof (Permutation_length Hpart) as HL. rewrite !length_app, !length_fmap in HL.
  unfold rx_iter. destruct (drain_rep kr (rs_rx s) qr Hrx) as (rx' & -> & Hrx').
  cbn [mbind res_bind rs_fill rs_area rs_fd rs_rx].
  assert (∀ s', rs_rx s' = rx' → ring_rep kf (rs_fill s') (qf ++ (desc_addr <$> qr)) →
    rs_area s' = rs_area s → rx_inv s' [] (qf ++ (desc_addr <$> qr)) held) as Hgo.
  { intros s' E1 R E2. split; rewrite ?E1, ?E2; try done.
    rewrite <- Hpart, fmap_app, <- list_fmap_compose.
    change (chunk ∘ desc_addr) with desc_chunk. cbn. solve_Permutation. }
  rewrite <- (rx_frames_spec p (rs_area s) qr last c) in Hnote by done.
  destruct qr as [|d qr].
  - cbn in Hnote. simplify_eq. eexists. split; [done|]. apply Hgo; cbn; rewrite ?app_nil_r; done.
  - rewrite Hnote. cbn [mbind res_bind].
    destruct (push_rep kf (rs_fill s) qf (desc_addr <$> (d :: qr)) Hfill) as (f' & -> & Hf').
    rewrite take_ge in Hf' by (rewrite length_fmap; lia).
    cbn [mbind res_bind]. eexists. split; [done|]. by apply Hgo.
Qed.

Context (Hcapr : zlen frames ≤ 2 ^ kr).

Lemma rx_while_spec deadline envs : Forall (λ e, rx_contract (rx_kernel e)) envs →
  ∀ s qr qf held last c last0 c0 arrs0 n0 b0,
  rx_inv s qr qf held →
  note_all Release last0 (add_packets n0 (add_bytes b0 c0)) arrs0 = Ok (last, c) →
  is_u64 (bytes c) → is_u64 (packets c) →
  let log := rx_log Release deadline envs s held last c in
  ∃ s' qr' qf' held' last' c' lft,
    rx_while Release deadline envs s held last c = Ok (s', held', last', c', lft)
    ∧ rx_inv s' qr' qf' held'
    ∧ note_all Release last0 (add_packets (n0 + log_packets log) (add_bytes (b0 + log_bytes log) c0))
        (arrs0 ++ log_arrivals log) = Ok (last', c')
    ∧ Forall (λ x, Forall (in_area x.1) x.2) log.
Proof.
  induction 1 as [|e envs Hk _ IH]; intros s qr qf held last c last0 c0 arrs0 n0 b0 Hinv Hn Hb Hp;
    cbn [rx_while rx_log].
  { exists s, qr, qf, held, last, c, false. by rewrite app_nil_r, !Z.add_0_r. }
  destruct (rx_run e && (rx_now e <? deadline)).
  2:{ exists s, qr, qf, held, last, c, true. by rewrite app_nil_r, !Z.add_0_r. }
  destruct (rx_kernel_inv _ _ _ _ _ Hk Hcapr Hinv) as (qr1 & qf1 & Hinv1).
  destruct (rx_kernel e s held) as [s1 held1]. cbn [fst snd] in *.
  destruct (note_all_release (omap (arrival (rs_area s1)) qr1) last
    (add_packets (zlen qr1) (add_bytes (zsum desc_len qr1) c))) as [[last2 c2] Hn2].
  destruct (rx_iter_spec _ _ _ _ _ _ _ _ _ Hinv1 Hb Hp Hn2) as (s2 & -> & Hinv2).
  destruct (drain_rep kr (rs_rx s1) qr1 (rinv_rx _ _ _ _ Hinv1)) as (rx' & -> & _).
  cbn [mbind res_bind].
  pose proof (note_all_chain Release arrs0 (omap (arrival (rs_area s1)) qr1) last0 _ last c
    (zsum desc_len qr1) (zlen qr1) Hn) as Hch. rewrite Hn2, counts_comm in Hch.
  assert (is_u64 (bytes c2) ∧ is_u64 (packets c2)) as [Hb2 Hp2].
  { rewrite note_all_counters in Hn2.
    destruct (note_all Release last c _) as [[? ?]| |]; cbn in Hn2; simplify_eq.
    split; apply wrap_fits; lia. }
  destruct (IH _ _ _ _ _ _ _ _ _ _ _ Hinv2 Hch Hb2 Hp2)
    as (s' & qr' & qf' & held' & last' & c' & lft & -> & Hi & Hno & Hlog).
  exists s', qr', qf', held', last', c', lft. split_and!; [done..| |].
  2:{ constructor; [|done]. cbn [fst snd]. by eapply rx_inv_area. }
  unfold log_packets, log_bytes, log_arrivals in *. rewrite fmap_cons. cbn [concat zsum foldr fst snd].
  rewrite app_assoc, !Z.add_assoc. exact Hno.
Qed.

(** A whole run of the loop. *)
Lemma rx_loop_run deadline envs s qr qf c :
  rx_inv s qr qf [] → is_u64 (bytes c) → is_u64 (packets c) →
  Forall (λ e, rx_contract (rx_kernel e)) envs →
  let log := rx_log Release deadline envs s [] ∅ c in
  ∃ s' qr' qf' held' last' c' lft,
    rx_loop Release deadline envs s c = Ok (s', held', last', c', lft)
    ∧ rx_inv s' qr' qf' held'
    ∧ note_all Release ∅ (add_packets (log_packets log) (add_bytes (log_bytes log) c))
        (log_arrivals log) = Ok (last', c')
    ∧ Forall (λ x, Forall (in_area x.1) x.2) log.
Proof.
  intros Hinv Hb Hp Hk log. unfold rx_loop.
  destruct (rx_while_spec deadline envs Hk s qr qf [] ∅ c ∅ c [] 0 0)
    as (s' & qr' & qf' & held' & last' & c' & lft & Hrun & Hi & Hn & Hl); try done.
  { cbn. unfold add_packets, add_bytes. cbn. rewrite !Z.add_0_r, !wrap_small by done. by destruct c. }
  by exists s', qr', qf', held', last', c', lft.
Qed.
End ownership.

(** The payload is what follows the 42 header bytes. *)
Lemma decode_payload f x : decode_frame f = Some x → f_payload x = drop 42 f.
Proof. unfold decode_frame. case_decide; [|done]. by intros [= <-]. Qed.

(** ** Properties *)

(** An iteration of the sink counts every received frame and byte,
    feeds the loss detector the sequence headers in ring order, and returns
    every chunk to the fill ring, so the discarded result of [enqueue_batch]
    never leaks a frame; it reads no byte outside the umem. *)
Theorem rx_iter_accounts kr kf frames p s qr qf held last c last' c' :
  zlen frames ≤ 2 ^ kf → rx_inv kr kf frames s qr qf held →
  is_u64 (bytes c) → is_u64 (packets c) →
  note_all p last (add_packets (zlen qr) (add_bytes (zsum desc_len qr) c))
    (omap (arrival (rs_area s)) qr) = Ok (last', c') →
  ∃ s', rx_iter p s last c = Ok (s', last', c')
    ∧ rx_inv kr kf frames s' [] (qf ++ (desc_addr <$> qr)) held.
Proof. intros Hcap. by apply rx_iter_spec. Qed.

(** A whole sink run in the release profile is safe against any kernel
    that keeps the AF_XDP receive contract: it never panics and never reads
    outside the umem, every chunk stays in exactly one place, and the final
    counters are those of one pass of the loss detector over the sequence
    headers of all frames the run drained from the ring, in order, on top of
    their number and their total length; every frame it drained lies inside
    the umem. *)
Theorem rx_loop_safe kr kf frames deadline envs s qr qf c :
  zlen frames ≤ 2 ^ kf → zlen frames ≤ 2 ^ kr →
  rx_inv kr kf frames s qr qf [] → is_u64 (bytes c) → is_u64 (packets c) →
  Forall (λ e, rx_contract kr kf (rx_kernel e)) envs →
  let log := rx_log Release deadline envs s [] ∅ c in
  ∃ s' qr' qf' held' last' c' lft,
    rx_loop Release deadline envs s c = Ok (s', held', last', c', lft)
    ∧ rx_inv kr kf frames s' qr' qf' held'
    ∧ note_all Release ∅ (add_packets (log_packets log) (add_bytes (log_bytes log) c))
        (log_arrivals log) = Ok (last', c')
    ∧ Forall (λ x, Forall (in_area x.1) x.2) log.
Proof. intros Hkf Hkr. by apply rx_loop_run. Qed.

(** Generator and sink agree.  A frame the generator handed to the
    kernel, delivered unchanged into the sink's umem, is read back by the
    sink as exactly the stream id and sequence number that were stamped. *)
Theorem sink_reads_generator src_mac dst_mac src_ip dst_ip src_port dst_port
    tx_area d payload seq rx_area d' :
  intact src_mac dst_mac src_ip dst_ip src_port dst_port tx_area d (numbered payload seq) →
  16 ≤ zlen payload → is_u64 seq →
  desc_len d' = desc_len d →
  slice rx_area (desc_addr d') (desc_len d') = slice tx_area (desc_addr d) (desc_len d) →
  arrival rx_area d' = Some (payload_sid payload, seq).
Proof.
  intros (Hlen & _ & Hdec) H16 Hs El Eq. unfold arrival. rewrite Eq, El.
  rewrite length_numbered in Hlen by done.
  rewrite (proj2 (Z.leb_le _ _)) by (rewrite Hlen; unfold HDRS; change OUTER_HDR with 42; lia).
  apply decode_payload in Hdec. cbn [f_payload] in Hdec.
  change (Z.to_nat HDRS) with 42%nat. rewrite <- Hdec, payload_seq_numbered by done.
  do 2 f_equal. unfold payload_sid, numbered. f_equal. apply slice_splice_ne;
    rewrite ?length_to_le_bytes; lia.
Qed.

(** *** A concrete sink and a kernel that keeps the contract *)

(** It delivers a 60-byte frame in every chunk it is given. *)
Definition echo_desc (a : Z) : XdpDesc := mkXdpDesc (chunk a + 256) 60 0.

Definition echo_kernel (s : RxSock) (held : list Z) : RxSock * list Z :=
  match dequeue_all (rs_fill s) with
  | Ok (addrs, fill') =>
      match produce_tx (rs_rx s) (echo_desc <$> addrs) with
      | Ok (_, rx') => (mkRxSock (rs_fd s) rx' fill' (rs_area s), held)
      | _ => (s, held)
      end
  | _ => (s, held)
  end.

Lemma echo_desc_chunk a : desc_chunk (echo_desc a) = chunk a ∧ desc_in_chunk (echo_desc a).
Proof.
  assert (desc_chunk (echo_desc a) = chunk a) as E.
  { unfold desc_chunk, echo_desc, chunk, FRAME_SIZE. cbn [desc_addr]. f_equal.
    rewrite Z.mul_comm, Z.div_add_l by lia. change (256 / 4096) with 0. lia. }
  split; [done|]. unfold desc_in_chunk. rewrite E. cbn. unfold FRAME_SIZE. lia.
Qed.

Lemma echo_kernel_contract kr kf : rx_contract kr kf echo_kernel.
Proof.
  intros s held qr qf Hrx Hfill Hroom. unfold echo_kernel.
  destruct (drain_rep kf (rs_fill s) qf Hfill) as (f' & -> & Hf').
  destruct (push_rep kr (rs_rx s) qr (echo_desc <$> qf) Hrx) as (r' & -> & Hr').
  rewrite take_ge in Hr' by (rewrite length_fmap; lia).
  exists qf, [], (echo_desc <$> qf). cbn. rewrite app_nil_r. split_and!; try done.
  - rewrite <- list_fmap_compose.
    rewrite (list_fmap_ext (desc_chunk ∘ echo_desc) chunk qf); [done|].
    intros i a _. apply echo_desc_chunk.
  - apply Forall_fmap, Forall_true. intros a. apply echo_desc_chunk.
Qed.

Definition demo_sock : RxSock :=
  mkRxSock 4
    (Ring (Some (RingMem 1 0 0 [mkXdpDesc 256 58 0; mkXdpDesc 0 0 0])) 2 1)
    (Ring (Some (RingMem 1 0 0 [4096; 0])) 2 1)
    (replicate (Z.to_nat 8192) 0).

Lemma demo_sock_inv : rx_inv 1 1 [0; 4096] demo_sock [mkXdpDesc 256 58 0] [4096] [].
Proof.
  split.
  - split; [done..|]. eexists; split; [done|]. split_and!; try done.
    intros [|i] a Hi; naive_solver.
  - split; [done..|]. eexists; split; [done|]. split_and!; try done.
    intros [|i] a Hi; naive_solver.
  - assert (zlen (rs_area demo_sock) = 8192) as ->
      by (cbn [rs_area demo_sock]; rewrite length_replicate; lia).
    intros a Ha. unfold FRAME_SIZE.
    apply elem_of_cons in Ha as [->|Ha]; [lia|].
    apply list_elem_of_singleton in Ha as ->. lia.
  - done.
  - repeat constructor; cbn; vm_compute; discriminate.
Qed.

Lemma rx_iter_accounts_witness :
  ∃ s', rx_iter Debug demo_sock {[0 := 0]} Counters_default
      = Ok (s', {[0 := 0]}, mkCounters 58 1 0)
    ∧ rx_inv 1 1 [0; 4096] s' [] [4096; 256] [].
Proof.
  apply (rx_iter_accounts 1 1 [0; 4096] Debug demo_sock [mkXdpDesc 256 58 0] [4096] []
           {[0 := 0]} Counters_default);
    [vm_compute; discriminate|exact demo_sock_inv|done|done|vm_compute; reflexivity].
Defined.

Lemma rx_loop_safe_witness :
  let envs := [RxEnv true 10 echo_kernel; RxEnv true 20 echo_kernel] in
  let log := rx_log Release 50 envs demo_sock [] ∅ Counters_default in
  ∃ s' qr' qf' held' last' c' lft,
    rx_loop Release 50 envs demo_sock Counters_default = Ok (s', held', last', c', lft)
    ∧ rx_inv 1 1 [0; 4096] s' qr' qf' held'
    ∧ note_all Release ∅ (add_packets (log_packets log) (add_bytes (log_bytes log) Counters_default))
        (log_arrivals log) = Ok (last', c')
    ∧ Forall (λ x, Forall (in_area x.1) x.2) log.
Proof.
  apply (rx_loop_safe 1 1 [0; 4096] 50 [RxEnv true 10 echo_kernel; RxEnv true 20 echo_kernel]
           demo_sock [mkXdpDesc 256 58 0] [4096] Counters_default);
    [vm_compute; discriminate..|exact demo_sock_inv|done|done|].
  repeat constructor; apply echo_kernel_contract.
Defined.

Lemma sink_reads_generator_witness :
  let payload := splice (replicate 20 0) 0 (to_le_bytes 8 3) in
  let f := header_bytes demo_hdr 20 9915 ++ numbered payload 77 in
  arrival (replicate 256 0 ++ f) (mkXdpDesc 256 62 0) = Some (3, 77).
Proof.
  intros payload f.
  apply (sink_reads_generator [0;17;34;51;68;85] [170;187;204;221;238;255] [10;0;0;1] [10;0;0;2]
    40000 5201 (f ++ replicate 4096 0) (mkXdpDesc 0 62 0) payload 77);
    [|vm_compute; discriminate|done|reflexivity|vm_compute; reflexivity].
  vm_compute. split_and!; [done|discriminate|done].
Defined.
