(* ===== verification/Wire.v ===== *)
(** * The AF_XDP data path, end to end ([src/xdp/gen.rs] to [src/xdp/sink.rs])

    What the generator puts on the wire during a run, what the sink drains
    during a run, and what the sink's counters say when the second is a part
    of the first: the loss figure against the real loss.  The two components'
    own files show that each is safe; here they are composed. *)

From Stdlib Require Import Sorted.
From S2P Require Import Prelude Ring Simd Frame Loss Gen Sink.

(** ** The logs *)

(** The descriptors waiting in a ring. *)
Definition ring_contents (r : DescRing) : list XdpDesc :=
  match consume_rx r with Ok (ds, _) => ds | _ => [] end.

Definition in_ring (s : TxState) : Z := zlen (ring_contents (tx s)).

(** The bytes a descriptor points at. *)
Definition frame_at (area : list Z) (d : XdpDesc) : list Z :=
  slice area (desc_addr d) (desc_len d).

(** The frames the kernel took from the TX ring between two states. *)
Definition transmitted (s s' : TxState) : list (list Z) :=
  let q := ring_contents (tx s) in
  frame_at (area s) <$> take (length q - length (ring_contents (tx s'))) q.

Section log.
Context (p : profile) (c : cpu) (LEVEL : option SimdLevel).

(** The frames that left during the [while] loop of [tx_loop], in order. *)
Fixpoint tx_log (frame_total pps_per deadline : Z) (envs : list iter_env)
    (l : loop_state) (inflight : list XdpDesc) : list (list Z) :=
  match envs with
  | [] => []
  | e :: envs =>
      if ev_run e && (ev_now e <? deadline) then
        let '(s, inflight) := ev_kernel e (ls_tx l) inflight in
        transmitted (ls_tx l) s ++
        match tx_iter p c LEVEL frame_total pps_per e (set_ls_tx l s) with
        | Ok (l, _) => tx_log frame_total pps_per deadline envs l inflight
        | _ => []
        end
      else []
  end.

(** The log of a whole [tx_loop]. *)
Definition tx_wire (s : TxState) (worker payload_len deadline pps_per start : Z)
    (counters : Counters) (envs : list iter_env) : list (list Z) :=
  let payload := splice (replicate (Z.to_nat payload_len) 0) 0 (to_le_bytes 8 worker) in
  tx_log (OUTER_HDR + payload_len) pps_per deadline envs (LoopState s payload 0 0 start counters []) [].
End log.

(** What a run handed over: the frames the kernel took, and those it left in
    the ring. *)
Definition tx_handed (p : profile) (c : cpu) (LEVEL : option SimdLevel) (s : TxState)
    (worker payload_len deadline pps_per start : Z) (counters : Counters) (envs : list iter_env)
    (l : loop_state) : Z :=
  zlen (tx_wire p c LEVEL s worker payload_len deadline pps_per start counters envs) + in_ring (ls_tx l).

(** The frames a sink run drained, in order. *)
Definition rx_wire (log : list (list Z * list XdpDesc)) : list (list Z) :=
  concat ((λ x : list Z * list XdpDesc, frame_at x.1 <$> x.2) <$> log).

(** The stream and the number of a frame. *)
Definition frame_sid (f : list Z) : Z := payload_sid (drop 42 f).
Definition frame_num (f : list Z) : Z := payload_seq (drop 42 f).

(** ** Lemmas: numbers *)

(** Increasing numbers from [a] up to [b], [k] of them left out. *)
Definition run_of (a b k : Z) (l : list Z) : Prop :=
  StronglySorted Z.lt l ∧ Forall (λ x, a ≤ x < b) l ∧ b - a = zlen l + k ∧ 0 ≤ k.

Lemma sorted_app (l k : list Z) :
  StronglySorted Z.lt l → StronglySorted Z.lt k → (∀ x y, x ∈ l → y ∈ k → x < y) →
  StronglySorted Z.lt (l ++ k).
Proof.
  intros Hl Hk H. induction Hl as [|x l Hl IH Hx]; [done|]. cbn [app]. constructor.
  - apply IH. intros y z Hy Hz. apply H; [by right|done].
  - rewrite Forall_app. split; [done|]. rewrite Forall_forall. intros y Hy. apply H; [by left|done].
Qed.

Lemma run_of_app a b d k j l m : run_of a b k l → run_of b d j m → run_of a d (k + j) (l ++ m).
Proof.
  intros (S1 & F1 & E1 & K1) (S2 & F2 & E2 & K2). rewrite Forall_forall in F1, F2.
  split_and!; [| |rewrite length_app; lia|lia].
  - apply sorted_app; [done..|]. intros x y Hx Hy. specialize (F1 _ Hx). specialize (F2 _ Hy). lia.
  - rewrite Forall_forall. intros x Hx. apply elem_of_app in Hx as [Hx|Hx].
    + specialize (F1 _ Hx). lia.
    + specialize (F2 _ Hx). lia.
Qed.

(** A batch of [m] numbers, followed by [k] burnt ones. *)
Lemma run_of_batch a m k : 0 ≤ m → 0 ≤ k → run_of a (a + m + k) k (seqZ a m).
Proof.
  intros Hm Hk. split_and!; [apply seqZ_sorted| |rewrite length_seqZ; lia|done].
  rewrite Forall_forall. intros x Hx%elem_of_seqZ. lia.
Qed.

(** Between two bounds there is room for as many numbers as they are
    apart. *)
Lemma sorted_room l : ∀ a b, StronglySorted Z.lt l → Forall (λ x, a ≤ x < b) l → zlen l ≤ Z.max 0 (b - a).
Proof.
  induction l as [|x l IH]; intros a b Hs Hf; [cbn; lia|].
  apply StronglySorted_inv in Hs as [Hs Hx]. apply Forall_cons in Hf as [Hxa Hf].
  specialize (IH (x + 1) b Hs). cbn [length].
  assert (zlen l ≤ Z.max 0 (b - (x + 1))); [|lia]. apply IH.
  rewrite Forall_forall in *. intros y Hy. specialize (Hx y Hy). specialize (Hf y Hy). lia.
Qed.

(** The gaps of what arrives in order, against the numbers of the part of a
    run that was sent: the lost ones, and those left out within it. *)
Lemma run_gaps b k w rest r :
  run_of 0 b k (w ++ rest) → sublist r w → r ≠ [] → head r = head w → last r = last w →
  ∃ skipped, gaps None r = zlen w - zlen r + skipped ∧ 0 ≤ skipped ≤ k.
Proof.
  intros (Hs & Hf & E & Hk) Hsub Hne Hh Hl. destruct r as [|q r]; [done|].
  pose proof (sublist_sorted w (w ++ rest) ltac:(by apply sublist_inserts_r) Hs) as Hw.
  pose proof (sublist_sorted _ _ Hsub Hw) as Hr.
  destruct w as [|q' w]; [done|]. cbn [head] in Hh. injection Hh as <-.
  pose proof (gaps_increasing r q Hr) as G. pose proof (gaps_increasing w q Hw) as G'.
  pose proof (gaps_nonneg (Some q) w) as G0. rewrite !last_cons in Hl.
  exists (gaps (Some q) w). cbn [gaps length].
  assert (default q (last r) = default q (last w)) as EL by (destruct (last r), (last w); cbn in *; congruence).
  split; [lia|]. split; [done|]. rewrite length_app in E. cbn [length] in E.
  apply Forall_app in Hf as [Hf1 Hf2]. apply Forall_cons in Hf1 as [Hq Hf1].
  assert (zlen rest ≤ Z.max 0 (b - (default q (last w) + 1))) as Hroom.
  { apply sorted_room.
    - by apply (sublist_sorted rest ((q :: w) ++ rest)); [apply sublist_inserts_l|].
    - rewrite Forall_forall in *. intros y Hy. specialize (Hf2 y Hy). split; [|lia].
      assert (default q (last w) ∈ q :: w) as Hin.
      { destruct (last w) as [x|] eqn:Ex; cbn; [right|by left].
        apply last_Some in Ex as [? ->]. apply elem_of_app. right. by left. }
      enough (default q (last w) < y) by lia. revert Hin. generalize (default q (last w)). intros x Hin.
      apply list_elem_of_split in Hin as (l1 & l2 & E'). rewrite E' in Hs.
      rewrite <- app_assoc in Hs. clear -Hs Hy. induction l1 as [|z l1 IH]; cbn [app] in Hs.
      + apply StronglySorted_inv in Hs as [_ Hx]. rewrite Forall_forall in Hx. apply Hx.
        apply elem_of_app. by right.
      + apply StronglySorted_inv in Hs as [Hs _]. by apply IH. }
  assert (default q (last w) < b) as Hlt.
  { destruct (last w) as [x|] eqn:Ex; cbn; [|lia]. apply last_Some in Ex as [? ->].
    apply Forall_app in Hf1 as [_ Hx]. apply Forall_cons in Hx as [Hx _]. lia. }
  lia.
Qed.

(** ** Lemmas: the generator's side *)

Section generator.
Context (p : profile) (c : cpu) (LEVEL : option SimdLevel).
Context (src_mac dst_mac src_ip dst_ip : list Z) (src_port dst_port : Z).
Context (kt kc : Z) (frames : list Z).
Context (Hisa : isa_ok c) (Hcell : oncelock_ok c LEVEL).
Context (Hsm : is_mac src_mac) (Hdm : is_mac dst_mac).
Context (Hsi : is_ip src_ip) (Hdi : is_ip dst_ip).
Context (Hsp : is_u16 src_port) (Hdp : is_u16 dst_port).
Context (Hcapt : zlen frames ≤ 2 ^ kt) (Hcapc : zlen frames ≤ 2 ^ kc).
Context (payload : list Z) (H16 : 16 ≤ zlen payload) (Hfit : OUTER_HDR + zlen payload ≤ FRAME_SIZE).

Abbreviation inv := (tx_inv src_mac dst_mac src_ip dst_ip src_port dst_port kt kc frames).

(** A frame of the flow with a sound number. *)
Definition flow_frame (f : list Z) : Prop :=
  zlen f = OUTER_HDR + zlen payload ∧ frame_sid f = payload_sid payload ∧ seq_ok (frame_num f)
  ∧ decode_frame f = Some (UdpFrame dst_mac src_mac src_ip dst_ip src_port dst_port (numbered payload (frame_num f))).

(** What waits in the TX ring carries sound numbers. *)
Definition numbered_ok (x : XdpDesc * list Z) : Prop :=
  ∃ n, seq_ok n ∧ x.2 = numbered payload n.

Lemma seq_ok_u64 n : seq_ok n → is_u64 n.
Proof. unfold seq_ok. intros []. split; lia. Qed.

Lemma sid_numbered n : payload_sid (numbered payload n) = payload_sid payload.
Proof. unfold payload_sid, numbered. f_equal. apply slice_splice_ne; rewrite ?length_to_le_bytes; lia. Qed.

(** An intact frame on the wire is a frame of the flow. *)
Lemma intact_flow ar d pl : 0 ≤ desc_addr d → desc_addr d + FRAME_SIZE ≤ zlen ar →
  intact src_mac dst_mac src_ip dst_ip src_port dst_port ar d pl → numbered_ok (d, pl) →
  flow_frame (frame_at ar d) ∧ frame_num (frame_at ar d) = payload_seq pl.
Proof.
  intros H0 H1 (EL & HL & Hd) (n & Hn & E). cbn [snd] in E. subst pl.
  pose proof (seq_ok_u64 n Hn) as Hu. rewrite length_numbered in EL by done.
  assert (drop 42 (frame_at ar d) = numbered payload n) as Edrop.
  { unfold frame_at. by apply decode_payload in Hd. }
  unfold flow_frame, frame_sid, frame_num. rewrite Edrop, payload_seq_numbered by done.
  split; [|done]. split_and!; [|apply sid_numbered|apply Hn..|exact Hd].
  unfold frame_at. rewrite length_slice; [done|change OUTER_HDR with 42 in *; lia..].
Qed.

Lemma ring_contents_rep r q : ring_rep kt r q → ring_contents r = q.
Proof. intros H. unfold ring_contents. by destruct (drain_rep kt r q H) as (r' & -> & _). Qed.

(** The kernel's turn: the frames it took are the oldest of the ring. *)
Lemma kernel_takes s s' l' qt fl qc :
  tx_kernel kt kc s fl.*1 s' l' → inv s qt fl qc → Forall numbered_ok qt →
  ∃ tk qt' fl' qc', qt = tk ++ qt' ∧ inv s' qt' fl' qc' ∧ fl'.*1 = l'
    ∧ Forall flow_frame (transmitted s s')
    ∧ frame_num <$> transmitted s s' = payload_seq <$> tk.*2.
Proof.
  intros Hk Hi Hn.
  destruct (kernel_step_inv src_mac dst_mac src_ip dst_ip src_port dst_port kt kc frames Hcapc s s' l' qt fl qc Hk Hi)
    as (tk & qt' & fl' & qc' & -> & Hi' & Efl).
  exists tk, qt', fl', qc'. split; [done|]. split; [done|]. split; [done|].
  unfold transmitted.
  rewrite (ring_contents_rep _ _ (inv_tx _ _ _ _ _ _ _ _ _ _ _ _ _ Hi)),
    (ring_contents_rep _ _ (inv_tx _ _ _ _ _ _ _ _ _ _ _ _ _ Hi')).
  rewrite fmap_app. replace (length (tk.*1 ++ qt'.*1) - length qt'.*1)%nat with (length tk.*1)
    by (rewrite length_app; lia).
  rewrite take_app_length. apply Forall_app in Hn as [Hn _].
  pose proof (inv_data _ _ _ _ _ _ _ _ _ _ _ _ _ Hi) as Hd. rewrite !Forall_app in Hd. destruct Hd as [[Hd _] _].
  assert (Forall (λ x : XdpDesc * list Z, 0 ≤ desc_addr x.1 ∧ desc_addr x.1 + FRAME_SIZE ≤ zlen (area s)) tk) as Ha.
  { rewrite Forall_forall. intros x Hx. destruct (inv_frames _ _ _ _ _ _ _ _ _ _ _ _ _ Hi (desc_addr x.1)) as (H1 & _ & H2); [|done].
    rewrite <- (inv_part _ _ _ _ _ _ _ _ _ _ _ _ _ Hi), fmap_app, fmap_app.
    apply elem_of_app. right. apply elem_of_app. left. apply elem_of_app. left.
    by do 2 apply list_elem_of_fmap_2. }
  clear Hi Hi' Efl. induction tk as [|[d pl] tk IH]; [done|].
  apply Forall_cons in Hn as [Hn1 Hn], Hd as [Hd1 Hd], Ha as [[Ha1 Ha2] Ha]. cbn [fst snd] in *.
  destruct (intact_flow (area s) d pl Ha1 Ha2 Hd1 Hn1) as [F1 F2].
  destruct (IH Hn Hd Ha) as [G1 G2]. rewrite !fmap_cons. cbn [fst snd]. split; [by constructor|]. by rewrite F2, G2.
Qed.

(** A batch that was just handed over. *)
Lemma fresh_numbered (new : list (XdpDesc * list Z)) a m :
  new.*2 = numbered payload <$> seqZ a m → 0 ≤ a → 0 ≤ m → a + m < 2 ^ 64 - 1 →
  Forall numbered_ok new ∧ payload_seq <$> new.*2 = seqZ a m.
Proof.
  intros E Ha Hm Hlt. split.
  - rewrite Forall_forall. intros x Hx.
    assert (x.2 ∈ numbered payload <$> seqZ a m) as H by (rewrite <- E; by apply list_elem_of_fmap_2).
    apply list_elem_of_fmap in H as (n & E' & Hn%elem_of_seqZ). exists n. split; [|done]. unfold seq_ok. lia.
  - rewrite E. apply payload_seqs; lia.
Qed.

(** The loop: what leaves is a prefix of what waited in the ring followed by
    a run of new numbers, with one left out for each batch cut short. *)
Lemma tx_log_run pps deadline envs :
  Forall (λ e, kernel_contract kt kc (ev_kernel e)) envs → ∀ l qt fl qc,
  inv (ls_tx l) qt fl qc → Forall numbered_ok qt → pay_ok payload (ls_payload l) →
  0 ≤ ls_sent_sec l ≤ ls_seq l → ls_seq l + 128 * (zlen envs + 1) < 2 ^ 64 →
  is_u64 (bytes (ls_counters l)) → is_u64 (packets (ls_counters l)) →
  let total := OUTER_HDR + zlen payload in
  let wire := tx_log p c LEVEL total pps deadline envs l fl.*1 in
  ∃ l' left k nums qt' fl' qc',
    tx_while p c LEVEL total pps deadline envs l fl.*1 = Ok (l', fl'.*1, left)
    ∧ inv (ls_tx l') qt' fl' qc'
    ∧ Forall flow_frame wire
    ∧ (frame_num <$> wire) ++ (payload_seq <$> qt'.*2) = (payload_seq <$> qt.*2) ++ nums
    ∧ zlen nums ≤ 64 * zlen envs
    ∧ run_of (ls_seq l) (ls_seq l') k nums ∧ k ≤ zlen envs
    ∧ ls_counters l' = add_bytes (zlen nums * total) (add_packets (zlen nums) (ls_counters l)).
Proof.
  induction 1 as [|e envs Hk _ IH]; intros l qt fl qc Hi Hn Hpay Hsec Hroom Hb Hp total wire; subst wire.
  { exists l, false, 0, [], qt, fl, qc. cbn [tx_while tx_log]. rewrite app_nil_r.
    split_and!; try done; [split_and!; [constructor|done|cbn; lia|done]|]. cbn [length]. by rewrite account_zero. }
  cbn [tx_while tx_log]. destruct (ev_run e && (ev_now e <? deadline)).
  2:{ exists l, true, 0, [], qt, fl, qc. rewrite app_nil_r.
      split_and!; try done; try (cbn [length]; lia); [split_and!; [constructor|done|cbn; lia|done]|]. cbn [length]. by rewrite account_zero. }
  destruct (kernel_takes _ _ _ _ _ _ (Hk (ls_tx l) fl.*1) Hi Hn) as (tk & qt' & fl' & qc' & -> & Hi' & Efl & Hfl & Hnum).
  destruct (ev_kernel e (ls_tx l) fl.*1) as [s1 fl1]. cbn [fst snd] in *. subst fl1.
  apply Forall_app in Hn as [_ Hn'].
  destruct (tx_iter_spec p c LEVEL src_mac dst_mac src_ip dst_ip src_port dst_port kt kc frames) with
    (e := e) (l := set_ls_tx l s1) (payload := payload) (qt := qt') (fl := fl') (qc := qc') (pps := pps)
    as (l1 & slept & new & Hit & Hi1 & Hnew & Hpay1 & Hseq1 & Hc1 & Hsec1 & _); try (done || (cbn; lia)).
  fold total in Hit. rewrite Hit. cbn [mbind res_bind]. set (m := Nat.min TX_BATCH _) in *.
  cbn [ls_seq ls_counters set_ls_tx] in *. cbn [length] in Hroom.
  assert (Z.of_nat m ≤ 64) as Hm by (subst m; unfold TX_BATCH; lia).
  destruct (fresh_numbered new (ls_seq l) (Z.of_nat m) Hnew) as [Hok Hns]; [lia..|].
  set (k1 := if decide (m < TX_BATCH)%nat then 1 else 0) in *.
  assert (0 ≤ k1 ≤ 1) as Hk1 by (subst k1; case_decide; lia).
  destruct (IH l1 (qt' ++ new) fl' [] Hi1) as (l2 & left & k & nums & qt2 & fl2 & qc2 & Hrun & Hi2 & Hf2 & Hw & Hle2 & Hnums & Hk2 & Hc2);
    [by apply Forall_app|done|done|lia|rewrite Hc1; apply wrap_fits; lia..|].
  fold total in Hrun, Hf2, Hw, Hc2. rewrite Hrun.
  exists l2, left, (k1 + k), (seqZ (ls_seq l) (Z.of_nat m) ++ nums), qt2, fl2, qc2.
  split; [done|]. split; [done|]. split; [by apply Forall_app|]. split.
  - rewrite fmap_app, Hnum, <- app_assoc. rewrite Hw, !fmap_app, Hns. by rewrite <- !app_assoc.
  - split; [rewrite length_app, length_seqZ; cbn [length]; lia|].
    split; [apply (run_of_app _ (ls_seq l1)); [rewrite Hseq1; apply run_of_batch; lia|done]|].
    cbn [length]. split; [lia|].
    rewrite Hc2, Hc1, counters_add, length_app, length_seqZ.
    replace (Z.of_nat (Z.to_nat (Z.of_nat m) + length nums)) with (Z.of_nat m + zlen nums) by lia.
    by rewrite Z.mul_add_distr_r.
Qed.
End generator.

(** ** Lemmas: the sink's side *)

(** What one stream's frames add up to in the logs of a run. *)
Lemma rx_wire_totals total sid log : 58 ≤ total →
  Forall (λ x, Forall (in_area x.1) x.2) log →
  Forall (λ f, zlen f = total ∧ frame_sid f = sid) (rx_wire log) →
  log_packets log = zlen (rx_wire log) ∧ log_bytes log = zlen (rx_wire log) * total
  ∧ log_arrivals log = (λ f, (sid, frame_num f)) <$> rx_wire log.
Proof.
  intros Ht. induction 1 as [|[ar ds] log Hin _ IH]; intros Hf; [done|].
  unfold rx_wire in *. rewrite fmap_cons in *. cbn [concat fst snd] in *. apply Forall_app in Hf as [Hf1 Hf2].
  destruct (IH Hf2) as (E1 & E2 & E3). clear IH.
  assert (zsum desc_len ds = zlen ds * total
    ∧ omap (arrival ar) ds = (λ f, (sid, frame_num f)) <$> (frame_at ar <$> ds)) as [D1 D2].
  { clear -Ht Hin Hf1. induction Hin as [|d ds [Hd0 Hd1] _ IH]; [done|].
    rewrite fmap_cons in *. apply Forall_cons in Hf1 as [[Hl Hs] Hf]. destruct (IH Hf) as [IH1 IH2].
    assert (desc_len d = total) as Ed.
    { unfold frame_at, slice in Hl. rewrite length_take, length_drop in Hl. lia. }
    rewrite zsum_cons, IH1, Ed. split; [cbn [length]; lia|].
    cbn [omap list_omap]. unfold arrival at 1. rewrite Ed, (proj2 (Z.leb_le _ _)) by (unfold HDRS; lia).
    rewrite <- Ed. fold (frame_at ar d). change (Z.to_nat HDRS) with 42%nat.
    fold (frame_sid (frame_at ar d)) (frame_num (frame_at ar d)). by rewrite Hs, IH2. }
  unfold log_packets, log_bytes, log_arrivals in *. rewrite !fmap_cons, !zsum_cons. cbn [concat fst snd].
  rewrite E1, E2, E3, D1, D2, !fmap_app, !length_app, !length_fmap. split_and!; [lia|lia|done].
Qed.

(** The loss detector over the numbers of one stream. *)
Lemma note_stream p sid (nums : list Z) c : is_u64 sid → Forall seq_ok nums → is_u64 (drops c) →
  ∃ last', note_all p ∅ c ((λ n, (sid, n)) <$> nums) = Ok (last', add_drops (gaps None nums) c).
Proof.
  intros Hs Hn Hd.
  destruct (note_all_sum p [sid] ((λ n, (sid, n)) <$> nums) ∅ c) as [last' E]; [by apply NoDup_singleton|..|done| ].
  - intros x Hx. apply list_elem_of_fmap in Hx as (n & -> & _). by left.
  - apply Forall_fmap. eapply Forall_impl; [exact Hn|]. by intros n ?.
  - done.
  - exists last'. rewrite E. unfold zsum. cbn [foldr]. rewrite lookup_empty, Z.add_0_r.
    replace (stream sid ((λ n, (sid, n)) <$> nums)) with nums; [done|]. clear.
    induction nums as [|n l IH]; [done|]. rewrite fmap_cons, stream_cons_eq. by f_equal.
Qed.

Lemma sublist_fmap {A B} (f : A → B) l k : sublist l k → sublist (f <$> l) (f <$> k).
Proof. by induction 1; constructor. Qed.

Lemma head_fmap {A B} (f : A → B) (l : list A) : head (f <$> l) = f <$> head l.
Proof. by destruct l. Qed.

(** ** Properties *)

Section properties.
Context (p : profile) (c : cpu) (LEVEL : option SimdLevel).
Context (src_mac dst_mac src_ip dst_ip : list Z) (src_port dst_port kt kc : Z).
Context (frames : list Z).

(** The generator's half: what leaves during a run. *)
Lemma tx_wire_run s worker payload_len deadline pps start counters envs :
  flow_ok c LEVEL src_mac dst_mac src_ip dst_ip src_port dst_port →
  tx_inv src_mac dst_mac src_ip dst_ip src_port dst_port kt kc frames s [] [] [] →
  zlen frames ≤ 2 ^ kt → zlen frames ≤ 2 ^ kc → is_u64 worker →
  16 ≤ payload_len → OUTER_HDR + payload_len ≤ FRAME_SIZE →
  128 * (zlen envs + 1) < 2 ^ 64 → is_u64 (bytes counters) → is_u64 (packets counters) →
  Forall (λ e, kernel_contract kt kc (ev_kernel e)) envs →
  let sent := tx_wire p c LEVEL s worker payload_len deadline pps start counters envs in
  ∃ l' inflight left burnt rest,
    tx_loop p c LEVEL s worker payload_len deadline pps start counters envs = Ok (l', inflight, left)
    ∧ let n := tx_handed p c LEVEL s worker payload_len deadline pps start counters envs l' in
    (∃ qt fl qc, tx_inv src_mac dst_mac src_ip dst_ip src_port dst_port kt kc frames (ls_tx l') qt fl qc ∧ fl.*1 = inflight)
    ∧ ls_seq l' = n + burnt ∧ 0 ≤ burnt ≤ zlen envs ∧ zlen sent ≤ n ∧ n ≤ 64 * zlen envs
    ∧ ls_counters l' = add_bytes (n * (OUTER_HDR + payload_len)) (add_packets n counters)
    ∧ Forall (λ f, zlen f = OUTER_HDR + payload_len ∧ frame_sid f = worker ∧ seq_ok (frame_num f)) sent
    ∧ run_of 0 (ls_seq l') burnt ((frame_num <$> sent) ++ rest).
Proof.
  intros (?&?&?&?&?&?&?&?) Hinv Hkt Hkc Hw H16 Hlen Hroom Hb Hp Hk sent. subst sent. unfold tx_loop, tx_wire.
  rewrite decide_True by lia. set (payload := splice _ 0 _).
  assert (zlen payload = payload_len) as Hpl.
  { subst payload. rewrite length_splice; rewrite ?length_replicate, ?length_to_le_bytes; lia. }
  assert (payload_sid payload = worker) as Hsid.
  { unfold payload_sid, payload. pose proof (slice_splice_eq (replicate (Z.to_nat payload_len) 0) 0 (to_le_bytes 8 worker)) as E.
    rewrite length_to_le_bytes in E. change (Z.of_nat 8) with 8 in E. rewrite E by (rewrite ?length_replicate; lia). by apply from_to_le_u64. }
  rewrite <- Hpl in *.
  destruct (tx_log_run p c LEVEL src_mac dst_mac src_ip dst_ip src_port dst_port kt kc frames) with
    (payload := payload) (pps := pps) (deadline := deadline) (envs := envs)
    (l := LoopState s payload 0 0 start counters []) (qt := [] : list (XdpDesc * list Z)) (fl := [] : list (XdpDesc * list Z)) (qc := [] : list Z)
    as (l' & left & k & nums & qt & fl & qc & Hrun & Hi & Hf & Hnum & Hle & Hr & Hkb & Hc); try done.
  { by left. }
  cbn [fmap list_fmap app ls_tx ls_seq ls_counters] in *.
  exists l', fl.*1, left, k, (payload_seq <$> qt.*2). split; [done|].
  unfold tx_handed, in_ring, tx_wire. rewrite (ring_contents_rep _ _ _ (inv_tx _ _ _ _ _ _ _ _ _ _ _ _ _ Hi)).
  rewrite Hpl in *. fold payload. set (wire := tx_log _ _ _ _ _ _ _ _ _) in *. rewrite Hnum.
  pose proof Hr as (_ & _ & Er & Hk0). apply (f_equal (@length Z)) in Hnum. rewrite length_app, !length_fmap in Hnum.
  rewrite length_fmap. replace (zlen wire + zlen qt) with (zlen nums) by lia.
  split_and!; [by exists qt, fl, qc|lia|done|done|lia|done|done| |done..].
  eapply Forall_impl; [exact Hf|]. intros f (F1 & F2 & F3 & _). by rewrite F1, F2, Hpl.
Qed.

(** The AF_XDP loss figure, end to end.  The generator runs against
    any kernel that keeps the transmit contract, the sink against any that
    keeps the receive contract; [sent] are the frames the first kernel took
    from the TX ring, [received] those the sink drained.  If the network
    delivers, in order and unchanged, a part of what was sent with both ends,
    then the sink counts exactly the frames and bytes it received, and its
    drop counter grows by the frames the network lost plus the numbers the
    generator left out between the first and the last frame: none if no
    batch was cut short by an empty pool, and at most one per iteration of
    the generator. *)
Theorem xdp_loss_exact s worker payload_len deadline pps start counters envs
    kr kf rframes rdeadline renvs rs qr qf cs :
  flow_ok c LEVEL src_mac dst_mac src_ip dst_ip src_port dst_port →
  tx_inv src_mac dst_mac src_ip dst_ip src_port dst_port kt kc frames s [] [] [] →
  zlen frames ≤ 2 ^ kt → zlen frames ≤ 2 ^ kc → is_u64 worker →
  16 ≤ payload_len → OUTER_HDR + payload_len ≤ FRAME_SIZE →
  128 * (zlen envs + 1) < 2 ^ 64 → is_u64 (bytes counters) → is_u64 (packets counters) →
  Forall (λ e, kernel_contract kt kc (ev_kernel e)) envs →
  zlen rframes ≤ 2 ^ kf → zlen rframes ≤ 2 ^ kr → rx_inv kr kf rframes rs qr qf [] →
  is_u64 (bytes cs) → is_u64 (packets cs) → is_u64 (drops cs) →
  Forall (λ e, rx_contract kr kf (rx_kernel e)) renvs →
  let total := OUTER_HDR + payload_len in
  let sent := tx_wire p c LEVEL s worker payload_len deadline pps start counters envs in
  let received := rx_wire (rx_log Release rdeadline renvs rs [] ∅ cs) in
  sublist received sent → received ≠ [] → head received = head sent → last received = last sent →
  ∃ l' inflight left n burnt rs' held' last' lft skipped,
    tx_loop p c LEVEL s worker payload_len deadline pps start counters envs = Ok (l', inflight, left)
    ∧ ls_counters l' = add_bytes (n * total) (add_packets n counters) ∧ ls_seq l' = n + burnt
    ∧ zlen sent ≤ n ∧ 0 ≤ skipped ≤ burnt ∧ burnt ≤ zlen envs
    ∧ rx_loop Release rdeadline renvs rs cs = Ok (rs', held', last',
        add_drops (zlen sent - zlen received + skipped)
          (add_packets (zlen received) (add_bytes (zlen received * total) cs)), lft).
Proof.
  intros Hflow Hinv Hkt Hkc Hw H16 Hlen Hroom Hb Hp Hk Hkf Hkr Hri Hrb Hrp Hrd Hrk total sent received
    Hsub Hne Hh Hl.
  destruct (tx_wire_run s worker payload_len deadline pps start counters envs)
    as (l' & infl & left & burnt & rest & Hrun & _ & Hseq & Hbt & Hn & _ & Hc & Hf & Hnums); try done.
  fold sent in Hn, Hf, Hnums. fold total in Hc, Hf. set (n := tx_handed _ _ _ _ _ _ _ _ _ _ _ _) in *.
  destruct (rx_loop_run kr kf rframes Hkf Hkr rdeadline renvs rs qr qf cs Hri Hrb Hrp Hrk)
    as (rs' & _ & _ & held' & last' & c' & lft & Hrx & _ & Hnote & Hin).
  set (log := rx_log _ _ _ _ _ _ _) in *.
  assert (Forall (λ f, zlen f = total ∧ frame_sid f = worker ∧ seq_ok (frame_num f)) received) as Hrf.
  { rewrite Forall_forall in *. intros f Hf'. apply Hf. by eapply elem_of_sublist. }
  destruct (rx_wire_totals total worker log) as (E1 & E2 & E3);
    [subst total; change OUTER_HDR with 42; lia|done|eapply Forall_impl; [exact Hrf|]; by intros f (?&?&?)|].
  fold received in E1, E2, E3.
  destruct (run_gaps _ _ (frame_num <$> sent) rest (frame_num <$> received) Hnums) as (skipped & Hg & Hsk).
  { by apply sublist_fmap. }
  { by destruct received. }
  { by rewrite !head_fmap, Hh. }
  { by rewrite !fmap_last, Hl. }
  rewrite !length_fmap in Hg.
  rewrite E1, E2, E3 in Hnote.
  destruct (note_stream Release worker (frame_num <$> received)
    (add_packets (zlen received) (add_bytes (zlen received * total) cs))) as [last2 E]; [done| |done|].
  { apply Forall_fmap. eapply Forall_impl; [exact Hrf|]. by intros f (?&?&?). }
  rewrite <- list_fmap_compose in E. change (_ ∘ frame_num) with (λ f, (worker, frame_num f)) in E.
  rewrite E, Hg in Hnote. simplify_eq.
  exists l', infl, left, n, burnt, rs', held', last', lft, skipped. split_and!; try done; lia.
Qed.

End properties.

(** *** A network that loses frames *)

(** It writes the frame [f] into the first chunk it is given, behind the
    head room, and keeps the other chunks. *)
Definition deliver (f : list Z) (s : RxSock) (held : list Z) : RxSock * list Z :=
  match dequeue_all (rs_fill s) with
  | Ok (a :: rest, fill') =>
      match produce_tx (rs_rx s) [mkXdpDesc (chunk a + 256) (zlen f) 0] with
      | Ok (_, rx') =>
          let area := if decide (0 ≤ chunk a ∧ chunk a + FRAME_SIZE ≤ zlen (rs_area s))
                      then splice (rs_area s) (chunk a + 256) f else rs_area s in
          (mkRxSock (rs_fd s) rx' fill' area, held ++ (chunk <$> rest))
      | _ => (s, held)
      end
  | _ => (s, held)
  end.

Lemma deliver_contract kr kf f : zlen f ≤ 3840 → rx_contract kr kf (deliver f).
Proof.
  intros Hf s held qr qf Hrx Hfill Hroom. unfold deliver.
  destruct (drain_rep kf (rs_fill s) qf Hfill) as (f' & -> & Hf').
  destruct qf as [|a rest].
  { exists [], [], []. cbn. by rewrite !app_nil_r. }
  set (d := mkXdpDesc _ _ _). destruct (push_rep kr (rs_rx s) qr [d] Hrx) as (r' & -> & Hr').
  cbn [length] in Hroom. rewrite take_ge in Hr' by (cbn [length]; lia).
  assert (desc_chunk d = chunk a) as Ed.
  { unfold desc_chunk, d, chunk, FRAME_SIZE. cbn [desc_addr]. f_equal.
    rewrite Z.mul_comm, Z.div_add_l by lia. change (256 / 4096) with 0. lia. }
  exists (a :: rest), [], [d]. cbn [fst snd rs_fill rs_rx rs_area]. rewrite app_nil_r.
  split_and!; [done| |done|done| |].
  - rewrite fmap_cons, fmap_cons, Ed. cbn. solve_Permutation.
  - constructor; [|done]. unfold desc_in_chunk. rewrite Ed. cbn. unfold FRAME_SIZE. lia.
  - case_decide; [|done]. unfold FRAME_SIZE in *. apply length_splice; lia.
Qed.

(** The worker of [Gen] with two frames: 0 and 1 leave, 2 is burnt, 3 and 4
    leave. *)
Definition demo_run_envs : list iter_env := [demo_env 10; demo_env 20; demo_env 30; demo_env 100].
Definition demo_sent : list (list Z) :=
  Eval vm_compute in tx_wire Release haswell None demo_tx 0 64 100 0 0 Counters_default demo_run_envs.

(** The network loses the two in the middle. *)
Definition demo_first : list Z := default [] (head demo_sent).
Definition demo_last : list Z := default [] (last demo_sent).

Definition empty_sock : RxSock :=
  mkRxSock 4
    (Ring (Some (RingMem 0 0 0 [mkXdpDesc 0 0 0; mkXdpDesc 0 0 0])) 2 1)
    (Ring (Some (RingMem 2 0 0 [0; 4096])) 2 1)
    (replicate (Z.to_nat 8192) 0).

Lemma empty_sock_inv : rx_inv 1 1 [0; 4096] empty_sock [] [0; 4096] [].
Proof.
  split.
  - apply empty_ring_rep.
  - split; [done..|]. eexists; split; [done|]. split_and!; try done.
    intros [|[|i]] a Hi; naive_solver.
  - assert (zlen (rs_area empty_sock) = 8192) as ->
      by (cbn [rs_area empty_sock]; rewrite length_replicate; lia).
    intros a Ha. unfold FRAME_SIZE.
    apply elem_of_cons in Ha as [->|Ha]; [lia|].
    apply list_elem_of_singleton in Ha as ->. lia.
  - done.
  - done.
Qed.

Definition demo_rx_envs : list rx_env :=
  [RxEnv true 10 (deliver demo_first); RxEnv true 20 (deliver demo_last)].

Lemma demo_received :
  rx_wire (rx_log Release 50 demo_rx_envs empty_sock [] ∅ Counters_default) = [demo_first; demo_last].
Proof. vm_compute. reflexivity. Qed.

(** Four frames sent, two received: two lost, and one number burnt. *)
Lemma xdp_loss_exact_witness :
  zlen demo_sent = 4 ∧ ∃ rs' held' last' lft skipped, 0 ≤ skipped
  ∧ rx_loop Release 50 demo_rx_envs empty_sock Counters_default
      = Ok (rs', held', last', add_drops (4 - 2 + skipped) (mkCounters 212 2 0), lft).
Proof.
  split; [vm_compute; reflexivity|].
  assert (tx_wire Release haswell None demo_tx 0 64 100 0 0 Counters_default demo_run_envs = demo_sent) as Es
    by (vm_compute; reflexivity).
  pose proof (xdp_loss_exact Release haswell None _ _ _ _ _ _ 1 1 [0; 4096] demo_tx 0 64 100 0 0 Counters_default
    demo_run_envs 1 1 [0; 4096] 50 demo_rx_envs empty_sock [] [0; 4096] Counters_default
    demo_flow_ok demo_tx_inv ltac:(vm_compute; discriminate) ltac:(vm_compute; discriminate)) as H.
  cbv zeta in H. rewrite Es, demo_received in H.
  destruct H as (l' & infl & left & n & burnt & rs' & held' & last' & lft & skipped & _ & _ & _ & _ & Hs & _ & Hrx);
    [split; done|done|vm_compute; discriminate|done|split; done|split; done
    |repeat constructor; apply instant_kernel_contract|vm_compute; discriminate|vm_compute; discriminate
    |exact empty_sock_inv|split; done|split; done|split; done
    |repeat constructor; apply deliver_contract; vm_compute; discriminate
    |apply (sublist_skip demo_first), sublist_cons, sublist_cons, sublist_skip, sublist_nil
    |done|reflexivity|reflexivity|].
  exists rs', held', last', lft, skipped. split; [apply Hs|]. exact Hrx.
Defined.

