(* ===== verification/Sys.v ===== *)
(** * System calls

    The set-up code of the program is a sequence of system calls with early
    returns.  A program is a function of the history of calls made so far;
    the kernel answers a call as any function of that history, so a theorem
    holds for every sequence of successes and failures.  What a history
    leaves open (descriptors, mappings) is computed from it, which makes
    "this error path leaks nothing" a statement about a value. *)

From S2P Require Import Prelude Ring Strs.

(** [struct XdpUmemReg]. *)
Record XdpUmemReg : Type := mkXdpUmemReg {
  ur_addr : Z;
  ur_len : Z;
  ur_chunk_size : Z;
  ur_headroom : Z;
  ur_flags : Z;
  ur_tx_metadata_len : Z;
}.

(** [struct XdpRingOffsets] and [struct XdpMmapOffsets]. *)
Record XdpRingOffsets : Type := mkXdpRingOffsets {
  off_producer : Z;
  off_consumer : Z;
  off_desc : Z;
  off_flags : Z;
}.

Record XdpMmapOffsets : Type := mkXdpMmapOffsets {
  off_rx : XdpRingOffsets;
  off_tx : XdpRingOffsets;
  off_fr : XdpRingOffsets;
  off_cr : XdpRingOffsets;
}.

(** [libc::sockaddr_in] as its fields. *)
Record sockaddr_in : Type := mkSockaddrIn {
  sin_family : Z;
  sin_port : Z;
  sin_addr : Z;
  sin_zero : list Z;
}.

Inductive sockaddr : Type :=
| SaXdp (sa : SockaddrXdp)
| SaIn (sa : sockaddr_in).

(** The constants of [libc] the code passes, by name. *)
Inductive domain : Type := AF_INET | AF_RAW (n : Z).
Inductive socktype : Type := SOCK_STREAM | SOCK_DGRAM | SOCK_RAW.
Inductive sockopt : Type :=
| SO_REUSEADDR
| SO_REUSEPORT
| SO_RCVBUF
| SOL_XDP_OPT (level opt : Z).
Inductive optval : Type :=
| OptInt (v : Z)
| OptUmemReg (r : XdpUmemReg).

(** [aya::programs::XdpFlags]. *)
Inductive xdp_flags : Type := DRV_MODE | SKB_MODE.

(** The operations of the aya library [src/xdp/loader.rs] performs on its
    one [Ebpf] object, and the drop of that object. *)
Inductive aya_call : Type :=
| Ebpf_load (prog : list Z)
| Program_mut (name : str)
| Xdp_try_from
| Program_load
| Program_attach (iface : str) (flags : xdp_flags)
| Map_mut (name : str)
| XskMap_try_from
| XskMap_set (queue_id fd flags : Z)
| Ebpf_drop.

(** The system calls of the set-up paths.  [Mmap] carries the length, the
    descriptor ([-1] for an anonymous mapping) and the offset; [Aya] is a
    call into the aya library, answered 0 for [Ok] or [Some]. *)
Inductive call : Type :=
| Sysconf_PAGESIZE
| Socket (d : domain) (t : socktype)
| Close (fd : Z)
| Setsockopt (fd : Z) (o : sockopt) (v : optval)
| Getsockopt_offsets (fd : Z)
| Mmap (len fd pgoff : Z)
| Munmap (addr len : Z)
| Bind (fd : Z) (sa : sockaddr)
| Listen (fd backlog : Z)
| Setrlimit_MEMLOCK (cur max : Z)
| Aya (c : aya_call).

(** What the kernel answers: the return value, the offset table
    [getsockopt] fills in, and the memory found behind a ring mapping. *)
Record answer : Type := Answer {
  ret : Z;
  ans_offsets : XdpMmapOffsets;
  ans_addr_mem : ring_mem Z;
  ans_desc_mem : ring_mem XdpDesc;
}.

Abbreviation history := (list (call * answer)).
Abbreviation kernel := (history → call → answer).

(** ** The monad *)

(** A set-up program: it may panic, and it returns the grown history. *)
Definition sys (A : Type) : Type := history → res A * history.

#[export] Instance sys_ret : MRet sys := λ A a h, (Ok a, h).
#[export] Instance sys_bind : MBind sys := λ A B f m h,
  match m h with
  | (Ok a, h) => f a h
  | (Panic, h) => (Panic, h)
  | (Undefined, h) => (Undefined, h)
  end.

Definition syscall (k : kernel) (c : call) : sys answer := λ h,
  let a := k h c in (Ok a, h ++ [(c, a)]).

Definition lift {A} (r : res A) : sys A := λ h, (r, h).

(** [Result]. *)
Inductive result (E A : Type) : Type :=
| Okay (a : A)
| Err (e : E).
Arguments Okay {E A} a.
Arguments Err {E A} e.

(** The [?] operator: go on with the value or return the error. *)
Definition try {E A B} (m : sys (result E A)) (f : A → sys (result E B)) : sys (result E B) :=
  r ← m; match r with Okay a => f a | Err e => mret (Err e) end.

(** [inspect_err]: run [f] on the error path and keep the error. *)
Definition inspect_err {E A} (m : sys (result E A)) (f : sys answer) : sys (result E A) :=
  r ← m; match r with Okay a => mret (Okay a) | Err e => f ;; mret (Err e) end.

(** ** What a history leaves open *)

Definition MAP_FAILED : Z := 2 ^ 64 - 1.

(** Remove one occurrence. *)
Fixpoint remove1 {A} `{EqDecision A} (x : A) (l : list A) : list A :=
  match l with
  | [] => []
  | y :: l => if decide (x = y) then l else y :: remove1 x l
  end.

(** Open descriptors and live mappings, the newest first. *)
Record open_set : Type := OpenSet { fds : list Z; maps : list (Z * Z) }.

Definition open_step (o : open_set) (e : call * answer) : open_set :=
  match e.1 with
  | Socket _ _ => if 0 <=? ret e.2 then OpenSet (ret e.2 :: fds o) (maps o) else o
  | Close fd => OpenSet (remove1 fd (fds o)) (maps o)
  | Mmap len _ _ =>
      if decide (ret e.2 = MAP_FAILED) then o
      else OpenSet (fds o) ((ret e.2, len) :: maps o)
  | Munmap a len => OpenSet (fds o) (remove1 (a, len) (maps o))
  | _ => o
  end.

Definition opened (h : history) : open_set := foldl open_step (OpenSet [] []) h.

Lemma opened_snoc h e : opened (h ++ [e]) = open_step (opened h) e.
Proof. unfold opened. by rewrite foldl_app. Qed.

Lemma remove1_head {A} `{EqDecision A} (x : A) l : remove1 x (x :: l) = l.
Proof. cbn. by rewrite decide_True. Qed.

(** ** What a history leaves attached

    The XDP side of a history: whether an [Ebpf] object is alive, where its
    program is attached, and the contents of the XSKS map.  Dropping the
    object detaches the program and frees the map. *)

Record bpf_state : Type := BpfState {
  bpf_alive : bool;
  bpf_attached : option (str * xdp_flags);
  bpf_xsks : gmap Z Z;
}.

Definition bpf_none : bpf_state := BpfState false None ∅.

Definition bpf_step (b : bpf_state) (e : call * answer) : bpf_state :=
  match e.1 with
  | Aya Ebpf_drop => bpf_none
  | Aya (Ebpf_load _) => if ret e.2 =? 0 then BpfState true None ∅ else b
  | Aya (Program_attach iface flags) =>
      if ret e.2 =? 0 then BpfState (bpf_alive b) (Some (iface, flags)) (bpf_xsks b) else b
  | Aya (XskMap_set q fd _) =>
      if ret e.2 =? 0 then BpfState (bpf_alive b) (bpf_attached b) (<[q:=fd]> (bpf_xsks b)) else b
  | _ => b
  end.

Definition bpf (h : history) : bpf_state := foldl bpf_step bpf_none h.

Lemma bpf_snoc h e : bpf (h ++ [e]) = bpf_step (bpf h) e.
Proof. unfold bpf. by rewrite foldl_app. Qed.

Lemma bpf_app h l : bpf (h ++ l) = foldl bpf_step (bpf h) l.
Proof. unfold bpf. by rewrite foldl_app. Qed.

(** ** Weakest preconditions

    [wp m h Q]: from history [h] the program returns, and its result and
    history satisfy [Q]. *)

Definition wp {A} (m : sys A) (h : history) (Q : A → history → Prop) : Prop :=
  ∃ a h', m h = (Ok a, h') ∧ Q a h'.

Lemma wp_mono {A} (m : sys A) h (P Q : A → history → Prop) :
  wp m h P → (∀ a h', P a h' → Q a h') → wp m h Q.
Proof. intros (a & h' & E & HP) HPQ. exists a, h'. auto. Qed.

Lemma wp_ret {A} (a : A) h (Q : A → history → Prop) : Q a h → wp (mret a) h Q.
Proof. intros HQ. by exists a, h. Qed.

Lemma wp_bind {A B} (m : sys A) (f : A → sys B) h Q :
  wp m h (λ a h', wp (f a) h' Q) → wp (m ≫= f) h Q.
Proof.
  intros (a & h' & E & b & h'' & E' & HQ). exists b, h''. split; [|done].
  unfold mbind, sys_bind. by rewrite E.
Qed.

Lemma wp_syscall k c h (Q : answer → history → Prop) :
  Q (k h c) (h ++ [(c, k h c)]) → wp (syscall k c) h Q.
Proof. intros HQ. by exists (k h c), (h ++ [(c, k h c)]). Qed.

Lemma wp_lift {A} (r : res A) a h (Q : A → history → Prop) :
  r = Ok a → Q a h → wp (lift r) h Q.
Proof. intros -> HQ. by exists a, h. Qed.

Lemma wp_try {E A B} (m : sys (result E A)) (f : A → sys (result E B)) h Q :
  wp m h (λ r h', match r with Okay a => wp (f a) h' Q | Err e => Q (Err e) h' end) →
  wp (try m f) h Q.
Proof.
  intros H. apply wp_bind. eapply wp_mono; [exact H|]. intros [a|e] h' H'; [done|].
  by apply wp_ret.
Qed.

Lemma wp_inspect_err {E A} (m : sys (result E A)) (f : sys answer) h Q :
  wp m h (λ r h', match r with
                  | Okay a => Q (Okay a) h'
                  | Err e => wp f h' (λ _ h'', Q (Err e) h'')
                  end) →
  wp (inspect_err m f) h Q.
Proof.
  intros H. apply wp_bind. eapply wp_mono; [exact H|]. intros [a|e] h' H'.
  - by apply wp_ret.
  - apply wp_bind. eapply wp_mono; [exact H'|]. intros. by apply wp_ret.
Qed.

(** A program has one outcome, so a [wp] describes whatever it returned. *)
Lemma wp_outcome {A} (m : sys A) h Q r h' :
  wp m h Q → m h = (r, h') → ∃ a, r = Ok a ∧ Q a h'.
Proof. intros (a & h'' & E & HQ) E'. rewrite E in E'. simplify_eq. eauto. Qed.

(** Removing the second element when the first may equal it. *)
Lemma remove1_second {A} `{EqDecision A} (x y : A) l : remove1 x (y :: x :: l) = y :: l.
Proof. cbn. case_decide; [by subst|]. by rewrite decide_True. Qed.

Lemma remove1_perm {A} `{EqDecision A} (x : A) l1 l2 : remove1 x (l1 ++ x :: l2) ≡ₚ l1 ++ l2.
Proof.
  induction l1 as [|y l1 IH]; cbn; [by rewrite decide_True|].
  case_decide as E; [subst; by rewrite Permutation_middle|]. by rewrite IH.
Qed.

Lemma wp_and {A} (m : sys A) h (P Q : A → history → Prop) :
  wp m h P → wp m h Q → wp m h (λ a h', P a h' ∧ Q a h').
Proof.
  intros (a & h' & E & HP) (b & h'' & E' & HQ). rewrite E in E'. simplify_eq.
  by exists b, h''.
Qed.

(** ** Frame rules

    A function [obs] of the history (what is open, what is attached) that a
    program leaves alone, whatever it returns. *)

Definition keeps {A B} (obs : history → B) (m : sys A) : Prop :=
  ∀ h, obs (m h).2 = obs h.

Section keeps.
Context {C : Type} (obs : history → C).

Lemma keeps_ret {A} (a : A) : keeps obs (mret a).
Proof. done. Qed.

Lemma keeps_lift {A} (r : res A) : keeps obs (lift r).
Proof. done. Qed.

Lemma keeps_bind {A B} (m : sys A) (f : A → sys B) :
  keeps obs m → (∀ a, keeps obs (f a)) → keeps obs (m ≫= f).
Proof.
  intros Hm Hf h. unfold mbind, sys_bind. specialize (Hm h).
  destruct (m h) as [[a| |] h']; cbn in *; [by rewrite Hf|done..].
Qed.

Lemma keeps_syscall k c : (∀ h a, obs (h ++ [(c, a)]) = obs h) → keeps obs (syscall k c).
Proof. intros H h. apply H. Qed.

Lemma keeps_try {E A B} (m : sys (result E A)) (f : A → sys (result E B)) :
  keeps obs m → (∀ a, keeps obs (f a)) → keeps obs (try m f).
Proof. intros Hm Hf. apply keeps_bind; [done|]. by intros [a|e]. Qed.

Lemma keeps_inspect_err {E A} (m : sys (result E A)) (f : sys answer) :
  keeps obs m → keeps obs f → keeps obs (inspect_err m f).
Proof. intros Hm Hf. apply keeps_bind; [done|]. intros [a|e]; [done|]. by apply keeps_bind. Qed.

Lemma wp_keeps {A} (m : sys A) h Q :
  keeps obs m → wp m h Q → wp m h (λ a h', Q a h' ∧ obs h' = obs h).
Proof.
  intros Hk (a & h' & E & HQ). exists a, h'. split_and!; [done..|].
  specialize (Hk h). by rewrite E in Hk.
Qed.
End keeps.

(** A socket or memory call does not touch the XDP program. *)
Lemma keeps_bpf_call k c :
  match c with Aya _ => False | _ => True end → keeps bpf (syscall k c).
Proof. intros Hc. apply keeps_syscall. intros h a. rewrite bpf_snoc. by destruct c. Qed.

(** A call into aya opens and closes no socket of the program. *)
Lemma keeps_opened_aya k c :
  match c with Aya _ | Setrlimit_MEMLOCK _ _ => True | _ => False end → keeps opened (syscall k c).
Proof. intros Hc. apply keeps_syscall. intros h a. rewrite opened_snoc. by destruct c. Qed.

Create HintDb keeps.
#[export] Hint Resolve keeps_ret keeps_lift : keeps.
#[export] Hint Extern 1 (keeps _ (syscall _ _)) => first [by apply keeps_bpf_call|by apply keeps_opened_aya] : keeps.

(** Split a program along its binds and branches. *)
Ltac keeps :=
  repeat first [ solve [auto with keeps]
               | match goal with |- keeps _ (_ ≫= _) => apply keeps_bind; [|intros ?] end
               | match goal with |- keeps _ (try _ _) => apply keeps_try; [|intros ?] end
               | match goal with |- keeps _ (inspect_err _ _) => apply keeps_inspect_err end
               | match goal with |- keeps _ (match ?x with _ => _ end) => destruct x end ].
