(* ===== verification/Xsk.v ===== *)
(** * Umem and socket set-up ([src/xdp/umem.rs], [src/xdp/socket.rs])

    [Umem::new] maps and registers the frame area and its two rings;
    [create_xsk_socket] opens the AF_XDP socket, adds the RX and TX rings
    and binds it to a queue; [extract_tx] splits off the transmit half.
    The theorems say what a successful set-up hands to the transmit and
    receive loops, and what every failing one leaves open. *)

From S2P Require Import Prelude Ring Sys.

(** ** Constants of [umem.rs] *)

Definition SOL_XDP : Z := 283.
Definition XDP_MMAP_OFFSETS : Z := 1.
Definition XDP_RX_RING : Z := 2.
Definition XDP_TX_RING : Z := 3.
Definition XDP_UMEM_REG : Z := 4.
Definition XDP_UMEM_FILL_RING : Z := 5.
Definition XDP_UMEM_COMPLETION_RING : Z := 6.
Definition XDP_PGOFF_RX_RING : Z := 0.
Definition XDP_PGOFF_TX_RING : Z := 0x80000000.
Definition XDP_UMEM_PGOFF_FILL_RING : Z := 0x100000000.
Definition XDP_UMEM_PGOFF_COMPLETION_RING : Z := 0x180000000.
Definition XDP_ZEROCOPY : Z := Z.shiftl 1 2.
Definition XDP_COPY : Z := Z.shiftl 1 1.
Definition XDP_USE_NEED_WAKEUP : Z := Z.shiftl 1 3.
Definition AF_XDP : Z := 44.

(** The error messages of the set-up code. *)
Inductive xerr : Type :=
| ESocket
| EUmemMmap
| EUmemReg
| ERing (opt : Z)
| EOffsets
| EAddrMmap (pgoff : Z)
| EDescMmap (pgoff : Z)
| EBind.

(** ** Data *)

(** The pointer fields of [struct AddrRing] and [struct DescRing]. *)
Record pointers : Type := Pointers {
  p_map : Z;
  p_mapsize : Z;
  p_producer : Z;
  p_consumer : Z;
  p_flags : Z;
  p_descs : Z;
}.

(** A mapped ring: its pointers and the memory they lead to. *)
Record mapped (A : Type) : Type := Mapped { ptrs : pointers; view : ring A }.
Arguments Mapped {A}.
Arguments ptrs {A}.
Arguments view {A}.

Record Umem : Type := mkUmem {
  um_area : Z;
  um_area_len : Z;
  um_fill : mapped Z;
  um_comp : mapped Z;
}.

Record XskSocket : Type := mkXskSocket {
  xs_fd : Z;
  xs_umem : Umem;
  xs_rx : mapped XdpDesc;
  xs_tx : mapped XdpDesc;
  xs_tx_pool : list Z;
}.

(** ** Operations *)

(** [Umem::frame]: the slice's address and length.  The assertion is in
    debug builds only; a slice or a pointer that leaves the area is undefined
    behaviour. *)
Definition Umem_frame (p : profile) (u : Umem) (offset len : Z) : res (Z * Z) :=
  match p with
  | Debug => if Z.min (offset + len) (2 ^ 64 - 1) <=? um_area_len u then Ok () else Panic
  | Release => Ok ()
  end;;
  if offset + len <=? um_area_len u then Ok (um_area u + offset, len) else Undefined.

Definition Umem_ptr_at (u : Umem) (offset : Z) : res Z :=
  if offset <=? um_area_len u then Ok (um_area u + offset) else Undefined.

(** [!x] at 64 bits. *)
Definition not64 (x : Z) : Z := Z.land (Z.lnot x) (2 ^ 64 - 1).

Section setup.
Context (p : profile) (k : kernel).

(** The length of the frame area, rounded up to the page size. *)
Definition area_len (page : Z) : res Z :=
  n ← arith p 32 (FRAME_COUNT * FRAME_SIZE);
  a ← arith p 64 (n + page);
  a ← arith p 64 (a - 1);
  m ← arith p 64 (page - 1);
  Ok (Z.land a (not64 m)).

(** Frame offsets, [(i * FRAME_SIZE) as u64] over a range of indices. *)
Definition frame_addrs (first last : Z) : res (list Z) :=
  mapM (λ i, arith p 32 (i * FRAME_SIZE)) (seqZ first (last - first)).

Definition get_mmap_offsets (fd : Z) : sys (result xerr XdpMmapOffsets) :=
  a ← syscall k (Getsockopt_offsets fd);
  if ret a =? 0 then mret (Okay (ans_offsets a)) else mret (Err EOffsets).

Definition get_rx_tx_offsets (fd : Z) : sys (result xerr (XdpRingOffsets * XdpRingOffsets)) :=
  try (get_mmap_offsets fd) (λ o, mret (Okay (off_rx o, off_tx o))).

(** The common body of the two ring mappers, for slots of [slot] bytes. *)
Definition mmap_ring {A} (slot : Z) (mem_of : answer → ring_mem A) (e : xerr)
    (fd pgoff : Z) (off : XdpRingOffsets) (sz : Z) : sys (result xerr (mapped A)) :=
  b ← lift (arith p 64 (sz * slot));
  mapsize ← lift (arith p 64 (off_desc off + b));
  a ← syscall k (Mmap mapsize fd pgoff);
  if decide (ret a = MAP_FAILED) then mret (Err e) else
  m ← lift (arith p 32 (sz - 1));
  let map := ret a in
  mret (Okay (Mapped
    (Pointers map mapsize (map + off_producer off) (map + off_consumer off)
       (map + off_flags off) (map + off_desc off))
    (Ring (Some (mem_of a)) sz m))).

Definition mmap_addr_ring (fd pgoff : Z) (off : XdpRingOffsets) (sz : Z)
    : sys (result xerr (mapped Z)) :=
  mmap_ring 8 ans_addr_mem (EAddrMmap pgoff) fd pgoff off sz.

Definition mmap_desc_ring (fd pgoff : Z) (off : XdpRingOffsets) (sz : Z)
    : sys (result xerr (mapped XdpDesc)) :=
  mmap_ring 16 ans_desc_mem (EDescMmap pgoff) fd pgoff off sz.

(** [for (opt, sz) in [..]]: set the ring sizes, with [cleanup] on the
    first failure. *)
Fixpoint set_rings (fd : Z) (cleanup : call) (opts : list (Z * Z)) : sys (result xerr ()) :=
  match opts with
  | [] => mret (Okay ())
  | (opt, sz) :: opts =>
      rc ← syscall k (Setsockopt fd (SOL_XDP_OPT SOL_XDP opt) (OptInt sz));
      if ret rc =? 0 then set_rings fd cleanup opts
      else syscall k cleanup;; mret (Err (ERing opt))
  end.

(** The second half of [Umem::new]: map the two rings, fill one, and list
    the transmit frames. *)
Definition Umem_rings (xsk_fd area len : Z) : sys (result xerr (Umem * list Z)) :=
  try (get_mmap_offsets xsk_fd) (λ offsets,
  try (inspect_err (mmap_addr_ring xsk_fd XDP_UMEM_PGOFF_FILL_RING (off_fr offsets) RING_SIZE)
         (syscall k (Munmap area len))) (λ fill,
  try (inspect_err (mmap_addr_ring xsk_fd XDP_UMEM_PGOFF_COMPLETION_RING (off_cr offsets) RING_SIZE)
         (syscall k (Munmap area len))) (λ comp,
  rx_addrs ← lift (frame_addrs 0 RING_SIZE);
  '(_, fill') ← lift (enqueue_batch (view fill) rx_addrs);
  tx_pool ← lift (frame_addrs RING_SIZE FRAME_COUNT);
  mret (Okay (mkUmem area len (Mapped (ptrs fill) fill') comp, tx_pool))))).

Definition Umem_new (xsk_fd : Z) : sys (result xerr (Umem * list Z)) :=
  pg ← syscall k Sysconf_PAGESIZE;
  len ← lift (area_len (wrap 64 (ret pg)));
  a ← syscall k (Mmap len (-1) 0);
  if decide (ret a = MAP_FAILED) then mret (Err EUmemMmap) else
  let area := ret a in
  rc ← syscall k (Setsockopt xsk_fd (SOL_XDP_OPT SOL_XDP XDP_UMEM_REG)
    (OptUmemReg (mkXdpUmemReg area len FRAME_SIZE 0 0 0)));
  if negb (ret rc =? 0) then syscall k (Munmap area len);; mret (Err EUmemReg) else
  try (set_rings xsk_fd (Munmap area len)
         [(XDP_UMEM_FILL_RING, RING_SIZE); (XDP_UMEM_COMPLETION_RING, RING_SIZE)]) (λ _,
  Umem_rings xsk_fd area len).

(** [Drop for Umem]. *)
Definition drop_umem (u : Umem) : sys answer :=
  syscall k (Munmap (um_area u) (um_area_len u)).

(** [Drop for XskSocket], then the drop of its [umem] field. *)
Definition drop_xsk (s : XskSocket) : sys answer :=
  syscall k (Close (xs_fd s));; drop_umem (xs_umem s).

(** The part of [create_xsk_socket] that runs with a umem. *)
Definition xsk_rings (fd : Z) (umem : Umem) (tx_pool : list Z) (ifindex queue_id : Z)
    (use_zerocopy : bool) : sys (result xerr XskSocket) :=
  try (set_rings fd (Close fd) [(XDP_RX_RING, RING_SIZE); (XDP_TX_RING, RING_SIZE)]) (λ _,
  try (get_rx_tx_offsets fd) (λ '(rx_off, tx_off),
  try (inspect_err (mmap_desc_ring fd XDP_PGOFF_RX_RING rx_off RING_SIZE)
         (syscall k (Close fd))) (λ rx,
  try (inspect_err (mmap_desc_ring fd XDP_PGOFF_TX_RING tx_off RING_SIZE)
         (syscall k (Close fd))) (λ tx,
  let bind_flags := Z.lor XDP_USE_NEED_WAKEUP (if use_zerocopy then XDP_ZEROCOPY else XDP_COPY) in
  let sa := mkSockaddrXdp AF_XDP bind_flags ifindex queue_id 0 in
  rc ← syscall k (Bind fd (SaXdp sa));
  if ret rc =? 0 then mret (Okay (mkXskSocket fd umem rx tx tx_pool))
  else syscall k (Close fd);; mret (Err EBind))))).

(** [create_xsk_socket]; once it exists, [umem] is dropped on every error
    return. *)
Definition create_xsk_socket (ifindex queue_id : Z) (use_zerocopy : bool)
    : sys (result xerr XskSocket) :=
  s ← syscall k (Socket (AF_RAW AF_XDP) SOCK_RAW);
  let fd := ret s in
  if fd <? 0 then mret (Err ESocket) else
  try (inspect_err (Umem_new fd) (syscall k (Close fd))) (λ '(umem, tx_pool),
  inspect_err (xsk_rings fd umem tx_pool ifindex queue_id use_zerocopy) (drop_umem umem)).
End setup.

(** [extract_tx]: the transmit half, and the socket with stubs in its
    place. *)
Definition null_ptrs : pointers := Pointers 0 0 0 0 0 0.
Definition extract_tx (s : XskSocket) : (mapped XdpDesc * mapped Z * list Z) * XskSocket :=
  let u := xs_umem s in
  ((xs_tx s, um_comp u, xs_tx_pool s),
   mkXskSocket (xs_fd s)
     (mkUmem (um_area u) (um_area_len u) (um_fill u) (Mapped null_ptrs zeroed))
     (xs_rx s) (Mapped null_ptrs zeroed) []).

(** ** The kernel's side of the set-up *)

(** The index words lie in front of the slots, at 32-bit offsets. *)
Definition off_ok (o : XdpRingOffsets) : Prop :=
  0 ≤ off_producer o ∧ off_producer o + 4 ≤ off_desc o
  ∧ 0 ≤ off_consumer o ∧ off_consumer o + 4 ≤ off_desc o
  ∧ 0 ≤ off_flags o ∧ off_flags o + 4 ≤ off_desc o ∧ off_desc o < 2 ^ 32.

(** A ring nobody has used: equal indices and the slots asked for. *)
Definition fresh {A} (m : ring_mem A) : Prop :=
  producer m = 0 ∧ consumer m = 0 ∧ zlen (descs m) = RING_SIZE.

(** What Linux documents of the calls: the page size is a power of two (up
    to 16 MiB), the offset tables are well formed, and a new ring mapping
    shows an unused ring. *)
Record xsk_contract (k : kernel) : Prop := {
  con_page : ∀ h, ∃ j, 0 ≤ j ≤ 24 ∧ ret (k h Sysconf_PAGESIZE) = 2 ^ j;
  con_off : ∀ h fd, let o := ans_offsets (k h (Getsockopt_offsets fd)) in
    off_ok (off_rx o) ∧ off_ok (off_tx o) ∧ off_ok (off_fr o) ∧ off_ok (off_cr o);
  con_addr : ∀ h len fd pgoff, fresh (ans_addr_mem (k h (Mmap len fd pgoff)));
  con_desc : ∀ h len fd pgoff, fresh (ans_desc_mem (k h (Mmap len fd pgoff)));
}.

(** A kernel that grants every request, except perhaps ([zc_ok = false]) a
    bind in zero-copy mode. *)
Definition grants (zc_ok : bool) (k : kernel) : Prop := ∀ h c,
  match c with
  | Mmap _ _ _ => ret (k h c) ≠ MAP_FAILED
  | Bind _ (SaXdp sa) =>
      zc_ok = true ∨ Z.land (sxdp_flags sa) XDP_ZEROCOPY = 0 → ret (k h c) = 0
  | Setsockopt _ _ _ | Getsockopt_offsets _ => ret (k h c) = 0
  | Socket _ _ => 0 ≤ ret (k h c)
  | _ => True
  end.

(** The frames of the receive and of the transmit half. *)
Definition frames (first last : Z) : list Z := (λ i, i * FRAME_SIZE) <$> seqZ first (last - first).

(** The ring [m] is mapped as [off] says, with all its slots inside. *)
Definition mapping_ok {A} (slot : Z) (m : mapped A) : Prop :=
  let q := ptrs m in
  p_mapsize q = p_descs q - p_map q + size (view m) * slot
  ∧ p_map q ≤ p_producer q ∧ p_producer q + 4 ≤ p_descs q
  ∧ p_map q ≤ p_consumer q ∧ p_consumer q + 4 ≤ p_descs q
  ∧ p_map q ≤ p_flags q ∧ p_flags q + 4 ≤ p_descs q.

(** The mapping an [mmap] of a ring left behind. *)
Definition extent {A} (m : mapped A) : Z * Z := (p_map (ptrs m), p_mapsize (ptrs m)).

(** A freshly built umem: the whole area, every receive frame in the fill
    ring, an empty completion ring. *)
Definition umem_ok (u : Umem) : Prop :=
  um_area_len u = FRAME_COUNT * FRAME_SIZE
  ∧ ring_rep 11 (view (um_fill u)) (frames 0 RING_SIZE) ∧ ring_rep 11 (view (um_comp u)) []
  ∧ mapping_ok 8 (um_fill u) ∧ mapping_ok 8 (um_comp u).

(** How many mappings a failing [Umem::new] leaves behind. *)
Definition umem_leak (e : xerr) (n : nat) : Prop :=
  match e with
  | EUmemMmap | EUmemReg => n = 0%nat
  | ERing opt => n = 0%nat ∧ (opt = XDP_UMEM_FILL_RING ∨ opt = XDP_UMEM_COMPLETION_RING)
  | EOffsets => n = 1%nat
  | EAddrMmap pgoff =>
      (n = 0%nat ∧ pgoff = XDP_UMEM_PGOFF_FILL_RING)
      ∨ (n = 1%nat ∧ pgoff = XDP_UMEM_PGOFF_COMPLETION_RING)
  | _ => False
  end.

(** How many descriptors and mappings a failing [create_xsk_socket] leaves
    behind. *)
Definition xsk_leak (e : xerr) (nf nm : nat) : Prop :=
  match e with
  | ESocket => nf = 0%nat ∧ nm = 0%nat
  | ERing opt =>
      nf = 0%nat ∧ ((nm = 0%nat ∧ (opt = XDP_UMEM_FILL_RING ∨ opt = XDP_UMEM_COMPLETION_RING))
                    ∨ (nm = 2%nat ∧ (opt = XDP_RX_RING ∨ opt = XDP_TX_RING)))
  | EOffsets => (nf = 0%nat ∧ nm = 1%nat) ∨ (nf = 1%nat ∧ nm = 2%nat)
  | EDescMmap pgoff =>
      nf = 0%nat ∧ ((nm = 2%nat ∧ pgoff = XDP_PGOFF_RX_RING)
                    ∨ (nm = 3%nat ∧ pgoff = XDP_PGOFF_TX_RING))
  | EBind => nf = 0%nat ∧ nm = 4%nat
  | _ => nf = 0%nat ∧ umem_leak e nm
  end.

(** A freshly built socket: all four rings mapped and empty but for the
    fill ring, the transmit frames in the pool. *)
Definition xsk_ok (s : XskSocket) : Prop :=
  umem_ok (xs_umem s)
  ∧ ring_rep 11 (view (xs_rx s)) [] ∧ ring_rep 11 (view (xs_tx s)) []
  ∧ mapping_ok 16 (xs_rx s) ∧ mapping_ok 16 (xs_tx s)
  ∧ xs_tx_pool s = frames RING_SIZE FRAME_COUNT.

Definition bind_flags (use_zerocopy : bool) : Z :=
  Z.lor XDP_USE_NEED_WAKEUP (if use_zerocopy then XDP_ZEROCOPY else XDP_COPY).

(** What a call of [create_xsk_socket] from [o] leads to. *)
Definition xsk_post (o : open_set) (ifindex queue_id : Z) (zc : bool)
    (r : result xerr XskSocket) (h' : history) : Prop :=
  match r with
  | Okay s => xsk_ok s
      ∧ (∃ a, last h' = Some (Bind (xs_fd s)
           (SaXdp (mkSockaddrXdp AF_XDP (bind_flags zc) ifindex queue_id 0)), a))
      ∧ fds (opened h') = xs_fd s :: fds o
      ∧ maps (opened h') = [extent (xs_tx s); extent (xs_rx s)]
          ++ [extent (um_comp (xs_umem s)); extent (um_fill (xs_umem s));
              (um_area (xs_umem s), um_area_len (xs_umem s))] ++ maps o
  | Err e => ∃ lf lm, fds (opened h') = lf ++ fds o ∧ maps (opened h') ≡ₚ lm ++ maps o
      ∧ xsk_leak e (length lf) (length lm)
  end.

(** ** Lemmas *)

Lemma open_set_eta o : OpenSet (fds o) (maps o) = o.
Proof. by destruct o. Qed.

Lemma open_munmap o a len ans l :
  maps o = (a, len) :: l → open_step o (Munmap a len, ans) = OpenSet (fds o) l.
Proof. intros E. unfold open_step. cbn [fst]. by rewrite E, remove1_head. Qed.

Lemma length_frames first last : first ≤ last → zlen (frames first last) = last - first.
Proof. intros. unfold frames. rewrite length_fmap, length_seqZ. lia. Qed.

(** [m] never returns the error [e]. *)
Definition never {E A} (e : E) (m : sys (result E A)) : Prop := ∀ h, (m h).1 ≠ Ok (Err e).

Lemma area_len_spec p j : 0 ≤ j ≤ 24 → area_len p (wrap 64 (2 ^ j)) = Ok (FRAME_COUNT * FRAME_SIZE).
Proof.
  intros Hj. assert (j ∈ seqZ 0 25) as Hin by (apply elem_of_seqZ; lia). clear Hj. revert j Hin.
  apply Forall_forall. apply (bool_decide_unpack _). destruct p; vm_compute; exact I.
Qed.

Lemma mapM_ok {A B} (f : A → res B) (g : A → B) l :
  (∀ x, x ∈ l → f x = Ok (g x)) → mapM f l = Ok (g <$> l).
Proof.
  induction l as [|x l IH]; intros H; [done|]. cbn.
  rewrite (H x) by left. cbn. rewrite IH; [done|]. intros y Hy. apply H. by right.
Qed.

Lemma frame_addrs_spec p first last :
  0 ≤ first → last ≤ FRAME_COUNT → frame_addrs p first last = Ok (frames first last).
Proof.
  unfold FRAME_COUNT. intros Hf Hl. apply mapM_ok. intros i Hi. apply elem_of_seqZ in Hi.
  apply arith_fits. unfold FRAME_SIZE. width.
Qed.

Lemma fresh_rep {A} (m : ring_mem A) : fresh m → ring_rep 11 (Ring (Some m) RING_SIZE (RING_SIZE - 1)) [].
Proof.
  intros (Hp & Hc & Hd). split; [lia|done|done|cbn; lia|].
  exists m. rewrite Hp, Hc. split_and!; done.
Qed.

Section specs.
Context (p : profile) (k : kernel) (Hk : xsk_contract k).

(** The body both ring mappers share. *)
Lemma wp_mmap_ring {A} slot (mem_of : answer → ring_mem A) e fd pgoff off h :
  slot = 8 ∨ slot = 16 → off_ok off →
  (∀ h len fd pgoff, fresh (mem_of (k h (Mmap len fd pgoff)))) →
  wp (mmap_ring p k slot mem_of e fd pgoff off RING_SIZE) h (λ r h',
    match r with
    | Okay m => ring_rep 11 (view m) [] ∧ mapping_ok slot m
        ∧ opened h' = OpenSet (fds (opened h)) (extent m :: maps (opened h))
    | Err e' => e' = e ∧ opened h' = opened h
    end).
Proof.
  intros Hs (Hp0 & Hp1 & Hc0 & Hc1 & Hf0 & Hf1 & Hd) Hm. unfold mmap_ring.
  apply wp_bind, (wp_lift _ (RING_SIZE * slot)).
  { apply arith_fits. unfold RING_SIZE. width. }
  apply wp_bind, (wp_lift _ (off_desc off + RING_SIZE * slot)).
  { apply arith_fits. unfold RING_SIZE. width. }
  apply wp_bind, wp_syscall. case_decide as E.
  - apply wp_ret. split; [done|]. rewrite opened_snoc. unfold open_step. cbn.
    by rewrite decide_True.
  - apply wp_bind, (wp_lift _ (RING_SIZE - 1)); [done|]. apply wp_ret. split_and!.
    + apply fresh_rep, Hm.
    + unfold mapping_ok. cbn. lia.
    + rewrite opened_snoc. unfold open_step. cbn. by rewrite decide_False.
Qed.

Lemma wp_mmap_addr_ring fd pgoff off h :
  off_ok off →
  wp (mmap_addr_ring p k fd pgoff off RING_SIZE) h (λ r h',
    match r with
    | Okay m => ring_rep 11 (view m) [] ∧ mapping_ok 8 m
        ∧ opened h' = OpenSet (fds (opened h)) (extent m :: maps (opened h))
    | Err e => e = EAddrMmap pgoff ∧ opened h' = opened h
    end).
Proof. intros. apply wp_mmap_ring; [by left|done|apply (con_addr _ Hk)]. Qed.

Lemma wp_mmap_desc_ring fd pgoff off h :
  off_ok off →
  wp (mmap_desc_ring p k fd pgoff off RING_SIZE) h (λ r h',
    match r with
    | Okay m => ring_rep 11 (view m) [] ∧ mapping_ok 16 m
        ∧ opened h' = OpenSet (fds (opened h)) (extent m :: maps (opened h))
    | Err e => e = EDescMmap pgoff ∧ opened h' = opened h
    end).
Proof. intros. apply wp_mmap_ring; [by right|done|apply (con_desc _ Hk)]. Qed.

Lemma wp_get_mmap_offsets fd h :
  wp (get_mmap_offsets k fd) h (λ r h', opened h' = opened h ∧
    match r with
    | Okay o => off_ok (off_rx o) ∧ off_ok (off_tx o) ∧ off_ok (off_fr o) ∧ off_ok (off_cr o)
    | Err e => e = EOffsets
    end).
Proof.
  unfold get_mmap_offsets. apply wp_bind, wp_syscall.
  destruct (_ =? 0); apply wp_ret; (split; [by rewrite opened_snoc|]); [apply (con_off _ Hk)|done].
Qed.

(** The size options: on failure the clean-up call ran. *)
Lemma wp_set_rings fd cleanup opts h :
  wp (set_rings k fd cleanup opts) h (λ r h',
    match r with
    | Okay _ => opened h' = opened h
    | Err e => (∃ opt, opt ∈ opts.*1 ∧ e = ERing opt)
        ∧ ∃ a, opened h' = open_step (opened h) (cleanup, a)
    end).
Proof.
  revert h. induction opts as [|[opt sz] opts IH]; intros h; cbn [set_rings].
  { by apply wp_ret. }
  apply wp_bind, wp_syscall. set (h1 := h ++ [_]).
  assert (opened h1 = opened h) as E by (unfold h1; by rewrite opened_snoc).
  destruct (_ =? 0).
  - eapply wp_mono; [apply IH|]. intros [[]|e] h' H'; rewrite E in H'; [done|].
    destruct H' as [(o & Ho & ->) Ha]. split; [|done]. exists o. split; [|done]. by right.
  - apply wp_bind, wp_syscall, wp_ret. split.
    + exists opt. split; [left|done].
    + rewrite opened_snoc, E. by eexists.
Qed.

(** The shape of what [Umem::new] returns, [l] being the mappings live
    before it. *)
Definition umem_post (f : list Z) (l : list (Z * Z)) (r : result xerr (Umem * list Z))
    (h' : history) : Prop :=
  match r with
  | Okay (u, pool) => umem_ok u ∧ pool = frames RING_SIZE FRAME_COUNT
      ∧ opened h' = OpenSet f (extent (um_comp u) :: extent (um_fill u)
          :: (um_area u, um_area_len u) :: l)
  | Err e => ∃ lm, opened h' = OpenSet f (lm ++ l) ∧ umem_leak e (length lm)
  end.

Lemma wp_Umem_rings fd area f l h :
  let len := FRAME_COUNT * FRAME_SIZE in
  opened h = OpenSet f ((area, len) :: l) →
  wp (Umem_rings p k fd area len) h (umem_post f l).
Proof.
  intros len E. unfold Umem_rings.
  apply wp_try. eapply wp_mono; [apply wp_get_mmap_offsets|]. intros [o|e] h4 [E4 Ho]; rewrite E in E4.
  2:{ subst e. by exists [(area, len)]. }
  destruct Ho as (_ & _ & Hfr & Hcr).
  apply wp_try, wp_inspect_err. eapply wp_mono; [by apply wp_mmap_addr_ring|].
  intros [fill|e] h5.
  2:{ intros [-> E5]. apply wp_syscall. exists [].
      rewrite opened_snoc, (open_munmap _ _ _ _ l), E5, E4 by (by rewrite E5, E4). split; [done|by left]. }
  intros (Hfill & Hmf & E5). rewrite E4 in E5. cbn [fds maps] in E5.
  apply wp_try, wp_inspect_err. eapply wp_mono; [by apply wp_mmap_addr_ring|].
  intros [comp|e] h6.
  2:{ intros [-> E6]. apply wp_syscall. exists [extent fill].
      rewrite opened_snoc, E6, E5. unfold open_step. cbn [fst maps fds].
      rewrite remove1_second. split; [done|]. by right. }
  intros (Hcomp & Hmc & E6). rewrite E5 in E6. cbn [fds maps] in E6.
  apply wp_bind, (wp_lift _ (frames 0 RING_SIZE)); [by apply frame_addrs_spec|].
  destruct (push_rep 11 (view fill) [] (frames 0 RING_SIZE) Hfill) as (fill' & Hen & Hrep).
  apply wp_bind, (wp_lift _ _ _ _ Hen).
  apply wp_bind, (wp_lift _ (frames RING_SIZE FRAME_COUNT)); [by apply frame_addrs_spec|].
  apply wp_ret. split_and!; [|done|done]. split_and!; [done| |done| |done].
  - cbn [um_fill view]. rewrite take_ge in Hrep; [done|].
    pose proof (length_frames 0 RING_SIZE). change (2 ^ 11) with RING_SIZE. cbn [length].
    unfold RING_SIZE in *. lia.
  - unfold mapping_ok in *. cbn [um_fill ptrs view]. by rewrite (rep_size _ _ _ Hrep), <- (rep_size _ _ _ Hfill).
Qed.

Lemma wp_Umem_new fd h :
  wp (Umem_new p k fd) h (umem_post (fds (opened h)) (maps (opened h))).
Proof.
  unfold Umem_new. apply wp_bind, wp_syscall.
  destruct (con_page _ Hk h) as (j & Hj & ->).
  set (h0 := h ++ [_]). assert (opened h0 = opened h) as E0 by (unfold h0; by rewrite opened_snoc).
  apply wp_bind, (wp_lift _ _ _ _ (area_len_spec p j Hj)). set (len := FRAME_COUNT * FRAME_SIZE).
  apply wp_bind, wp_syscall. case_decide as Ea.
  { apply wp_ret. exists []. rewrite opened_snoc, E0. unfold open_step. cbn [fst snd].
    rewrite decide_True by done. by rewrite open_set_eta. }
  set (area := ret _) in *. set (h1 := h0 ++ [_]).
  assert (opened h1 = OpenSet (fds (opened h)) ((area, len) :: maps (opened h))) as E1.
  { unfold h1. rewrite opened_snoc, E0. unfold open_step. cbn [fst snd]. by rewrite decide_False. }
  apply wp_bind, wp_syscall. set (h2 := h1 ++ [_]).
  assert (opened h2 = opened h1) as E2 by (unfold h2; by rewrite opened_snoc). rewrite E1 in E2.
  destruct (negb _).
  { apply wp_bind, wp_syscall, wp_ret. exists [].
    by rewrite opened_snoc, (open_munmap _ _ _ _ (maps (opened h))), E2 by (by rewrite E2). }
  apply wp_try. eapply wp_mono; [apply wp_set_rings|]. intros [[]|e] h3.
  2:{ intros ((opt & Ho & ->) & ans & E). exists [].
      rewrite E, (open_munmap _ _ _ _ (maps (opened h))), E2 by (by rewrite E2).
      split; [done|]. split; [done|]. set_solver. }
  intros E3. apply wp_Umem_rings. by rewrite E3, E2.
Qed.

Lemma opened_close h fd f l a :
  opened h = OpenSet (fd :: f) l → opened (h ++ [(Close fd, a)]) = OpenSet f l.
Proof.
  intros E. rewrite opened_snoc, E. unfold open_step. cbn [fst fds maps]. by rewrite remove1_head.
Qed.

(** What [xsk_rings] adds on each error path. *)
Definition rings_leak (e : xerr) (nf nm : nat) : Prop :=
  match e with
  | ERing opt => nf = 0%nat ∧ nm = 0%nat ∧ (opt = XDP_RX_RING ∨ opt = XDP_TX_RING)
  | EOffsets => nf = 1%nat ∧ nm = 0%nat
  | EDescMmap pgoff =>
      nf = 0%nat ∧ ((nm = 0%nat ∧ pgoff = XDP_PGOFF_RX_RING)
                    ∨ (nm = 1%nat ∧ pgoff = XDP_PGOFF_TX_RING))
  | EBind => nf = 0%nat ∧ nm = 2%nat
  | _ => False
  end.

Lemma wp_xsk_rings fd u pool ifindex queue_id zc f l h :
  opened h = OpenSet (fd :: f) l →
  wp (xsk_rings p k fd u pool ifindex queue_id zc) h (λ r h',
    match r with
    | Okay s => xs_fd s = fd ∧ xs_umem s = u ∧ xs_tx_pool s = pool
        ∧ ring_rep 11 (view (xs_rx s)) [] ∧ ring_rep 11 (view (xs_tx s)) []
        ∧ mapping_ok 16 (xs_rx s) ∧ mapping_ok 16 (xs_tx s)
        ∧ (∃ a, last h' = Some (Bind fd
             (SaXdp (mkSockaddrXdp AF_XDP (bind_flags zc) ifindex queue_id 0)), a))
        ∧ opened h' = OpenSet (fd :: f) (extent (xs_tx s) :: extent (xs_rx s) :: l)
    | Err e => ∃ lf lm, opened h' = OpenSet (lf ++ f) (lm ++ l)
        ∧ rings_leak e (length lf) (length lm)
    end).
Proof.
  intros E. unfold xsk_rings.
  apply wp_try. eapply wp_mono; [apply wp_set_rings|]. intros [[]|e] h1.
  2:{ intros ((opt & Ho & ->) & ans & E1). exists [], [].
      rewrite E1, E. unfold open_step. cbn [fst fds maps]. rewrite remove1_head.
      split; [done|]. split_and!; [done..|]. set_solver. }
  intros E1. rewrite E in E1.
  apply wp_try. unfold get_rx_tx_offsets. apply wp_try.
  eapply wp_mono; [apply wp_get_mmap_offsets|]. intros [o|e] h2 [E2 Ho]; rewrite E1 in E2.
  2:{ subst e. by exists [fd], []. }
  destruct Ho as (Hrx & Htx & _ & _). apply wp_ret.
  apply wp_try, wp_inspect_err. eapply wp_mono; [by apply wp_mmap_desc_ring|].
  intros [rx|e] h3.
  2:{ intros [-> E3]. apply wp_syscall. exists [], [].
      rewrite (opened_close _ _ f l) by congruence. split; [done|]. split; [done|by left]. }
  intros (Hr & Hrm & E3). rewrite E2 in E3. cbn [fds maps] in E3.
  apply wp_try, wp_inspect_err. eapply wp_mono; [by apply wp_mmap_desc_ring|].
  intros [tx|e] h4.
  2:{ intros [-> E4]. apply wp_syscall. exists [], [extent rx].
      rewrite (opened_close _ _ f (extent rx :: l)) by congruence.
      split; [done|]. split; [done|by right]. }
  intros (Ht & Htm & E4). rewrite E3 in E4. cbn [fds maps] in E4.
  apply wp_bind, wp_syscall. set (h5 := h4 ++ [_]).
  assert (opened h5 = opened h4) as E5 by (unfold h5; by rewrite opened_snoc). rewrite E4 in E5.
  destruct (_ =? 0).
  - apply wp_ret. split_and!; try done. eexists. unfold h5. by rewrite last_snoc.
  - apply wp_bind, wp_syscall, wp_ret. exists [], [extent tx; extent rx].
    by rewrite (opened_close _ _ f (extent tx :: extent rx :: l)).
Qed.

(** [umem]'s drop unmaps the area, whatever was mapped since. *)
Lemma wp_drop_umem u h f lm l :
  opened h = OpenSet f (lm ++ (um_area u, um_area_len u) :: l) →
  wp (drop_umem k u) h (λ _ h', fds (opened h') = f ∧ maps (opened h') ≡ₚ lm ++ l).
Proof.
  intros E. apply wp_syscall. rewrite opened_snoc. unfold open_step. cbn [fst fds maps].
  rewrite E. split; [done|]. apply remove1_perm.
Qed.

Lemma wp_create_xsk_socket ifindex queue_id zc h :
  wp (create_xsk_socket p k ifindex queue_id zc) h (xsk_post (opened h) ifindex queue_id zc).
Proof.
  unfold create_xsk_socket. apply wp_bind, wp_syscall. set (fd := ret _). set (h0 := h ++ [_]).
  assert (opened h0 = if 0 <=? fd then OpenSet (fd :: fds (opened h)) (maps (opened h))
                      else opened h) as E0.
  { unfold h0. rewrite opened_snoc. done. }
  destruct (Z.ltb_spec fd 0) as [Hneg|Hpos].
  { apply wp_ret. exists [], []. rewrite E0, (proj2 (Z.leb_gt _ _)) by done. done. }
  rewrite (proj2 (Z.leb_le _ _)) in E0 by done.
  apply wp_try, wp_inspect_err. eapply wp_mono; [apply wp_Umem_new|].
  rewrite E0. cbn [fds maps]. intros [[u pool]|e] h1.
  2:{ intros (lm & E1 & Hleak). apply wp_syscall. exists [], lm.
      rewrite (opened_close _ _ (fds (opened h)) (lm ++ maps (opened h))) by done.
      split_and!; [done..|]. destruct e; try done; cbn in *; [tauto|by left]. }
  intros (Hu & -> & E1). apply wp_inspect_err. eapply wp_mono; [by eapply wp_xsk_rings|].
  intros [s|e] h2.
  - intros (<- & <- & Hpool & Hr & Ht & Hrm & Htm & Hb & E2). unfold xsk_post. rewrite E2.
    by split_and!.
  - intros (lf & lm & E2 & Hleak).
    eapply wp_mono; [eapply (wp_drop_umem _ _ _ (lm ++ [extent (um_comp u); extent (um_fill u)]))|].
    { rewrite E2, <- app_assoc. done. }
    intros _ h3 [Ef Em]. exists lf, (lm ++ [extent (um_comp u); extent (um_fill u)]).
    split_and!; [done..|]. rewrite length_app. cbn [length].
    destruct e; try done; cbn in *; naive_solver lia.
Qed.

(** The set-up of a socket leaves the XDP program alone. *)
Lemma keeps_bpf_set_rings fd cleanup opts :
  match cleanup with Aya _ => False | _ => True end →
  keeps bpf (set_rings k fd cleanup opts).
Proof.
  intros Hc. induction opts as [|[opt sz] opts IH]; cbn [set_rings]; keeps.
Qed.

Lemma keeps_bpf_create ifindex queue_id zc :
  keeps bpf (create_xsk_socket p k ifindex queue_id zc).
Proof.
  unfold create_xsk_socket, Umem_new, Umem_rings, xsk_rings, get_rx_tx_offsets, get_mmap_offsets,
    mmap_addr_ring, mmap_desc_ring, mmap_ring, drop_umem.
  keeps; by apply keeps_bpf_set_rings.
Qed.

Lemma keeps_bpf_drop_xsk s : keeps bpf (drop_xsk k s).
Proof. unfold drop_xsk, drop_umem. keeps. Qed.

(** *** When [getsockopt(XDP_MMAP_OFFSETS)] does not fail *)

Lemma never_bind {X E A} (e : E) (m : sys X) (f : X → sys (result E A)) :
  (∀ a, never e (f a)) → never e (m ≫= f).
Proof. intros Hf h. unfold mbind, sys_bind. destruct (m h) as [[a| |] h']; [apply Hf|done..]. Qed.

Lemma never_try {E A B} (e : E) (m : sys (result E A)) (f : A → sys (result E B)) :
  never e m → (∀ a, never e (f a)) → never e (try m f).
Proof.
  intros Hm Hf h. unfold try, mbind, sys_bind. specialize (Hm h).
  destruct (m h) as [[[a|e']| |] h']; cbn in *; [apply Hf|congruence|done..].
Qed.

Lemma never_inspect {E A} (e : E) (m : sys (result E A)) f : never e m → never e (inspect_err m f).
Proof.
  intros Hm h. unfold inspect_err, mbind, sys_bind. specialize (Hm h).
  destruct (m h) as [[[a|e']| |] h']; cbn in *; [done| |done..].
  destruct (f h') as [[x| |] h'']; cbn; congruence.
Qed.

Lemma no_offsets_error ifindex queue_id zc :
  (∀ h fd, ret (k h (Getsockopt_offsets fd)) = 0) →
  never EOffsets (create_xsk_socket p k ifindex queue_id zc).
Proof.
  intros Hg.
  assert (∀ fd, never EOffsets (get_mmap_offsets k fd)) as Ho.
  { intros fd h. unfold get_mmap_offsets, mbind, sys_bind, syscall. by rewrite Hg. }
  assert (∀ fd cl opts, never EOffsets (set_rings k fd cl opts)) as Hs.
  { intros fd cl opts. induction opts as [|[opt sz] opts IH]; [done|]. cbn [set_rings].
    apply never_bind. intros a. by destruct (_ =? 0). }
  assert (∀ A slot (mem : answer → ring_mem A) e fd pg off, e ≠ EOffsets →
    never EOffsets (mmap_ring p k slot mem e fd pg off RING_SIZE)) as Hm.
  { intros A slot mem e fd pg off He. unfold mmap_ring. do 3 (apply never_bind; intros ?).
    case_decide; [intros h; cbn; congruence|]. by apply never_bind. }
  unfold create_xsk_socket, Umem_new, Umem_rings, xsk_rings, get_rx_tx_offsets.
  apply never_bind; intros s. destruct (_ <? 0); [done|].
  repeat match goal with
    | |- never _ (set_rings _ _ _ _) => apply Hs
    | |- never _ (get_mmap_offsets _ _) => apply Ho
    | |- never _ (mmap_addr_ring _ _ _ _ _ _) => apply Hm; discriminate
    | |- never _ (mmap_desc_ring _ _ _ _ _ _) => apply Hm; discriminate
    | |- never _ (try _ _) => apply never_try; [|intros ?]
    | |- never _ (inspect_err _ _) => apply never_inspect
    | |- never _ (mret _) => intros ?; discriminate
    | |- never _ (if ?b then _ else _) => destruct b
    | |- never _ (let _ := _ in _) => cbv zeta
    | |- never _ (match ?x with (_, _) => _ end) => destruct x
    | |- never _ (_ ≫= _) => apply never_bind; intros ?
    end.
Qed.

(** *** When no call fails *)

Context (zc_ok : bool) (Hgood : grants zc_ok k).

Abbreviation succeeds m h := (wp m h (λ r _, match r with Okay _ => True | Err _ => False end)).

Lemma good_set_rings fd cleanup opts h : succeeds (set_rings k fd cleanup opts) h.
Proof.
  revert h. induction opts as [|[opt sz] opts IH]; intros h; cbn [set_rings]; [by apply wp_ret|].
  apply wp_bind, wp_syscall.
  rewrite (Hgood h (Setsockopt fd (SOL_XDP_OPT SOL_XDP opt) (OptInt sz))). apply IH.
Qed.

Lemma good_get_mmap_offsets fd h : succeeds (get_mmap_offsets k fd) h.
Proof.
  apply wp_bind, wp_syscall. rewrite (Hgood h (Getsockopt_offsets fd)). by apply wp_ret.
Qed.

Lemma good_mmap_ring {A} slot (mem_of : answer → ring_mem A) e fd pgoff off h :
  slot = 8 ∨ slot = 16 → off_ok off →
  succeeds (mmap_ring p k slot mem_of e fd pgoff off RING_SIZE) h.
Proof.
  intros Hs Ho. unfold off_ok in Ho. unfold mmap_ring.
  apply wp_bind, (wp_lift _ (RING_SIZE * slot)).
  { apply arith_fits. unfold RING_SIZE. width. }
  apply wp_bind, (wp_lift _ (off_desc off + RING_SIZE * slot)).
  { apply arith_fits. unfold RING_SIZE. width. }
  apply wp_bind, wp_syscall. rewrite decide_False by (apply (Hgood h (Mmap _ _ _))).
  apply wp_bind, (wp_lift _ (RING_SIZE - 1)); [done|]. by apply wp_ret.
Qed.

Lemma good_Umem_rings fd area len h : succeeds (Umem_rings p k fd area len) h.
Proof.
  unfold Umem_rings. apply wp_try.
  eapply wp_mono; [apply wp_and; [apply good_get_mmap_offsets|apply wp_get_mmap_offsets]|].
  intros [o|e] h1 [? H1]; [|done]. destruct H1 as (_ & _ & _ & Hfr & Hcr).
  apply wp_try, wp_inspect_err.
  eapply wp_mono; [apply wp_and; [apply good_mmap_ring; [by left|exact Hfr]|by apply wp_mmap_addr_ring]|].
  intros [fill|e] h2 [? H2]; [|done]. destruct H2 as (Hfill & _).
  apply wp_try, wp_inspect_err. eapply wp_mono; [apply good_mmap_ring; [by left|exact Hcr]|].
  intros [comp|e] h3 ?; [|done].
  apply wp_bind, (wp_lift _ (frames 0 RING_SIZE)); [by apply frame_addrs_spec|].
  destruct (push_rep 11 (view fill) [] (frames 0 RING_SIZE) Hfill) as (fill' & Hen & Hrep).
  apply wp_bind, (wp_lift _ _ _ _ Hen).
  apply wp_bind, (wp_lift _ (frames RING_SIZE FRAME_COUNT)); [by apply frame_addrs_spec|].
  by apply wp_ret.
Qed.

Lemma good_Umem_new fd h : succeeds (Umem_new p k fd) h.
Proof.
  unfold Umem_new. apply wp_bind, wp_syscall. destruct (con_page _ Hk h) as (j & Hj & ->).
  apply wp_bind, (wp_lift _ _ _ _ (area_len_spec p j Hj)).
  apply wp_bind, wp_syscall. rewrite decide_False by (apply (Hgood _ (Mmap _ _ _))).
  apply wp_bind, wp_syscall. rewrite (Hgood _ (Setsockopt _ _ _)).
  apply wp_try. eapply wp_mono; [apply good_set_rings|]. intros [[]|e] h' ?; [|done].
  apply good_Umem_rings.
Qed.

Lemma good_xsk_rings fd u pool ifindex queue_id zc h :
  (zc = true → zc_ok = true) →
  succeeds (xsk_rings p k fd u pool ifindex queue_id zc) h.
Proof.
  intros Hzc. unfold xsk_rings. apply wp_try. eapply wp_mono; [apply good_set_rings|].
  intros [[]|e] h1 ?; [|done]. apply wp_try, wp_try.
  eapply wp_mono; [apply wp_and; [apply good_get_mmap_offsets|apply wp_get_mmap_offsets]|].
  intros [o|e] h2 [? H2]; [|done]. destruct H2 as (_ & Hrx & Htx & _). apply wp_ret.
  apply wp_try, wp_inspect_err. eapply wp_mono; [apply good_mmap_ring; [by right|exact Hrx]|].
  intros [rx|e] h3 ?; [|done].
  apply wp_try, wp_inspect_err. eapply wp_mono; [apply good_mmap_ring; [by right|exact Htx]|].
  intros [tx|e] h4 ?; [|done].
  apply wp_bind, wp_syscall. rewrite (Hgood _ (Bind _ (SaXdp _))); [by apply wp_ret|].
  destruct zc; [left; auto|by right].
Qed.

Lemma good_create_xsk_socket ifindex queue_id zc h :
  (zc = true → zc_ok = true) →
  succeeds (create_xsk_socket p k ifindex queue_id zc) h.
Proof.
  intros Hzc. unfold create_xsk_socket. apply wp_bind, wp_syscall.
  pose proof (Hgood h (Socket (AF_RAW AF_XDP) SOCK_RAW)) as Hs. cbn in Hs.
  rewrite (proj2 (Z.ltb_ge _ _)) by done.
  apply wp_try, wp_inspect_err. eapply wp_mono; [apply good_Umem_new|].
  intros [[u pool]|e] h1 ?; [|done].
  apply wp_inspect_err. eapply wp_mono; [by apply good_xsk_rings|]. by intros [s|e] h2 ?.
Qed.
End specs.

(** The slot an operation touches, [z & mask], lies in the mapping. *)
Lemma slot_mapped {A} slot (m : mapped A) q z :
  0 < slot → mapping_ok slot m → ring_rep 11 (view m) q →
  let a := p_descs (ptrs m) + slot * Z.land z (mask (view m)) in
  p_map (ptrs m) ≤ a ∧ a + slot ≤ p_map (ptrs m) + p_mapsize (ptrs m).
Proof.
  intros Hs (Hm & H1 & H2 & _) Hr a. subst a. rewrite (rep_mask _ _ _ Hr), land_mask by lia.
  pose proof (Z.mod_pos_bound z (2 ^ 11) ltac:(lia)). rewrite Hm, (rep_size _ _ _ Hr). nia.
Qed.

(** ** A concrete kernel *)

Definition offs (desc : Z) : XdpRingOffsets := mkXdpRingOffsets 0 64 desc 128.
Definition demo_offsets : XdpMmapOffsets :=
  mkXdpMmapOffsets (offs 192) (offs 192) (offs 192) (offs 192).

(** It grants everything, except that calls of [fail] are refused. *)
Definition demo_kernel (fail : history → call → bool) : kernel := λ h c,
  let r := match c with
           | Sysconf_PAGESIZE => 4096
           | Socket _ _ => if fail h c then -1 else 3
           | Mmap _ _ _ => if fail h c then MAP_FAILED else 2 ^ 32 * (1 + zlen h)
           | _ => if fail h c then -1 else 0
           end in
  Answer r demo_offsets (RingMem 0 0 0 (replicate (Z.to_nat RING_SIZE) 0))
    (RingMem 0 0 0 (replicate (Z.to_nat RING_SIZE) (mkXdpDesc 0 0 0))).

Lemma demo_kernel_contract fail : xsk_contract (demo_kernel fail).
Proof.
  split.
  - intros h. exists 12. split; [lia|done].
  - intros h fd. split_and!; apply (bool_decide_unpack _); vm_compute; exact I.
  - intros. split; [done|]. split; [done|]. cbn [ans_addr_mem ans_desc_mem demo_kernel descs].
    rewrite length_replicate, Z2Nat.id; [done|]. unfold RING_SIZE. lia.
  - intros. split; [done|]. split; [done|]. cbn [ans_addr_mem ans_desc_mem demo_kernel descs].
    rewrite length_replicate, Z2Nat.id; [done|]. unfold RING_SIZE. lia.
Defined.

Lemma demo_kernel_good fail zc_ok :
  (∀ h c, fail h c = true → zc_ok = false ∧ ∃ fd sa, c = Bind fd (SaXdp sa)
     ∧ Z.land (sxdp_flags sa) XDP_ZEROCOPY ≠ 0) →
  grants zc_ok (demo_kernel fail).
Proof.
  intros Hf h c. pose proof (Hf h c) as Hc. unfold demo_kernel. cbn [ret].
  destruct c as [| | | | | | |fd [sa|]| | |]; try done; destruct (fail h _);
    try (destruct (Hc eq_refl) as (-> & fd' & sa' & E & Hz); simplify_eq); try lia.
  unfold MAP_FAILED.
  change (2 ^ 64) with (2 ^ 32 * 4294967296). change (2 ^ 32) with 4294967296. lia.
Defined.

Lemma demo_kernel_all : grants true (demo_kernel (λ _ _, false)).
Proof. by apply demo_kernel_good. Defined.

(** Refuse the second [getsockopt]. *)
Definition second_offsets (h : history) (c : call) : bool :=
  match c with
  | Getsockopt_offsets _ =>
      existsb (λ e, match e.1 with Getsockopt_offsets _ => true | _ => false end) h
  | _ => false
  end.

(** ** Properties *)

(** C27: [create_xsk_socket] always returns, in both profiles and whichever
    calls fail.  On success the area has room for exactly [FRAME_COUNT]
    frames, the fill ring holds the receive frames 0..2047 in order, the RX,
    TX and completion rings are empty queues of 2048 slots, the pool holds
    the transmit frames 2048..4095, the socket was bound last, to the given
    queue in the requested mode, and it owns one descriptor and five
    mappings. *)
Theorem create_xsk_socket_builds p k ifindex queue_id zc h :
  xsk_contract k →
  ∃ r h', create_xsk_socket p k ifindex queue_id zc h = (Ok r, h')
    ∧ (∀ s, r = Okay s →
        xsk_ok s
        ∧ (∃ a, last h' = Some (Bind (xs_fd s)
             (SaXdp (mkSockaddrXdp AF_XDP (bind_flags zc) ifindex queue_id 0)), a))
        ∧ fds (opened h') = xs_fd s :: fds (opened h)
        ∧ maps (opened h') = [extent (xs_tx s); extent (xs_rx s)]
            ++ [extent (um_comp (xs_umem s)); extent (um_fill (xs_umem s));
                (um_area (xs_umem s), um_area_len (xs_umem s))] ++ maps (opened h))
    ∧ (grants true k → ∃ s, r = Okay s).
Proof.
  intros Hk. destruct (wp_create_xsk_socket p k Hk ifindex queue_id zc h) as (r & h' & E & Hpost).
  exists r, h'. split_and!; [done|by intros s ->|]. intros Hgood.
  destruct (wp_outcome _ _ _ _ _ (good_create_xsk_socket p k Hk true Hgood ifindex queue_id zc h (λ _, eq_refl)) E)
    as (r' & [= <-] & Hr). destruct r as [s|]; [by exists s|done].
Qed.

Lemma create_xsk_socket_builds_witness :
  ∃ s h', create_xsk_socket Release (demo_kernel (λ _ _, false)) 2 0 true [] = (Ok (Okay s), h')
    ∧ xsk_ok s ∧ fds (opened h') = [xs_fd s] ∧ length (maps (opened h')) = 5%nat.
Proof.
  destruct (create_xsk_socket_builds Release (demo_kernel (λ _ _, false)) 2 0 true []
    (demo_kernel_contract _)) as (r & h' & E & Hs & Hok).
  destruct (Hok demo_kernel_all) as [s ->]. exists s, h'.
  destruct (Hs s eq_refl) as (Hx & _ & Hf & Hm). rewrite Hm. split_and!; [exact E|exact Hx|exact Hf|].
  reflexivity.
Defined.

(** C28: what a failed [create_xsk_socket] leaves open.  The frame area is
    unmapped on every error path but one, and the descriptor is closed on
    every error path but one; both exceptions are failures of
    [getsockopt(XDP_MMAP_OFFSETS)], in [Umem::new] and in
    [create_xsk_socket].  Ring mappings made before the failure are never
    unmapped: two to four of them stay behind from the RX ring set-up on. *)
Theorem create_xsk_socket_leaks p k ifindex queue_id zc h e h' :
  xsk_contract k →
  create_xsk_socket p k ifindex queue_id zc h = (Ok (Err e), h') →
  ∃ lf lm, fds (opened h') = lf ++ fds (opened h)
    ∧ maps (opened h') ≡ₚ lm ++ maps (opened h)
    ∧ xsk_leak e (length lf) (length lm).
Proof.
  intros Hk E.
  destruct (wp_outcome _ _ _ _ _ (wp_create_xsk_socket p k Hk ifindex queue_id zc h) E)
    as (r & [= <-] & Hr). exact Hr.
Qed.

Lemma create_xsk_socket_leaks_witness :
  ∃ h' lf lm, create_xsk_socket Release (demo_kernel second_offsets) 2 0 true []
      = (Ok (Err EOffsets), h')
    ∧ fds (opened h') = lf ++ [] ∧ maps (opened h') ≡ₚ lm ++ []
    ∧ xsk_leak EOffsets (length lf) (length lm).
Proof.
  destruct (create_xsk_socket Release (demo_kernel second_offsets) 2 0 true []) as [r h'] eqn:E.
  assert (r = Ok (Err EOffsets)) as -> by (change r with (r, h').1; rewrite <- E; vm_compute; reflexivity).
  destruct (create_xsk_socket_leaks _ _ _ _ _ _ _ _ (demo_kernel_contract _) E)
    as (lf & lm & H1 & H2 & H3). exists h', lf, lm.
  split; [reflexivity|]. split; [exact H1|]. split; [exact H2|exact H3].
Defined.

(** The descriptor leak happens: the socket of that run stays open. *)
Example leaked_descriptor :
  fds (opened (create_xsk_socket Release (demo_kernel second_offsets) 2 0 true []).2) = [3].
Proof. vm_compute. reflexivity. Qed.

(** Reading a frame of a built umem by its offset is defined in both
    profiles, and the debug assertion leaves no undefined read behind. *)
Lemma umem_frame_defined p u offset len :
  umem_ok u → offset ∈ frames 0 FRAME_COUNT → 0 ≤ len ≤ FRAME_SIZE →
  Umem_frame p u offset len = Ok (um_area u + offset, len) ∧ Umem_ptr_at u offset = Ok (um_area u + offset).
Proof.
  intros (Hu & _) (i & -> & Hi%elem_of_seqZ)%list_elem_of_fmap Hlen. unfold Umem_frame, Umem_ptr_at.
  rewrite Hu. assert (0 ≤ i * FRAME_SIZE ∧ i * FRAME_SIZE + FRAME_SIZE ≤ FRAME_COUNT * FRAME_SIZE) as [H0 H1]
    by (unfold FRAME_SIZE, FRAME_COUNT in *; lia).
  rewrite (proj2 (Z.leb_le (i * FRAME_SIZE) _)), (proj2 (Z.leb_le (i * FRAME_SIZE + len) _)) by lia.
  destruct p; [|done]. by rewrite (proj2 (Z.leb_le (Z.min _ _) _)) by lia.
Qed.

Lemma umem_frame_debug u offset len : umem_ok u → Umem_frame Debug u offset len ≠ Undefined.
Proof.
  intros (Hu & _). unfold Umem_frame. rewrite Hu.
  destruct (Z.leb_spec (Z.min (offset + len) (2 ^ 64 - 1)) (FRAME_COUNT * FRAME_SIZE)) as [Hle|]; [|done].
  assert (FRAME_COUNT * FRAME_SIZE < 2 ^ 64 - 1) as Hlt by (vm_compute; done).
  cbn [mbind res_bind]. by rewrite (proj2 (Z.leb_le _ _)) by lia.
Qed.

(** In a socket [create_xsk_socket] built, whatever index an operation
    on one of its four rings computes, the masked slot lies inside the
    ring's own mapping, and so do the index and flag words. *)
Theorem ring_slots_mapped p k ifindex queue_id zc h s h' z :
  xsk_contract k →
  create_xsk_socket p k ifindex queue_id zc h = (Ok (Okay s), h') →
  let inside (q : pointers) (a n : Z) := p_map q ≤ a ∧ a + n ≤ p_map q + p_mapsize q in
  let addr_ok (m : mapped Z) :=
    inside (ptrs m) (p_descs (ptrs m) + 8 * Z.land z (mask (view m))) 8 in
  let desc_ok (m : mapped XdpDesc) :=
    inside (ptrs m) (p_descs (ptrs m) + 16 * Z.land z (mask (view m))) 16 in
  addr_ok (um_fill (xs_umem s)) ∧ addr_ok (um_comp (xs_umem s))
  ∧ desc_ok (xs_rx s) ∧ desc_ok (xs_tx s).
Proof.
  intros Hk E inside addr_ok desc_ok.
  destruct (wp_outcome _ _ _ _ _ (wp_create_xsk_socket p k Hk ifindex queue_id zc h) E)
    as (r & [= <-] & ((_ & Hf & Hc & Hmf & Hmc) & Hr & Ht & Hmr & Hmt & _) & _).
  split_and!; eapply slot_mapped; eauto; lia.
Qed.

Lemma ring_slots_mapped_witness :
  ∃ s h', create_xsk_socket Debug (demo_kernel (λ _ _, false)) 2 7 false [] = (Ok (Okay s), h')
    ∧ let m := xs_tx s in
      p_descs (ptrs m) + 16 * Z.land (2 ^ 32 - 1) (mask (view m)) + 16
      ≤ p_map (ptrs m) + p_mapsize (ptrs m).
Proof.
  destruct (create_xsk_socket Debug (demo_kernel (λ _ _, false)) 2 7 false []) as [r h'] eqn:E.
  assert (∃ s, r = Ok (Okay s)) as [s ->].
  { destruct (wp_outcome _ _ _ _ _ (good_create_xsk_socket Debug (demo_kernel (λ _ _, false))
      (demo_kernel_contract _) true demo_kernel_all 2 7 false [] (λ _, eq_refl)) E) as ([s|] & -> & Hs); [exists s; reflexivity|destruct Hs]. }
  exists s, h'. split; [reflexivity|].
  apply (ring_slots_mapped _ _ _ _ _ _ _ _ (2 ^ 32 - 1) (demo_kernel_contract _) E).
Defined.
