(* ===== verification/Loader.v ===== *)
(** * Loading the XDP program ([src/xdp/loader.rs])

    [XdpHandle::load] raises the memory lock limit, copies the embedded
    object file to 8-byte aligned storage and has the aya library load and
    attach it, in driver mode with generic mode as the fallback;
    [register_socket] puts a socket into the XSKS map.  The library is a
    parameter: its answers are part of the kernel's, any function of the
    history, and what is loaded, attached and registered is computed from
    the history ([Sys.bpf]).  The object file itself is produced by the
    build and is a parameter too. *)

From S2P Require Import Prelude Ring Strs Sys.

(** [libc::RLIM_INFINITY]. *)
Definition RLIM_INFINITY : Z := 2 ^ 64 - 1.

(** The error messages of [load], in the order of the code. *)
Inductive load_err : Type :=
| ERlimit
| EProgLoad
| ENoProgram
| EProgType
| EXdpLoad
| EAttach (iface : str).

(** The error messages of [register_socket]. *)
Inductive register_err : Type :=
| ENoMap
| EMapType
| ESet (queue_id : Z).

(** [struct XdpHandle]; the [Ebpf] object it owns is in the history. *)
Inductive XdpHandle : Type := mkXdpHandle.

(** [usize::div_ceil]. *)
Definition div_ceil (n d : Z) : Z := if n mod d =? 0 then n / d else n / d + 1.

(** The copy into a [Vec<u64>] seen as bytes: [copy_nonoverlapping] into it
    and [from_raw_parts] over it must stay inside its [8 * words] bytes. *)
Definition aligned (prog : list Z) : res (list Z) :=
  let words := div_ceil (zlen prog) 8 in
  let storage := replicate (Z.to_nat (8 * words)) 0 in
  if decide (zlen prog ≤ zlen storage) then
    let storage := splice storage 0 prog in
    if decide (zlen prog ≤ zlen storage) then Ok (slice storage 0 (zlen prog)) else Undefined
  else Undefined.

Section loader.
Context (k : kernel) (XDP_PROG : list Z).

(** One call into aya: its [Ok] or [Some], or the error [e]. *)
Definition aya {E} (c : aya_call) (e : E) : sys (result E ()) :=
  a ← syscall k (Aya c); mret (if ret a =? 0 then Okay () else Err e).

(** [Drop for Ebpf]: the program is detached, the map freed. *)
Definition drop_ebpf : sys answer := syscall k (Aya Ebpf_drop).

(** [attach(.., DRV_MODE).or_else(|_| attach(.., SKB_MODE))]. *)
Definition attach (iface : str) : sys (result load_err ()) :=
  r ← aya (Program_attach iface DRV_MODE) (EAttach iface);
  match r with
  | Okay _ => mret (Okay ())
  | Err _ => aya (Program_attach iface SKB_MODE) (EAttach iface)
  end.

(** [XdpHandle::load]; once it exists, [bpf] is dropped on every error. *)
Definition load (iface : str) : sys (result load_err XdpHandle) :=
  rc ← syscall k (Setrlimit_MEMLOCK RLIM_INFINITY RLIM_INFINITY);
  if negb (ret rc =? 0) then mret (Err ERlimit) else
  prog ← lift (aligned XDP_PROG);
  try (aya (Ebpf_load prog) EProgLoad) (λ _,
  inspect_err
    (try (aya (Program_mut (lit "dns_xdp_client")) ENoProgram) (λ _,
     try (aya Xdp_try_from EProgType) (λ _,
     try (aya Program_load EXdpLoad) (λ _,
     try (attach iface) (λ _,
     mret (Okay mkXdpHandle))))))
    drop_ebpf).

(** [register_socket]. *)
Definition register_socket (queue_id sock_fd : Z) : sys (result register_err ()) :=
  try (aya (Map_mut (lit "XSKS")) ENoMap) (λ _,
  try (aya XskMap_try_from EMapType) (λ _,
  aya (XskMap_set queue_id sock_fd 0) (ESet queue_id))).

(** ** The aligned copy *)

Lemma div_ceil_bounds n d : 0 ≤ n → 0 < d → n ≤ d * div_ceil n d < n + d.
Proof.
  intros Hn Hd. unfold div_ceil. pose proof (Z.div_mod n d). pose proof (Z.mod_pos_bound n d Hd).
  destruct (Z.eqb_spec (n mod d) 0); nia.
Qed.

Lemma aligned_copy prog : aligned prog = Ok prog.
Proof.
  unfold aligned. destruct (div_ceil_bounds (zlen prog) 8) as [Hle _]; [lia..|].
  assert (zlen prog ≤ zlen (replicate (Z.to_nat (8 * div_ceil (zlen prog) 8)) (0:Z))) as Hfit.
  { rewrite length_replicate. lia. }
  rewrite decide_True, length_splice, decide_True by (done || lia).
  f_equal. by apply slice_splice_eq.
Qed.

(** ** What the calls do to the XDP side *)

Lemma wp_aya {E} c (e : E) h Q :
  (∀ a, ret a = 0 → Q (Okay ()) (h ++ [(Aya c, a)])) →
  (∀ a, ret a ≠ 0 → Q (Err e) (h ++ [(Aya c, a)])) →
  wp (aya c e) h Q.
Proof.
  intros H0 H1. apply wp_bind, wp_syscall, wp_ret.
  destruct (Z.eqb_spec (ret (k h (Aya c))) 0); auto.
Qed.

(** A call that neither loads, attaches nor registers. *)
Lemma wp_aya_query {E} c (e : E) h (b : bpf_state) Q :
  bpf h = b →
  match c with Program_mut _ | Xdp_try_from | Program_load | Map_mut _ | XskMap_try_from => True | _ => False end →
  (∀ r h', bpf h' = b → match r with Okay _ => True | Err e' => e' = e end → Q r h') →
  wp (aya c e) h Q.
Proof.
  intros Hb Hc HQ. apply wp_aya; intros a _; apply HQ; rewrite ?bpf_snoc, ?Hb; by destruct c.
Qed.

(** [try] over such a call: its error, or the rest from the same state. *)
Lemma wp_try_query {E A} c (e : E) (f : () → sys (result E A)) h (b : bpf_state) Q :
  bpf h = b →
  match c with Program_mut _ | Xdp_try_from | Program_load | Map_mut _ | XskMap_try_from => True | _ => False end →
  (∀ h', bpf h' = b → wp (f ()) h' Q) → (∀ h', bpf h' = b → Q (Err e) h') →
  wp (try (aya c e) f) h Q.
Proof.
  intros Hb Hc Hf He. apply wp_try. eapply wp_aya_query; [done..|].
  intros [[]|e'] h' H; [intros _; auto|intros ->; auto].
Qed.

Lemma wp_attach iface h :
  bpf h = BpfState true None ∅ →
  wp (attach iface) h (λ r h', match r with
    | Okay _ => ∃ m, bpf h' = BpfState true (Some (iface, m)) ∅
        ∧ (m = SKB_MODE → ∃ h1 a1, h1 `prefix_of` h' ∧ last h1 = Some (Aya (Program_attach iface DRV_MODE), a1)
             ∧ ret a1 ≠ 0)
    | Err e => e = EAttach iface ∧ bpf h' = BpfState true None ∅
    end).
Proof.
  intros Hb. apply wp_bind, wp_aya; intros a Ha.
  - apply wp_ret. exists DRV_MODE. split; [|done].
    rewrite bpf_snoc, Hb. unfold bpf_step. cbn [fst snd]. by rewrite Ha.
  - apply wp_aya; intros a' Ha'; rewrite !bpf_snoc, Hb; unfold bpf_step; cbn [fst snd];
      rewrite (proj2 (Z.eqb_neq _ _) Ha).
    + exists SKB_MODE. rewrite Ha'. split; [done|]. intros _.
      exists (h ++ [(Aya (Program_attach iface DRV_MODE), a)]), a. split_and!; [by eexists|by rewrite last_snoc|done].
    + by rewrite (proj2 (Z.eqb_neq _ _) Ha').
Qed.

Lemma wp_load iface h :
  wp (load iface) h (λ r h', match r with
    | Okay _ => (∃ m, bpf h' = BpfState true (Some (iface, m)) ∅)
    | Err _ => bpf h = bpf_none → bpf h' = bpf_none
    end).
Proof.
  unfold load. apply wp_bind, wp_syscall.
  set (h1 := h ++ [_]). assert (bpf h1 = bpf h) as H1 by (unfold h1; by rewrite bpf_snoc).
  destruct (negb _); [apply wp_ret; congruence|]. apply wp_bind, (wp_lift _ _ _ _ (aligned_copy _)).
  apply wp_try, wp_aya; intros a Ha.
  2:{ intros Hb. rewrite bpf_snoc, H1, Hb. unfold bpf_step. cbn [fst snd].
      by rewrite (proj2 (Z.eqb_neq _ _) Ha). }
  set (h2 := h1 ++ [_]). assert (bpf h2 = BpfState true None ∅) as H2.
  { unfold h2. rewrite bpf_snoc, H1. unfold bpf_step. cbn [fst snd]. by rewrite Ha. }
  apply wp_inspect_err.
  assert (∀ h', wp drop_ebpf h' (λ _ h'', bpf h = bpf_none → bpf h'' = bpf_none)) as Hdrop.
  { intros h'. apply wp_syscall. by rewrite bpf_snoc. }
  do 3 (eapply wp_try_query; [eassumption|done| |by intros; apply Hdrop]; clear dependent h2; intros h2 H2).
  apply wp_try. eapply wp_mono; [by apply wp_attach|]. intros [[]|e] h3.
  - intros (m & Hm & _). apply wp_ret. by exists m.
  - intros [-> H3]. by apply Hdrop.
Qed.

Lemma wp_register queue_id fd h :
  wp (register_socket queue_id fd) h (λ r h', match r with
    | Okay _ => bpf h' = BpfState (bpf_alive (bpf h)) (bpf_attached (bpf h)) (<[queue_id:=fd]> (bpf_xsks (bpf h)))
    | Err _ => bpf h' = bpf h
    end).
Proof.
  unfold register_socket.
  do 2 (apply (wp_try_query _ _ _ _ (bpf h)); [done|done| |by intros]; intros ?h ?H).
  apply wp_aya; intros a Ha; rewrite bpf_snoc; unfold bpf_step; cbn [fst snd].
  - rewrite Ha. cbn [Z.eqb]. congruence.
  - rewrite (proj2 (Z.eqb_neq _ _) Ha). congruence.
Qed.

(** *** The calls of a successful [load] *)

Lemma aya_okay {E} c (e : E) h x h' :
  aya c e h = (Ok (Okay x), h') → ∃ a, ret a = 0 ∧ h' = h ++ [(Aya c, a)].
Proof.
  unfold aya, mbind, sys_bind, syscall. destruct (Z.eqb_spec (ret (k h (Aya c))) 0) as [Hr|]; [|by intros [=]].
  intros [= <- <-]. eauto.
Qed.

Lemma aya_refused {E} c (e : E) h e' h' :
  aya c e h = (Ok (Err e'), h') → ∃ a, ret a ≠ 0 ∧ h' = h ++ [(Aya c, a)].
Proof.
  unfold aya, mbind, sys_bind, syscall. destruct (Z.eqb_spec (ret (k h (Aya c))) 0) as [|Hr]; [by intros [=]|].
  intros [= <- <-]. eauto.
Qed.

Lemma try_okay {E A B} (m : sys (result E A)) (f : A → sys (result E B)) h b h' :
  try m f h = (Ok (Okay b), h') → ∃ a h1, m h = (Ok (Okay a), h1) ∧ f a h1 = (Ok (Okay b), h').
Proof.
  unfold try, mbind, sys_bind. destruct (m h) as [[[a|e]| |] h1]; [eauto|by intros [=]..].
Qed.

Lemma inspect_okay {E A} (m : sys (result E A)) f h a h' :
  inspect_err m f h = (Ok (Okay a), h') → m h = (Ok (Okay a), h').
Proof.
  unfold inspect_err, mbind, sys_bind. destruct (m h) as [[[b|e]| |] h1]; [done| |by intros [=]..].
  destruct (f h1) as [[x| |] h2]; by intros [=].
Qed.

(** The loader opens and closes none of the program's own descriptors. *)
Lemma keeps_opened_load iface : keeps opened (load iface).
Proof. unfold load, attach, aya, drop_ebpf. keeps. Qed.

Lemma keeps_opened_register q fd : keeps opened (register_socket q fd).
Proof. unfold register_socket, aya. keeps. Qed.

(** *** When aya grants everything *)

Definition aya_grants : Prop :=
  (∀ h c, ret (k h (Aya c)) = 0) ∧ ∀ h a b, ret (k h (Setrlimit_MEMLOCK a b)) = 0.

Context (Hgrant : aya_grants).

Lemma good_aya {E} c (e : E) h : wp (aya c e) h (λ r _, r = Okay ()).
Proof. apply wp_bind, wp_syscall, wp_ret. by rewrite (proj1 Hgrant). Qed.

Lemma good_load iface h : wp (load iface) h (λ r _, r = Okay mkXdpHandle).
Proof.
  unfold load. apply wp_bind, wp_syscall. rewrite (proj2 Hgrant). cbn [negb Z.eqb].
  apply wp_bind, (wp_lift _ _ _ _ (aligned_copy _)).
  apply wp_try. eapply wp_mono; [apply good_aya|]. intros ? h1 ->. apply wp_inspect_err.
  do 3 (apply wp_try; eapply wp_mono; [apply good_aya|]; intros ? ? ->).
  apply wp_try. unfold attach. apply wp_bind. eapply wp_mono; [apply good_aya|]. intros ? ? ->.
  by apply wp_ret, wp_ret.
Qed.

Lemma good_register q fd h : wp (register_socket q fd) h (λ r _, r = Okay ()).
Proof.
  unfold register_socket.
  do 2 (apply wp_try; eapply wp_mono; [apply good_aya|]; intros ? ? ->). apply good_aya.
Qed.
End loader.

(** ** Properties *)

(** The calls [load] makes up to a mode [m] that attached. *)
Definition load_calls (prog : list Z) (iface : str) (m : xdp_flags) : list call :=
  [Setrlimit_MEMLOCK RLIM_INFINITY RLIM_INFINITY; Aya (Ebpf_load prog);
   Aya (Program_mut (lit "dns_xdp_client")); Aya Xdp_try_from; Aya Program_load;
   Aya (Program_attach iface DRV_MODE)]
  ++ match m with DRV_MODE => [] | SKB_MODE => [Aya (Program_attach iface SKB_MODE)] end.

(** C31: [XdpHandle::load].  Whatever calls fail it returns, without reading
    or writing outside the aligned copy.  On success aya was given exactly
    the bytes of the object file, the program is attached to the interface
    and its XSKS map is empty; generic mode is used only after driver mode
    was refused.  On every error nothing stays loaded or attached.  Either
    way no descriptor of the program is opened or closed. *)
Theorem load_attaches k prog iface h :
  bpf h = bpf_none →
  ∃ r h', load k prog iface h = (Ok r, h')
    ∧ opened h' = opened h
    ∧ match r with
      | Okay _ => ∃ m l, h' = h ++ l ∧ l.*1 = load_calls prog iface m
          ∧ bpf h' = BpfState true (Some (iface, m)) ∅
          ∧ (m = SKB_MODE → ∃ a, ret a ≠ 0 ∧ (Aya (Program_attach iface DRV_MODE), a) ∈ l)
      | Err _ => bpf h' = bpf_none
      end.
Proof.
  intros Hb. destruct (wp_load k prog iface h) as (r & h' & E & Hr). exists r, h'.
  split; [done|]. split; [by rewrite <- (keeps_opened_load k prog iface h), E|].
  destruct r as [x|e]; [|auto]. destruct Hr as (m & Hm).
  revert E. unfold load, mbind at 1, sys_bind, syscall at 1. destruct (negb _); [by intros [=]|].
  unfold mbind at 1, lift. rewrite aligned_copy. intros E.
  apply try_okay in E as ([] & h1 & (a1 & _ & ->)%aya_okay & E). apply inspect_okay in E.
  do 3 (apply try_okay in E as ([] & ? & (? & _ & ->)%aya_okay & E)).
  apply try_okay in E as ([] & h5 & E & [= <- <-]).
  revert E. unfold attach, mbind, sys_bind.
  destruct (aya k (Program_attach iface DRV_MODE) _ _) as [[[[]|e]| |] h6] eqn:E; [| |by intros [=]..].
  - intros [= <-]. apply aya_okay in E as (a & Ha & ->). exists m.
    eexists [_; _; _; _; _; _]. rewrite <- !app_assoc in *. cbn [app] in *.
    split; [done|]. pose proof Hm as Hm'. rewrite bpf_app in Hm'.
    cbn [foldl bpf_step fst snd] in Hm'. rewrite Ha in Hm'. cbn [Z.eqb] in Hm'.
    assert (m = DRV_MODE) as -> by congruence. split_and!; done.
  - apply aya_refused in E as (a & Ha & ->). intros (a' & Ha' & ->)%aya_okay. exists m.
    eexists [_; _; _; _; _; _; _]. rewrite <- !app_assoc in *. cbn [app] in *.
    split; [done|]. pose proof Hm as Hm'. rewrite bpf_app in Hm'.
    cbn [foldl bpf_step fst snd] in Hm'. rewrite Ha' in Hm'. cbn [Z.eqb] in Hm'.
    assert (m = SKB_MODE) as -> by congruence. split_and!; [done..|].
    intros _. exists a. split; [done|]. do 5 right. left.
Qed.

(** A kernel that grants everything but driver mode. *)
Definition generic_only : kernel := λ _ c,
  Answer (match c with Aya (Program_attach _ DRV_MODE) => -1 | _ => 0 end)
    (mkXdpMmapOffsets (mkXdpRingOffsets 0 0 0 0) (mkXdpRingOffsets 0 0 0 0)
      (mkXdpRingOffsets 0 0 0 0) (mkXdpRingOffsets 0 0 0 0))
    (RingMem 0 0 0 []) (RingMem 0 0 0 []).

Lemma load_attaches_witness :
  ∃ h', load generic_only [127; 69; 76; 70] (lit "eth0") [] = (Ok (Okay mkXdpHandle), h')
    ∧ opened h' = OpenSet [] []
    ∧ bpf h' = BpfState true (Some (lit "eth0", SKB_MODE)) ∅.
Proof.
  destruct (load_attaches generic_only [127; 69; 76; 70] (lit "eth0") [] eq_refl)
    as ([[]|e] & h' & E & Ho & H).
  - exists h'. split; [exact E|]. split; [exact Ho|].
    change h' with (snd (Ok (Okay mkXdpHandle) : res (result load_err XdpHandle), h')).
    rewrite <- E. vm_compute. reflexivity.
  - vm_compute in E. discriminate E.
Defined.
