(* ===== verification/Netif.v ===== *)
(** * Network interfaces ([src/xdp/socket.rs], [src/xdp/frame.rs])

    Which interface reaches a server, how many queues it has, what its
    address is, and which physical device lies under a virtual one.  The
    file system and [getifaddrs] are arguments; the code that reads them is
    modelled line by line. *)

From S2P Require Import Prelude Strs Frame.

(** The file system as the code sees it: directory listings (an entry that
    could not be read is [None]), file contents, existence and symbolic
    links. *)
Record fs : Type := Fs {
  fs_dir : str → option (list (option str));
  fs_read : str → option str;
  fs_exists : str → bool;
  fs_link : str → option str;
}.

(** [Path::file_name]: the last component unless it is [..]; empty and [.]
    components do not count. *)
Definition file_name (path : str) : option str :=
  match last (filter (λ c, c ≠ [] ∧ c ≠ [46]) (split_char 47 path)) with
  | Some c => if decide (c = [46; 46]) then None else Some c
  | None => None
  end.

Definition sysfs (iface : str) : str := lit "/sys/class/net/" ++ iface.

(** ** Queues and indices *)

Definition queue_count (f : fs) (iface prefix : str) : Z :=
  Z.max 1 (match fs_dir f (sysfs iface ++ lit "/queues") with
           | Some dir => wrap 32 (zlen (filter (λ n, starts_with prefix n = true) (omap id dir)))
           | None => 1
           end).

Definition get_rx_queue_count (f : fs) (iface : str) : Z := queue_count f iface (lit "rx-").
Definition get_tx_queue_count (f : fs) (iface : str) : Z := queue_count f iface (lit "tx-").

(** [iface_index]: a name with an embedded NUL is no C string. *)
Definition iface_index (if_nametoindex : str → Z) (name : str) : option Z :=
  if bool_decide (0 ∈ name) then None
  else let idx := if_nametoindex name in
       if idx =? 0 then None else Some idx.

(** ** Interface addresses *)

(** An entry of [getifaddrs]: the name ([None] when it is not UTF-8), and
    address and netmask with their family and their four bytes in memory,
    which are in network order. *)
Record ifaddrs : Type := Ifaddrs {
  ifa_name : option str;
  ifa_addr : option (Z * list Z);
  ifa_netmask : option (list Z);
}.

Definition AF_INET_ID : Z := 2.

(** [u32::from_be] of an address in memory, and [u32::from(Ipv4Addr)]. *)
Definition be32 (octets : list Z) : Z := from_le_bytes (reverse octets).

(** [Ipv4Addr::from(u32)]. *)
Definition ipv4_from (x : Z) : list Z := reverse (to_le_bytes 4 x).

Fixpoint local_ipv4_loop (l : list ifaddrs) (iface : str) : option (list Z) :=
  match l with
  | [] => None
  | ifa :: l =>
      match ifa_addr ifa with
      | None => local_ipv4_loop l iface
      | Some (family, octets) =>
          if negb (family =? AF_INET_ID) then local_ipv4_loop l iface
          else if bool_decide (default [] (ifa_name ifa) ≠ iface) then local_ipv4_loop l iface
          else Some (ipv4_from (be32 octets))
      end
  end.

Definition local_ipv4 (getifaddrs : option (list ifaddrs)) (iface : str) : option (list Z) :=
  l ← getifaddrs; local_ipv4_loop l iface.

Fixpoint subnet_loop (l : list ifaddrs) (server_u32 : Z) : option str :=
  match l with
  | [] => None
  | ifa :: l =>
      match ifa_addr ifa, ifa_netmask ifa with
      | Some (family, addr), Some mask =>
          if negb (family =? AF_INET_ID) then subnet_loop l server_u32 else
          let iface_u32 := be32 addr in
          let mask_u32 := be32 mask in
          if mask_u32 =? 0 then subnet_loop l server_u32 else
          match ifa_name ifa with
          | None => subnet_loop l server_u32
          | Some name =>
              if bool_decide (name = lit "lo") then subnet_loop l server_u32
              else if Z.land iface_u32 mask_u32 =? Z.land server_u32 mask_u32 then Some name
              else subnet_loop l server_u32
          end
      | _, _ => subnet_loop l server_u32
      end
  end.

Definition getifaddrs_iface_for_subnet (getifaddrs : option (list ifaddrs)) (server : list Z)
    : option str :=
  l ← getifaddrs; subnet_loop l (be32 server).

(** ** The routing table *)

(** [u32::swap_bytes] and [u32::count_ones]. *)
Definition swap_bytes (x : Z) : Z := from_le_bytes (reverse (to_le_bytes 4 x)).
Definition count_ones (x : Z) : Z := zlen (filter (λ i, Z.testbit x i = true) (seqZ 0 32)).

(** One route line: the interface, the destination and the mask (columns
    0, 1 and 7); [None] when a column is missing or not hexadecimal. *)
Definition route_line (line : str) : option (str * Z * Z) :=
  match split_whitespace line with
  | iface :: dest :: rest =>
      dest ← from_str_radix 32 16 dest;
      m ← rest !! 5%nat;
      mask ← from_str_radix 32 16 m;
      Some (iface, dest, mask)
  | _ => None
  end.

(** The loop of [iface_for_ipv4] over the lines; a line that does not parse
    ends the whole search with [None]. *)
Fixpoint route_loop (lines : list str) (target_u32 : Z) (best : option (Z * str))
    : option (option (Z * str)) :=
  match lines with
  | [] => Some best
  | line :: lines =>
      '(iface, dest, mask) ← route_line line;
      let best :=
        if Z.land target_u32 mask =? Z.land dest mask then
          let prefix_len := count_ones mask in
          match best with
          | None => Some (prefix_len, iface)
          | Some (b, _) => if b <? prefix_len then Some (prefix_len, iface) else best
          end
        else best in
      route_loop lines target_u32 best
  end.

Definition iface_for_ipv4 (route : option str) (target : list Z) : option str :=
  content ← route;
  best ← route_loop (drop 1 (lines content)) (swap_bytes (be32 target)) None;
  snd <$> best.

Fixpoint default_loop (lines : list str) : option str :=
  match lines with
  | [] => None
  | line :: lines =>
      match split_whitespace line with
      | iface :: dest :: _ =>
          if bool_decide (dest = lit "00000000") then Some iface else default_loop lines
      | _ => None
      end
  end.

Definition default_interface (route : option str) : option str :=
  content ← route; default_loop (drop 1 (lines content)).

(** [enum IpAddr]. *)
Inductive IpAddr : Type := V4 (octets : list Z) | V6 (segments : list Z).

Definition is_loopback (a : IpAddr) : bool :=
  match a with
  | V4 (a :: _) => a =? 127
  | V4 [] => false
  | V6 s => bool_decide (s = [0; 0; 0; 0; 0; 0; 0; 1])
  end.

Definition iface_for_server (getifaddrs : option (list ifaddrs)) (route : option str)
    (server : IpAddr) : option str :=
  if is_loopback server then Some (lit "lo")
  else match server with
       | V4 v4 =>
           match getifaddrs_iface_for_subnet getifaddrs v4 with
           | Some i => Some i
           | None => iface_for_ipv4 route v4
           end
       | V6 _ => default_interface route
       end.

(** ** Virtual and physical devices *)

Definition is_virtual_interface (f : fs) (iface : str) : bool :=
  if fs_exists f (sysfs iface ++ lit "/device") then false
  else
    let uevent := default [] (fs_read f (sysfs iface ++ lit "/uevent")) in
    negb (existsb (λ l, bool_decide (trim l = lit "DEVTYPE=vlan")) (lines uevent)).

Definition first_physical_bridge_port (f : fs) (bridge : str) : option str :=
  entries ← fs_dir f (sysfs bridge ++ lit "/brif");
  head (filter (λ port, is_virtual_interface f port = false) (omap id entries)).

(** The first non-empty [lower_*] entry of a listing. *)
Definition lower_entry (entries : list str) : option str :=
  head (filter (λ l, l ≠ []) (omap (strip_prefix (lit "lower_")) entries)).

Definition master_parent (f : fs) (iface : str) : option str :=
  target ← fs_link f (sysfs iface ++ lit "/master");
  master ← file_name target;
  match master with
  | [] => None
  | _ => if negb (is_virtual_interface f master) then Some master
         else first_physical_bridge_port f master
  end.

Definition parent_interface (f : fs) (iface : str) : option str :=
  match entries ← fs_dir f (sysfs iface); lower_entry (omap id entries) with
  | Some lower => Some lower
  | None =>
      match master_parent f iface with
      | Some m => Some m
      | None => first_physical_bridge_port f iface
      end
  end.

(** ** Addresses as numbers *)

Lemma land_byte a b x y :
  is_u8 a → is_u8 b → Z.land (a + 256 * x) (b + 256 * y) = Z.land a b + 256 * Z.land x y.
Proof.
  intros Ha Hb. set (u := a + 256 * x). set (v := b + 256 * y).
  assert (∀ c z, is_u8 c → (c + 256 * z) mod 2 ^ 8 = c ∧ Z.shiftr (c + 256 * z) 8 = z) as Hsplit.
  { intros c z Hc. rewrite Z.shiftr_div_pow2 by lia. change (2 ^ 8) with 256. unfold fits in Hc.
    split; [rewrite Z.mul_comm, Z.mod_add, Z.mod_small by lia; done|].
    rewrite Z.mul_comm, Z.div_add, Z.div_small by lia. lia. }
  destruct (Hsplit a x Ha) as [Ha1 Ha2]. destruct (Hsplit b y Hb) as [Hb1 Hb2].
  fold u in Ha1, Ha2. fold v in Hb1, Hb2.
  rewrite (Z.div_mod (Z.land u v) (2 ^ 8)) by lia.
  rewrite <- Z.shiftr_div_pow2, Z.shiftr_land, Ha2, Hb2 by lia.
  rewrite <- !Z.land_ones in * by lia.
  replace (Z.land (Z.land u v) (Z.ones 8)) with (Z.land (Z.land u (Z.ones 8)) (Z.land v (Z.ones 8))).
  - rewrite Ha1, Hb1. lia.
  - rewrite <- (Z.land_diag (Z.ones 8)) at 3. rewrite !Z.land_assoc. f_equal.
    rewrite <- !Z.land_assoc. f_equal. apply Z.land_comm.
Qed.

Lemma land_octets l m :
  is_bytes l → is_bytes m → length l = length m →
  from_le_bytes (zip_with Z.land l m) = Z.land (from_le_bytes l) (from_le_bytes m).
Proof.
  intros Hl. revert m. induction Hl as [|a l Ha Hl IH]; intros [|b m] Hm E; try done.
  apply Forall_cons in Hm as [Hb Hm]. cbn [zip_with from_le_bytes].
  rewrite IH, land_byte by (done || (cbn in E; lia)). done.
Qed.

Lemma land_u8 a b : is_u8 a → is_u8 b → is_u8 (Z.land a b).
Proof.
  intros Ha Hb. rewrite <- (wrap_small 8 a Ha). unfold wrap. rewrite <- Z.land_ones by lia.
  rewrite <- Z.land_assoc, (Z.land_comm _ b), Z.land_assoc, Z.land_ones by lia. apply wrap_fits. lia.
Qed.

Lemma zip_land_bytes l m : is_bytes l → is_bytes m → is_bytes (zip_with Z.land l m).
Proof.
  intros Hl. revert m. induction Hl as [|a l Ha Hl IH]; intros [|b m] Hm; try constructor.
  - apply Forall_cons in Hm as [Hb _]. by apply land_u8.
  - apply Forall_cons in Hm as [_ Hm]. by apply IH.
Qed.

(** Masking little-endian and big-endian readings of the same octets makes
    the same distinction. *)
Lemma mask_endian t d m :
  is_ip t → is_ip d → is_ip m →
  Z.land (from_le_bytes t) (from_le_bytes m) = Z.land (from_le_bytes d) (from_le_bytes m) ↔
  Z.land (be32 t) (be32 m) = Z.land (be32 d) (be32 m).
Proof.
  intros [Lt Bt] [Ld Bd] [Lm Bm]. unfold be32.
  assert (∀ l, is_bytes l → is_bytes (reverse l)) as Hrev by (intros l; apply Forall_reverse).
  assert (∀ x, length x = 4%nat →
    zip_with Z.land (reverse x) (reverse m) = reverse (zip_with Z.land x m)) as Hzip.
  { intros x Hx. destruct x as [|x0 [|x1 [|x2 [|x3 [|]]]]]; try done.
    by destruct m as [|m0 [|m1 [|m2 [|m3 [|]]]]]. }
  rewrite <- !land_octets by (rewrite ?length_reverse; auto; congruence).
  rewrite !Hzip by done.
  assert (∀ x, length x = 4%nat → length (zip_with Z.land x m) = 4%nat) as Hlen.
  { intros x Hx. rewrite length_zip_with. lia. }
  pose proof (zip_land_bytes t m Bt Bm) as Ht. pose proof (zip_land_bytes d m Bd Bm) as Hd.
  split; intros E.
  - apply from_le_bytes_inj in E; [by rewrite E|done|done|by rewrite !Hlen].
  - apply from_le_bytes_inj in E; [|by apply Hrev|by apply Hrev|by rewrite !length_reverse, !Hlen].
    apply (f_equal reverse) in E. rewrite !reverse_involutive in E. by rewrite E.
Qed.

(** *** Prefixes *)

(** The netmask of a [/n] prefix, as octets. *)
Definition mask_octets (n : Z) : list Z := ipv4_from (2 ^ 32 - 2 ^ (32 - n)).

Lemma mask_octets_spec n : 0 ≤ n ≤ 32 →
  is_ip (mask_octets n) ∧ be32 (mask_octets n) = 2 ^ 32 - 2 ^ (32 - n)
  ∧ is_u32 (from_le_bytes (mask_octets n)) ∧ count_ones (from_le_bytes (mask_octets n)) = n.
Proof.
  intros Hn. assert (n ∈ seqZ 0 33) as Hin by (apply elem_of_seqZ; lia). clear Hn. revert n Hin.
  apply Forall_forall. apply (bool_decide_unpack _). vm_compute. exact I.
Qed.

Lemma land_prefix x n : is_u32 x → 0 ≤ n ≤ 32 →
  Z.land x (2 ^ 32 - 2 ^ (32 - n)) = x / 2 ^ (32 - n) * 2 ^ (32 - n).
Proof.
  intros [Hx0 Hx1] Hn. set (k := 32 - n).
  replace (2 ^ 32 - 2 ^ k) with (Z.shiftl (Z.ones n) k).
  2:{ rewrite Z.shiftl_mul_pow2, Z.ones_equiv by lia. replace 32 with (n + k) by lia.
      rewrite Z.pow_add_r by lia. lia. }
  rewrite <- Z.shiftr_div_pow2, <- Z.shiftl_mul_pow2 by lia.
  apply Z.bits_inj'. intros i Hi. rewrite Z.land_spec.
  destruct (decide (i < k)) as [Hlt|Hge].
  { rewrite !Z.shiftl_spec_low by lia. apply andb_false_r. }
  rewrite !Z.shiftl_spec, Z.shiftr_spec by lia. replace (i - k + k) with i by lia.
  destruct (decide (i < 32)) as [H32|H32].
  - rewrite Z.ones_spec_low by lia. apply andb_true_r.
  - destruct (decide (x = 0)) as [->|Hx]; [by rewrite Z.bits_0|].
    rewrite (Z.bits_above_log2 x); [done|lia|]. apply Z.log2_lt_pow2; [lia|].
    eapply Z.lt_le_trans; [exact Hx1|]. apply Z.pow_le_mono_r; lia.
Qed.

(** ** The routing table the kernel prints *)

(** A route: interface, destination and prefix length, the five columns
    between destination and mask, the columns behind, and the padding. *)
Record route : Type := Route {
  rt_iface : str;
  rt_dest : list Z;
  rt_len : Z;
  rt_mid : list str;
  rt_tail : list str;
  rt_pad : nat;
}.

Definition route_ok (r : route) : Prop :=
  is_word (rt_iface r) ∧ is_ip (rt_dest r) ∧ 0 ≤ rt_len r ≤ 32
  ∧ length (rt_mid r) = 5%nat ∧ Forall is_word (rt_mid r) ∧ Forall is_word (rt_tail r).

(** Addresses are printed with [%08X] of the word in memory, which a
    little-endian machine reads with the first octet lowest. *)
Definition print_route (r : route) : str :=
  join 9 (rt_iface r :: hexn 8 (from_le_bytes (rt_dest r)) :: rt_mid r
          ++ hexn 8 (from_le_bytes (mask_octets (rt_len r))) :: rt_tail r)
  ++ replicate (rt_pad r) 32.

(** The route covers the address: equal in the first [rt_len] bits. *)
Definition covers (r : route) (t : list Z) : Prop :=
  be32 t / 2 ^ (32 - rt_len r) = be32 (rt_dest r) / 2 ^ (32 - rt_len r).

Lemma le_u32 l : is_ip l → is_u32 (from_le_bytes l).
Proof. intros [Hl Hb]. pose proof (from_le_bytes_fits l Hb) as H. by rewrite Hl in H. Qed.

Lemma be_u32 l : is_ip l → is_u32 (be32 l).
Proof.
  intros [Hl Hb]. apply le_u32. split; [by rewrite length_reverse|by apply Forall_reverse].
Qed.

Lemma route_words r : route_ok r →
  Forall is_word (rt_iface r :: hexn 8 (from_le_bytes (rt_dest r)) :: rt_mid r
          ++ hexn 8 (from_le_bytes (mask_octets (rt_len r))) :: rt_tail r).
Proof.
  intros (Hi & Hd & Hn & _ & Hmid & Ht). destruct (mask_octets_spec _ Hn) as (_ & _ & [Hm _] & _).
  destruct (le_u32 _ Hd) as [Hd0 _]. constructor; [done|]. constructor; [by apply hexn_word|].
  apply Forall_app. split; [done|]. constructor; [by apply hexn_word|done].
Qed.

Lemma route_line_print r : route_ok r →
  route_line (print_route r) =
    Some (rt_iface r, from_le_bytes (rt_dest r), from_le_bytes (mask_octets (rt_len r))).
Proof.
  intros Hr. unfold route_line, print_route. rewrite split_whitespace_join by (by apply route_words).
  destruct Hr as (Hi & Hd & Hn & Hl & _). destruct (mask_octets_spec _ Hn) as (_ & _ & Hm & _).
  rewrite parse_hex8 by (by apply le_u32). cbn [mbind option_bind].
  rewrite list_lookup_middle by done.
  cbn [mbind option_bind]. by rewrite parse_hex8.
Qed.

Lemma swap_be32 t : is_ip t → swap_bytes (be32 t) = from_le_bytes t.
Proof.
  intros [Hl Hb]. unfold swap_bytes, be32. f_equal.
  assert (to_le_bytes 4 (from_le_bytes (reverse t)) = reverse t) as ->.
  { apply from_le_bytes_inj; [apply to_le_bytes_bytes|by apply Forall_reverse| |].
    - by rewrite length_to_le_bytes, length_reverse, Hl.
    - rewrite from_to_le_bytes. apply wrap_small. apply be_u32. done. }
  apply reverse_involutive.
Qed.

(** The code's test on the masked words is prefix coverage. *)
Lemma match_covers r t : route_ok r → is_ip t →
  (Z.land (from_le_bytes t) (from_le_bytes (mask_octets (rt_len r))) =?
   Z.land (from_le_bytes (rt_dest r)) (from_le_bytes (mask_octets (rt_len r)))) = true ↔ covers r t.
Proof.
  intros (_ & Hd & Hn & _) Ht. destruct (mask_octets_spec _ Hn) as (Hm & Hbe & _).
  rewrite Z.eqb_eq, mask_endian, Hbe, !land_prefix by (done || by apply be_u32).
  unfold covers. pose proof (Z.pow_pos_nonneg 2 (32 - rt_len r) ltac:(lia) ltac:(lia)). nia.
Qed.

Lemma print_route_line r : route_ok r → is_line (print_route r).
Proof.
  intros Hr. pose proof (route_words r Hr) as Hw. unfold print_route.
  set (ws := _ :: _) in *. assert (ws ≠ []) as Hne by done. clearbody ws. clear Hr.
  assert (Forall (λ c, (10 =? c) = false) (join 9 ws) ∧
          ∃ s c, join 9 ws = s ++ [c] ∧ is_whitespace c = false) as [Hlf (s & c & E & Hc)].
  { induction Hw as [|w ws [Hn Hw] Hws IH]; [done|]. cbn [join].
    assert (Forall (λ c, (10 =? c) = false) w) by (by apply word_no_lf).
    destruct ws as [|w' ws].
    - split; [done|]. destruct w as [|c w _] using rev_ind; [done|].
      apply Forall_app in Hw as [_ Hw]. apply Forall_cons in Hw as [Hc _]. eauto.
    - destruct IH as [IH1 (s & c & E & Hc)]; [done|]. split.
      + apply Forall_app. split; [done|]. by constructor.
      + exists (w ++ 9 :: s), c. split; [|done]. rewrite E. by rewrite <- app_assoc. }
  split.
  - apply Forall_app. split; [done|]. by apply Forall_replicate.
  - destruct (rt_pad r) as [|n].
    + rewrite app_nil_r, E. apply strip_cr_snoc. by intros ->.
    + rewrite replicate_S_end, app_assoc. by apply strip_cr_snoc.
Qed.

(** *** Longest prefix match *)

(** [b] is the best of [rows] for [t]: a covering route of maximal prefix
    length, the first of them; [None] when no route covers. *)
Definition is_best (rows : list route) (t : list Z) (b : option (Z * str)) : Prop :=
  match b with
  | None => ∀ r, r ∈ rows → ¬ covers r t
  | Some (n, i) => ∃ k r, rows !! k = Some r ∧ rt_len r = n ∧ rt_iface r = i ∧ covers r t
      ∧ ∀ j r', rows !! j = Some r' → covers r' t →
          rt_len r' ≤ n ∧ ((j < k)%nat → rt_len r' < n)
  end.

Lemma is_best_skip rows t b r : is_best rows t b → ¬ covers r t → is_best (rows ++ [r]) t b.
Proof.
  intros Hb Hr. destruct b as [[n i]|]; cbn in *.
  - destruct Hb as (k & x & Hx & Hn & Hi & Hc & Hmax). exists k, x.
    split_and!; [by apply lookup_app_l_Some|done..|]. intros j r' Hj Hcov.
    apply lookup_app_Some in Hj as [Hj|[_ Hj]]; [by apply (Hmax j r')|].
    apply list_lookup_singleton_Some in Hj as [_ <-]. done.
  - intros x Hx. apply elem_of_app in Hx as [Hx|Hx]; [by apply Hb|].
    by apply list_elem_of_singleton in Hx as ->.
Qed.

Lemma is_best_keep rows t n i r :
  is_best rows t (Some (n, i)) → rt_len r ≤ n → is_best (rows ++ [r]) t (Some (n, i)).
Proof.
  intros (k & x & Hx & Hn & Hi & Hc & Hmax) Hr. exists k, x.
  split_and!; [by apply lookup_app_l_Some|done..|]. intros j r' Hj Hcov.
  apply lookup_app_Some in Hj as [Hj|[Hlen Hj]]; [by apply (Hmax j r')|].
  apply list_lookup_singleton_Some in Hj as [_ <-]. split; [done|].
  apply lookup_lt_Some in Hx. lia.
Qed.

Lemma is_best_take rows t b r :
  is_best rows t b → (∀ n i, b = Some (n, i) → n < rt_len r) → covers r t →
  is_best (rows ++ [r]) t (Some (rt_len r, rt_iface r)).
Proof.
  intros Hb Hlt Hc. exists (length rows), r.
  split_and!; [by rewrite list_lookup_middle|done..|]. intros j r' Hj Hcov.
  assert (r' ∈ rows → rt_len r' < rt_len r) as Hrows.
  { intros Hin. destruct b as [[n i]|]; [|by destruct (Hb r' Hin)].
    destruct Hb as (k & x & _ & _ & _ & _ & Hmax). apply list_elem_of_lookup in Hin as [j' Hj'].
    destruct (Hmax j' r' Hj' Hcov) as [Hle _]. specialize (Hlt n i eq_refl). lia. }
  apply lookup_app_Some in Hj as [Hj|[Hlen Hj]].
  - apply list_elem_of_lookup_2 in Hj. specialize (Hrows Hj). lia.
  - apply list_lookup_singleton_Some in Hj as [_ <-]. lia.
Qed.

Lemma route_loop_best t rows : is_ip t → Forall route_ok rows → ∀ pre b,
  is_best pre t b →
  ∃ b', route_loop (print_route <$> rows) (from_le_bytes t) b = Some b'
    ∧ is_best (pre ++ rows) t b'.
Proof.
  intros Ht. induction 1 as [|r rows Hr _ IH]; intros pre b Hb.
  { exists b. by rewrite app_nil_r. }
  rewrite fmap_cons. cbn [route_loop]. rewrite route_line_print by done. cbn [mbind option_bind].
  rewrite cons_middle, app_assoc. apply IH.
  pose proof (match_covers r t Hr Ht) as Hm.
  destruct (mask_octets_spec (rt_len r)) as (_ & _ & _ & ->); [apply Hr|].
  destruct (_ =? _); [|apply is_best_skip; [done|]; intros Hc; by apply Hm in Hc].
  assert (covers r t) as Hc by (by apply Hm).
  destruct b as [[n i]|]; [|by eapply is_best_take].
  destruct (Z.ltb_spec n (rt_len r)).
  - eapply is_best_take; [done| |done]. by intros ?? [= <- <-].
  - by apply is_best_keep.
Qed.

(** ** Local addresses *)

(** The entry carries the IPv4 address [a] of [iface]. *)
Definition has_ipv4 (e : ifaddrs) (iface a : str) : Prop :=
  ifa_addr e = Some (AF_INET_ID, a) ∧ default [] (ifa_name e) = iface.

Lemma to_le_be32 a : is_ip a → to_le_bytes 4 (be32 a) = reverse a.
Proof.
  intros Ha. pose proof Ha as [Hl Hb].
  apply from_le_bytes_inj; [apply to_le_bytes_bytes|by apply Forall_reverse| |].
  - by rewrite length_to_le_bytes, length_reverse, Hl.
  - rewrite from_to_le_bytes. apply wrap_small. by apply be_u32.
Qed.

Lemma ipv4_from_be32 a : is_ip a → ipv4_from (be32 a) = a.
Proof. intros Ha. unfold ipv4_from. by rewrite to_le_be32, reverse_involutive. Qed.

Lemma local_ipv4_cons e l iface :
  (∃ o, has_ipv4 e iface o ∧ local_ipv4_loop (e :: l) iface = Some (ipv4_from (be32 o)))
  ∨ ((∀ o, ¬ has_ipv4 e iface o) ∧ local_ipv4_loop (e :: l) iface = local_ipv4_loop l iface).
Proof.
  cbn [local_ipv4_loop]. unfold has_ipv4. destruct (ifa_addr e) as [[fam o]|].
  2:{ right. split; [|done]. by intros o [? _]. }
  destruct (Z.eqb_spec fam AF_INET_ID) as [->|Hf]; cbn [negb].
  2:{ right. split; [|done]. intros o' [[= ? ->] _]. done. }
  case_bool_decide as Hn.
  - right. split; [|done]. by intros o' [_ ?].
  - left. exists o. split; [|done]. split; [done|]. by destruct (decide (default [] (ifa_name e) = iface)).
Qed.

(** ** Properties *)

(** C39: on the routing table the kernel prints, [iface_for_ipv4] is a
    longest-prefix match: it returns the interface of a route that covers
    the address with a prefix no shorter than any other covering route's,
    the first such route in table order, and nothing exactly when no route
    covers the address.  The byte order of the table (little-endian words)
    and the network order of the address are reconciled correctly. *)
Theorem iface_for_ipv4_longest_prefix head rows t :
  is_line head → Forall route_ok rows → is_ip t →
  ∃ best, iface_for_ipv4 (Some (unlines (head :: (print_route <$> rows)))) t = snd <$> best
    ∧ is_best rows t best.
Proof.
  intros Hh Hrows Ht. unfold iface_for_ipv4. cbn [mbind option_bind]. rewrite lines_unlines.
  2:{ constructor; [done|]. apply Forall_fmap. eapply Forall_impl; [exact Hrows|].
      intros r. apply print_route_line. }
  change (drop 1 (head :: (print_route <$> rows))) with (print_route <$> rows).
  rewrite swap_be32 by done.
  destruct (route_loop_best t rows Ht Hrows [] None) as (b & -> & Hb).
  { intros r Hr. by apply elem_of_nil in Hr. }
  by exists b.
Qed.

Definition demo_route (name : string) (d : list Z) (n : Z) : route :=
  Route (lit name) d n [lit "00000000"; lit "0001"; lit "0"; lit "0"; lit "100"]
    [lit "0"; lit "0"; lit "0"] 20.

Lemma iface_for_ipv4_longest_prefix_witness :
  ∃ best,
    iface_for_ipv4 (Some (unlines (lit "Iface Destination" :: (print_route <$>
      [demo_route "eth0" [0;0;0;0] 0; demo_route "eth1" [10;1;0;0] 16;
       demo_route "eth2" [10;0;0;0] 8])))) [10;1;2;3] = snd <$> best
    ∧ is_best [demo_route "eth0" [0;0;0;0] 0; demo_route "eth1" [10;1;0;0] 16;
               demo_route "eth2" [10;0;0;0] 8] [10;1;2;3] best.
Proof.
  apply iface_for_ipv4_longest_prefix.
  - split; apply (bool_decide_unpack _); vm_compute; exact I.
  - repeat constructor; apply (bool_decide_unpack _); vm_compute; exact I.
  - split; apply (bool_decide_unpack _); vm_compute; exact I.
Defined.

(** [local_ipv4] returns the first IPv4 address listed for the
    interface, octet for octet, and nothing only when none is listed;
    entries without an address, of other families or of other interfaces
    are skipped. *)
Theorem local_ipv4_first l iface a :
  Forall (λ e, ∀ f o, ifa_addr e = Some (f, o) → f = AF_INET_ID → is_ip o) l →
  local_ipv4 (Some l) iface = Some a ↔
  ∃ k e, l !! k = Some e ∧ has_ipv4 e iface a
    ∧ ∀ j e' a', (j < k)%nat → l !! j = Some e' → ¬ has_ipv4 e' iface a'.
Proof.
  unfold local_ipv4. cbn [mbind option_bind]. induction 1 as [|e l He Hl IH].
  { split; [done|]. by intros (k & e & Hk & _). }
  destruct (local_ipv4_cons e l iface) as [(o & Ho & ->)|[Hno ->]].
  - assert (ipv4_from (be32 o) = o) as ->
      by (apply ipv4_from_be32; destruct Ho as [Ho _]; by apply (He _ _ Ho)).
    split.
    + intros [= <-]. exists 0%nat, e. split_and!; [done..|]. intros j e' a' Hj. lia.
    + intros ([|k] & e' & Hk & Ha & Hlt).
      * cbn in Hk. simplify_eq. destruct Ho as [Ho _], Ha as [Ha _]. congruence.
      * by destruct (Hlt 0%nat e o ltac:(lia) eq_refl).
  - rewrite IH. split.
    + intros (k & e' & Hk & Ha & Hlt). exists (S k), e'. split_and!; [done..|].
      intros [|j] x a' Hj Hx; [cbn in Hx; simplify_eq; apply Hno|]. apply (Hlt j); [lia|done].
    + intros ([|k] & e' & Hk & Ha & Hlt).
      * cbn in Hk. simplify_eq. by destruct (Hno a).
      * exists k, e'. split_and!; [done..|]. intros j x a' Hj Hx. apply (Hlt (S j)); [lia|done].
Qed.

Lemma local_ipv4_first_witness :
  local_ipv4 (Some [Ifaddrs (Some (lit "lo")) (Some (2, [127;0;0;1])) None;
                    Ifaddrs (Some (lit "eth0")) (Some (17, [])) None;
                    Ifaddrs (Some (lit "eth0")) (Some (2, [10;0;0;5])) None]) (lit "eth0")
  = Some [10;0;0;5].
Proof.
  apply local_ipv4_first.
  - do 3 (apply Forall_cons_2; [intros f o [= <- <-] E; first [discriminate E |
      apply (bool_decide_unpack _); vm_compute; exact I]|]). apply Forall_nil_2.
  - exists 2%nat. eexists. split_and!; [reflexivity|split; reflexivity|].
    intros [|[|j]] e' a' Hj He; [| |lia]; injection He as <-; [by intros [_ ?]|by intros [? _]].
Defined.

(** What [parent_interface] returns is physical, unless it is the
    device a [lower_] link names: the branch for ipvlan and macvlan returns
    the link's name unchecked. *)
Theorem parent_interface_physical f iface x :
  parent_interface f iface = Some x →
  is_virtual_interface f x = false
  ∨ ∃ entries, fs_dir f (sysfs iface) = Some entries ∧ Some (lit "lower_" ++ x) ∈ entries.
Proof.
  assert (∀ b, first_physical_bridge_port f b = Some x → is_virtual_interface f x = false) as Hport.
  { intros b Hb. unfold first_physical_bridge_port in Hb. apply bind_Some in Hb as (es & _ & Hh).
    apply head_Some_elem_of, list_elem_of_filter in Hh as [Hh _]. done. }
  unfold parent_interface. destruct (_ ≫= _) as [lower|] eqn:E.
  - intros [= ->]. right. apply bind_Some in E as (es & He & Hl). exists es. split; [done|].
    apply head_Some_elem_of, list_elem_of_filter in Hl as [_ Hl].
    apply list_elem_of_omap in Hl as (n & Hn & Hp). apply list_elem_of_omap in Hn as (o & Ho & Hid).
    cbn in Hid. subst o. by apply strip_prefix_app in Hp as ->.
  - left. destruct (master_parent f iface) as [m|] eqn:Em; [|by apply (Hport iface)].
    simplify_eq. unfold master_parent in Em. apply bind_Some in Em as (tg & _ & Em).
    apply bind_Some in Em as (ms & _ & Em). destruct ms as [|c ms]; [done|].
    destruct (is_virtual_interface f (c :: ms)) eqn:Ev; cbn in Em; [by apply Hport in Em|].
    by simplify_eq.
Qed.

(** A bridge port [eth3] under a virtual master, as sysfs shows it. *)
Definition demo_fs : fs :=
  Fs (λ p, if bool_decide (p = lit "/sys/class/net/br0/brif")
           then Some [Some (lit "veth1"); Some (lit "eth3")] else None)
     (λ _, None)
     (λ p, bool_decide (p = lit "/sys/class/net/eth3/device"))
     (λ p, if bool_decide (p = lit "/sys/class/net/veth1/master")
           then Some (lit "../../br0") else None).

Lemma parent_interface_physical_witness :
  parent_interface demo_fs (lit "veth1") = Some (lit "eth3")
  ∧ (is_virtual_interface demo_fs (lit "eth3") = false
     ∨ ∃ entries, fs_dir demo_fs (sysfs (lit "veth1")) = Some entries
         ∧ Some (lit "lower_" ++ lit "eth3") ∈ entries).
Proof.
  assert (parent_interface demo_fs (lit "veth1") = Some (lit "eth3")) as E
    by (vm_compute; reflexivity).
  split; [exact E|]. exact (parent_interface_physical demo_fs (lit "veth1") (lit "eth3") E).
Defined.
