(* ===== verification/Blast.v ===== *)
(** * Starting the AF_XDP datapath ([src/xdp/gen.rs], [src/xdp/sink.rs])

    [xdp_udp_blast] and [xdp_udp_sink] up to the point where their threads
    run: look up the interface and the addresses, build the header, open
    one socket per queue (zero-copy first, copy mode as the fallback) and
    hand each worker its half of the socket.  The theorems join the
    components: what the set-up hands over satisfies the invariants under
    which the transmit and receive loops are safe. *)

From S2P Require Import Prelude Ring Simd Strs Affinity Frame Loss Gen Sink Wire Sys Xsk Loader Netif.

(** What the host offers: interface indices, the address list, the file
    system, and the ARP table at each read. *)
Record host : Type := Host {
  h_ifindex : str → Z;
  h_ifaddrs : option (list ifaddrs);
  h_fs : fs;
  h_arp : nat → option str;
}.

Inductive blast_err : Type :=
| IfaceNotFound
| NoIPv4
| NoMAC
| NoARP
| LoadFailed (e : load_err)
| RegisterFailed (e : register_err)
| SocketFailed (e : xerr).

(** [workers]: one per queue, at most one per CPU, at least one. *)
Definition workers (cpus : list Z) (queues : Z) : Z :=
  Z.max (Z.min (wrap 32 (zlen cpus)) queues) 1.

(** [pps_per]: the budget of one worker, 0 for none. *)
Definition pps_per (target_pps workers : Z) : Z :=
  if target_pps =? 0 then 0 else Z.max (target_pps / workers) 1.

(** [cpus[w % cpus.len()]]: a remainder by zero panics. *)
Definition thread_cpu (cpus : list Z) (w : Z) : res Z :=
  match cpus with
  | [] => Panic
  | _ => match cpus !! Z.to_nat (w mod zlen cpus) with Some c => Ok c | None => Panic end
  end.

(** What every spawned thread does first: it pins itself, whether or not the
    kernel lets it. *)
Definition pin_worker {L : CpuSets} (cpus : list Z) (w : Z) : res Z :=
  cpu ← thread_cpu cpus w;
  _ ← pin_to_cpu cpu;
  Ok cpu.

(** The lookups of [xdp_udp_blast], in order, each with its error. *)
Definition blast_header (H : host) (iface : str) (dst_ip : list Z) (dst_port : Z)
    : result blast_err (Z * FrameHeader) :=
  match iface_index (h_ifindex H) iface with
  | None => Err IfaceNotFound
  | Some ifidx =>
      match local_ipv4 (h_ifaddrs H) iface with
      | None => Err NoIPv4
      | Some src_ip =>
          match local_mac (fs_read (h_fs H) (sysfs iface ++ lit "/address")) with
          | None => Err NoMAC
          | Some src_mac =>
              match resolve_server_mac (h_arp H) dst_ip with
              | None => Err NoARP
              | Some dst_mac =>
                  Okay (ifidx, FrameHeader_new src_mac dst_mac src_ip dst_ip 40000 dst_port)
              end
          end
      end
  end.

Section start.
Context (p : profile) (k : kernel) (XDP_PROG : list Z).

Definition map_err {E F A} (f : E → F) (m : sys (result E A)) : sys (result F A) :=
  r ← m; mret (match r with Okay a => Okay a | Err e => Err (f e) end).

(** [or_else]. *)
Definition or_else {E A} (m f : sys (result E A)) : sys (result E A) :=
  r ← m; match r with Okay a => mret (Okay a) | Err _ => f end.

(** Zero-copy with copy mode as the fallback, or copy mode only. *)
Definition open_queue (try_zc : bool) (ifidx q : Z) : sys (result xerr XskSocket) :=
  if try_zc then
    or_else (create_xsk_socket p k ifidx q true) (create_xsk_socket p k ifidx q false)
  else create_xsk_socket p k ifidx q false.

(** The umem's memory: an anonymous mapping starts as zeroes. *)
Definition zero_area (u : Umem) : list Z := replicate (Z.to_nat (um_area_len u)) 0.

(** The transmit state of queue [q] from its socket. *)
Definition tx_state (hdr : FrameHeader) (ifidx q : Z) (sock : XskSocket) : TxState :=
  let sa := mkSockaddrXdp AF_XDP 0 ifidx q 0 in
  let '((tx, comp, pool), _) := extract_tx sock in
  mkTxState (xs_fd sock) (view tx) (view comp) pool hdr sa (zero_area (xs_umem sock)).

(** [for q in 0..workers]: the sockets are forgotten, so nothing is closed
    when a later queue fails. *)
Fixpoint open_states (try_zc : bool) (hdr : FrameHeader) (ifidx : Z) (qs : list Z)
    : sys (result xerr (list TxState)) :=
  match qs with
  | [] => mret (Okay [])
  | q :: qs =>
      try (open_queue try_zc ifidx q) (λ sock,
      try (open_states try_zc hdr ifidx qs) (λ states,
      mret (Okay (tx_state hdr ifidx q sock :: states))))
  end.

(** What [xdp_udp_blast] passes to its threads: a state each, the payload
    length and the budget; and the XDP program it keeps attached. *)
Record blast_plan : Type := BlastPlan {
  plan_states : list TxState;
  plan_payload_len : Z;
  plan_pps : Z;
  plan_handle : option XdpHandle;
}.

(** [_xdp_handle]: without the feature [xdp], or when loading fails, there
    is none. *)
Definition try_load (xdp : bool) (iface : str) : sys (option XdpHandle) :=
  if xdp then
    r ← load k XDP_PROG iface;
    mret (match r with Okay h => Some h | Err _ => None end)
  else mret None.

(** The drop of [_xdp_handle]. *)
Definition drop_handle (o : option XdpHandle) : sys () :=
  match o with Some _ => drop_ebpf k;; mret () | None => mret () end.

(** [xdp_udp_blast] up to the spawn; [xdp] is [cfg!(feature = "xdp")]. *)
Definition xdp_udp_blast (H : host) (xdp : bool) (iface : str) (dst_ip : list Z) (dst_port : Z)
    (payload_len target_pps : Z) (cpus : list Z) : sys (result blast_err blast_plan) :=
  try (mret (blast_header H iface dst_ip dst_port)) (λ '(ifidx, hdr),
  let queues := Z.max (get_rx_queue_count (h_fs H) iface) 1 in
  let n := workers cpus queues in
  let payload_len := Z.max payload_len 16 in
  handle ← try_load xdp iface;
  let try_zc := match handle with Some _ => true | None => false end in
  r ← map_err SocketFailed (open_states try_zc hdr ifidx (seqZ 0 n));
  match r with
  | Okay states => mret (Okay (BlastPlan states payload_len (pps_per target_pps n) handle))
  | Err e => drop_handle handle;; mret (Err e)
  end).

(** The receive half of a socket, as [rx_loop] uses it. *)
Definition rx_sock (sock : XskSocket) : RxSock :=
  mkRxSock (xs_fd sock) (view (xs_rx sock)) (view (um_fill (xs_umem sock)))
    (zero_area (xs_umem sock)).

(** Dropping a vector of sockets, front to back. *)
Fixpoint drop_socks (l : list XskSocket) : sys () :=
  match l with
  | [] => mret ()
  | s :: l => drop_xsk k s;; drop_socks l
  end.

(** The queue loop of the sink.  On failure the current socket, if any, and
    the collected ones are dropped. *)
Fixpoint open_socks (ifidx : Z) (qs : list Z) (acc : list XskSocket)
    : sys (result blast_err (list XskSocket)) :=
  match qs with
  | [] => mret (Okay acc)
  | q :: qs =>
      r ← open_queue true ifidx q;
      match r with
      | Err e => drop_socks acc;; mret (Err (SocketFailed e))
      | Okay sock =>
          r ← register_socket k q (xs_fd sock);
          match r with
          | Okay _ => open_socks ifidx qs (acc ++ [sock])
          | Err e => drop_xsk k sock;; drop_socks acc;; mret (Err (RegisterFailed e))
          end
      end
  end.

(** [xdp_udp_sink] up to the spawn; [handle] is dropped after the sockets. *)
Definition xdp_udp_sink (H : host) (iface : str) (cpus : list Z)
    : sys (result blast_err (list XskSocket)) :=
  match iface_index (h_ifindex H) iface with
  | None => mret (Err IfaceNotFound)
  | Some ifidx =>
      try (map_err LoadFailed (load k XDP_PROG iface)) (λ _,
      let queues := Z.max (get_rx_queue_count (h_fs H) iface) 1 in
      inspect_err (open_socks ifidx (seqZ 0 (workers cpus queues)) []) (drop_ebpf k))
  end.

(** [xdp_udp_sink] to its end.  Every thread owns its socket and drops it
    when [rx_loop] returns or unwinds, [ended] being the order in which the
    threads end; the handle is dropped after the last join. *)
Definition xdp_udp_sink_run (H : host) (iface : str) (cpus : list Z)
    (ended : list XskSocket → list XskSocket) : sys (result blast_err ()) :=
  try (xdp_udp_sink H iface cpus) (λ socks,
  drop_socks (ended socks);;
  drop_ebpf k;;
  mret (Okay ())).
End start.

(** ** Lemmas *)

Lemma parse_mac_is_mac s m : parse_mac s = Some m → is_mac m.
Proof.
  unfold parse_mac. case_decide as Hl; [|done]. intros Hm.
  apply parse_octets_length in Hm as [H1 H2]. split; [lia|done].
Qed.

Lemma lookup_arp_is_mac content server m : lookup_arp content server = Some m → is_mac m.
Proof.
  unfold lookup_arp. intros H. apply bind_Some in H as (s & _ & H). revert H.
  generalize (drop 1 (lines s)). intros l. induction l as [|line l IH]; cbn [arp_lines]; [done|].
  destruct (split_whitespace line) as [|ip rest]; [done|].
  case_decide; [|done]. destruct rest as [|hw [|fl rest]]; try done.
  case_decide; [done|]. destruct rest as [|mac rest]; [done|]. apply parse_mac_is_mac.
Qed.

Lemma resolve_is_mac arp server m : resolve_server_mac arp server = Some m → is_mac m.
Proof.
  change (resolve_server_mac arp server) with (arp_retry arp 0 6 server). intros H.
  apply arp_retry_first in H as (i & _ & H & _). by eapply lookup_arp_is_mac.
Qed.

(** Every IPv4 entry of the address list has four octets. *)
Definition addrs_ok (l : option (list ifaddrs)) : Prop :=
  ∀ es, l = Some es → Forall (λ e, ∀ f o, ifa_addr e = Some (f, o) → f = AF_INET_ID → is_ip o) es.

Lemma local_ipv4_is_ip l iface a : addrs_ok l → local_ipv4 l iface = Some a → is_ip a.
Proof.
  intros Hok H. unfold local_ipv4 in H. apply bind_Some in H as (es & E & H).
  specialize (Hok es E). clear E. induction Hok as [|e es He _ IH]; [done|].
  destruct (local_ipv4_cons e es iface) as [(o & [Ho _] & E)|[_ E]]; rewrite E in H; [|by apply IH].
  simplify_eq. specialize (He _ _ Ho eq_refl). by rewrite ipv4_from_be32.
Qed.

(** A header that was built has well-formed addresses. *)
Lemma blast_header_ok H iface dst_ip dst_port ifidx hd :
  addrs_ok (h_ifaddrs H) → blast_header H iface dst_ip dst_port = Okay (ifidx, hd) →
  ∃ src_mac dst_mac src_ip, is_mac src_mac ∧ is_mac dst_mac ∧ is_ip src_ip
    ∧ hd = FrameHeader_new src_mac dst_mac src_ip dst_ip 40000 dst_port.
Proof.
  intros Ha. unfold blast_header. destruct (iface_index _ _); [|done].
  destruct (local_ipv4 _ _) as [src_ip|] eqn:Ei; [|done].
  destruct (local_mac _) as [src_mac|] eqn:Em; [|done].
  destruct (resolve_server_mac _ _) as [dst_mac|] eqn:Ed; [|done]. intros [= <- <-].
  exists src_mac, dst_mac, src_ip. split_and!; [|by eapply resolve_is_mac|by eapply local_ipv4_is_ip|done].
  unfold local_mac in Em. apply bind_Some in Em as (s & _ & Em). by eapply parse_mac_is_mac.
Qed.

Lemma workers_pos cpus queues : 1 ≤ workers cpus queues.
Proof. unfold workers. lia. Qed.

(** *** The frames *)

Lemma workers_small cpus queues : workers cpus queues < 2 ^ 32.
Proof. unfold workers. pose proof (wrap_fits 32 (zlen cpus) ltac:(lia)) as [H1 H2]. lia. Qed.

Lemma elem_of_frames a first last :
  a ∈ frames first last ↔ ∃ i, first ≤ i < last ∧ a = i * FRAME_SIZE.
Proof.
  unfold frames. rewrite list_elem_of_fmap. setoid_rewrite elem_of_seqZ.
  split; intros (i & H1 & H2); exists i; split; auto; lia.
Qed.

Lemma NoDup_frames first last : NoDup (frames first last).
Proof.
  apply NoDup_fmap_2; [|apply NoDup_seqZ]. intros i j. unfold FRAME_SIZE. lia.
Qed.

Lemma length_zero_area u : umem_ok u → zlen (zero_area u) = FRAME_COUNT * FRAME_SIZE.
Proof.
  intros (Hl & _). unfold zero_area. rewrite length_replicate, Z2Nat.id; [done|].
  rewrite Hl. unfold FRAME_COUNT, FRAME_SIZE. lia.
Qed.

Lemma frames_in_area u first last a :
  umem_ok u → 0 ≤ first → last ≤ FRAME_COUNT → a ∈ frames first last →
  0 ≤ a ∧ (FRAME_SIZE | a) ∧ a + FRAME_SIZE ≤ zlen (zero_area u).
Proof.
  intros Hu Hf Hl Ha. apply elem_of_frames in Ha as (i & Hi & ->).
  rewrite length_zero_area by done. unfold FRAME_COUNT, FRAME_SIZE in *.
  split_and!; [lia|by exists i|lia].
Qed.

(** A new socket's transmit half satisfies the generator's invariant, and
    its receive half the sink's. *)
Lemma tx_state_inv src_mac dst_mac src_ip dst_ip src_port dst_port ifidx q s :
  xsk_ok s →
  tx_inv src_mac dst_mac src_ip dst_ip src_port dst_port 11 11 (frames RING_SIZE FRAME_COUNT)
    (tx_state (FrameHeader_new src_mac dst_mac src_ip dst_ip src_port dst_port) ifidx q s) [] [] [].
Proof.
  intros (Hu & _ & Ht & _ & _ & Hp). pose proof Hu as (_ & _ & Hc & _). split; try done.
  - apply NoDup_frames.
  - intros a Ha. apply (frames_in_area _ RING_SIZE FRAME_COUNT); done.
  - cbn. by rewrite Hp, app_nil_r.
Qed.

Lemma rx_sock_inv s :
  xsk_ok s →
  rx_inv 11 11 (frames 0 RING_SIZE) (rx_sock s) [] (frames 0 RING_SIZE) [].
Proof.
  intros (Hu & Hr & _). pose proof Hu as (_ & Hf & _). split; [done|done| | |done].
  - intros a Ha. destruct (frames_in_area (xs_umem s) 0 RING_SIZE a) as (? & _ & ?); done.
  - cbn. rewrite app_nil_r. rewrite <- (list_fmap_id (frames 0 RING_SIZE)) at 2.
    apply (reflexive_eq (R := (≡ₚ))), list_fmap_ext. intros i a Ha.
    apply list_elem_of_lookup_2, elem_of_frames in Ha as (j & Hj & ->).
    unfold chunk, id, FRAME_SIZE. rewrite Z.div_mul; lia.
Qed.

Abbreviation succeeds m h := (wp m h (λ r _, match r with Okay _ => True | Err _ => False end)).

Section specs.
Context (p : profile) (k : kernel) (XDP_PROG : list Z) (Hk : xsk_contract k).

Lemma wp_create ifidx q zc h :
  wp (create_xsk_socket p k ifidx q zc) h
    (λ r _, match r with Okay s => xsk_ok s | Err _ => True end).
Proof.
  eapply wp_mono; [by apply wp_create_xsk_socket|]. intros [s|e] h'; [|done]. by intros (Hs & _).
Qed.

Lemma wp_or_else {E A} (m f : sys (result E A)) h (Q : result E A → history → Prop) :
  wp m h (λ r h', match r with Okay a => Q (Okay a) h' | Err _ => wp f h' Q end) →
  wp (or_else m f) h Q.
Proof.
  intros H. apply wp_bind. eapply wp_mono; [exact H|]. intros [a|e] h' H'; [by apply wp_ret|done].
Qed.

Lemma wp_open_queue try_zc ifidx q h :
  wp (open_queue p k try_zc ifidx q) h
    (λ r _, match r with Okay s => xsk_ok s | Err _ => True end).
Proof.
  unfold open_queue. destruct try_zc; [|apply wp_create].
  apply wp_or_else. eapply wp_mono; [apply wp_create|]. intros [s|e] h' Hs; [done|apply wp_create].
Qed.

Lemma wp_open_states try_zc hd ifidx qs h :
  wp (open_states p k try_zc hd ifidx qs) h
    (λ r _, match r with
            | Okay l => Forall2 (λ q s, ∃ sock, xsk_ok sock ∧ s = tx_state hd ifidx q sock) qs l
            | Err _ => True
            end).
Proof.
  revert h. induction qs as [|q qs IH]; intros h; cbn [open_states].
  { apply wp_ret. constructor. }
  apply wp_try. eapply wp_mono; [apply wp_open_queue|]. intros [sock|e] h1 Hs; [|done].
  apply wp_try. eapply wp_mono; [apply IH|]. intros [l|e] h2 Hl; [|done].
  apply wp_ret. constructor; [by exists sock|done].
Qed.

Lemma wp_drop_socks l h : wp (drop_socks k l) h (λ _ _, True).
Proof.
  revert h. induction l as [|s l IH]; intros h; cbn [drop_socks]; [by apply wp_ret|].
  apply wp_bind, wp_bind, wp_syscall, wp_syscall, IH.
Qed.

Lemma keeps_bpf_drop_socks l : keeps bpf (drop_socks k l).
Proof.
  induction l as [|s l IH]; cbn [drop_socks]; [apply keeps_ret|].
  apply keeps_bind; [apply keeps_bpf_drop_xsk|done].
Qed.

Lemma keeps_bpf_open_queue try_zc ifidx q : keeps bpf (open_queue p k try_zc ifidx q).
Proof.
  unfold open_queue, or_else. destruct try_zc; [|apply keeps_bpf_create].
  apply keeps_bind; [apply keeps_bpf_create|]. intros [s|e]; [done|apply keeps_bpf_create].
Qed.

Lemma keeps_bpf_open_states try_zc hd ifidx qs : keeps bpf (open_states p k try_zc hd ifidx qs).
Proof.
  induction qs as [|q qs IH]; cbn [open_states]; [apply keeps_ret|].
  apply keeps_try; [apply keeps_bpf_open_queue|]. intros sock. apply keeps_try; [done|]. intros l.
  apply keeps_ret.
Qed.

(** The XSKS map that serves [socks]: queue [i] to the [i]-th socket. *)
Definition served (iface : str) (m : xdp_flags) (socks : list XskSocket) : bpf_state :=
  BpfState true (Some (iface, m)) (map_seqZ 0 (xs_fd <$> socks)).

Lemma wp_open_socks ifidx iface m n : ∀ acc h,
  Forall xsk_ok acc → bpf h = served iface m acc →
  wp (open_socks p k ifidx (seqZ (zlen acc) (Z.of_nat n)) acc) h
    (λ r h', match r with
             | Okay l => Forall xsk_ok l ∧ length l = (length acc + n)%nat ∧ bpf h' = served iface m l
             | Err _ => True
             end).
Proof.
  induction n as [|n IH]; intros acc h Hacc Hb.
  { apply wp_ret. split_and!; [done|lia|done]. }
  rewrite seqZ_cons by lia. cbn [open_socks].
  apply wp_bind. eapply wp_mono; [apply (wp_keeps bpf); [apply keeps_bpf_open_queue|apply wp_open_queue]|].
  intros [sock|e] h1 [Hs H1].
  2:{ apply wp_bind. eapply wp_mono; [apply wp_drop_socks|]. intros _ h2 _. by apply wp_ret. }
  apply wp_bind. eapply wp_mono; [apply wp_register|]. intros [[]|e] h2 H2.
  - replace (Z.succ (zlen acc)) with (zlen (acc ++ [sock])) by (rewrite length_app; cbn; lia).
    replace (Z.pred (Z.of_nat (S n))) with (Z.of_nat n) by lia.
    eapply wp_mono; [apply (IH (acc ++ [sock]))|].
    + apply Forall_app. split; [done|]. by constructor.
    + rewrite H2, H1, Hb. unfold served. cbn [bpf_alive bpf_attached bpf_xsks]. f_equal.
      rewrite fmap_app. change (xs_fd <$> [sock]) with [xs_fd sock].
      by rewrite map_seqZ_snoc, length_fmap, Z.add_0_l.
    + intros [l|e] h3; [|done]. rewrite length_app. cbn [length]. intros (Hl & HL & Hbl).
      split_and!; [done|lia|done].
  - apply wp_bind, wp_bind, wp_syscall, wp_syscall, wp_bind.
    eapply wp_mono; [apply wp_drop_socks|]. intros _ h3 _. by apply wp_ret.
Qed.

Lemma wp_try_load xdp iface h : wp (try_load k XDP_PROG xdp iface) h (λ o h',
  match o with
  | Some _ => xdp = true ∧ ∃ m, bpf h' = BpfState true (Some (iface, m)) ∅
  | None => bpf h = bpf_none → bpf h' = bpf_none
  end).
Proof.
  unfold try_load. destruct xdp; [|by apply wp_ret].
  apply wp_bind. eapply wp_mono; [apply wp_load|]. intros [x|e] h1 H1; by apply wp_ret.
Qed.

Lemma wp_drop_handle o h : wp (drop_handle k o) h (λ _ h', bpf h' =
  match o with Some _ => bpf_none | None => bpf h end).
Proof.
  destruct o; [|by apply wp_ret]. apply wp_bind, wp_syscall, wp_ret. by rewrite bpf_snoc.
Qed.

(** What a sink set-up that succeeded hands to its threads. *)
Lemma wp_xdp_udp_sink H iface cpus h :
  wp (xdp_udp_sink p k XDP_PROG H iface cpus) h (λ r h', match r with
    | Okay socks => Forall xsk_ok socks
        ∧ zlen socks = workers cpus (Z.max (get_rx_queue_count (h_fs H) iface) 1)
        ∧ ∃ m, bpf h' = served iface m socks
    | Err _ => bpf h = bpf_none → bpf h' = bpf_none
    end).
Proof.
  unfold xdp_udp_sink. destruct (iface_index _ _) as [ifidx|]; [|by apply wp_ret].
  apply wp_try, wp_bind. eapply wp_mono; [apply wp_load|]. intros [x|e] h1 H1; apply wp_ret; [|done].
  destruct H1 as [m Hm]. pose proof (workers_pos cpus (Z.max (get_rx_queue_count (h_fs H) iface) 1)) as Hn.
  set (n := workers _ _) in *. apply wp_inspect_err.
  pose proof (wp_open_socks ifidx iface m (Z.to_nat n) [] h1 (Forall_nil_2 _)) as Ho.
  rewrite Z2Nat.id in Ho by lia. eapply wp_mono; [by apply Ho|]. intros [l|e] h2.
  - intros (Hl & HL & Hb). split_and!; [done|cbn in HL; lia|by exists m].
  - intros _. apply wp_syscall. by rewrite bpf_snoc.
Qed.

(** What a generator set-up that succeeded hands to its threads. *)
Lemma wp_xdp_udp_blast H xdp iface dst_ip dst_port payload_len target cpus h :
  addrs_ok (h_ifaddrs H) →
  wp (xdp_udp_blast p k XDP_PROG H xdp iface dst_ip dst_port payload_len target cpus) h (λ r _,
    match r with
    | Okay plan =>
        let n := workers cpus (Z.max (get_rx_queue_count (h_fs H) iface) 1) in
        zlen (plan_states plan) = n
        ∧ plan_payload_len plan = Z.max payload_len 16 ∧ plan_pps plan = pps_per target n
        ∧ ∃ src_mac dst_mac src_ip, is_mac src_mac ∧ is_mac dst_mac ∧ is_ip src_ip
          ∧ ∀ w s, plan_states plan !! w = Some s →
              sxdp_queue_id (sa s) = Z.of_nat w
              ∧ tx_inv src_mac dst_mac src_ip dst_ip 40000 dst_port 11 11
                  (frames RING_SIZE FRAME_COUNT) s [] [] []
    | Err _ => True
    end).
Proof.
  intros Ha. unfold xdp_udp_blast. apply wp_try, wp_ret.
  destruct (blast_header H iface dst_ip dst_port) as [[ifidx hd]|e] eqn:E; [|done].
  destruct (blast_header_ok _ _ _ _ _ _ Ha E) as (sm & dm & si & Hsm & Hdm & Hsi & ->).
  set (n := workers _ _). apply wp_bind.
  eapply wp_mono; [apply wp_try_load|]. intros handle h0 _. apply wp_bind, wp_bind.
  eapply wp_mono; [apply wp_open_states|]. intros [l|e] h1 Hl; apply wp_ret.
  2:{ apply wp_bind. eapply wp_mono; [apply wp_drop_handle|]. intros _ h2 _. by apply wp_ret. }
  apply wp_ret. cbn [plan_states plan_payload_len plan_pps].
  pose proof (workers_pos cpus (Z.max (get_rx_queue_count (h_fs H) iface) 1)) as Hn. fold n in Hn.
  split_and!; [|done|done|].
  { rewrite <- (Forall2_length _ _ _ Hl), length_seqZ. lia. }
  exists sm, dm, si. split_and!; try done. intros w s Hw.
  destruct (Forall2_lookup_r _ _ _ _ _ Hl Hw) as (q & Hq & sock & Hs & ->).
  apply lookup_seqZ in Hq as [-> _]. split; [cbn; lia|by apply tx_state_inv].
Qed.

(** *** When zero-copy may be refused and nothing else is *)

Context (Hgrant : grants false k).

Lemma good_open_queue try_zc ifidx q h : succeeds (open_queue p k try_zc ifidx q) h.
Proof.
  unfold open_queue. destruct try_zc.
  - apply wp_or_else. eapply wp_mono; [apply wp_create|]. intros [s|e] h' Hs; [done|].
    by eapply good_create_xsk_socket.
  - by eapply good_create_xsk_socket.
Qed.

Lemma good_open_states try_zc hd ifidx qs h : succeeds (open_states p k try_zc hd ifidx qs) h.
Proof.
  revert h. induction qs as [|q qs IH]; intros h; cbn [open_states]; [by apply wp_ret|].
  apply wp_try. eapply wp_mono; [apply good_open_queue|]. intros [sock|e] h1 ?; [|done].
  apply wp_try. eapply wp_mono; [apply IH|]. intros [l|e] h2 ?; [|done]. by apply wp_ret.
Qed.

Lemma good_xdp_udp_blast H xdp iface dst_ip dst_port payload_len target cpus h x :
  blast_header H iface dst_ip dst_port = Okay x →
  succeeds (xdp_udp_blast p k XDP_PROG H xdp iface dst_ip dst_port payload_len target cpus) h.
Proof.
  intros E. unfold xdp_udp_blast. apply wp_try, wp_ret. rewrite E. destruct x as [ifidx hd].
  apply wp_bind. eapply wp_mono; [apply wp_try_load|]. intros handle h0 _.
  apply wp_bind, wp_bind. eapply wp_mono; [apply good_open_states|].
  intros [l|e] h1 ?; [|done]. by apply wp_ret, wp_ret.
Qed.

Context (Haya : aya_grants k).

Lemma good_open_socks ifidx qs : ∀ acc h, succeeds (open_socks p k ifidx qs acc) h.
Proof.
  induction qs as [|q qs IH]; intros acc h; cbn [open_socks]; [by apply wp_ret|].
  apply wp_bind. eapply wp_mono; [apply good_open_queue|]. intros [sock|e] h1 ?; [|done].
  apply wp_bind. eapply wp_mono; [by apply good_register|]. intros ? h2 ->. apply IH.
Qed.

Lemma good_xdp_udp_sink H iface cpus h ifidx :
  iface_index (h_ifindex H) iface = Some ifidx →
  succeeds (xdp_udp_sink p k XDP_PROG H iface cpus) h.
Proof.
  intros E. unfold xdp_udp_sink. rewrite E. apply wp_try, wp_bind.
  eapply wp_mono; [by apply good_load|]. intros ? h1 ->. apply wp_ret, wp_inspect_err.
  eapply wp_mono; [apply good_open_socks|]. by intros [l|e] h2 ?.
Qed.
End specs.

(** ** A concrete host *)

Definition demo_host : host :=
  Host (λ n, if bool_decide (n = lit "eth0") then 2 else 0)
    (Some [Ifaddrs (Some (lit "lo")) (Some (2, [127;0;0;1])) (Some [255;0;0;0]);
           Ifaddrs (Some (lit "eth0")) (Some (2, [10;0;0;5])) (Some [255;255;255;0])])
    (Fs (λ p, if bool_decide (p = lit "/sys/class/net/eth0/queues")
              then Some [Some (lit "rx-0"); Some (lit "tx-0"); Some (lit "rx-1"); None] else None)
        (λ p, if bool_decide (p = lit "/sys/class/net/eth0/address")
              then Some (lit "02:00:00:00:00:05" ++ [10]) else None)
        (λ _, false) (λ _, None))
    (λ _, Some (unlines [ARP_HEAD; print_row (ArpRow [10;0;0;9] true [2;0;0;0;0;9])])).

Lemma demo_addrs_ok : addrs_ok (h_ifaddrs demo_host).
Proof.
  intros es E. injection E as <-.
  do 2 (apply Forall_cons_2; [intros f o [= <- <-] _; apply (bool_decide_unpack _); vm_compute; exact I|]).
  apply Forall_nil_2.
Defined.

(** An object file's first bytes. *)
Definition demo_prog : list Z := [127; 69; 76; 70].

(** A driver without zero-copy. *)
Definition no_zerocopy (h : history) (c : call) : bool :=
  match c with
  | Bind _ (SaXdp sa) => negb (Z.land (sxdp_flags sa) XDP_ZEROCOPY =? 0)
  | _ => false
  end.

Lemma no_zerocopy_grants : grants false (demo_kernel no_zerocopy).
Proof.
  apply demo_kernel_good. intros h c Hc. split; [done|].
  destruct c as [| | | | | | |fd [sa|]| | |]; try done. exists fd, sa. split; [done|].
  cbn in Hc. intros E. by rewrite E in Hc.
Defined.

Lemma no_zerocopy_aya : aya_grants (demo_kernel no_zerocopy).
Proof. split; reflexivity. Defined.

(** ** Properties *)



(** The set-up needs nothing but a granted system call: on a kernel and
    driver that refuse only zero-copy binds, [xdp_udp_blast] with a
    resolvable destination still starts, in copy mode, even when zero-copy
    was attempted first. *)
Theorem xdp_udp_blast_falls_back p k XDP_PROG H xdp iface dst_ip dst_port payload_len target cpus h x :
  xsk_contract k → grants false k → blast_header H iface dst_ip dst_port = Okay x →
  ∃ plan h', xdp_udp_blast p k XDP_PROG H xdp iface dst_ip dst_port payload_len target cpus h
    = (Ok (Okay plan), h').
Proof.
  intros Hk Hg E.
  destruct (good_xdp_udp_blast p k XDP_PROG Hk Hg H xdp iface dst_ip dst_port payload_len target cpus h x E)
    as ([plan|e] & h' & Hrun & Hr); [by exists plan, h'|done].
Qed.

Lemma xdp_udp_blast_falls_back_witness :
  ∃ plan h', xdp_udp_blast Release (demo_kernel no_zerocopy) demo_prog demo_host true (lit "eth0") [10;0;0;9]
    5201 1400 0 [0; 1; 2; 3] [] = (Ok (Okay plan), h').
Proof.
  destruct (blast_header demo_host (lit "eth0") [10;0;0;9] 5201) as [x|e] eqn:E.
  - exact (xdp_udp_blast_falls_back Release _ demo_prog demo_host true (lit "eth0") [10;0;0;9] 5201 1400 0
      [0; 1; 2; 3] [] x (demo_kernel_contract _) no_zerocopy_grants E).
  - vm_compute in E. discriminate E.
Defined.

(** The workers' budgets never add up to more than the target rate, or
    to one packet per second and worker when the target is below the number
    of workers; a target of 0 means no budget at all. *)
Theorem pps_budget cpus queues target :
  0 ≤ target →
  (target = 0 → pps_per target (workers cpus queues) = 0)
  ∧ (0 < target →
       1 ≤ pps_per target (workers cpus queues)
       ∧ workers cpus queues * pps_per target (workers cpus queues)
         ≤ Z.max target (workers cpus queues)).
Proof.
  intros Ht. unfold pps_per. pose proof (workers_pos cpus queues) as Hn.
  split; [by intros ->|]. intros Hpos. destruct (Z.eqb_spec target 0); [lia|].
  split; [lia|]. pose proof (Z.mul_div_le target (workers cpus queues)). nia.
Qed.

Lemma pps_budget_witness :
  workers [0; 1; 2] 8 * pps_per 1000 (workers [0; 1; 2] 8) ≤ 1000.
Proof.
  destruct (pps_budget [0; 1; 2] 8 1000 ltac:(lia)) as [_ H].
  destruct (H ltac:(lia)) as [_ Hle]. vm_compute in Hle. vm_compute. exact Hle.
Defined.

(** C11: the sink from start to end.  If [xdp_udp_sink]'s set-up succeeds,
    its XDP program is attached to the interface, the XSKS map sends queue
    [q] to the socket of the [q]-th worker for every worker and holds nothing
    else, and every worker's whole run is safe against any kernel that keeps
    the receive contract, with counters that account for exactly the frames
    drained. *)
Theorem xdp_udp_sink_safe p k XDP_PROG H iface cpus h socks h' :
  xsk_contract k →
  xdp_udp_sink p k XDP_PROG H iface cpus h = (Ok (Okay socks), h') →
  zlen socks = workers cpus (Z.max (get_rx_queue_count (h_fs H) iface) 1)
  ∧ (∃ m, bpf h' = served iface m socks)
  ∧ ∀ s deadline envs c, s ∈ socks →
      is_u64 (bytes c) → is_u64 (packets c) →
      Forall (λ e, rx_contract 11 11 (rx_kernel e)) envs →
      let log := rx_log Release deadline envs (rx_sock s) [] ∅ c in
      ∃ s' held' last' c' lft,
        rx_loop Release deadline envs (rx_sock s) c = Ok (s', held', last', c', lft)
        ∧ note_all Release ∅ (add_packets (log_packets log) (add_bytes (log_bytes log) c))
            (log_arrivals log) = Ok (last', c').
Proof.
  intros Hk E.
  destruct (wp_outcome _ _ _ _ _ (wp_xdp_udp_sink p k XDP_PROG Hk H iface cpus h) E)
    as (r & [= <-] & Hall & Hlen & Hb).
  split_and!; [done..|]. intros s deadline envs c Hs Hbc Hp Hc log. rewrite Forall_forall in Hall.
  assert (zlen (frames 0 RING_SIZE) ≤ 2 ^ 11) as Hcap.
  { rewrite length_frames by (unfold RING_SIZE; lia). unfold RING_SIZE. lia. }
  destruct (rx_loop_run 11 11 (frames 0 RING_SIZE) Hcap Hcap deadline envs (rx_sock s) []
    (frames 0 RING_SIZE) c (rx_sock_inv s (Hall s Hs)) Hbc Hp Hc)
    as (s' & qr' & qf' & held' & last' & c' & lft & Hrun & _ & Hnote & _).
  by exists s', held', last', c', lft.
Qed.

Lemma xdp_udp_sink_safe_witness :
  ∃ socks h', xdp_udp_sink Release (demo_kernel no_zerocopy) demo_prog demo_host
      (lit "eth0") [0; 1; 2; 3] [] = (Ok (Okay socks), h')
    ∧ zlen socks = 2
    ∧ (∃ m, bpf h' = served (lit "eth0") m socks)
    ∧ ∀ s, s ∈ socks →
        let log := rx_log Release 10 [RxEnv true 1 echo_kernel] (rx_sock s) [] ∅ Counters_default in
        ∃ s' held' last' c' lft,
          rx_loop Release 10 [RxEnv true 1 echo_kernel] (rx_sock s) Counters_default
            = Ok (s', held', last', c', lft)
          ∧ note_all Release ∅ (add_packets (log_packets log)
              (add_bytes (log_bytes log) Counters_default)) (log_arrivals log) = Ok (last', c').
Proof.
  destruct (good_xdp_udp_sink Release _ demo_prog (demo_kernel_contract _) no_zerocopy_grants
    no_zerocopy_aya demo_host (lit "eth0") [0; 1; 2; 3] [] 2 eq_refl) as ([socks|e] & h' & E & Hr);
    [|destruct Hr].
  exists socks, h'. split; [exact E|].
  destruct (xdp_udp_sink_safe Release _ demo_prog demo_host (lit "eth0") [0; 1; 2; 3] [] socks
    h' (demo_kernel_contract _) E) as (Hn & Hm & Hrun).
  split; [rewrite Hn; vm_compute; reflexivity|]. split; [exact Hm|]. intros s Hs.
  apply (Hrun s 10 [RxEnv true 1 echo_kernel] Counters_default Hs);
    [split; [discriminate|reflexivity]..|].
  repeat constructor; apply echo_kernel_contract.
Defined.
