(* ===== verification/Datapath.v ===== *)
(** * The AF_XDP datapath put together

    What the set-up of generator and sink leaves behind on every path
    (sockets, the XDP program), and a frame's way from the generator's umem
    through the XDP program ([Filter]) and the XSKS map the sink filled to
    the receive loop of the worker that owns the queue. *)

From S2P Require Import Prelude Ring Simd Strs Frame Loss Gen Sink Sys Xsk Loader Netif Filter Blast.

(** ** Descriptors along the set-up *)

Lemma remove1_cons {A} `{EqDecision A} (x : A) l k : l ≡ₚ x :: k → remove1 x l ≡ₚ k.
Proof.
  intros H. assert (x ∈ l) as Hin by (rewrite H; left).
  apply list_elem_of_split in Hin as (l1 & l2 & ->). rewrite remove1_perm.
  rewrite <- Permutation_middle in H. by apply Permutation_cons_inv in H.
Qed.

Section resources.
Context (p : profile) (k : kernel) (XDP_PROG : list Z) (Hk : xsk_contract k).

(** The only call whose failure leaks a descriptor does not fail. *)
Context (Hoff : ∀ h fd, ret (k h (Getsockopt_offsets fd)) = 0).

Lemma wp_create_fds ifidx q zc h :
  wp (create_xsk_socket p k ifidx q zc) h (λ r h', fds (opened h') =
    match r with Okay s => xs_fd s :: fds (opened h) | Err _ => fds (opened h) end).
Proof.
  pose proof (no_offsets_error p k ifidx q zc Hoff h) as Hn.
  destruct (wp_create_xsk_socket p k Hk ifidx q zc h) as (r & h' & E & Hp).
  exists r, h'. split; [done|]. rewrite E in Hn. cbn [fst] in Hn. destruct r as [s|e].
  - by destruct Hp as (_ & _ & Hf & _).
  - destruct Hp as (lf & lm & -> & _ & Hl).
    assert (length lf = 0%nat) as Hz by (destruct e; cbn in Hl; naive_solver).
    by destruct lf.
Qed.

Lemma wp_open_queue_fds try_zc ifidx q h :
  wp (open_queue p k try_zc ifidx q) h (λ r h', fds (opened h') =
    match r with Okay s => xs_fd s :: fds (opened h) | Err _ => fds (opened h) end).
Proof.
  unfold open_queue. destruct try_zc; [|apply wp_create_fds].
  apply wp_or_else. eapply wp_mono; [apply wp_create_fds|]. intros [s|e] h' H'; [done|].
  rewrite <- H'. apply wp_create_fds.
Qed.

Lemma wp_drop_xsk_fds s h l :
  fds (opened h) ≡ₚ xs_fd s :: l → wp (drop_xsk k s) h (λ _ h', fds (opened h') ≡ₚ l).
Proof.
  intros H. apply wp_bind, wp_syscall, wp_syscall. rewrite !opened_snoc.
  unfold open_step. cbn [fst fds]. by apply remove1_cons.
Qed.

Lemma wp_drop_socks_fds socks l : ∀ h,
  fds (opened h) ≡ₚ (xs_fd <$> socks) ++ l → wp (drop_socks k socks) h (λ _ h', fds (opened h') ≡ₚ l).
Proof.
  induction socks as [|s socks IH]; intros h H; cbn [drop_socks]; [by apply wp_ret|].
  apply wp_bind. eapply wp_mono; [apply (wp_drop_xsk_fds s h ((xs_fd <$> socks) ++ l)); done|].
  intros ? h1 H1. by apply IH.
Qed.

(** The sink's loop: all sockets on success, none on failure. *)
Lemma wp_open_socks_fds ifidx l qs : ∀ acc h,
  fds (opened h) ≡ₚ (xs_fd <$> acc) ++ l →
  wp (open_socks p k ifidx qs acc) h (λ r h', fds (opened h') ≡ₚ
    match r with Okay socks => (xs_fd <$> socks) ++ l | Err _ => l end).
Proof.
  induction qs as [|q qs IH]; intros acc h H; cbn [open_socks]; [by apply wp_ret|].
  apply wp_bind. eapply wp_mono; [apply wp_open_queue_fds|]. intros [sock|e] h1 H1.
  2:{ apply wp_bind. eapply wp_mono; [apply (wp_drop_socks_fds acc l); by rewrite H1|].
      intros ? h2 H2. by apply wp_ret. }
  apply wp_bind. eapply wp_mono; [apply (wp_keeps opened); [apply keeps_opened_register|apply wp_register]|].
  intros [[]|e] h2 [_ H2].
  - apply IH. rewrite H2, H1, H, fmap_app. cbn. by rewrite <- app_assoc, Permutation_middle.
  - apply wp_bind. eapply wp_mono; [apply (wp_drop_xsk_fds sock _ ((xs_fd <$> acc) ++ l)); by rewrite H2, H1, H|].
    intros ? h3 H3. apply wp_bind. eapply wp_mono; [by apply (wp_drop_socks_fds acc l)|].
    intros ? h4 H4. by apply wp_ret.
Qed.

(** The generator's loop: it forgets its sockets, so they stay open. *)
Lemma wp_open_states_fds try_zc hd ifidx qs : ∀ h,
  wp (open_states p k try_zc hd ifidx qs) h (λ r h', ∃ new,
    fds (opened h') = new ++ fds (opened h) ∧
    match r with
    | Okay states => new = reverse (ts_fd <$> states)
    | Err _ => (length new < length qs)%nat
    end).
Proof.
  induction qs as [|q qs IH]; intros h; cbn [open_states]; [apply wp_ret; by exists []|].
  apply wp_try. eapply wp_mono; [apply wp_open_queue_fds|]. intros [sock|e] h1 H1.
  2:{ exists []. split; [done|cbn; lia]. }
  apply wp_try. eapply wp_mono; [apply IH|]. rewrite H1. intros [states|e] h2 (new & H2 & Hn).
  - subst new. apply wp_ret. exists (reverse (ts_fd <$> states) ++ [xs_fd sock]).
    split; [rewrite H2; by rewrite <- app_assoc|].
    by rewrite fmap_cons, reverse_cons.
  - exists (new ++ [xs_fd sock]). split; [rewrite H2; by rewrite <- app_assoc|].
    rewrite length_app. cbn. lia.
Qed.

Lemma wp_opened_load iface h (Q : result load_err XdpHandle → history → Prop) :
  (∀ r h', opened h' = opened h →
     match r with
     | Okay _ => ∃ m, bpf h' = BpfState true (Some (iface, m)) ∅
     | Err _ => bpf h = bpf_none → bpf h' = bpf_none
     end → Q r h') →
  wp (load k XDP_PROG iface) h Q.
Proof.
  intros HQ. eapply wp_mono; [apply (wp_keeps opened); [apply keeps_opened_load|apply wp_load]|].
  intros r h' [H1 H2]. by apply HQ.
Qed.
End resources.

(** The set-up's two outcomes. *)
Lemma sink_setup p k XDP_PROG H iface cpus h :
  xsk_contract k → (∀ h fd, ret (k h (Getsockopt_offsets fd)) = 0) → bpf h = bpf_none →
  ∃ r h', xdp_udp_sink p k XDP_PROG H iface cpus h = (Ok r, h')
    ∧ match r with
      | Okay socks => fds (opened h') ≡ₚ (xs_fd <$> socks) ++ fds (opened h)
          ∧ ∃ m, bpf h' = served iface m socks
      | Err _ => fds (opened h') ≡ₚ fds (opened h) ∧ bpf h' = bpf_none
      end.
Proof.
  intros Hk Hoff Hb.
  assert (wp (xdp_udp_sink p k XDP_PROG H iface cpus) h (λ r h', fds (opened h') ≡ₚ
    match r with Okay socks => (xs_fd <$> socks) ++ fds (opened h) | Err _ => fds (opened h) end)) as Hf.
  { unfold xdp_udp_sink. destruct (iface_index _ _) as [ifidx|]; [|by apply wp_ret].
    apply wp_try, wp_bind, wp_opened_load. intros [x|e] h1 H1 _; apply wp_ret; [|by rewrite H1].
    apply wp_inspect_err. eapply wp_mono; [apply (wp_open_socks_fds p k Hk Hoff ifidx (fds (opened h))); by rewrite H1|].
    intros [l|e] h2 H2; [done|]. apply wp_syscall. by rewrite opened_snoc. }
  destruct (wp_and _ _ _ _ Hf (wp_xdp_udp_sink p k XDP_PROG Hk H iface cpus h)) as (r & h' & E & H1 & H2).
  exists r, h'. split; [done|]. destruct r; [|by auto]. by destruct H2 as (_ & _ & ?).
Qed.

(** ** Properties *)

(** Resources of the sink's set-up.  As long as
    [getsockopt(XDP_MMAP_OFFSETS)] works, whichever other call fails,
    [xdp_udp_sink] ends in one of two states: all its sockets open, the XDP
    program attached and the XSKS map sending each queue to its socket; or
    an error with every socket it opened closed again and the program
    detached. *)
Theorem sink_setup_resources p k XDP_PROG H iface cpus h :
  xsk_contract k → (∀ h fd, ret (k h (Getsockopt_offsets fd)) = 0) → bpf h = bpf_none →
  ∃ r h', xdp_udp_sink p k XDP_PROG H iface cpus h = (Ok r, h')
    ∧ match r with
      | Okay socks => fds (opened h') ≡ₚ (xs_fd <$> socks) ++ fds (opened h)
          ∧ ∃ m, bpf h' = served iface m socks
      | Err _ => fds (opened h') ≡ₚ fds (opened h) ∧ bpf h' = bpf_none
      end.
Proof. apply sink_setup. Qed.

(** C29: The sink leaves nothing behind.  As long as
    [getsockopt(XDP_MMAP_OFFSETS)] works, whichever call fails in the set-up
    and in whatever order its threads end, when [xdp_udp_sink] returns every
    descriptor it opened is closed, none it found is, and no XDP program is
    attached or loaded. *)
Theorem sink_run_releases p k XDP_PROG H iface cpus ended h :
  xsk_contract k → (∀ h fd, ret (k h (Getsockopt_offsets fd)) = 0) → bpf h = bpf_none →
  (∀ l, ended l ≡ₚ l) →
  ∃ r h', xdp_udp_sink_run p k XDP_PROG H iface cpus ended h = (Ok r, h')
    ∧ fds (opened h') ≡ₚ fds (opened h) ∧ bpf h' = bpf_none.
Proof.
  intros Hk Hoff Hb He. destruct (sink_setup p k XDP_PROG H iface cpus h Hk Hoff Hb) as (r & h1 & E & Hr).
  enough (wp (xdp_udp_sink_run p k XDP_PROG H iface cpus ended) h
    (λ _ h', fds (opened h') ≡ₚ fds (opened h) ∧ bpf h' = bpf_none)) as (r' & h' & E' & ?) by (by exists r', h').
  unfold xdp_udp_sink_run. apply wp_try. exists r, h1. split; [done|]. destruct r as [socks|e]; [|done].
  destruct Hr as [Hf _]. apply wp_bind.
  eapply wp_mono; [apply (wp_drop_socks_fds k (ended socks) (fds (opened h))); by rewrite He|].
  intros ? h2 H2. apply wp_bind, wp_syscall, wp_ret. by rewrite opened_snoc, bpf_snoc.
Qed.

(** C30: resources of the generator's set-up.  Under the same condition
    [xdp_udp_blast] succeeds with exactly one open socket per worker and a
    program attached exactly when it keeps a handle (with the feature
    [xdp] only); on an error the program is detached again, and the sockets
    of the queues before the failing one, which it has forgotten, are still
    open. *)
Theorem blast_setup_resources p k XDP_PROG H xdp iface dst_ip dst_port payload_len target cpus h :
  xsk_contract k → (∀ h fd, ret (k h (Getsockopt_offsets fd)) = 0) → bpf h = bpf_none →
  ∃ r h' new, xdp_udp_blast p k XDP_PROG H xdp iface dst_ip dst_port payload_len target cpus h = (Ok r, h')
    ∧ fds (opened h') = new ++ fds (opened h)
    ∧ match r with
      | Okay plan => new = reverse (ts_fd <$> plan_states plan)
          ∧ match plan_handle plan with
            | Some _ => xdp = true ∧ ∃ m, bpf h' = BpfState true (Some (iface, m)) ∅
            | None => bpf h' = bpf_none
            end
      | Err _ => zlen new < workers cpus (Z.max (get_rx_queue_count (h_fs H) iface) 1)
          ∧ bpf h' = bpf_none
      end.
Proof.
  intros Hk Hoff Hb. set (n := workers _ _). assert (1 ≤ n) as Hn by apply workers_pos.
  assert (wp (xdp_udp_blast p k XDP_PROG H xdp iface dst_ip dst_port payload_len target cpus) h
    (λ r h', ∃ new, fds (opened h') = new ++ fds (opened h) ∧ match r with
      | Okay plan => new = reverse (ts_fd <$> plan_states plan)
          ∧ match plan_handle plan with
            | Some _ => xdp = true ∧ ∃ m, bpf h' = BpfState true (Some (iface, m)) ∅
            | None => bpf h' = bpf_none
            end
      | Err _ => zlen new < n ∧ bpf h' = bpf_none
      end)) as (r & h' & E & new & Hf & Hr); [|by exists r, h', new].
  unfold xdp_udp_blast. apply wp_try, wp_ret.
  destruct (blast_header H iface dst_ip dst_port) as [[ifidx hd]|e]; [|exists []; split_and!; [done|cbn; lia|done]].
  apply wp_bind.
  eapply wp_mono; [apply (wp_keeps opened); [|apply wp_try_load]|].
  { unfold try_load. destruct xdp; [|apply keeps_ret].
    apply keeps_bind; [apply keeps_opened_load|]. intros r. apply keeps_ret. }
  intros handle h0 [H0 Eo]. apply wp_bind, wp_bind. fold n.
  eapply wp_mono; [apply wp_and; [apply (wp_open_states_fds p k Hk Hoff)|
    apply (wp_keeps bpf); [apply keeps_bpf_open_states|apply (wp_open_states p k Hk)]]|].
  intros [l|e] h1 [(new & Hf & Hnew) [_ H1]]; apply wp_ret.
  - apply wp_ret. exists new. rewrite Hf, Eo. split; [done|]. cbn [plan_states plan_handle].
    split; [done|]. rewrite H1. destruct handle; auto.
  - apply wp_bind. eapply wp_mono; [apply (wp_keeps opened); [|apply wp_drop_handle]|].
    { destruct handle; cbn [drop_handle]; unfold drop_ebpf; keeps. }
    intros ? h2 [H2 Eo2]. apply wp_ret. exists new. rewrite Eo2, Hf, Eo. split; [done|].
    rewrite length_seqZ in Hnew. split; [lia|]. rewrite H2, H1. destruct handle; auto.
Qed.

(** Everything is granted, except sockets: the program is loaded and attached
    before the first one is asked for. *)
Definition no_sockets (h : history) (c : call) : bool := match c with Socket _ _ => true | _ => false end.

Lemma sink_setup_resources_witness :
  ∃ h', xdp_udp_sink Release (demo_kernel no_sockets) demo_prog demo_host (lit "eth0")
      [0; 1; 2; 3] [] = (Ok (Err (SocketFailed ESocket)), h')
    ∧ fds (opened h') ≡ₚ [] ∧ bpf h' = bpf_none.
Proof.
  destruct (sink_setup_resources Release (demo_kernel no_sockets) demo_prog demo_host (lit "eth0")
    [0; 1; 2; 3] [] (demo_kernel_contract _) (λ _ _, eq_refl) eq_refl) as (r & h' & E & Hr).
  assert (Ok r = Ok (Err (SocketFailed ESocket))) as Er.
  { change (Ok r) with (Ok r, h').1. rewrite <- E. vm_compute. reflexivity. }
  injection Er as ->.
  exists h'. split; [exact E|exact Hr].
Defined.

(** Two threads, the second of which ends first. *)
Lemma sink_run_releases_witness :
  ∃ r h', xdp_udp_sink_run Release (demo_kernel no_zerocopy) demo_prog demo_host (lit "eth0")
      [0; 1; 2; 3] reverse [] = (Ok r, h')
    ∧ fds (opened h') ≡ₚ [] ∧ bpf h' = bpf_none.
Proof.
  apply (sink_run_releases Release (demo_kernel no_zerocopy) demo_prog demo_host (lit "eth0") [0; 1; 2; 3] reverse [] ).
  - apply demo_kernel_contract.
  - intros h fd. reflexivity.
  - reflexivity.
  - intros l. apply reverse_Permutation.
Defined.

Lemma blast_setup_resources_witness :
  ∃ h', xdp_udp_blast Release (demo_kernel no_sockets) demo_prog demo_host true (lit "eth0")
      [10; 0; 0; 9] 5201 1400 0 [0; 1; 2; 3] [] = (Ok (Err (SocketFailed ESocket)), h')
    ∧ (∃ new, fds (opened h') = new ++ [] ∧ zlen new < 2) ∧ bpf h' = bpf_none.
Proof.
  destruct (blast_setup_resources Release (demo_kernel no_sockets) demo_prog demo_host true (lit "eth0")
    [10; 0; 0; 9] 5201 1400 0 [0; 1; 2; 3] [] (demo_kernel_contract _) (λ _ _, eq_refl) eq_refl)
    as (r & h' & new & E & Hf & Hr).
  assert (Ok r = Ok (Err (SocketFailed ESocket))) as Er.
  { change (Ok r) with (Ok r, h').1. rewrite <- E. vm_compute. reflexivity. }
  injection Er as ->.
  exists h'. destruct Hr as [Hn Hb]. split; [exact E|]. split; [exists new; split; [exact Hf|exact Hn]|exact Hb].
Defined.

(** ** A frame's way to the sink *)

(** The socket of a queue is that of its worker; a queue beyond the last
    worker has none. *)
Lemma served_lookup iface m socks q :
  bpf_xsks (served iface m socks) !! q =
    if decide (0 ≤ q) then xs_fd <$> socks !! Z.to_nat q else None.
Proof.
  cbn [served bpf_xsks]. case_decide.
  - rewrite lookup_map_seqZ_0 by done. apply list_lookup_fmap.
  - apply lookup_map_seqZ_None. lia.
Qed.

(** A frame with a sequence header: it is counted and noted. *)
Lemma rx_frame_arrival p area d last c sid seq :
  in_area area d → arrival area d = Some (sid, seq) →
  rx_frame p area d last c = note_seq p last (add_packets 1 (add_bytes (desc_len d) c)) sid seq.
Proof.
  intros Hin Ha. unfold rx_frame. rewrite decide_True by exact Hin. unfold arrival in Ha.
  destruct (HDRS + 16 <=? desc_len d); [|done]. by injection Ha as -> ->.
Qed.

(** C14: from the generator's umem to the sink's loss detector.  After a
    successful sink set-up, a frame the generator handed to the kernel that
    arrives on a queue with a worker is redirected to that worker's own
    socket.  Once it lies in the worker's umem, at whatever address, the body
    of the receive loop ([rx_frame]) neither panics nor reads outside the
    umem because of it: it counts one packet and the frame's bytes, and gives
    the loss detector exactly the stream id and the sequence number that were
    stamped.  On a queue beyond the workers (there are at most as many workers as CPUs
    were given) the same frame goes to the network stack and is not
    counted. *)
Theorem generated_frame_reaches_worker p k XDP_PROG H iface cpus h socks h' redirect
    src_mac dst_mac src_ip dst_ip src_port dst_port tx_area d payload seq q :
  xsk_contract k →
  xdp_udp_sink p k XDP_PROG H iface cpus h = (Ok (Okay socks), h') →
  redirect_contract (bpf_xsks (bpf h')) redirect →
  intact src_mac dst_mac src_ip dst_ip src_port dst_port tx_area d (numbered payload seq) →
  is_bytes tx_area → 16 ≤ zlen payload → is_u64 seq → 0 ≤ q →
  let f := slice tx_area (desc_addr d) (desc_len d) in
  let n := workers cpus (Z.max (get_rx_queue_count (h_fs H) iface) 1) in
  (q < n → ∃ s, socks !! Z.to_nat q = Some s
    ∧ dns_xdp_client redirect (XdpMd f q) = Ok (XDP_REDIRECT (xs_fd s)))
  ∧ (n ≤ q → dns_xdp_client redirect (XdpMd f q) = Ok XDP_PASS)
  ∧ ∀ p' rx_area d' last counters,
      in_area rx_area d' → desc_len d' = desc_len d → slice rx_area (desc_addr d') (desc_len d') = f →
      rx_frame p' rx_area d' last counters =
        note_seq p' last (add_packets 1 (add_bytes (OUTER_HDR + zlen payload) counters))
          (payload_sid payload) seq.
Proof.
  intros Hk E Hr Hi Hb H16 Hs Hq f n.
  destruct (wp_outcome _ _ _ _ _ (wp_xdp_udp_sink p k XDP_PROG Hk H iface cpus h) E)
    as (r & [= <-] & _ & Hlen & m & Hbpf). fold n in Hlen.
  assert (is_bytes f) as Hf.
  { unfold f, slice. apply Forall_take, Forall_drop, Hb. }
  assert (dns_xdp_client redirect (XdpMd f q) = Ok (redirect q XDP_PASS)) as Hv.
  { rewrite verdict by done. destruct Hi as (_ & _ & Hd). by rewrite decide_True by (left; eapply decode_udp4, Hd). }
  rewrite Hv, (Hr q XDP_PASS), Hbpf, served_lookup, decide_True by done.
  split_and!.
  - intros Hn. destruct (lookup_lt_is_Some_2 socks (Z.to_nat q)) as [s Hs']; [lia|].
    exists s. by rewrite Hs'.
  - intros Hn. by rewrite lookup_ge_None_2 by lia.
  - intros p' rx_area d' last counters Hin El Eq.
    rewrite (rx_frame_arrival p' rx_area d' last counters (payload_sid payload) seq Hin)
      by (by eapply sink_reads_generator).
    rewrite El. destruct Hi as (-> & _). by rewrite length_numbered.
Qed.

Definition demo_payload : list Z := splice (replicate 20 0) 0 (to_le_bytes 8 3).
Definition demo_tx_area : list Z :=
  header_bytes demo_hdr 20 9915 ++ numbered demo_payload 77 ++ replicate 4096 0.

(** Two queues and four CPUs: the frame on the second queue, and on a third
    that no worker serves. *)
Lemma generated_frame_reaches_worker_witness :
  ∃ socks h', xdp_udp_sink Release (demo_kernel no_zerocopy) demo_prog demo_host
      (lit "eth0") [0; 1; 2; 3] [] = (Ok (Okay socks), h')
    ∧ let f := slice demo_tx_area 0 62 in
      (∃ s, socks !! 1%nat = Some s ∧
        dns_xdp_client (linux_redirect (bpf_xsks (bpf h'))) (XdpMd f 1) = Ok (XDP_REDIRECT (xs_fd s)))
    ∧ rx_frame Debug (replicate 256 0 ++ f) (mkXdpDesc 256 62 0) {[3 := 70]} (mkCounters 1000 9 0)
        = Ok ({[3 := 77]}, mkCounters 1062 10 6).
Proof.
  destruct (good_xdp_udp_sink Release _ demo_prog (demo_kernel_contract _) no_zerocopy_grants
    no_zerocopy_aya demo_host (lit "eth0") [0; 1; 2; 3] [] 2 eq_refl) as ([socks|e] & h' & E & Hr);
    [|destruct Hr].
  exists socks, h'. split; [exact E|]. intros f.
  destruct (generated_frame_reaches_worker Release _ demo_prog demo_host (lit "eth0") [0; 1; 2; 3] []
    socks h' (linux_redirect (bpf_xsks (bpf h'))) [0;17;34;51;68;85] [170;187;204;221;238;255]
    [10;0;0;1] [10;0;0;2] 40000 5201 demo_tx_area (mkXdpDesc 0 62 0) demo_payload 77 1
    (demo_kernel_contract _) E (linux_redirect_contract _)) as (H1 & _ & H2);
    [vm_compute; split_and!; [done|discriminate|done]|apply (bool_decide_unpack _); vm_compute; exact I
    |vm_compute; discriminate|split; [discriminate|reflexivity]|discriminate|].
  split.
  - apply H1. vm_compute. reflexivity.
  - rewrite (H2 Debug (replicate 256 0 ++ f) (mkXdpDesc 256 62 0) {[3 := 70]} (mkCounters 1000 9 0));
      [vm_compute; reflexivity|vm_compute; split; discriminate|reflexivity|vm_compute; reflexivity].
Defined.

(** ** IPv6 *)

(** A UDP datagram over IPv6: MAC addresses, the first 8 bytes of the IPv6
    header, source address, the destination address in three parts, ports,
    length and checksum, payload. *)
Definition frame6 (macs h6 src dst_a dst_b dst_c : list Z) (sport dport : Z) (len_ck payload : list Z)
    : list Z :=
  (macs ++ [0x86; 0xDD] ++ h6 ++ src ++ dst_a) ++ (dst_b ++ dst_c ++
  [hi8 sport; lo8 sport; hi8 dport; lo8 dport]) ++ len_ck ++ payload.

Definition frame6_ok (macs h6 src dst_a dst_b dst_c len_ck : list Z) : Prop :=
  length macs = 12%nat ∧ length h6 = 8%nat ∧ byte_at h6 6 = 17 ∧ length src = 16%nat
  ∧ length dst_a = 4%nat ∧ length dst_b = 8%nat ∧ length dst_c = 4%nat ∧ length len_ck = 4%nat.

#[export] Instance frame6_ok_dec macs h6 src a b c l : Decision (frame6_ok macs h6 src a b c l).
Proof. unfold frame6_ok. apply _. Defined.

Section ipv6.
Context (macs h6 src dst_a dst_b dst_c len_ck : list Z).
Context (Hok : frame6_ok macs h6 src dst_a dst_b dst_c len_ck).

Abbreviation frame s d pl := (frame6 macs h6 src dst_a dst_b dst_c s d len_ck pl).

Lemma frame6_udp6 s d pl : udp6 (frame s d pl).
Proof.
  destruct Hok as (Hm & Hh & Hn & Hs & Ha & Hb & Hc & Hl). unfold frame6. split_and!.
  - rewrite !length_app, Hm, Hh, Hs, Ha, Hb, Hc, Hl. cbn. lia.
  - unfold field16, byte_at. rewrite !(lookup_app_l (macs ++ _)) by (rewrite !length_app; cbn; lia).
    rewrite !(lookup_app_r macs) by lia. rewrite Hm. reflexivity.
  - unfold byte_at. rewrite lookup_app_l by (rewrite !length_app; cbn; lia).
    rewrite (lookup_app_r macs) by lia. rewrite Hm. cbn [Nat.sub]. rewrite (lookup_app_r [_; _]) by (cbn; lia).
    cbn [length Nat.sub]. rewrite lookup_app_l by lia. exact Hn.
Qed.

(** What the sink takes for stream id and sequence number. *)
Definition seq6 (s d : Z) : Z := from_le_bytes (dst_c ++ [hi8 s; lo8 s; hi8 d; lo8 d]).

Lemma frame6_arrival s d pl rx_area d' :
  desc_len d' = zlen (frame s d pl) →
  slice rx_area (desc_addr d') (desc_len d') = frame s d pl →
  arrival rx_area d' = Some (from_le_bytes dst_b, seq6 s d).
Proof.
  destruct (frame6_udp6 s d pl) as (Hlen & _).
  destruct Hok as (Hm & Hh & Hn & Hs & Ha & Hb & Hc & Hl).
  intros El Eq. unfold arrival. rewrite Eq, El.
  rewrite (proj2 (Z.leb_le _ _)) by (unfold HDRS; lia).
  change (Z.to_nat HDRS) with 42%nat. unfold frame6. rewrite drop_app_ge by (rewrite !length_app; cbn; lia).
  rewrite !length_app, Hm, Hh, Hs, Ha. cbn [length Nat.add Nat.sub]. rewrite drop_0.
  unfold payload_sid, payload_seq, seq6. do 2 f_equal; f_equal.
  - rewrite <- !app_assoc. by rewrite slice_app_l by (rewrite Hb; done).
  - rewrite <- !app_assoc. unfold slice. change (Z.to_nat 8) with 8%nat.
    rewrite drop_app_ge by lia. rewrite Hb, Nat.sub_diag, drop_0, app_assoc.
    apply take_app_length'. rewrite length_app, Hc. done.
Qed.

End ipv6.

Lemma seq6_next dst_c s d :
  length dst_c = 4%nat → is_u16 s → s mod 256 < 255 → seq6 dst_c (s + 1) d = seq6 dst_c s d + 2 ^ 40.
Proof.
  intros Hc Hs Hlt. destruct dst_c as [|c0 [|c1 [|c2 [|c3 [|]]]]]; try discriminate.
  unfold seq6. cbn [app from_le_bytes].
  assert (hi8 (s + 1) = hi8 s ∧ lo8 (s + 1) = lo8 s + 1) as [-> ->]; [|lia].
  unfold hi8, lo8, wrap. rewrite !Z.shiftr_div_pow2 by lia. change (2 ^ 8) with 256.
  unfold fits in Hs. clear -Hs Hlt. split; Z.div_mod_to_equations; lia.
Qed.

Lemma seq6_bounds dst_c s d :
  length dst_c = 4%nat → is_bytes dst_c → is_u64 (seq6 dst_c s d).
Proof.
  intros Hc Hb.
  pose proof (from_le_bytes_fits (dst_c ++ [hi8 s; lo8 s; hi8 d; lo8 d])) as H.
  rewrite length_app, Hc in H. apply H, Forall_app. split; [done|bytes].
Qed.

(** IPv6 traffic is misread.  The XDP program also redirects UDP over
    IPv6, but the sink takes bytes 42 to 57 of every frame for the sequence
    header, which in an IPv6 frame are the destination address and the
    ports.  One datagram each from two neighbouring source ports to the
    same service, with any payloads and nothing lost, are read as one stream
    with a gap, and the sink reports 2^40 - 1 lost packets. *)
Theorem ipv6_phantom_loss p redirect macs h6 src dst_a dst_b dst_c len_ck s d pl1 pl2 q
    rx_area d1 d2 last c :
  let f1 := frame6 macs h6 src dst_a dst_b dst_c s d len_ck pl1 in
  let f2 := frame6 macs h6 src dst_a dst_b dst_c (s + 1) d len_ck pl2 in
  frame6_ok macs h6 src dst_a dst_b dst_c len_ck → is_bytes f1 → is_bytes f2 →
  is_bytes dst_c → is_u16 s → s mod 256 < 255 →
  desc_len d1 = zlen f1 → slice rx_area (desc_addr d1) (desc_len d1) = f1 →
  desc_len d2 = zlen f2 → slice rx_area (desc_addr d2) (desc_len d2) = f2 →
  Forall (in_area rx_area) [d1; d2] → last !! from_le_bytes dst_b = None →
  dns_xdp_client redirect (XdpMd f1 q) = Ok (redirect q XDP_PASS)
  ∧ dns_xdp_client redirect (XdpMd f2 q) = Ok (redirect q XDP_PASS)
  ∧ ∃ last' c', rx_frames p rx_area [d1; d2] last c = Ok (last', c')
      ∧ drops c' = wrap 64 (drops c + (2 ^ 40 - 1)).
Proof.
  intros f1 f2 Hok H1 H2 Hbc Hs Hlt L1 E1 L2 E2 Hin Hlast.
  assert (∀ t pl, udp6 (frame6 macs h6 src dst_a dst_b dst_c t d len_ck pl)) as H6.
  { intros. by apply frame6_udp6. }
  split_and!; [rewrite verdict by done; rewrite decide_True by (right; apply H6); done..|].
  pose proof Hok as (_ & _ & _ & _ & _ & _ & Hc & _).
  pose proof (seq6_next dst_c s d Hc Hs Hlt) as Hn.
  pose proof (seq6_bounds dst_c s d Hc Hbc) as B1.
  pose proof (seq6_bounds dst_c (s + 1) d Hc Hbc) as B2. rewrite Hn in B2.
  pose proof (frame6_arrival _ _ _ _ _ _ _ Hok s d pl1 rx_area d1 L1 E1) as A1.
  pose proof (frame6_arrival _ _ _ _ _ _ _ Hok (s + 1) d pl2 rx_area d2 L2 E2) as A2.
  rewrite Hn in A2. set (x := seq6 dst_c s d) in *. clearbody x.
  apply Forall_cons in Hin as [I1 Hin]. apply Forall_cons in Hin as [I2 _].
  cbn [rx_frames]. rewrite (rx_frame_arrival _ _ _ _ _ _ _ I1 A1). unfold note_seq at 1. rewrite Hlast.
  cbn [mbind res_bind]. rewrite (rx_frame_arrival _ _ _ _ _ _ _ I2 A2). unfold note_seq.
  rewrite lookup_insert_eq. rewrite gap_exact by (unfold seq_ok; width). cbn [mbind res_bind].
  replace (Z.max 0 (x + 2 ^ 40 - x - 1)) with (2 ^ 40 - 1) by lia.
  do 2 eexists. split; [reflexivity|]. reflexivity.
Qed.

(** Two mDNS datagrams, from ports 40000 and 40001 to [ff02::fb] port 5353:
    1099511627775 packets lost. *)
Lemma ipv6_phantom_loss_witness :
  let f s := frame6 (replicate 12 2) [0x60;0;0;0;0;8;17;255] (replicate 16 1) [0xff;2;0;0]
    (replicate 8 0) [0;0;0;0xfb] s 5353 [0;8;0;0] [] in
  let area := f 40000 ++ f 40001 in
  ∃ last' c', rx_frames Release area [mkXdpDesc 0 62 0; mkXdpDesc 62 62 0] ∅ Counters_default
      = Ok (last', c')
    ∧ drops c' = 1099511627775.
Proof.
  intros f area.
  destruct (ipv6_phantom_loss Release (linux_redirect ∅) (replicate 12 2) [0x60;0;0;0;0;8;17;255]
    (replicate 16 1) [0xff;2;0;0] (replicate 8 0) [0;0;0;0xfb] [0;8;0;0] 40000 5353 [] [] 0 area
    (mkXdpDesc 0 62 0) (mkXdpDesc 62 62 0) ∅ Counters_default) as (_ & _ & last' & c' & E & Hd);
    try (apply (bool_decide_unpack _); vm_compute; exact I); try reflexivity.
  exists last', c'. split; [exact E|]. rewrite Hd. reflexivity.
Defined.
