(* ===== verification/Net.v ===== *)
(** * The socket engines ([src/net.rs])

    TCP and UDP benchmarks over ordinary sockets: the batched UDP sender
    with its pacing, the UDP receive worker with its loss detector, the TCP
    reader and writer loops, the per-second reporter, the placement of
    threads on CPUs and the construction of the listening sockets.  What
    the operating system returns (clock readings, [sendmmsg] counts,
    received datagrams, [read] and [write] results) is the input of the
    loops. *)

From Stdlib Require Import Sorted.
From stdpp Require Import sorting.
From S2P Require Import Prelude Pace Ring Loss Sys Strs Affinity.

Definition BATCH : nat := 64.

(** [Duration::from_secs(1)] in nanoseconds. *)
Definition SEC : Z := 1000000000.

(** ** Placement of threads *)

(** The CPU of thread [i], if any. *)
Definition pin_target (cpus : list Z) (i : Z) : option Z :=
  match cpus with
  | [] => None
  | _ => cpus !! Z.to_nat (i mod zlen cpus)
  end.

(** [pin]: the CPU the thread asked for; whether the kernel granted it is
    ignored. *)
Definition pin {L : CpuSets} (cpus : list Z) (i : Z) : res (option Z) :=
  match pin_target cpus i with
  | None => Ok None
  | Some c => _ ← pin_to_cpu c; Ok (Some c)
  end.

(** [tcp_server]: the accepted connections, over all listeners, in the
    order of their [fetch_add] on the shared counter; the CPU of each
    reader. *)
Fixpoint place_readers (cpus : list Z) (next : Z) (accepted : nat) : list (option Z) :=
  match accepted with
  | O => []
  | S n => pin_target cpus next :: place_readers cpus (wrap 64 (next + 1)) n
  end.

(** ** Addresses and listening sockets *)

Inductive endian : Type := Little | Big.

(** The integer with the given bytes in memory, and the bytes of an
    integer. *)
Definition from_ne_bytes (e : endian) (l : list Z) : Z :=
  match e with Little => from_le_bytes l | Big => from_le_bytes (reverse l) end.
Definition to_ne_bytes (e : endian) (n : nat) (x : Z) : list Z :=
  match e with Little => to_le_bytes n x | Big => reverse (to_le_bytes n x) end.

(** [u16::to_be]. *)
Definition to_be16 (e : endian) (x : Z) : Z :=
  match e with Little => from_le_bytes (reverse (to_le_bytes 2 x)) | Big => x end.

Inductive SocketAddr : Type :=
| SaV4 (octets : list Z) (port : Z)
| SaV6 (port : Z).

Inductive io_err : Type := Resolve | InvalidInput | Os (c : call).

Definition is_v4 (s : SocketAddr) : bool := match s with SaV4 _ _ => true | SaV6 _ => false end.

(** [AF_INET] as a number. *)
Definition AF_INET_NUM : Z := 2.

(** [sockaddr_v4]; [resolved] is what [to_socket_addrs] gave. *)
Definition sockaddr_v4 (e : endian) (resolved : option (list SocketAddr))
    : result io_err sockaddr_in :=
  match resolved with
  | None => Err Resolve
  | Some l =>
      match head (filter (λ s, is_v4 s = true) l) with
      | Some (SaV4 ip port) =>
          Okay (mkSockaddrIn AF_INET_NUM (to_be16 e port) (from_ne_bytes e ip) (replicate 8 0))
      | _ => Err InvalidInput
      end
  end.

Section listen.
Context (k : kernel) (e : endian).

Definition SOCK_BUF : Z := 8 * 1024 * 1024.

(** [set_opt_int]: the result is ignored. *)
Definition set_opt_int (fd : Z) (o : sockopt) (v : Z) : sys answer :=
  syscall k (Setsockopt fd o (OptInt v)).

Definition reuseport_tcp_listener (addr : option (list SocketAddr)) : sys (result io_err Z) :=
  try (mret (sockaddr_v4 e addr)) (λ sa,
  s ← syscall k (Socket AF_INET SOCK_STREAM);
  let fd := ret s in
  if fd <? 0 then mret (Err (Os (Socket AF_INET SOCK_STREAM))) else
  set_opt_int fd SO_REUSEADDR 1;;
  set_opt_int fd SO_REUSEPORT 1;;
  b ← syscall k (Bind fd (SaIn sa));
  if ret b <? 0 then syscall k (Close fd);; mret (Err (Os (Bind fd (SaIn sa)))) else
  l ← syscall k (Listen fd 1024);
  if ret l <? 0 then syscall k (Close fd);; mret (Err (Os (Listen fd 1024))) else
  mret (Okay fd)).

Definition reuseport_udp_socket (addr : option (list SocketAddr)) : sys (result io_err Z) :=
  try (mret (sockaddr_v4 e addr)) (λ sa,
  s ← syscall k (Socket AF_INET SOCK_DGRAM);
  let fd := ret s in
  if fd <? 0 then mret (Err (Os (Socket AF_INET SOCK_DGRAM))) else
  set_opt_int fd SO_REUSEADDR 1;;
  set_opt_int fd SO_REUSEPORT 1;;
  set_opt_int fd SO_RCVBUF SOCK_BUF;;
  b ← syscall k (Bind fd (SaIn sa));
  if ret b <? 0 then syscall k (Close fd);; mret (Err (Os (Bind fd (SaIn sa)))) else
  mret (Okay fd)).
End listen.

(** ** The UDP sender *)

Section sender.
Context (p : profile).

(** The budget of a thread; a division by zero panics. *)
Definition pps_per_thread (target_pps threads : Z) : res Z :=
  if target_pps =? 0 then Ok 0
  else if threads =? 0 then Panic
  else Ok (Z.max (target_pps / threads) 1).

(** [b[8..16].copy_from_slice(&seq.to_le_bytes())]. *)
Definition stamp (b : list Z) (seq : Z) : res (list Z) :=
  if decide (16 ≤ zlen b) then Ok (splice b 8 (to_le_bytes 8 seq)) else Panic.

(** Number every buffer of the batch. *)
Fixpoint stamp_bufs (bufs : list (list Z)) (seq : Z) : res (list (list Z) * Z) :=
  match bufs with
  | [] => Ok ([], seq)
  | b :: bufs =>
      b ← stamp b seq;
      seq ← arith p 64 (seq + 1);
      '(bufs, seq) ← stamp_bufs bufs seq;
      Ok (b :: bufs, seq)
  end.

(** The locals of the sending thread, the shared counters, and the
    datagrams that have left. *)
Record send_state : Type := SendState {
  ss_bufs : list (list Z);
  ss_seq : Z;
  ss_sent : Z;
  ss_start : Z;
  ss_counters : Counters;
  ss_wire : list (list Z);
}.

(** One iteration's environment: the clock at the loop test, what
    [sendmmsg] returns, the clock at [elapsed()] and at the reset. *)
Record send_env : Type := SendEnv {
  se_now : Z;
  se_ret : Z;
  se_now_pace : Z;
  se_now_reset : Z;
}.

(** The loop body; the second component is how long it slept.  [sendmmsg]
    transmits the first [ret] buffers. *)
Definition send_iter (len pps : Z) (ev : send_env) (s : send_state) : res (send_state * Z) :=
  '(bufs, seq) ← stamp_bufs (ss_bufs s) (ss_seq s);
  let r := se_ret ev in
  '(counters, sent) ←
    (if 0 <? r then
       b ← arith p 64 (r * len);
       sent ← arith p 64 (ss_sent s + r);
       Ok (add_bytes b (add_packets r (ss_counters s)), sent)
     else Ok (ss_counters s, ss_sent s));
  let wire := ss_wire s ++ take (Z.to_nat r) bufs in
  if (0 <? pps) && (pps <=? sent) then
    let el := se_now_pace ev - ss_start s in
    Ok (SendState bufs seq 0 (se_now_reset ev) counters wire,
        if el <? SEC then SEC - el else 0)
  else Ok (SendState bufs seq sent (ss_start s) counters wire, 0).

Fixpoint send_while (len pps deadline : Z) (envs : list send_env) (s : send_state)
    : res (send_state * bool) :=
  match envs with
  | [] => Ok (s, false)
  | ev :: envs =>
      if se_now ev <? deadline then
        '(s, _) ← send_iter len pps ev s;
        send_while len pps deadline envs s
      else Ok (s, true)
  end.

(** The body of a [udp_client] thread once its socket is connected:
    [BATCH] zeroed buffers with the thread's index as the stream id. *)
Definition udp_client_thread (t len0 pps deadline start : Z) (c : Counters) (envs : list send_env)
    : res (send_state * bool) :=
  let len := Z.max len0 HDR in
  let b := splice (replicate (Z.to_nat len) 0) 0 (to_le_bytes 8 t) in
  send_while len pps deadline envs (SendState (replicate BATCH b) 0 0 start c []).
End sender.

(** ** The UDP receiver *)

Section receiver.
Context (p : profile).

(** [recvmmsg] puts each datagram at the front of its buffer, cut at the
    buffer's length, and leaves the rest of the buffer as it was; the
    result is the buffers and the [msg_len]s. *)
Fixpoint recvmmsg (bufs : list (list Z)) (dgrams : list (list Z)) : list (list Z) * list Z :=
  match bufs, dgrams with
  | b :: bufs, d :: dgrams =>
      let d := take (length b) d in
      let '(bufs, lens) := recvmmsg bufs dgrams in
      (splice b 0 d :: bufs, zlen d :: lens)
  | bufs, _ => (bufs, [])
  end.

(** [for i in 0..ret]: count the message, and read the header when the
    message is long enough to have one. *)
Fixpoint recv_msgs (bufs : list (list Z)) (lens : list Z) (last_seq : gmap Z Z) (c : Counters)
    : res (gmap Z Z * Counters) :=
  match bufs, lens with
  | b :: bufs, n :: lens =>
      let c := add_packets 1 (add_bytes n c) in
      '(last_seq, c) ←
        (if HDR <=? n then
           if decide (16 ≤ zlen b) then note_seq p last_seq c (payload_sid b) (payload_seq b)
           else Panic
         else Ok (last_seq, c));
      recv_msgs bufs lens last_seq c
  | _, [] => Ok (last_seq, c)
  | [], _ => Panic
  end.

(** One iteration of the endless loop: an interrupted or empty
    [recvmmsg] is retried. *)
Definition recv_iter (dgrams : list (list Z)) (bufs : list (list Z)) (last_seq : gmap Z Z)
    (c : Counters) : res (list (list Z) * gmap Z Z * Counters) :=
  let '(bufs, lens) := recvmmsg bufs dgrams in
  match lens with
  | [] => Ok (bufs, last_seq, c)
  | _ =>
      '(last_seq, c) ← recv_msgs bufs lens last_seq c;
      Ok (bufs, last_seq, c)
  end.

Fixpoint recv_loop (batches : list (list (list Z))) (bufs : list (list Z)) (last_seq : gmap Z Z)
    (c : Counters) : res (list (list Z) * gmap Z Z * Counters) :=
  match batches with
  | [] => Ok (bufs, last_seq, c)
  | dgrams :: batches =>
      '(bufs, last_seq, c) ← recv_iter dgrams bufs last_seq c;
      recv_loop batches bufs last_seq c
  end.

(** [udp_server_worker] over the batches [recvmmsg] delivers. *)
Definition udp_server_worker (len0 : Z) (batches : list (list (list Z))) (c : Counters)
    : res (list (list Z) * gmap Z Z * Counters) :=
  let len := Z.max len0 HDR in
  recv_loop batches (replicate BATCH (replicate (Z.to_nat (Z.max len 2048)) 0)) ∅ c.
End receiver.

(** ** TCP *)

(** [io::Result<usize>] of a [read] or [write]. *)
Inductive io_result : Type := IoOk (n : Z) | IoErr.

(** The reader loop of [tcp_server]; the flag tells whether it has left. *)
Fixpoint tcp_reader (reads : list io_result) (c : Counters) : Counters * bool :=
  match reads with
  | [] => (c, false)
  | IoErr :: _ => (c, true)
  | IoOk n :: reads => if n =? 0 then (c, true) else tcp_reader reads (add_bytes n c)
  end.

(** The writer loop of [tcp_client]: clock reading and [write] result of
    each iteration. *)
Fixpoint tcp_writer (deadline : Z) (writes : list (Z * io_result)) (c : Counters)
    : Counters * bool :=
  match writes with
  | [] => (c, false)
  | (now, r) :: writes =>
      if now <? deadline then
        match r with
        | IoErr => (c, true)
        | IoOk n => if n =? 0 then (c, true) else tcp_writer deadline writes (add_bytes n c)
        end
      else (c, true)
  end.

(** ** The reporter *)

(** A line of the report: second, bytes, packets, drops and the
    denominator of the loss rate, all for the interval.  The rates are
    these numbers scaled and printed. *)
Record report_line : Type := ReportLine {
  rl_t : Z;
  rl_bytes : Z;
  rl_packets : Z;
  rl_drops : Z;
  rl_total : Z;
}.

(** The loop of [spawn_reporter]: the [run] flag at each test and the
    counters read after the sleep. *)
Fixpoint reporter (p : profile) (udp : bool) (snaps : list (bool * Counters))
    (last_b last_p last_d t : Z) : res (list report_line) :=
  match snaps with
  | [] => Ok []
  | (run, c) :: snaps =>
      if run then
        db ← arith p 64 (bytes c - last_b);
        t ← arith p 64 (t + 1);
        if udp then
          _ ← arith p 64 (packets c - last_p);
          dp ← arith p 64 (drops c - last_d);
          rx ← arith p 64 (packets c - last_p);
          total ← arith p 64 (rx + dp);
          rest ← reporter p udp snaps (bytes c) (packets c) (drops c) t;
          Ok (ReportLine t db rx dp total :: rest)
        else
          rest ← reporter p udp snaps (bytes c) (packets c) last_d t;
          Ok (ReportLine t db 0 0 0 :: rest)
      else Ok []
  end.

(** ** Lemmas: the sender *)

(** The numbers on the wire when successive [sendmmsg] calls return [rets]:
    every call takes 64 numbers, however many it sends. *)
Fixpoint blocks (seq : Z) (rets : list Z) : list Z :=
  match rets with
  | [] => []
  | r :: rets => seqZ seq (Z.max 0 r) ++ blocks (seq + 64) rets
  end.

Definition sent_total (rets : list Z) : Z := zsum (Z.max 0) rets.

Lemma length_blocks seq rets : zlen (blocks seq rets) = sent_total rets.
Proof.
  revert seq. induction rets as [|r rets IH]; intros seq; [done|].
  cbn [blocks]. rewrite length_app, length_seqZ, Nat2Z.inj_add, IH, Z2Nat.id by lia. done.
Qed.

Lemma take_seqZ_64 seq r : r ≤ 64 → take (Z.to_nat r) (seqZ seq 64) = seqZ seq (Z.max 0 r).
Proof.
  intros Hr. destruct (decide (0 ≤ r)) as [H0|H0].
  - replace 64 with (r + (64 - r)) by lia. rewrite seqZ_app by lia.
    rewrite take_app_length' by (rewrite length_seqZ; lia). by rewrite Z.max_r.
  - replace (Z.to_nat r) with 0%nat by lia. by rewrite Z.max_l by lia.
Qed.

(** The iterations that run before the deadline. *)
Fixpoint running (deadline : Z) (envs : list send_env) : list send_env :=
  match envs with
  | [] => []
  | ev :: envs => if se_now ev <? deadline then ev :: running deadline envs else []
  end.

Lemma counts_zero c : is_u64 (bytes c) → is_u64 (packets c) → add_packets 0 (add_bytes 0 c) = c.
Proof.
  intros Hb Hp. unfold add_packets, add_bytes. cbn. rewrite !Z.add_0_r, !wrap_small by done.
  by destruct c.
Qed.

Section sender_lemmas.
Context (p : profile) (base : list Z).
Context (H16 : 16 ≤ zlen base).

(** The buffer is the base buffer with some number in it. *)
Definition stamped (b : list Z) : Prop := b = base ∨ ∃ x, b = numbered base x.

Lemma stamped_numbered b x : stamped b → numbered b x = numbered base x.
Proof. intros [->|[y ->]]; [done|]. by apply numbered_numbered. Qed.

Lemma stamped_length b : stamped b → length b = length base.
Proof. intros [->|[y ->]]; [done|]. by apply length_numbered. Qed.

Lemma stamp_bufs_spec bufs : ∀ seq,
  Forall stamped bufs → 0 ≤ seq → seq + zlen bufs < 2 ^ 64 →
  stamp_bufs p bufs seq = Ok (numbered base <$> seqZ seq (zlen bufs), seq + zlen bufs).
Proof.
  induction bufs as [|b bufs IH]; intros seq Hb Hs Hlt.
  { cbn. by rewrite Z.add_0_r. }
  apply Forall_cons in Hb as [Hb Hbs]. cbn [stamp_bufs length] in *. unfold stamp.
  rewrite decide_True by (rewrite (stamped_length b) by done; done). cbn [mbind res_bind].
  rewrite arith_fits by (split; lia). cbn [mbind res_bind]. rewrite IH by (done || lia).
  cbn [mbind res_bind]. rewrite (seqZ_cons seq) by lia. rewrite fmap_cons.
  change (splice b 8 (to_le_bytes 8 seq)) with (numbered b seq).
  rewrite stamped_numbered by done. do 2 f_equal; [|lia].
  f_equal. do 2 f_equal; lia.
Qed.

Lemma send_iter_spec len pps ev s :
  Forall stamped (ss_bufs s) → length (ss_bufs s) = BATCH →
  0 ≤ ss_seq s → ss_seq s + 128 < 2 ^ 64 → 0 ≤ ss_sent s ≤ ss_seq s →
  0 ≤ len → 64 * len < 2 ^ 64 → se_ret ev ≤ 64 →
  let r := Z.max 0 (se_ret ev) in
  ∃ slept sent start,
    send_iter p len pps ev s =
      Ok (SendState (numbered base <$> seqZ (ss_seq s) 64) (ss_seq s + 64) sent start
            (if 0 <? r then add_bytes (r * len) (add_packets r (ss_counters s)) else ss_counters s)
            (ss_wire s ++ (numbered base <$> seqZ (ss_seq s) r)), slept)
    ∧ 0 ≤ sent ≤ ss_seq s + 64
    ∧ (0 < pps → ss_sent s < pps →
         (sent = ss_sent s + r ∧ sent < pps ∧ slept = 0 ∧ start = ss_start s)
         ∨ (pps ≤ ss_sent s + r ≤ pps + 63 ∧ sent = 0
            ∧ slept = Z.max 0 (SEC - (se_now_pace ev - ss_start s)) ∧ start = se_now_reset ev)).
Proof.
  intros Hb HL Hq Hlt Hs Hlen Hml Hret r. unfold send_iter.
  rewrite stamp_bufs_spec by (done || (rewrite HL; unfold BATCH; lia)).
  rewrite HL. change (Z.of_nat BATCH) with 64. cbn [mbind res_bind].
  rewrite <- fmap_take, take_seqZ_64 by done. fold r.
  assert (0 ≤ r ≤ 64) as Hr by lia.
  destruct (Z.ltb_spec 0 (se_ret ev)) as [Hpos|Hneg].
  - replace (se_ret ev) with r by lia.
    rewrite (arith_fits p 64 (r * len)) by (split; nia). cbn [mbind res_bind].
    rewrite (arith_fits p 64 (ss_sent s + r)) by (split; lia). cbn [mbind res_bind].
    rewrite (proj2 (Z.ltb_lt 0 r)) by lia.
    destruct (Z.ltb_spec 0 pps); cbn [andb]; [destruct (Z.leb_spec pps (ss_sent s + r))|].
    + do 3 eexists. split; [done|]. split; [lia|]. intros _ ?. right.
      destruct (Z.ltb_spec (se_now_pace ev - ss_start s) SEC); split_and!; lia.
    + do 3 eexists. split; [done|]. split; [lia|]. intros _ ?. left. split_and!; lia.
    + do 3 eexists. split; [done|]. split; [lia|]. lia.
  - assert (r = 0) as -> by lia. cbn [mbind res_bind]. rewrite Z.ltb_irrefl.
    destruct (Z.ltb_spec 0 pps); cbn [andb]; [destruct (Z.leb_spec pps (ss_sent s))|].
    + do 3 eexists. split; [done|]. split; [lia|]. lia.
    + do 3 eexists. split; [done|]. split; [lia|]. intros _ ?. left. split_and!; lia.
    + do 3 eexists. split; [done|]. split; [lia|]. lia.
Qed.

Lemma send_while_spec len pps deadline envs :
  0 ≤ len → 64 * len < 2 ^ 64 → Forall (λ ev, se_ret ev ≤ 64) envs → ∀ s,
  Forall stamped (ss_bufs s) → length (ss_bufs s) = BATCH →
  0 ≤ ss_seq s → ss_seq s + 64 * (zlen envs + 2) < 2 ^ 64 → 0 ≤ ss_sent s ≤ ss_seq s →
  is_u64 (bytes (ss_counters s)) → is_u64 (packets (ss_counters s)) →
  let rets := se_ret <$> running deadline envs in
  ∃ s' left, send_while p len pps deadline envs s = Ok (s', left)
    ∧ ss_seq s' = ss_seq s + 64 * zlen rets
    ∧ ss_wire s' = ss_wire s ++ (numbered base <$> blocks (ss_seq s) rets)
    ∧ ss_counters s' =
        add_packets (sent_total rets) (add_bytes (sent_total rets * len) (ss_counters s)).
Proof.
  intros Hlen Hml. induction 1 as [|ev envs Hev _ IH]; intros s Hb HL Hq Hlt Hs Hcb Hcp;
    cbn [send_while running].
  { exists s, false. rewrite app_nil_r. cbn. rewrite counts_zero by done. split_and!; try done. lia. }
  destruct (se_now ev <? deadline).
  2:{ exists s, true. rewrite app_nil_r. cbn. rewrite counts_zero by done. split_and!; try done. lia. }
  cbn [length] in Hlt.
  destruct (send_iter_spec len pps ev s) as (slept & sent & start & -> & Hsent & _); try (done || lia).
  cbn [mbind res_bind]. set (r := Z.max 0 (se_ret ev)) in *.
  set (s1 := SendState _ _ _ _ _ _).
  assert (ss_counters s1 = add_packets r (add_bytes (r * len) (ss_counters s))) as Hc1.
  { subst s1. cbn [ss_counters]. destruct (Z.ltb_spec 0 r); [done|].
    assert (r = 0) as -> by lia. by rewrite counts_zero. }
  destruct (IH s1) as (s' & left & -> & Hseq & Hwire & Hc); subst s1; cbn [ss_bufs ss_seq ss_sent ss_wire] in *;
    try lia; try (rewrite Hc1; apply wrap_fits; lia).
  { apply Forall_fmap, Forall_forall. intros x _. right. by exists x. }
  { rewrite length_fmap, length_seqZ. done. }
  rewrite fmap_cons. exists s', left. split_and!; [done|..].
  - rewrite Hseq. cbn [length]. lia.
  - cbn [blocks]. fold r. by rewrite Hwire, fmap_app, app_assoc.
  - rewrite Hc, Hc1, counts_comm. unfold sent_total. cbn [zsum foldr]. fold r.
    do 2 f_equal. unfold zsum. lia.
Qed.
End sender_lemmas.

(** The buffer every datagram of thread [t] starts from. *)
Definition client_base (t len0 : Z) : list Z :=
  splice (replicate (Z.to_nat (Z.max len0 HDR)) 0) 0 (to_le_bytes 8 t).

Lemma length_client_base t len0 : zlen (client_base t len0) = Z.max len0 HDR.
Proof.
  unfold client_base, HDR. rewrite length_splice; rewrite ?length_replicate, ?length_to_le_bytes; lia.
Qed.

Lemma udp_client_thread_spec p t len0 pps deadline start c envs :
  64 * len0 < 2 ^ 64 → Forall (λ ev, se_ret ev ≤ 64) envs → 64 * (zlen envs + 2) < 2 ^ 64 →
  is_u64 (bytes c) → is_u64 (packets c) →
  let rets := se_ret <$> running deadline envs in
  ∃ s left, udp_client_thread p t len0 pps deadline start c envs = Ok (s, left)
    ∧ ss_wire s = numbered (client_base t len0) <$> blocks 0 rets
    ∧ ss_counters s =
        add_packets (sent_total rets) (add_bytes (sent_total rets * Z.max len0 HDR) c).
Proof.
  intros Hml Hr Hlt Hb Hp rets. unfold udp_client_thread.
  pose proof (length_client_base t len0) as HL. unfold HDR in *.
  destruct (send_while_spec p (client_base t len0) ltac:(lia) (Z.max len0 16) pps deadline envs
    ltac:(lia) ltac:(lia) Hr (SendState (replicate BATCH (client_base t len0)) 0 0 start c []))
    as (s & left & Hrun & _ & Hwire & Hc); cbn [ss_bufs ss_seq ss_sent ss_counters]; try (done || lia).
  { apply Forall_replicate. by left. }
  by exists s, left.
Qed.

(** ** Lemmas: the receiver *)

Section receiver_lemmas.
Context (p : profile) (blen : nat).
Context (H16 : 16 ≤ Z.of_nat blen).

(** The sequence header of a datagram as the receiver should read it. *)
Definition header (d : list Z) : option (Z * Z) :=
  let d := take blen d in
  if HDR <=? zlen d then Some (payload_sid d, payload_seq d) else None.

(** The bytes [recvmmsg] reports for a datagram. *)
Definition reported (d : list Z) : Z := zlen (take blen d).

(** A header read from the buffer is the datagram's own: no byte an earlier
    datagram left behind is used. *)
Lemma header_fresh b d :
  length b = blen → HDR ≤ zlen (take blen d) →
  payload_sid (splice b 0 (take blen d)) = payload_sid (take blen d)
  ∧ payload_seq (splice b 0 (take blen d)) = payload_seq (take blen d).
Proof.
  intros Hb Hd. unfold HDR in Hd. unfold payload_sid, payload_seq.
  rewrite !slice_splice_in by (rewrite ?length_take in *; lia). done.
Qed.

Lemma recv_spec dgrams : ∀ bufs last c,
  Forall (λ b, length b = blen) bufs → (length dgrams ≤ length bufs)%nat →
  is_u64 (bytes c) → is_u64 (packets c) →
  let r := recvmmsg bufs dgrams in
  Forall (λ b, length b = blen) r.1 ∧ length r.1 = length bufs
  ∧ length r.2 = length dgrams
  ∧ recv_msgs p r.1 r.2 last c =
      note_all p last (add_packets (zlen dgrams) (add_bytes (zsum reported dgrams) c))
        (omap header dgrams).
Proof.
  induction dgrams as [|d dgrams IH]; intros bufs last c Hb Hle Hcb Hcp.
  { replace (recvmmsg bufs []) with (bufs, [] : list Z) by (by destruct bufs). cbn [fst snd].
    replace (recv_msgs p bufs [] last c) with (Ok (last, c)) by (by destruct bufs).
    cbn. by rewrite counts_zero. }
  destruct bufs as [|b bufs]; [cbn in Hle; lia|]. apply Forall_cons in Hb as [Hb Hbs].
  cbn [recvmmsg]. rewrite Hb.
  destruct (recvmmsg bufs dgrams) as [bufs' lens] eqn:Er. cbn [fst snd].
  assert (∀ l' c', is_u64 (bytes c') → is_u64 (packets c') →
    Forall (λ b, length b = blen) bufs' ∧ length bufs' = length bufs ∧ length lens = length dgrams
    ∧ recv_msgs p bufs' lens l' c' =
      note_all p l' (add_packets (zlen dgrams) (add_bytes (zsum reported dgrams) c'))
        (omap header dgrams)) as IH'.
  { intros l' c' ? ?. specialize (IH bufs l' c' Hbs ltac:(cbn in Hle; lia)). rewrite Er in IH.
    cbn [fst snd] in IH. by apply IH. }
  destruct (IH' last c Hcb Hcp) as (Hb' & HL1 & HL2 & _).
  assert (length (splice b 0 (take blen d)) = blen) as Hsl.
  { rewrite length_splice; rewrite ?length_take; lia. }
  split_and!; [by constructor|cbn; lia|cbn; lia|].
  cbn [recv_msgs omap list_omap]. rewrite zsum_cons. cbn [length].
  replace (Z.of_nat (S (length dgrams))) with (zlen dgrams + 1) by lia.
  rewrite <- (note_all_count p last c (reported d) (header d) (zlen dgrams) _ _
    (recv_msgs p bufs' lens)) by (try done; intros; by apply IH').
  unfold header, reported. destruct (Z.leb_spec HDR (zlen (take blen d))) as [Hh|]; [|done].
  rewrite decide_True by (rewrite Hsl; done).
  by destruct (header_fresh b d Hb Hh) as [-> ->].
Qed.

(** All batches of a run are one pass of the detector over all headers. *)
Lemma recv_loop_spec batches : ∀ bufs last c,
  Forall (λ b, length b = blen) bufs → Forall (λ ds, (length ds ≤ length bufs)%nat) batches →
  is_u64 (bytes c) → is_u64 (packets c) →
  let all := concat batches in
  (λ x, (x.1.2, x.2)) <$> recv_loop p batches bufs last c =
  note_all p last (add_packets (zlen all) (add_bytes (zsum reported all) c)) (omap header all).
Proof.
  induction batches as [|ds batches IH]; intros bufs last c Hb Hds Hcb Hcp all.
  { cbn. by rewrite counts_zero by done. }
  apply Forall_cons in Hds as [Hd Hds]. subst all. cbn [concat recv_loop]. unfold recv_iter.
  destruct (recv_spec ds bufs last c Hb Hd Hcb Hcp) as (Hb1 & HL1 & HL2 & Hr).
  destruct (recvmmsg bufs ds) as [bufs1 lens]. cbn [fst snd] in *.
  set (N := zlen (concat batches)). set (B := zsum reported (concat batches)).
  rewrite length_app, Nat2Z.inj_add, zsum_app, omap_app. fold N B.
  rewrite <- counts_comm, note_all_bind, note_all_counters, <- Hr.
  assert (∀ l' c', recv_msgs p bufs1 lens last c = Ok (l', c') →
    (λ x, (x.1.2, x.2)) <$> recv_loop p batches bufs1 l' c' =
    note_all p l' (add_packets N (add_bytes B c')) (omap header (concat batches))) as Hgo.
  { intros l' c' E. rewrite E in Hr. symmetry in Hr. apply note_all_totals in Hr as [Eb Ep].
    apply IH; rewrite ?Eb, ?Ep, ?HL1; try done; apply wrap_fits; lia. }
  destruct lens as [|n lens].
  - replace (recv_msgs p bufs1 [] last c) with (Ok (last, c)) in * by (by destruct bufs1).
    cbn. by apply Hgo.
  - destruct (recv_msgs p bufs1 (n :: lens) last c) as [[l' c']| |]; cbn; [by apply Hgo|done..].
Qed.
End receiver_lemmas.

(** ** Lemmas: both ends *)

(** The receive buffers' length. *)
Definition server_blen (len1 : Z) : nat := Z.to_nat (Z.max (Z.max len1 HDR) 2048).

Lemma server_blen_16 len1 : 16 ≤ Z.of_nat (server_blen len1).
Proof. unfold server_blen, HDR. lia. Qed.

(** A datagram of thread [t] shows its stream id and number. *)
Lemma header_numbered t len0 len1 x :
  is_u64 t → is_u64 x → Z.max len0 HDR ≤ Z.max len1 2048 →
  header (server_blen len1) (numbered (client_base t len0) x) = Some (t, x)
  ∧ reported (server_blen len1) (numbered (client_base t len0) x) = Z.max len0 HDR.
Proof.
  intros Ht Hx Hle. pose proof (length_client_base t len0) as HL. unfold HDR in *.
  pose proof (length_numbered (client_base t len0) x ltac:(lia)) as HN.
  unfold header, reported. rewrite take_ge by (unfold server_blen, HDR; lia).
  rewrite HN, HL. split; [|done]. rewrite (proj2 (Z.leb_le _ _)) by (unfold HDR; lia).
  rewrite payload_seq_numbered by (done || lia). do 2 f_equal.
  unfold payload_sid, numbered.
  rewrite slice_splice_ne by (rewrite ?length_to_le_bytes; lia).
  unfold client_base. rewrite slice_splice_in, Z.sub_diag
    by (rewrite ?length_replicate, ?length_to_le_bytes; unfold HDR; lia).
  rewrite slice_full by (by rewrite length_to_le_bytes). by apply from_to_le_u64.
Qed.

Lemma server_replicate len1 :
  Forall (λ b, length b = server_blen len1) (replicate BATCH (replicate (server_blen len1) 0)).
Proof. apply Forall_replicate. by rewrite length_replicate. Qed.

(** The worker on datagrams of one client thread: the drops are the gaps
    between their numbers. *)
Lemma server_counts p t len0 len1 batches l c :
  is_u64 t → Z.max len0 HDR ≤ Z.max len1 2048 →
  Forall (λ ds, (length ds ≤ BATCH)%nat) batches →
  concat batches = numbered (client_base t len0) <$> l → Forall seq_ok l →
  is_u64 (bytes c) → is_u64 (packets c) → is_u64 (drops c) →
  ∃ bufs last', udp_server_worker p len1 batches c =
    Ok (bufs, last', add_drops (gaps None l)
      (add_packets (zlen l) (add_bytes (zlen l * Z.max len0 HDR) c))).
Proof.
  intros Ht Hle Hb E Hl Hcb Hcp Hcd. unfold udp_server_worker.
  pose proof (recv_loop_spec p (server_blen len1) (server_blen_16 len1) batches
    (replicate BATCH (replicate (server_blen len1) 0)) ∅ c (server_replicate len1)) as Hr.
  rewrite length_replicate in Hr. specialize (Hr Hb Hcb Hcp). cbn zeta in Hr.
  set (hd := numbered (client_base t len0)) in *.
  assert (∀ x, x ∈ l → header (server_blen len1) (hd x) = Some (t, x)
    ∧ reported (server_blen len1) (hd x) = Z.max len0 HDR) as Hh.
  { intros x Hx. rewrite Forall_forall in Hl. apply header_numbered; try done.
    destruct (Hl x Hx). split; lia. }
  assert (omap (header (server_blen len1)) (hd <$> l) = (t,.) <$> l
    ∧ zsum (reported (server_blen len1)) (hd <$> l) = zlen l * Z.max len0 HDR) as [Eo Ez].
  { clear -Hh. induction l as [|x l IH]; [done|]. rewrite !fmap_cons, zsum_cons.
    destruct (Hh x) as [E1 E2]; [left|]. destruct IH as [IH1 IH2]; [intros y Hy; apply Hh; by right|].
    cbn [omap list_omap length]. rewrite E1, E2, IH2. split; [by f_equal|lia]. }
  rewrite E, Eo, Ez, length_fmap in Hr.
  destruct (note_all_sum p [t] ((t,.) <$> l) ∅
    (add_packets (zlen l) (add_bytes (zlen l * Z.max len0 HDR) c))) as [last' En].
  - apply NoDup_singleton.
  - intros x Hx. apply list_elem_of_fmap in Hx as (y & -> & _). left.
  - apply Forall_fmap. eapply Forall_impl; [exact Hl|]. intros x Hx. by split.
  - done.
  - done.
  - rewrite En in Hr. destruct (recv_loop _ _ _ _ _) as [[[bufs l'] c']| |] eqn:Er; cbn in Hr;
      [|done..]. injection Hr as -> ->. exists bufs, last'.
    do 3 f_equal. rewrite Z.add_0_r, lookup_empty. f_equal.
    unfold stream. clear. induction l as [|x l IH]; [done|].
    rewrite fmap_cons, filter_cons_True by done. cbn. by f_equal.
Qed.

Lemma blocks_full seq rets : Forall (λ r, r = 64) rets → blocks seq rets = seqZ seq (64 * zlen rets).
Proof.
  intros H. revert seq. induction H as [|r rets -> _ IH]; intros seq; [done|].
  cbn [blocks length]. rewrite IH, Z.max_r by lia.
  rewrite <- seqZ_app by lia. f_equal. lia.
Qed.

(** The numbers skipped between batches: what every batch but the last left
    unsent. *)
Definition skipped (rets : list Z) : Z := zsum (λ r, 64 - r) (removelast rets).

Lemma gaps_blocks rets : Forall (λ r, 1 ≤ r ≤ 64) rets → ∀ seq q,
  q < seq → rets ≠ [] → gaps (Some q) (blocks seq rets) = (seq - q - 1) + skipped rets.
Proof.
  assert (∀ s q r, q < s → 1 ≤ r →
    gaps (Some q) (seqZ s r) = s - q - 1 ∧ last (seqZ s r) = Some (s + r - 1)) as Hrun.
  { intros s q r Hq Hr. split; [|by apply last_seqZ; lia].
    rewrite seqZ_cons by lia. cbn [gaps].
    pose proof (gaps_consecutive s r) as Hc. rewrite seqZ_cons in Hc by lia. cbn [gaps] in Hc. lia. }
  induction 1 as [|r rets Hr Hrs IH]; intros seq q Hq Hne; [done|]. cbn [blocks].
  rewrite Z.max_r, gaps_app by lia. destruct (Hrun seq q r) as [-> ->]; [lia..|].
  change (default q (Some (seq + r - 1))) with (seq + r - 1).
  destruct rets as [|r' rets].
  - cbn. unfold skipped. cbn. lia.
  - rewrite (IH (seq + 64) (seq + r - 1)) by (done || lia).
    unfold skipped. cbn [removelast]. rewrite zsum_cons. lia.
Qed.

Lemma blocks_range rets : Forall (λ r, r ≤ 64) rets → ∀ seq x,
  x ∈ blocks seq rets → seq ≤ x < seq + 64 * zlen rets.
Proof.
  induction 1 as [|r rets Hr _ IH]; intros seq x Hx; [by apply elem_of_nil in Hx|].
  cbn [blocks length] in *. apply elem_of_app in Hx as [Hx|Hx].
  - apply elem_of_seqZ in Hx. lia.
  - apply IH in Hx. lia.
Qed.

(** The numbers rise. *)
Lemma blocks_sorted rets : Forall (λ r, r ≤ 64) rets → ∀ seq, StronglySorted Z.lt (blocks seq rets).
Proof.
  induction 1 as [|r rets Hr Hrs IH]; intros seq; [constructor|]. cbn [blocks].
  apply StronglySorted_app. split_and!; [|apply seqZ_sorted|apply IH].
  intros x y Hx%elem_of_seqZ Hy%(blocks_range rets Hrs). lia.
Qed.

(** Numbers a thread of at most [2^57] batches uses. *)
Lemma blocks_seq_ok deadline envs :
  Forall (λ ev, se_ret ev ≤ 64) envs → 64 * (zlen envs + 2) < 2 ^ 64 →
  Forall seq_ok (blocks 0 (se_ret <$> running deadline envs)).
Proof.
  intros Hr Hlt. assert (Forall (λ ev, se_ret ev ≤ 64) (running deadline envs)
    ∧ (length (running deadline envs) ≤ length envs)%nat) as [Hr' HL].
  { clear Hlt. induction Hr as [|ev envs He Hr [IH1 IH2]]; cbn [running]; [by split; [constructor|]|].
    destruct (se_now ev <? deadline); (split; [|cbn [length]; lia]); [by constructor|constructor]. }
  apply Forall_forall. intros x Hx. apply blocks_range in Hx; [|by apply Forall_fmap].
  rewrite length_fmap in Hx. unfold seq_ok. lia.
Qed.

Lemma sublist_fmap_inv {A B} (f : A → B) k l :
  k `sublist_of` f <$> l → ∃ l', k = f <$> l' ∧ l' `sublist_of` l.
Proof.
  revert k. induction l as [|x l IH]; intros k Hs; rewrite ?fmap_cons in Hs.
  - apply sublist_nil_r in Hs as ->. by exists [].
  - apply sublist_cons_r in Hs as [Hs|(k' & -> & Hs)]; destruct (IH _ Hs) as (l' & -> & Hl).
    + exists l'. split; [done|]. by apply sublist_cons.
    + exists (x :: l'). split; [done|]. by apply sublist_skip.
Qed.

(** Reading the numbers back off a list of datagrams. *)
Lemma seqs_of_numbered base l :
  16 ≤ zlen base → Forall seq_ok l → payload_seq <$> (numbered base <$> l) = l.
Proof.
  intros H16. induction 1 as [|x l [Hx0 Hx1] _ IH]; [done|]. rewrite !fmap_cons, IH.
  rewrite payload_seq_numbered; [done|done|]. split; lia.
Qed.

(** The part [l] of the numbers that arrives has the same ends as [m] when
    the datagrams do. *)
Lemma same_ends base l m :
  16 ≤ zlen base → Forall seq_ok l → Forall seq_ok m →
  head (numbered base <$> l) = head (numbered base <$> m) →
  last (numbered base <$> l) = last (numbered base <$> m) → head l = head m ∧ last l = last m.
Proof.
  intros H16 Hl Hm Hh Hla.
  rewrite <- (seqs_of_numbered base l), <- (seqs_of_numbered base m) by done.
  revert Hh Hla. generalize (numbered base <$> l), (numbered base <$> m). intros k1 k2 Hh Hla.
  rewrite !fmap_last, Hla. split; [|done]. by destruct k1, k2; cbn in *; simplify_eq.
Qed.

(** ** Properties of the UDP engine *)

(** The UDP client counts what it sends.  For any clock readings and
    any results of [sendmmsg] the thread does not panic; the datagrams that
    left are, batch by batch, the first [ret] of the 64 numbered buffers,
    each carrying the thread's index and its own number; and the shared
    counters grow by exactly their number and their total length. *)
Theorem udp_client_accounts p t len0 pps deadline start c envs :
  64 * len0 < 2 ^ 64 → Forall (λ ev, se_ret ev ≤ 64) envs → 64 * (zlen envs + 2) < 2 ^ 64 →
  is_u64 (bytes c) → is_u64 (packets c) →
  let rets := se_ret <$> running deadline envs in
  ∃ s left, udp_client_thread p t len0 pps deadline start c envs = Ok (s, left)
    ∧ ss_wire s = numbered (client_base t len0) <$> blocks 0 rets
    ∧ ss_counters s = add_packets (zlen (ss_wire s))
        (add_bytes (zlen (ss_wire s) * Z.max len0 HDR) c).
Proof.
  intros Hml Hr Hlt Hb Hp rets.
  destruct (udp_client_thread_spec p t len0 pps deadline start c envs Hml Hr Hlt Hb Hp)
    as (s & left & Hrun & Hw & Hc).
  exists s, left. split_and!; [done..|]. rewrite Hc, Hw, length_fmap, length_blocks. done.
Qed.

Definition demo_envs : list send_env :=
  [SendEnv 1 64 2 2; SendEnv 3 10 4 4; SendEnv 5 (-1) 6 6; SendEnv 7 64 8 8; SendEnv 100 64 0 0].

Lemma udp_client_accounts_witness :
  ∃ s left, udp_client_thread Debug 3 1400 0 50 0 Counters_default demo_envs = Ok (s, left)
    ∧ ss_wire s = numbered (client_base 3 1400) <$> blocks 0 [64; 10; -1; 64]
    ∧ ss_counters s = add_packets (zlen (ss_wire s))
        (add_bytes (zlen (ss_wire s) * Z.max 1400 HDR) Counters_default).
Proof.
  apply (udp_client_accounts Debug 3 1400 0 50 0 Counters_default demo_envs);
    apply (bool_decide_unpack _); vm_compute; exact I.
Defined.

(** The UDP loss figure is exact end to end.  If every [sendmmsg] of a
    client thread takes its whole batch and the network delivers, in order,
    a part of the datagrams that includes the first and the last, then the
    server worker, whatever batches [recvmmsg] hands it, adds exactly the
    number of datagrams that are missing to its drop counter, and the
    number received to its packet counter. *)
Theorem udp_loss_exact p t len0 len1 pps deadline start c cs envs s left batches :
  is_u64 t → 64 * len0 < 2 ^ 64 → Forall (λ ev, se_ret ev = 64) envs →
  64 * (zlen envs + 2) < 2 ^ 64 → is_u64 (bytes c) → is_u64 (packets c) →
  is_u64 (bytes cs) → is_u64 (packets cs) → is_u64 (drops cs) →
  Z.max len0 HDR ≤ Z.max len1 2048 →
  udp_client_thread p t len0 pps deadline start c envs = Ok (s, left) →
  Forall (λ ds, (length ds ≤ BATCH)%nat) batches →
  concat batches `sublist_of` ss_wire s → concat batches ≠ [] →
  head (concat batches) = head (ss_wire s) → last (concat batches) = last (ss_wire s) →
  ∃ bufs last', udp_server_worker p len1 batches cs = Ok (bufs, last',
    add_drops (zlen (ss_wire s) - zlen (concat batches))
      (add_packets (zlen (concat batches))
        (add_bytes (zlen (concat batches) * Z.max len0 HDR) cs))).
Proof.
  intros Ht Hml Hr Hlt Hb Hp Hsb Hsp Hsd Hle Hrun Hba Hsub Hne Hh Hl.
  assert (Forall (λ ev, se_ret ev ≤ 64) envs) as Hr' by (eapply Forall_impl; [exact Hr|]; cbn; lia).
  destruct (udp_client_thread_spec p t len0 pps deadline start c envs Hml Hr' Hlt Hb Hp)
    as (s' & left' & Hrun' & Hw & _). rewrite Hrun in Hrun'. simplify_eq.
  pose proof (blocks_seq_ok deadline envs Hr' Hlt) as Hok.
  set (rets := se_ret <$> running deadline envs) in *.
  assert (blocks 0 rets = seqZ 0 (64 * zlen rets)) as Hfull.
  { apply blocks_full, Forall_fmap. clear -Hr. induction Hr as [|ev envs He _ IH]; cbn [running];
      [constructor|]. destruct (se_now ev <? deadline); by constructor. }
  rewrite Hfull in *. rewrite Hw in *. apply sublist_fmap_inv in Hsub as (l & E & Hsub).
  rewrite E in *. pose proof (length_client_base t len0) as HL. unfold HDR in HL.
  assert (Forall seq_ok l) as Hl'.
  { apply Forall_forall. intros x Hx. rewrite Forall_forall in Hok. apply Hok.
    by eapply elem_of_submseteq; [|apply sublist_submseteq]. }
  destruct (same_ends (client_base t len0) l (seqZ 0 (64 * zlen rets)) ltac:(lia) Hl' Hok Hh Hl)
    as [Hh' Hla].
  destruct (server_counts p t len0 len1 batches l cs) as (bufs & last' & ->); try done.
  exists bufs, last'. rewrite !length_fmap, length_seqZ. do 3 f_equal.
  assert (0 < 64 * zlen rets) as Hpos.
  { destruct (decide (0 < 64 * zlen rets)) as [|Hz]; [done|].
    replace (64 * zlen rets) with 0 in Hsub by lia. apply sublist_nil_r in Hsub as ->. done. }
  rewrite (gaps_exact l 0 (64 * zlen rets)); [lia|done|..].
  - rewrite Hh'. by rewrite seqZ_cons by lia.
  - rewrite Hla. by rewrite last_seqZ by lia.
Qed.

(** One full batch of 64, of which two datagrams are lost on the way. *)
Definition demo_wire : list (list Z) := numbered (client_base 3 32) <$> seqZ 0 64.

Lemma udp_loss_exact_witness :
  ∃ bufs last', udp_server_worker Debug 32 [take 5 demo_wire; drop 7 demo_wire] Counters_default =
    Ok (bufs, last', add_drops (64 - 62)
      (add_packets 62 (add_bytes (62 * 32) Counters_default))).
Proof.
  destruct (udp_client_thread Debug 3 32 0 50 0 Counters_default [SendEnv 1 64 2 2])
    as [[s left]| |] eqn:E; [|vm_compute in E; discriminate E..].
  assert (ss_wire s = demo_wire) as Hw.
  { apply (f_equal (λ r, match r with Ok (s, _) => ss_wire s | _ => [] end)) in E.
    rewrite <- E. vm_compute. reflexivity. }
  assert (concat [take 5 demo_wire; drop 7 demo_wire] `sublist_of` demo_wire) as Hsub.
  { cbn [concat]. rewrite app_nil_r. rewrite <- (take_drop 5 demo_wire) at 3.
    apply sublist_app; [done|]. change (drop 7 demo_wire) with (drop 2 (drop 5 demo_wire)).
    apply sublist_drop. }
  pose proof (udp_loss_exact Debug 3 32 32 0 50 0 Counters_default Counters_default
    [SendEnv 1 64 2 2] s left [take 5 demo_wire; drop 7 demo_wire]) as H.
  rewrite Hw in H. apply H; try exact E; try exact Hsub;
    first [apply (bool_decide_unpack _); vm_compute; exact I | vm_compute; reflexivity | done].
Defined.

(** What the server reports when the network loses nothing.  The client
    numbers all 64 buffers of a batch before it knows how many [sendmmsg]
    takes, so every batch but the last of which only [ret < 64] datagrams
    leave makes the server count [64 - ret] drops although every datagram
    sent arrives in order: with complete batches the figure is 0, with
    partial ones it is the numbers that were never sent. *)
Theorem udp_lossless_drops p t len0 len1 pps deadline start c cs envs s left batches :
  is_u64 t → 64 * len0 < 2 ^ 64 → Forall (λ ev, 1 ≤ se_ret ev ≤ 64) envs →
  64 * (zlen envs + 2) < 2 ^ 64 → is_u64 (bytes c) → is_u64 (packets c) →
  is_u64 (bytes cs) → is_u64 (packets cs) → is_u64 (drops cs) →
  Z.max len0 HDR ≤ Z.max len1 2048 →
  udp_client_thread p t len0 pps deadline start c envs = Ok (s, left) →
  Forall (λ ds, (length ds ≤ BATCH)%nat) batches → concat batches = ss_wire s →
  ∃ bufs last', udp_server_worker p len1 batches cs = Ok (bufs, last',
    add_drops (skipped (se_ret <$> running deadline envs))
      (add_packets (zlen (ss_wire s)) (add_bytes (zlen (ss_wire s) * Z.max len0 HDR) cs))).
Proof.
  intros Ht Hml Hr Hlt Hb Hp Hsb Hsp Hsd Hle Hrun Hba E.
  assert (Forall (λ ev, se_ret ev ≤ 64) envs) as Hr' by (eapply Forall_impl; [exact Hr|]; cbn; lia).
  destruct (udp_client_thread_spec p t len0 pps deadline start c envs Hml Hr' Hlt Hb Hp)
    as (s' & left' & Hrun' & Hw & _). rewrite Hrun in Hrun'. simplify_eq.
  pose proof (blocks_seq_ok deadline envs Hr' Hlt) as Hok.
  set (rets := se_ret <$> running deadline envs) in *.
  destruct (server_counts p t len0 len1 batches (blocks 0 rets) cs) as (bufs & last' & ->);
    try done; [congruence|].
  exists bufs, last'. rewrite Hw, length_fmap. do 3 f_equal.
  assert (Forall (λ r, 1 ≤ r ≤ 64) rets) as Hrets.
  { apply Forall_fmap. clear -Hr. induction Hr as [|ev envs He _ IH]; cbn [running];
      [constructor|]. destruct (se_now ev <? deadline); by constructor. }
  destruct (decide (rets = [])) as [->|Hne]; [done|].
  pose proof (gaps_blocks rets Hrets 0 (-1) ltac:(lia) Hne) as Hg.
  replace (gaps None (blocks 0 rets)) with (gaps (Some (-1)) (blocks 0 rets)); [lia|].
  destruct Hrets as [|r rets' Hr1 _]; [done|]. cbn [blocks]. rewrite seqZ_cons by lia. done.
Qed.

Lemma udp_lossless_drops_witness :
  ∃ s left bufs last',
    udp_client_thread Debug 3 32 0 50 0 Counters_default [SendEnv 1 60 2 2; SendEnv 3 1 4 4]
      = Ok (s, left)
    ∧ udp_server_worker Debug 32 [take 30 (ss_wire s); drop 30 (ss_wire s)] Counters_default =
      Ok (bufs, last', add_drops 4
        (add_packets (zlen (ss_wire s)) (add_bytes (zlen (ss_wire s) * 32) Counters_default))).
Proof.
  destruct (udp_client_thread Debug 3 32 0 50 0 Counters_default
    [SendEnv 1 60 2 2; SendEnv 3 1 4 4]) as [[s left]| |] eqn:E;
    [|vm_compute in E; discriminate E..].
  assert (length (ss_wire s) = 61%nat) as HL.
  { apply (f_equal (λ r, match r with Ok (s, _) => length (ss_wire s) | _ => 0%nat end)) in E.
    rewrite <- E. vm_compute. reflexivity. }
  exists s, left.
  destruct (udp_lossless_drops Debug 3 32 32 0 50 0 Counters_default Counters_default
    [SendEnv 1 60 2 2; SendEnv 3 1 4 4] s left [take 30 (ss_wire s); drop 30 (ss_wire s)])
    as (bufs & last' & H); try exact E;
    try (first [apply (bool_decide_unpack _); vm_compute; exact I]).
  - do 2 (apply Forall_cons_2; [rewrite ?length_take, ?length_drop, HL; unfold BATCH; lia|]).
    apply Forall_nil_2.
  - cbn [concat]. by rewrite app_nil_r, take_drop.
  - exists bufs, last'. split; [reflexivity|]. exact H.
Defined.

(** Pacing of the UDP client.  With a budget [pps] and fewer than [pps]
    packets sent in the current window, an iteration either stays below the
    budget without sleeping or exceeds it by at most 63 packets; then the
    thread sleeps until a second after the window opened and starts a new
    window at zero. *)
Theorem udp_pacing_window p t len0 pps ev s :
  64 * len0 < 2 ^ 64 → Forall (stamped (client_base t len0)) (ss_bufs s) →
  length (ss_bufs s) = BATCH → 0 ≤ ss_seq s → ss_seq s + 128 < 2 ^ 64 →
  0 ≤ ss_sent s ≤ ss_seq s → se_ret ev ≤ 64 → ss_sent s < pps →
  let r := Z.max 0 (se_ret ev) in
  ∃ s' slept, send_iter p (Z.max len0 HDR) pps ev s = Ok (s', slept)
    ∧ ((ss_sent s' = ss_sent s + r ∧ ss_sent s' < pps ∧ slept = 0 ∧ ss_start s' = ss_start s)
       ∨ (pps ≤ ss_sent s + r ≤ pps + 63 ∧ ss_sent s' = 0
          ∧ SEC ≤ se_now_pace ev - ss_start s + slept ∧ ss_start s' = se_now_reset ev)).
Proof.
  intros Hml Hb HL Hq Hlt Hs Hret Hpps r. pose proof (length_client_base t len0) as Hlen.
  unfold HDR in *.
  destruct (send_iter_spec p (client_base t len0) ltac:(lia) (Z.max len0 16) pps ev s)
    as (slept & sent & st & -> & _ & Hpace); try (done || lia).
  eexists. eexists. split; [done|]. cbn [ss_sent ss_start].
  destruct Hpace as [(-> & ? & -> & ->)|(? & -> & -> & ->)]; [lia..|left|right]; split_and!; try done; lia.
Qed.

Lemma udp_pacing_window_witness :
  ∃ s' slept,
    send_iter Release 32 100 (SendEnv 5 64 600 700)
      (SendState (replicate BATCH (client_base 1 32)) 64 64 0 Counters_default []) = Ok (s', slept)
    ∧ ((ss_sent s' = 64 + 64 ∧ ss_sent s' < 100 ∧ slept = 0 ∧ ss_start s' = 0)
       ∨ (100 ≤ 64 + 64 ≤ 100 + 63 ∧ ss_sent s' = 0
          ∧ SEC ≤ 600 - 0 + slept ∧ ss_start s' = 700)).
Proof.
  apply (udp_pacing_window Release 1 32 100 (SendEnv 5 64 600 700)
    (SendState (replicate BATCH (client_base 1 32)) 64 64 0 Counters_default []));
    cbn [ss_bufs ss_seq ss_sent se_ret]; try lia.
  - apply Forall_replicate. by left.
  - reflexivity.
Defined.

(** *** The rate of a whole run *)

Section rate.
Context (p : profile) (len pps deadline : Z).

(** The readings of a monotone clock: [clk] is the last one; a thread that
    sleeps wakes up no earlier than it asked for. *)
Fixpoint clock_ok (clk : Z) (envs : list send_env) (s : send_state) : Prop :=
  match envs with
  | [] => True
  | ev :: envs =>
      clk ≤ se_now ev ∧
      (se_now ev < deadline →
       se_now ev ≤ se_now_pace ev ∧
       match send_iter p len pps ev s with
       | Ok (s', slept) => se_now_pace ev + slept ≤ se_now_reset ev ∧ clock_ok (se_now_reset ev) envs s'
       | _ => True
       end)
  end.

(** The pacing of a state. *)
Definition send_window (s : send_state) : window := Window (zlen (ss_wire s)) (ss_sent s) (ss_start s).

Lemma send_while_rate base start secs envs :
  16 ≤ zlen base → 0 ≤ len → 64 * len < 2 ^ 64 → 0 < pps → deadline ≤ start + secs * SEC →
  Forall (λ ev, se_ret ev ≤ 64) envs → ∀ s clk s' left,
  Forall (stamped base) (ss_bufs s) → length (ss_bufs s) = BATCH →
  0 ≤ ss_seq s → ss_seq s + 64 * (zlen envs + 2) < 2 ^ 64 → 0 ≤ ss_sent s ≤ ss_seq s →
  window_ok SEC pps start (send_window s) → zlen (ss_wire s) ≤ secs * (pps + 63) →
  ss_start s ≤ clk → clock_ok clk envs s →
  send_while p len pps deadline envs s = Ok (s', left) → zlen (ss_wire s') ≤ secs * (pps + 63).
Proof.
  intros H16 Hlen Hml Hpps Hdl. induction 1 as [|ev envs Hev _ IH]; intros s clk s' left Hb HL Hq Hlt Hs Hw Htot Hst Hck Hrun;
    cbn [send_while clock_ok] in *; [by simplify_eq|].
  destruct Hck as [Hnow Hck]. destruct (Z.ltb_spec (se_now ev) deadline) as [Hd|]; [|by simplify_eq].
  destruct (Hck Hd) as [Hpace Hck']. clear Hck. cbn [length] in Hlt.
  destruct (send_iter_spec p base H16 len pps ev s) as (slept & sent & st & E & Hsent & Hwin); try (done || lia).
  rewrite E in Hck', Hrun. cbn [mbind res_bind] in Hrun. destruct Hck' as [Hreset Hck'].
  set (r := Z.max 0 (se_ret ev)) in *. set (s1 := SendState _ _ _ _ _ _) in *.
  assert (zlen (ss_wire s1) = zlen (ss_wire s) + r) as Ew.
  { subst s1. cbn [ss_wire]. rewrite length_app, length_fmap, length_seqZ. lia. }
  assert (paced SEC pps (send_window s) (send_window s1) ∧ st ≤ se_now_reset ev) as [Hp Hst1].
  { unfold send_window. rewrite Ew. subst s1. cbn [ss_sent ss_start].
    destruct (Hwin Hpps (proj2 (proj1 Hw))) as [(-> & ? & -> & ->)|(? & -> & ? & ->)];
      (split; [|lia]); constructor; lia. }
  assert (zlen (ss_wire s1) ≤ secs * (pps + 63)) as Htot1.
  { apply (paced_total SEC pps start secs (se_now ev) (send_window s) (send_window s1)); try done; cbn; lia. }
  eapply (IH s1 (se_now_reset ev)); [..|exact Hck'|exact Hrun]; subst s1; cbn [ss_bufs ss_seq ss_sent ss_start]; try (done || lia).
  - apply Forall_fmap, Forall_forall. intros x _. right. by exists x.
  - by eapply (window_ok_step SEC pps).
Qed.
End rate.

(** A paced UDP client thread keeps to its budget over the whole run: on a
    monotone clock, from a start no earlier than [secs] seconds before the
    deadline, it sends at most [pps + 63] datagrams for each of them, however
    the iterations fall. *)
Lemma udp_thread_rate p t len0 pps deadline start c envs secs s left :
  64 * len0 < 2 ^ 64 → Forall (λ ev, se_ret ev ≤ 64) envs → 64 * (zlen envs + 2) < 2 ^ 64 →
  0 < pps → 0 ≤ secs → deadline ≤ start + secs * SEC →
  clock_ok p (Z.max len0 HDR) pps deadline start envs
    (SendState (replicate BATCH (client_base t len0)) 0 0 start c []) →
  udp_client_thread p t len0 pps deadline start c envs = Ok (s, left) →
  zlen (ss_wire s) ≤ secs * (pps + 63).
Proof.
  intros Hml Hr Hlt Hpps Hsecs Hdl Hck Hrun. unfold udp_client_thread in Hrun.
  pose proof (length_client_base t len0) as HL. unfold HDR in *.
  eapply (send_while_rate p (Z.max len0 16) pps deadline (client_base t len0) start secs envs);
    [..|exact Hck|exact Hrun]; try (done || lia); cbn [ss_bufs ss_seq ss_sent ss_wire length].
  - apply Forall_replicate. by left.
  - by apply window_ok_init.
  - nia.
Qed.

(** The UDP server worker, over any batches of datagrams, counts every
    message and the bytes reported for it and runs the loss detector over
    the headers of the datagrams themselves, in order: although the receive
    buffers are reused and still hold older bytes, a header is read only
    from a message long enough to have overwritten it. *)
Theorem udp_server_accounts p len1 batches c :
  Forall (λ ds, (length ds ≤ BATCH)%nat) batches → is_u64 (bytes c) → is_u64 (packets c) →
  let all := concat batches in
  (λ x, (x.1.2, x.2)) <$> udp_server_worker p len1 batches c =
  note_all p ∅ (add_packets (zlen all) (add_bytes (zsum (reported (server_blen len1)) all) c))
    (omap (header (server_blen len1)) all).
Proof.
  intros Hb Hcb Hcp all. unfold udp_server_worker.
  pose proof (recv_loop_spec p (server_blen len1) (server_blen_16 len1) batches
    (replicate BATCH (replicate (server_blen len1) 0)) ∅ c (server_replicate len1)) as Hr.
  rewrite length_replicate in Hr. exact (Hr Hb Hcb Hcp).
Qed.

(** A full header in the first batch, then a runt in the same buffer: the
    runt is counted, and the stale header is not read again. *)
Lemma udp_server_accounts_witness :
  (λ x, (x.1.2, x.2)) <$> udp_server_worker Debug 1400
    [[numbered (client_base 9 32) 5]; [[1; 2; 3]]] Counters_default =
  Ok (<[9 := 5]> ∅, mkCounters 35 2 0).
Proof.
  rewrite (udp_server_accounts Debug 1400).
  - vm_compute. reflexivity.
  - do 2 (apply Forall_cons_2; [vm_compute; lia|]). apply Forall_nil_2.
  - split; [discriminate|reflexivity].
  - split; [discriminate|reflexivity].
Defined.

(** ** Properties of the sockets *)

Section sockets.
Context (k : kernel) (e : endian).

(** What opening a listening socket leads to. *)
Definition listen_post (h : history) (r : result io_err Z) (h' : history) : Prop :=
  match r with
  | Okay fd => opened h' = OpenSet (fd :: fds (opened h)) (maps (opened h))
      ∧ ∃ sa a1 a2 a3, (Setsockopt fd SO_REUSEADDR (OptInt 1), a1) ∈ h'
          ∧ (Setsockopt fd SO_REUSEPORT (OptInt 1), a2) ∈ h'
          ∧ (Bind fd (SaIn sa), a3) ∈ h' ∧ 0 ≤ ret a3
  | Err _ => opened h' = opened h
  end.

Lemma opened_socket h c fd f l : opened h = OpenSet (fd :: f) l →
  (match c.1 with Setsockopt _ _ _ | Bind _ _ | Listen _ _ => True | _ => False end) →
  opened (h ++ [c]) = OpenSet (fd :: f) l.
Proof. intros E Hc. rewrite opened_snoc, E. by destruct c as [[] a]. Qed.

(** One call on the new socket that opens and closes nothing. *)
Ltac sock_step hn En Eprev :=
  apply wp_bind, wp_syscall;
  match goal with |- wp _ (?h ++ [?c]) _ =>
    pose proof (opened_socket h c _ _ _ Eprev I) as En; set (hn := h ++ [c]) in *
  end.

(** The error path closes the socket. *)
Lemma wp_close_err {A} h fd o (err : io_err) (Q : result io_err A → history → Prop) :
  opened h = OpenSet (fd :: fds o) (maps o) → (∀ h', opened h' = o → Q (Err err) h') →
  wp (syscall k (Close fd);; mret (Err err)) h Q.
Proof.
  intros E HQ. apply wp_bind, wp_syscall, wp_ret, HQ. rewrite opened_snoc, E. unfold open_step.
  cbn [fst fds maps]. rewrite remove1_head. by destruct o.
Qed.

Lemma wp_reuseport_tcp addr h :
  wp (reuseport_tcp_listener k e addr) h (listen_post h).
Proof.
  unfold reuseport_tcp_listener, set_opt_int. apply wp_try, wp_ret.
  destruct (sockaddr_v4 e addr) as [sa|err]; [|done].
  apply wp_bind, wp_syscall. set (fd := ret _). set (h0 := h ++ [_]).
  assert (opened h0 = if 0 <=? fd then OpenSet (fd :: fds (opened h)) (maps (opened h))
                      else opened h) as E0 by (unfold h0; by rewrite opened_snoc).
  destruct (Z.ltb_spec fd 0) as [Hneg|Hpos].
  { apply wp_ret. cbn. by rewrite E0, (proj2 (Z.leb_gt _ _)). }
  rewrite (proj2 (Z.leb_le _ _)) in E0 by done.
  sock_step h1 E1 E0. sock_step h2 E2 E1. sock_step h3 E3 E2.
  destruct (Z.ltb_spec (ret (k h2 (Bind fd (SaIn sa)))) 0) as [Hb|Hb]; [by eapply wp_close_err|].
  sock_step h4 E4 E3. destruct (_ <? 0); [by eapply wp_close_err|].
  apply wp_ret. split; [done|].
  exists sa, (k h0 (Setsockopt fd SO_REUSEADDR (OptInt 1))), (k h1 (Setsockopt fd SO_REUSEPORT (OptInt 1))),
    (k h2 (Bind fd (SaIn sa))).
  unfold h4, h3, h2, h1.
  split_and!; [..|exact Hb]; rewrite !elem_of_app, !list_elem_of_singleton; tauto.
Qed.

Lemma wp_reuseport_udp addr h :
  wp (reuseport_udp_socket k e addr) h (listen_post h).
Proof.
  unfold reuseport_udp_socket, set_opt_int. apply wp_try, wp_ret.
  destruct (sockaddr_v4 e addr) as [sa|err]; [|done].
  apply wp_bind, wp_syscall. set (fd := ret _). set (h0 := h ++ [_]).
  assert (opened h0 = if 0 <=? fd then OpenSet (fd :: fds (opened h)) (maps (opened h))
                      else opened h) as E0 by (unfold h0; by rewrite opened_snoc).
  destruct (Z.ltb_spec fd 0) as [Hneg|Hpos].
  { apply wp_ret. cbn. by rewrite E0, (proj2 (Z.leb_gt _ _)). }
  rewrite (proj2 (Z.leb_le _ _)) in E0 by done.
  sock_step h1 E1 E0. sock_step h2 E2 E1. sock_step h3 E3 E2. sock_step h4 E4 E3.
  destruct (Z.ltb_spec (ret (k h3 (Bind fd (SaIn sa)))) 0) as [Hb|Hb]; [by eapply wp_close_err|].
  apply wp_ret. split; [done|].
  exists sa, (k h0 (Setsockopt fd SO_REUSEADDR (OptInt 1))), (k h1 (Setsockopt fd SO_REUSEPORT (OptInt 1))),
    (k h3 (Bind fd (SaIn sa))).
  unfold h4, h3, h2, h1.
  split_and!; [..|exact Hb]; rewrite !elem_of_app, !list_elem_of_singleton; tauto.
Qed.
End sockets.

(** Opening a [SO_REUSEPORT] listener or UDP socket leaks no descriptor
    on any error path, for every pattern of failing system calls; on
    success exactly one descriptor more is open, both reuse options were
    requested for it, and it is bound. *)
Theorem reuseport_sockets_clean k e addr h :
  wp (reuseport_tcp_listener k e addr) h (listen_post h)
  ∧ wp (reuseport_udp_socket k e addr) h (listen_post h).
Proof. split; [apply wp_reuseport_tcp|apply wp_reuseport_udp]. Qed.

(** On either byte order [sockaddr_v4] takes the first IPv4 address the
    resolver gave and lays its port and octets out in network order; it
    fails exactly when the resolver gave no IPv4 address. *)
Theorem sockaddr_v4_network_order e l :
  Forall (λ s, match s with SaV4 ip port => length ip = 4%nat ∧ is_bytes ip ∧ is_u16 port
                          | SaV6 _ => True end) l →
  match sockaddr_v4 e (Some l) with
  | Okay sa => ∃ ip port, head (filter (λ s, is_v4 s = true) l) = Some (SaV4 ip port)
      ∧ to_ne_bytes e 2 (sin_port sa) = [hi8 port; lo8 port]
      ∧ to_ne_bytes e 4 (sin_addr sa) = ip
  | Err er => er = InvalidInput ∧ ∀ s, s ∈ l → is_v4 s = false
  end.
Proof.
  intros Hl. cbn [sockaddr_v4].
  destruct (head (filter _ l)) as [[ip port|port]|] eqn:E.
  - assert (SaV4 ip port ∈ l) as Hin.
    { apply head_Some_elem_of, list_elem_of_filter in E as [_ E]. done. }
    rewrite Forall_forall in Hl. destruct (Hl _ Hin) as (HL & Hb & Hp).
    exists ip, port. split_and!; [done|..]; cbn [sin_port sin_addr].
    + assert (reverse (to_le_bytes 2 port) = [hi8 port; lo8 port]) as Hbe.
      { unfold hi8, lo8, wrap. rewrite Z.shiftr_div_pow2 by lia. done. }
      destruct e; cbn [to_ne_bytes to_be16]; [|done]. rewrite Hbe.
      apply (to_from_le_bytes [hi8 port; lo8 port]). bytes.
    + rewrite <- HL. destruct e; cbn [to_ne_bytes from_ne_bytes]; [by apply to_from_le_bytes|].
      rewrite <- length_reverse, to_from_le_bytes; [apply reverse_involutive|by apply Forall_reverse].
  - apply head_Some_elem_of, list_elem_of_filter in E as [E _]. done.
  - split; [done|]. intros s Hs. destruct (is_v4 s) eqn:Es; [|done].
    assert (s ∈ filter (λ s, is_v4 s = true) l) as Hin by (by apply list_elem_of_filter).
    destruct (filter _ l); [by apply elem_of_nil in Hin|done].
Qed.

Lemma sockaddr_v4_network_order_witness :
  ∃ sa, sockaddr_v4 Little (Some [SaV6 80; SaV4 [192;0;2;7] 5201]) = Okay sa
    ∧ to_ne_bytes Little 2 (sin_port sa) = [20; 81] ∧ to_ne_bytes Little 4 (sin_addr sa) = [192;0;2;7].
Proof.
  pose proof (sockaddr_v4_network_order Little [SaV6 80; SaV4 [192;0;2;7] 5201]) as H.
  eexists. split; [reflexivity|].
  destruct H as (ip & port & [= <- <-] & H1 & H2).
  - apply Forall_cons_2; [exact I|]. apply Forall_cons_2; [|apply Forall_nil_2].
    apply (bool_decide_unpack _). vm_compute. exact I.
  - split; [exact H1|exact H2].
Defined.

(** ** Properties of the TCP engine and the reporter *)

Lemma pin_target_elem cpus i c : pin_target cpus i = Some c → c ∈ cpus.
Proof. destruct cpus; [done|]. apply list_elem_of_lookup_2. Qed.

(** Pinning to CPUs that fit. *)
Lemma pin_ok {L : CpuSets} `{!CpuSetsOk L} cpus i : cpus_fit cpus → pin cpus i = Ok (pin_target cpus i).
Proof.
  intros Hf. unfold pin. destruct (pin_target cpus i) as [c|] eqn:E; [|done].
  unfold cpus_fit in Hf. rewrite Forall_forall in Hf.
  destruct (pin_to_cpu_ok c) as [b ->]; [|done]. by eapply Hf, pin_target_elem.
Qed.

Lemma pin_inv {L : CpuSets} cpus i x : pin cpus i = Ok x → x = pin_target cpus i.
Proof.
  unfold pin. destruct (pin_target cpus i); [|by intros [= <-]].
  intros (b & _ & [= <-])%res_bind_inv. done.
Qed.

(** A CPU of the list that does not fit is what makes it panic. *)
Lemma pin_cases {L : CpuSets} `{!CpuSetsOk L} cpus i :
  pin cpus i = Ok (pin_target cpus i) ∨ (pin cpus i = Panic ∧ ¬ cpus_fit cpus).
Proof.
  unfold pin. destruct (pin_target cpus i) as [c|] eqn:E; [|by left].
  destruct (decide (0 ≤ c < CPU_SETSIZE)) as [Hc|Hc].
  - left. by destruct (pin_to_cpu_ok c Hc) as [b ->].
  - right. rewrite pin_to_cpu_panics by done. split; [done|]. unfold cpus_fit. rewrite Forall_forall.
    intros H. by apply Hc, H, pin_target_elem with i.
Qed.

(** Connection [i] goes to the CPU at [i mod n]. *)
Lemma place_readers_spec cpus m : ∀ next,
  0 ≤ next → next + Z.of_nat m < 2 ^ 64 →
  place_readers cpus next m = pin_target cpus <$> seqZ next (Z.of_nat m).
Proof.
  induction m as [|m IH]; intros next Hn Hlt; [done|]. cbn [place_readers].
  rewrite (seqZ_cons next), fmap_cons by lia. f_equal.
  rewrite wrap_small by (split; lia). rewrite IH by lia. do 2 f_equal; lia.
Qed.

(** How many of [0, .., m-1] are [j] modulo [n]. *)
Lemma count_mod n j m : 0 ≤ j < n →
  zlen (filter (λ i, i mod n = j) (seqZ 0 (Z.of_nat m))) = (Z.of_nat m + n - 1 - j) / n.
Proof.
  intros Hj. induction m as [|m IH].
  { change (Z.of_nat 0) with 0. by rewrite Z.div_small by lia. }
  rewrite Nat2Z.inj_succ. unfold Z.succ. rewrite seqZ_app, filter_app, length_app, Nat2Z.inj_add, IH by lia.
  change (seqZ (0 + Z.of_nat m) 1) with [0 + (0 + Z.of_nat m)].
  rewrite !Z.add_0_l. set (M := Z.of_nat m). assert (0 ≤ M) by lia.
  destruct (decide (M mod n = j)) as [E|E].
  - rewrite filter_cons_True by done. cbn [filter list_filter length].
    pose proof (Z.div_mod M n ltac:(lia)) as Hdm.
    replace (M + n - 1 - j) with (n - 1 + M / n * n) by lia.
    replace (M + 1 + n - 1 - j) with (0 + (M / n + 1) * n) by lia.
    rewrite !Z.div_add by lia. rewrite (Z.div_small (n - 1)), Z.div_0_l by lia. lia.
  - rewrite filter_cons_False by done. cbn [filter list_filter length]. rewrite Z.add_0_r.
    pose proof (Z.div_mod M n ltac:(lia)) as Hdm. pose proof (Z.mod_pos_bound M n ltac:(lia)) as Hb.
    set (a := M mod n) in *. set (q := M / n) in *.
    replace (M + n - 1 - j) with (a + n - 1 - j + q * n) by lia.
    replace (M + 1 + n - 1 - j) with (a + n - j + q * n) by lia.
    rewrite !Z.div_add by lia. f_equal.
    destruct (decide (a < j)).
    + rewrite !Z.div_small; lia.
    + replace (a + n - 1 - j) with (a - 1 - j + 1 * n) by lia.
      replace (a + n - j) with (a - j + 1 * n) by lia. rewrite !Z.div_add by lia.
      rewrite !Z.div_small; lia.
Qed.

(** The readers of a TCP server are spread evenly.  Whichever listener
    accepts which connection, after [m] connections every CPU of the list
    runs either [m / n] or [m / n + 1] of their readers, [n] being the
    number of CPUs. *)
Theorem readers_balanced cpus m c :
  NoDup cpus → c ∈ cpus → Z.of_nat m < 2 ^ 64 →
  let runs := zlen (filter (λ x, x = Some c) (place_readers cpus 0 m)) in
  Z.of_nat m / zlen cpus ≤ runs ≤ Z.of_nat m / zlen cpus + 1.
Proof.
  intros Hnd Hc Hm runs. subst runs. rewrite place_readers_spec by lia.
  apply list_elem_of_lookup in Hc as [j Hj]. pose proof (lookup_lt_Some _ _ _ Hj) as Hlt.
  set (n := zlen cpus) in *. assert (0 < n) as Hn by lia.
  assert (∀ l, zlen (filter (λ x, x = Some c) (pin_target cpus <$> l)) =
               zlen (filter (λ i, i mod n = Z.of_nat j) l)) as Hcount.
  { induction l as [|i l IH]; [done|]. rewrite fmap_cons, !filter_cons.
    assert (pin_target cpus i = cpus !! Z.to_nat (i mod n)) as Ep by (by destruct cpus).
    pose proof (Z.mod_pos_bound i n Hn) as Hb.
    assert (pin_target cpus i = Some c ↔ i mod n = Z.of_nat j) as Hiff.
    { rewrite Ep. split.
      - intros E. pose proof (NoDup_lookup _ _ _ _ Hnd E Hj). lia.
      - intros ->. by rewrite Nat2Z.id. }
    destruct (decide (pin_target cpus i = Some c)), (decide (i mod n = Z.of_nat j)); cbn [length];
      tauto || lia. }
  rewrite Hcount, count_mod by lia. set (M := Z.of_nat m).
  pose proof (Z.div_mod M n ltac:(lia)). pose proof (Z.mod_pos_bound M n ltac:(lia)).
  split.
  - apply Z.div_le_lower_bound; lia.
  - apply Z.lt_succ_r, Z.div_lt_upper_bound; lia.
Qed.

Lemma readers_balanced_witness :
  let runs := zlen (filter (λ x, x = Some 6) (place_readers [4; 6; 9] 0 11)) in
  Z.of_nat 11 / zlen [4; 6; 9] ≤ runs ≤ Z.of_nat 11 / zlen [4; 6; 9] + 1.
Proof.
  apply readers_balanced; [apply (bool_decide_unpack _); vm_compute; exact I| |lia].
  right. left.
Defined.

(** Snapshots of counters that only grow. *)
Inductive growing : Z → Z → Z → list (bool * Counters) → Prop :=
| growing_nil b q d : growing b q d []
| growing_cons b q d run c l :
    b ≤ bytes c < 2 ^ 64 → q ≤ packets c → d ≤ drops c → packets c + drops c < 2 ^ 64 →
    growing (bytes c) (packets c) (drops c) l → growing b q d ((run, c) :: l).

(** The last snapshot the reporter printed. *)
Fixpoint last_snapshot (c : Counters) (snaps : list (bool * Counters)) : Counters :=
  match snaps with
  | (true, c') :: snaps => last_snapshot c' snaps
  | _ => c
  end.

Lemma reporter_sums p snaps : ∀ b q d t,
  growing b q d snaps → 0 ≤ b → 0 ≤ q → 0 ≤ d → 0 ≤ t → t + zlen snaps < 2 ^ 64 →
  ∃ lines, reporter p true snaps b q d t = Ok lines
    ∧ b + zsum rl_bytes lines = bytes (last_snapshot (mkCounters b q d) snaps)
    ∧ q + zsum rl_packets lines = packets (last_snapshot (mkCounters b q d) snaps)
    ∧ d + zsum rl_drops lines = drops (last_snapshot (mkCounters b q d) snaps)
    ∧ Forall (λ l, 0 ≤ rl_bytes l ∧ 0 ≤ rl_drops l ∧ rl_total l = rl_packets l + rl_drops l) lines.
Proof.
  induction snaps as [|[[] c] snaps IH]; intros b q d t Hg Hb Hq Hd Ht Hlt; cbn [reporter last_snapshot].
  - exists []. cbn. rewrite !Z.add_0_r. by split_and!.
  - inversion Hg as [|? ? ? ? ? ? Hbc Hqc Hdc Hsum Hg']; subst. cbn [length] in Hlt.
    rewrite (arith_fits p 64 (bytes c - b)) by (split; lia). cbn [mbind res_bind].
    rewrite (arith_fits p 64 (t + 1)) by (split; lia). cbn [mbind res_bind].
    rewrite (arith_fits p 64 (packets c - q)) by (split; lia). cbn [mbind res_bind].
    rewrite (arith_fits p 64 (drops c - d)) by (split; lia). cbn [mbind res_bind].
    rewrite (arith_fits p 64 (packets c - q + (drops c - d))) by (split; lia). cbn [mbind res_bind].
    destruct (IH (bytes c) (packets c) (drops c) (t + 1)) as (lines & -> & Hl1 & Hl2 & Hl3 & Hl);
      try done; try lia.
    cbn [mbind res_bind]. destruct c as [cb cp cd]. cbn [bytes packets drops] in *.
    eexists. split; [done|]. rewrite !zsum_cons. cbn [rl_bytes rl_packets rl_drops].
    split_and!; [lia..|]. constructor; [cbn; split_and!; lia|done].
  - exists []. cbn. rewrite !Z.add_0_r. by split_and!.
Qed.

(** The per-second report of a UDP run is a partition of the totals.
    As long as the counters only grow, the reporter never underflows or
    overflows, in either profile, every interval's figures are
    non-negative, the loss rate's denominator is the packets received plus
    the drops of that interval, and the intervals add up to the counters
    last read: no packet is reported twice or left out. *)
Theorem reporter_partitions p snaps :
  growing 0 0 0 snaps → zlen snaps < 2 ^ 64 →
  ∃ lines, reporter p true snaps 0 0 0 0 = Ok lines
    ∧ mkCounters (zsum rl_bytes lines) (zsum rl_packets lines) (zsum rl_drops lines)
      = last_snapshot Counters_default snaps
    ∧ Forall (λ l, 0 ≤ rl_bytes l ∧ 0 ≤ rl_drops l ∧ rl_total l = rl_packets l + rl_drops l) lines.
Proof.
  intros Hg Hlt. destruct (reporter_sums p snaps 0 0 0 0 Hg) as (lines & -> & H1 & H2 & H3 & Hl);
    try lia. exists lines. split_and!; [done| |done].
  rewrite !Z.add_0_l in *. rewrite H1, H2, H3. unfold Counters_default.
  by destruct (last_snapshot _ snaps).
Qed.

Lemma reporter_partitions_witness :
  ∃ lines, reporter Debug true [(true, mkCounters 100 10 0); (true, mkCounters 300 25 5);
                                (false, mkCounters 400 30 5)] 0 0 0 0 = Ok lines
    ∧ mkCounters (zsum rl_bytes lines) (zsum rl_packets lines) (zsum rl_drops lines)
      = mkCounters 300 25 5
    ∧ Forall (λ l, 0 ≤ rl_bytes l ∧ 0 ≤ rl_drops l ∧ rl_total l = rl_packets l + rl_drops l) lines.
Proof.
  apply (reporter_partitions Debug [(true, mkCounters 100 10 0); (true, mkCounters 300 25 5);
                                    (false, mkCounters 400 30 5)]); [|vm_compute; reflexivity].
  repeat (apply growing_cons; [vm_compute; split; (discriminate || reflexivity)|
    vm_compute; discriminate|vm_compute; discriminate|vm_compute; reflexivity|]).
  apply growing_nil.
Defined.

(** The byte counts of the operations that succeed before the loop leaves. *)
Fixpoint transferred (rs : list io_result) : list Z :=
  match rs with
  | IoOk n :: rs => if n =? 0 then [] else n :: transferred rs
  | _ => []
  end.

Lemma tcp_reader_total reads : ∀ c,
  is_u64 (bytes c) → (tcp_reader reads c).1 = add_bytes (zsum id (transferred reads)) c.
Proof.
  assert (∀ c, is_u64 (bytes c) → add_bytes 0 c = c) as H0.
  { intros c Hc. unfold add_bytes. rewrite Z.add_0_r, wrap_small by done. by destruct c. }
  induction reads as [|[n|] reads IH]; intros c Hc; cbn [tcp_reader transferred fst];
    [by rewrite H0| |by rewrite H0].
  destruct (n =? 0); [by rewrite H0|]. rewrite IH by (apply wrap_fits; lia).
  rewrite zsum_cons. unfold add_bytes, id at 1. cbn [bytes packets drops]. by rewrite wrap_add_l, Z.add_assoc.
Qed.

Lemma tcp_writer_reader deadline ws c :
  Forall (λ x, x.1 < deadline) ws → tcp_writer deadline ws c = tcp_reader ws.*2 c.
Proof.
  intros H. revert c. induction H as [|[now r] ws Hn _ IH]; intros c; [done|]. cbn in *.
  rewrite (proj2 (Z.ltb_lt _ _)) by done. destruct r as [n|]; [|done]. by destruct (n =? 0).
Qed.

(** Both ends of a TCP stream report the same volume: if everything the
    client's [write]s accepted before the deadline is what the server's
    [read]s returned before the end of the stream, in whatever segments,
    then the two byte counters grow by the same amount. *)
Theorem tcp_totals_agree deadline ws reads c :
  Forall (λ x, x.1 < deadline) ws → is_u64 (bytes c) →
  zsum id (transferred ws.*2) = zsum id (transferred reads) →
  (tcp_writer deadline ws c).1 = (tcp_reader reads c).1.
Proof.
  intros Hw Hc E. by rewrite tcp_writer_reader, !tcp_reader_total, E.
Qed.

Lemma tcp_totals_agree_witness :
  (tcp_writer 10 [(1, IoOk 262144); (2, IoOk 1000)] Counters_default).1 =
  (tcp_reader [IoOk 100000; IoOk 162144; IoOk 1000; IoOk 0] Counters_default).1.
Proof.
  apply tcp_totals_agree;
    [apply (bool_decide_unpack _); vm_compute; exact I|split; [discriminate|reflexivity]|
     vm_compute; reflexivity].
Defined.

(** The budget of the UDP client's threads: none for target 0; for a
    positive target at least one packet per second each and in total no
    more than the target, or than one per thread; but with [--threads 0]
    and a target the division panics before anything is sent. *)
Theorem pps_per_thread_spec target threads :
  0 ≤ target → 0 ≤ threads →
  match pps_per_thread target threads with
  | Ok n => (target = 0 ∧ n = 0)
      ∨ (0 < target ∧ 0 < threads ∧ 1 ≤ n ∧ threads * n ≤ Z.max target threads)
  | Panic => 0 < target ∧ threads = 0
  | Undefined => False
  end.
Proof.
  intros Ht Hn. unfold pps_per_thread. destruct (Z.eqb_spec target 0); [by left|].
  destruct (Z.eqb_spec threads 0); [lia|]. right. split_and!; try lia.
  pose proof (Z.mul_div_le target threads ltac:(lia)). nia.
Qed.

Lemma pps_per_thread_spec_witness : pps_per_thread 1000 0 = Panic ∧ 0 < 1000 ∧ 0 = 0.
Proof.
  pose proof (pps_per_thread_spec 1000 0 ltac:(lia) ltac:(lia)) as H.
  split; [reflexivity|exact H].
Defined.
