(* ===== verification/Threads.v ===== *)
(** * Worker threads, reporter and main thread ([src/net.rs])

    The engines share three atomic counters and a run flag.  A worker is
    the sequence of its [fetch_add]s; the reporter tests the flag and loads
    the counters one by one; the main thread joins the workers, clears the
    flag, joins the reporter and reads the totals.  One step is one access
    to the shared memory by any of them, so the theorems hold for every
    interleaving.  (Each counter is a single atomic location, so the relaxed
    ordering the source asks for allows no other values for it.) *)

From S2P Require Import Prelude Loss Net.

(** ** Workers *)

(** A [fetch_add] on one of the counters. *)
Inductive atom : Type :=
| AddBytes (n : Z)
| AddPackets (n : Z)
| AddDrops (n : Z).

#[export] Instance atom_eq_dec : EqDecision atom.
Proof. solve_decision. Defined.

Definition do_atom (c : Counters) (a : atom) : Counters :=
  match a with
  | AddBytes n => add_bytes n c
  | AddPackets n => add_packets n c
  | AddDrops n => add_drops n c
  end.

(** What a thread that runs alone makes of the counters. *)
Definition do_atoms (l : list atom) (c : Counters) : Counters := foldl do_atom c l.

(** The share of an atom in each counter. *)
Definition b_of (a : atom) : Z := match a with AddBytes n => n | _ => 0 end.
Definition p_of (a : atom) : Z := match a with AddPackets n => n | _ => 0 end.
Definition d_of (a : atom) : Z := match a with AddDrops n => n | _ => 0 end.

(** The share of several threads. *)
Definition total (f : atom → Z) (ws : list (list atom)) : Z := zsum (zsum f) ws.

(** ** The reporter *)

(** Where the reporter thread is; what it has loaded so far. *)
Inductive rpc : Type :=
| RTest
| RLoadB
| RLoadP (b : Z)
| RLoadD (b q : Z)
| RExit
| RPanic.

Record rep : Type := Rep {
  r_pc : rpc;
  r_last : Counters;
  r_t : Z;
  r_lines : list report_line;
}.

Definition rep_init : rep := Rep RTest Counters_default 0 [].

(** The rest of an iteration once the counters [b], [q] and (for UDP) [d]
    are loaded: the figures of the line, in the order the source computes
    them. *)
Definition report_once (p : profile) (udp : bool) (last : Counters) (t b q d : Z) : res report_line :=
  db ← arith p 64 (b - bytes last);
  t ← arith p 64 (t + 1);
  if udp then
    _ ← arith p 64 (q - packets last);
    dp ← arith p 64 (d - drops last);
    rx ← arith p 64 (q - packets last);
    tot ← arith p 64 (rx + dp);
    Ok (ReportLine t db rx dp tot)
  else Ok (ReportLine t db 0 0 0).

Definition rep_finish (p : profile) (udp : bool) (r : rep) (b q d : Z) : rep :=
  match report_once p udp (r_last r) (r_t r) b q d with
  | Ok line => Rep RTest (mkCounters b q d) (rl_t line) (r_lines r ++ [line])
  | _ => Rep RPanic (r_last r) (r_t r) (r_lines r)
  end.

Definition rep_at (r : rep) (pc : rpc) : rep := Rep pc (r_last r) (r_t r) (r_lines r).

(** ** The engine *)

(** Where the main thread is: joining the workers, about to clear the flag,
    joining the reporter, or done with the totals it read. *)
Inductive mpc : Type :=
| MJoin
| MStore
| MWait
| MDone (b q : Z).

Record engine : Type := Engine {
  e_counters : Counters;
  e_run : bool;
  e_workers : list (list atom);
  e_rep : rep;
  e_main : mpc;
}.

(** The engine when its threads have been spawned. *)
Definition engine_init (ws : list (list atom)) : engine :=
  Engine Counters_default true ws rep_init MJoin.

Section steps.
Context (p : profile) (udp : bool).

(** [lstep go e e']: [go] marks the reporter's test that found the flag
    set, after which it sleeps for a second. *)
Inductive lstep : bool → engine → engine → Prop :=
| s_work c run ws r m i a l :
    ws !! i = Some (a :: l) →
    lstep false (Engine c run ws r m) (Engine (do_atom c a) run (<[i := l]> ws) r m)
| s_rep_go c ws r m :
    r_pc r = RTest →
    lstep true (Engine c true ws r m) (Engine c true ws (rep_at r RLoadB) m)
| s_rep_exit c ws r m :
    r_pc r = RTest →
    lstep false (Engine c false ws r m) (Engine c false ws (rep_at r RExit) m)
| s_rep_bytes c run ws r m :
    r_pc r = RLoadB →
    lstep false (Engine c run ws r m) (Engine c run ws (rep_at r (RLoadP (bytes c))) m)
| s_rep_packets c run ws r m b :
    r_pc r = RLoadP b →
    lstep false (Engine c run ws r m)
      (Engine c run ws
         (if udp then rep_at r (RLoadD b (packets c))
          else rep_finish p udp r b (packets c) (drops (r_last r))) m)
| s_rep_drops c run ws r m b q :
    r_pc r = RLoadD b q →
    lstep false (Engine c run ws r m) (Engine c run ws (rep_finish p udp r b q (drops c)) m)
| s_join c run ws r :
    Forall (λ w, w = []) ws →
    lstep false (Engine c run ws r MJoin) (Engine c run ws r MStore)
| s_store c run ws r :
    lstep false (Engine c run ws r MStore) (Engine c false ws r MWait)
| s_done c run ws r :
    r_pc r = RExit ∨ r_pc r = RPanic →
    lstep false (Engine c run ws r MWait)
      (Engine c run ws r (MDone (bytes c) (if udp then packets c else 0))).

Definition step (e e' : engine) : Prop := ∃ go, lstep go e e'.

(** A run of [n] steps with [g] seconds of the reporter in it. *)
Inductive runs : nat → nat → engine → engine → Prop :=
| runs_nil e : runs 0 0 e e
| runs_cons n g go e e' e'' :
    lstep go e e' → runs n g e' e'' → runs (S n) (if go then S g else g) e e''.
End steps.

(** ** Lemmas: the counters *)

Lemma do_atoms_cons a l c : do_atoms (a :: l) c = do_atoms l (do_atom c a).
Proof. done. Qed.

Lemma do_atoms_app l k c : do_atoms (l ++ k) c = do_atoms k (do_atoms l c).
Proof. unfold do_atoms. apply foldl_app. Qed.

(** Counters are determined by what was added to them. *)
Definition added (b q d : Z) (c : Counters) : Counters :=
  mkCounters (wrap 64 (bytes c + b)) (wrap 64 (packets c + q)) (wrap 64 (drops c + d)).

Definition counters_ok (c : Counters) : Prop := is_u64 (bytes c) ∧ is_u64 (packets c) ∧ is_u64 (drops c).

Lemma Counters_default_ok : counters_ok Counters_default.
Proof. split_and!; vm_compute; split; (discriminate || reflexivity). Qed.

Lemma do_atom_added c a : counters_ok c → do_atom c a = added (b_of a) (p_of a) (d_of a) c.
Proof.
  intros (Hb & Hp & Hd). destruct a; cbn; unfold add_bytes, add_packets, add_drops, added;
    by rewrite ?Z.add_0_r, ?(wrap_small 64 (bytes c)), ?(wrap_small 64 (packets c)),
      ?(wrap_small 64 (drops c)).
Qed.

Lemma added_ok b q d c : counters_ok (added b q d c).
Proof. split_and!; apply wrap_fits; lia. Qed.

Lemma added_added b q d b' q' d' c : added b' q' d' (added b q d c) = added (b + b') (q + q') (d + d') c.
Proof. unfold added. cbn. by rewrite !wrap_add_l, !Z.add_assoc. Qed.

Lemma added_0 c : counters_ok c → added 0 0 0 c = c.
Proof.
  intros (Hb & Hp & Hd). unfold added. rewrite !Z.add_0_r, !wrap_small by done. by destruct c.
Qed.

Lemma do_atoms_added l : ∀ c, counters_ok c →
  do_atoms l c = added (zsum b_of l) (zsum p_of l) (zsum d_of l) c.
Proof.
  induction l as [|a l IH]; intros c Hc; [by rewrite added_0|].
  rewrite do_atoms_cons, do_atom_added, IH, added_added by (done || apply added_ok).
  by rewrite !zsum_cons.
Qed.

Lemma total_step f ws i a l :
  ws !! i = Some (a :: l) → total f ws = f a + total f (<[i := l]> ws).
Proof.
  revert i. induction ws as [|w ws IH]; intros [|i] H; cbn in H; [done..| |].
  - simplify_eq. unfold total. change (<[0%nat:=l]> ((a :: l) :: ws)) with (l :: ws). rewrite !zsum_cons. lia.
  - unfold total in *. change (<[S i:=l]> (w :: ws)) with (w :: <[i:=l]> ws). rewrite !zsum_cons, (IH _ H). lia.
Qed.

Lemma total_done f ws : Forall (λ w, w = []) ws → total f ws = 0.
Proof.
  intros H. apply zsum_zero. intros w Hw. rewrite Forall_forall in H. by rewrite (H w Hw).
Qed.

Section engine_lemmas.
Context (p : profile) (udp : bool) (ws0 : list (list atom)).

(** At any moment the counters hold what the workers have added so far. *)
Definition counters_inv (e : engine) : Prop :=
  e_counters e = added (total b_of ws0 - total b_of (e_workers e))
    (total p_of ws0 - total p_of (e_workers e)) (total d_of ws0 - total d_of (e_workers e))
    Counters_default.

Lemma counters_inv_step e e' : step p udp e e' → counters_inv e → counters_inv e'.
Proof.
  intros [go Hst] Hi. unfold counters_inv in *.
  destruct Hst as [c run ws r m i a l Hw| | | | | | | |]; cbn [e_counters e_workers] in *; try exact Hi.
  rewrite Hi, do_atom_added by apply added_ok. rewrite added_added.
  rewrite (total_step b_of ws i a l), (total_step p_of ws i a l), (total_step d_of ws i a l) by done.
  f_equal; lia.
Qed.

Lemma counters_inv_run e : rtc (step p udp) (engine_init ws0) e → counters_inv e.
Proof.
  intros H. assert (counters_inv (engine_init ws0)) as Hi.
  { unfold counters_inv. cbn. rewrite !Z.sub_diag. done. }
  revert Hi. induction H as [|e e' e'' H1 _ IH]; [done|]. intros Hi. apply IH.
  by eapply counters_inv_step.
Qed.

(** What a thread still has to add is no more than at the start. *)
Definition nonneg (a : atom) : Prop := 0 ≤ b_of a ∧ 0 ≤ p_of a ∧ 0 ≤ d_of a.

Lemma nonneg_step e e' :
  step p udp e e' → Forall (Forall nonneg) (e_workers e) → Forall (Forall nonneg) (e_workers e').
Proof.
  intros [go Hst] H. destruct Hst as [c run ws r m i a l Hw| | | | | | | |]; cbn in *; try exact H.
  apply Forall_insert; [done|]. eapply Forall_lookup_1 in H; [|exact Hw]. by apply Forall_cons in H as [_ H].
Qed.

Lemma nonneg_run e :
  Forall (Forall nonneg) ws0 → rtc (step p udp) (engine_init ws0) e → Forall (Forall nonneg) (e_workers e).
Proof.
  intros H0 H. assert (Forall (Forall nonneg) (e_workers (engine_init ws0))) as Hi by done.
  revert Hi. induction H as [|e e' e'' H1 _ IH]; [done|]. intros Hi. apply IH. by eapply nonneg_step.
Qed.

Lemma total_nonneg f ws :
  (∀ a, nonneg a → 0 ≤ f a) → Forall (Forall nonneg) ws → 0 ≤ total f ws.
Proof.
  intros Hf. induction 1 as [|w ws Hw _ IH]; [done|]. unfold total in *. rewrite zsum_cons.
  assert (0 ≤ zsum f w); [|lia]. clear IH. induction Hw as [|a w Ha _ IH]; [done|].
  rewrite zsum_cons. specialize (Hf a Ha). lia.
Qed.

End engine_lemmas.

(** ** Lemmas: the reporter *)

(** The last counters the reporter has read. *)
Lemma last_snapshot_snoc c snaps x :
  Forall (λ s, s.1 = true) snaps → last_snapshot c (snaps ++ [(true, x)]) = x.
Proof.
  intros H. revert c. induction H as [|[go s] snaps Hs _ IH]; intros c; [done|].
  cbn in *. subst go. apply IH.
Qed.

(** Printing one more line is the loop of the reporter on one more
    reading. *)
Lemma reporter_snoc p udp snaps : ∀ lb lq ld t lines line b q d,
  Forall (λ s, s.1 = true) snaps →
  0 ≤ t → t + zlen snaps < 2 ^ 64 → reporter p udp snaps lb lq ld t = Ok lines →
  report_once p udp (last_snapshot (mkCounters lb lq ld) snaps) (t + zlen snaps) b q d = Ok line →
  reporter p udp (snaps ++ [(true, mkCounters b q d)]) lb lq ld t = Ok (lines ++ [line]).
Proof.
  induction snaps as [|[go c] snaps IH]; intros lb lq ld t lines line b q d Hall Ht Hlt H H1.
  { cbn [reporter app] in *. simplify_eq. cbn [last_snapshot length] in H1.
    rewrite Z.add_0_r in H1. unfold report_once in H1. cbn [bytes packets drops] in *.
    apply res_bind_inv in H1 as (db & -> & H1). apply res_bind_inv in H1 as (t' & -> & H1).
    cbn [mbind res_bind]. destruct udp; [|by simplify_eq].
    apply res_bind_inv in H1 as (x & -> & H1). apply res_bind_inv in H1 as (dp & -> & H1).
    apply res_bind_inv in H1 as (rx & E & H1). injection E as <-.
    apply res_bind_inv in H1 as (tot & Et & H1). cbn [mbind res_bind]. rewrite Et. by simplify_eq. }
  apply Forall_cons in Hall as [Hgo Hall]. cbn in Hgo. subst go.
  cbn [reporter app length last_snapshot] in *. destruct c as [cb cq cd]. cbn [bytes packets drops] in *.
  apply res_bind_inv in H as (db & -> & H). apply res_bind_inv in H as (t' & Et & H).
  rewrite (arith_fits p 64 (t + 1)) in Et |- * by (split; lia). injection Et as <-. cbn [mbind res_bind].
  replace (t + Z.of_nat (S (length snaps))) with (t + 1 + zlen snaps) in H1 by lia.
  destruct udp.
  - apply res_bind_inv in H as (x & -> & H). apply res_bind_inv in H as (dp & -> & H).
    apply res_bind_inv in H as (rx & E & H). injection E as <-.
    apply res_bind_inv in H as (tot & Et & H). apply res_bind_inv in H as (rest & Hr & H).
    cbn [mbind res_bind]. rewrite Et. cbn [mbind res_bind].
    rewrite (IH cb cq cd (t + 1) rest line b q d Hall ltac:(lia) ltac:(lia) Hr H1). by simplify_eq.
  - apply res_bind_inv in H as (rest & Hr & H).
    assert (report_once p false (last_snapshot (mkCounters cb cq ld) snaps) (t + 1 + zlen snaps) b q d = Ok line) as H1'.
    { rewrite <- H1. clear. unfold report_once. do 2 f_equal. destruct snaps as [|[[] ?] ?]; done. }
    rewrite (IH cb cq ld (t + 1) rest line b q d Hall ltac:(lia) ltac:(lia) Hr H1'). by simplify_eq.
Qed.

(** Without overflow a line has the plain differences. *)
Lemma report_once_exact p udp last t b q d :
  0 ≤ bytes last ≤ b → b < 2 ^ 64 → 0 ≤ packets last ≤ q → 0 ≤ drops last ≤ d → q + d < 2 ^ 64 →
  0 ≤ t → t + 1 < 2 ^ 64 →
  report_once p udp last t b q d = Ok (if udp
    then ReportLine (t + 1) (b - bytes last) (q - packets last) (d - drops last)
           (q - packets last + (d - drops last))
    else ReportLine (t + 1) (b - bytes last) 0 0 0).
Proof.
  intros. unfold report_once.
  rewrite (arith_fits p 64 (b - bytes last)) by (split; lia). cbn [mbind res_bind].
  rewrite (arith_fits p 64 (t + 1)) by (split; lia). cbn [mbind res_bind]. destruct udp; [|done].
  rewrite (arith_fits p 64 (q - packets last)) by (split; lia). cbn [mbind res_bind].
  rewrite (arith_fits p 64 (d - drops last)) by (split; lia). cbn [mbind res_bind].
  by rewrite (arith_fits p 64 (q - packets last + (d - drops last))) by (split; lia).
Qed.

Section reporter_lemmas.
Context (p : profile) (udp : bool) (ws0 : list (list atom)).
Context (Hnn : Forall (Forall nonneg) ws0).
Context (Hb : total b_of ws0 < 2 ^ 64) (Hpd : total p_of ws0 + total d_of ws0 < 2 ^ 64).

(** The counters as plain sums, and what is left of each. *)
Definition values (e : engine) : Prop :=
  Forall (Forall nonneg) (e_workers e)
  ∧ bytes (e_counters e) = total b_of ws0 - total b_of (e_workers e) ∧ 0 ≤ bytes (e_counters e)
  ∧ packets (e_counters e) = total p_of ws0 - total p_of (e_workers e) ∧ 0 ≤ packets (e_counters e)
  ∧ drops (e_counters e) = total d_of ws0 - total d_of (e_workers e) ∧ 0 ≤ drops (e_counters e).

Lemma values_bounds e : values e →
  bytes (e_counters e) ≤ total b_of ws0 ∧ packets (e_counters e) ≤ total p_of ws0
  ∧ drops (e_counters e) ≤ total d_of ws0.
Proof.
  intros (Hf & E1 & _ & E2 & _ & E3 & _).
  pose proof (total_nonneg b_of (e_workers e) (λ a H, proj1 H) Hf).
  pose proof (total_nonneg p_of (e_workers e) (λ a H, proj1 (proj2 H)) Hf).
  pose proof (total_nonneg d_of (e_workers e) (λ a H, proj2 (proj2 H)) Hf). lia.
Qed.

Lemma values_init : values (engine_init ws0).
Proof. split; [done|]. cbn. rewrite !Z.sub_diag. split_and!; done || lia. Qed.

(** A step never lowers a counter. *)
Definition grows (c c' : Counters) : Prop :=
  bytes c ≤ bytes c' ∧ packets c ≤ packets c' ∧ drops c ≤ drops c'.

Lemma values_step e e' : step p udp e e' → values e → values e' ∧ grows (e_counters e) (e_counters e').
Proof.
  intros Hs (Hf & E1 & G1 & E2 & G2 & E3 & G3). pose proof (nonneg_step p udp e e' Hs Hf) as Hf'.
  destruct Hs as [go Hst].
  destruct Hst as [c run ws r m i a l Hw| | | | | | | |]; cbn [e_counters e_workers] in *;
    try (split; [by split_and!|unfold grows; lia]).
  assert (nonneg a) as (Ha1 & Ha2 & Ha3).
  { eapply Forall_lookup_1 in Hf; [|exact Hw]. by apply Forall_cons in Hf as [Ha _]. }
  pose proof (total_step b_of ws i a l Hw) as T1. pose proof (total_step p_of ws i a l Hw) as T2.
  pose proof (total_step d_of ws i a l Hw) as T3.
  pose proof (total_nonneg b_of (<[i:=l]> ws) (λ a H, proj1 H) Hf').
  pose proof (total_nonneg p_of (<[i:=l]> ws) (λ a H, proj1 (proj2 H)) Hf').
  pose proof (total_nonneg d_of (<[i:=l]> ws) (λ a H, proj2 (proj2 H)) Hf').
  pose proof (total_nonneg p_of ws0 (λ a H, proj1 (proj2 H)) Hnn).
  pose proof (total_nonneg d_of ws0 (λ a H, proj2 (proj2 H)) Hnn).
  assert (do_atom c a = mkCounters (bytes c + b_of a) (packets c + p_of a) (drops c + d_of a)) as ->.
  { rewrite do_atom_added by (split_and!; split; lia). unfold added.
    rewrite !wrap_small by (split; lia). done. }
  unfold values, grows. cbn [e_counters e_workers bytes packets drops]. split_and!; done || lia.
Qed.

(** The reporter's state: it has printed the reading it remembers, spread
    over its lines, and is printing a later one. *)
Record rep_inv (e : engine) : Prop := {
  ri_le : grows Counters_default (r_last (e_rep e)) ∧ grows (r_last (e_rep e)) (e_counters e);
  ri_t : r_t (e_rep e) = zlen (r_lines (e_rep e));
  ri_bytes : zsum rl_bytes (r_lines (e_rep e)) = bytes (r_last (e_rep e));
  ri_udp : udp = true → zsum rl_packets (r_lines (e_rep e)) = packets (r_last (e_rep e))
    ∧ zsum rl_drops (r_lines (e_rep e)) = drops (r_last (e_rep e));
  ri_lines : Forall (λ l, 0 ≤ rl_bytes l ∧ 0 ≤ rl_packets l ∧ 0 ≤ rl_drops l
    ∧ rl_total l = rl_packets l + rl_drops l) (r_lines (e_rep e));
  ri_snaps : ∃ snaps, Forall (λ s, s.1 = true) snaps ∧ zlen snaps = r_t (e_rep e)
    ∧ last_snapshot Counters_default snaps = r_last (e_rep e)
    ∧ reporter p udp snaps 0 0 0 0 = Ok (r_lines (e_rep e));
  ri_pc : match r_pc (e_rep e) with
    | RLoadP b => bytes (r_last (e_rep e)) ≤ b ≤ bytes (e_counters e)
    | RLoadD b q => bytes (r_last (e_rep e)) ≤ b ≤ bytes (e_counters e)
        ∧ packets (r_last (e_rep e)) ≤ q ≤ packets (e_counters e) ∧ udp = true
    | RPanic => False
    | _ => True
    end;
}.

(** The reporter moves to another access, or the counters grow. *)
Lemma rep_inv_move c c' run run' ws ws' r pc m m' :
  rep_inv (Engine c run ws r m) → grows c c' →
  match pc with
  | RLoadP b => bytes (r_last r) ≤ b ≤ bytes c'
  | RLoadD b q => bytes (r_last r) ≤ b ≤ bytes c' ∧ packets (r_last r) ≤ q ≤ packets c' ∧ udp = true
  | RPanic => False
  | _ => True
  end →
  rep_inv (Engine c' run' ws' (rep_at r pc) m').
Proof.
  intros [H1 H2 H3 H4 H5 H6 H7] Hg Hpc. cbn in *.
  split; cbn; try done. unfold grows in *. split; [apply H1|lia].
Qed.

Lemma rep_at_id r : rep_at r (r_pc r) = r.
Proof. by destruct r. Qed.

(** The reporter prints. *)
Lemma rep_inv_finish c run ws r b q d m :
  rep_inv (Engine c run ws r m) → values (Engine c run ws r m) → zlen (r_lines r) + 1 < 2 ^ 64 →
  bytes (r_last r) ≤ b ≤ bytes c → packets (r_last r) ≤ q ≤ packets c → drops (r_last r) ≤ d ≤ drops c →
  rep_inv (Engine c run ws (rep_finish p udp r b q d) m).
Proof.
  intros [H1 H2 H3 H4 H5 H6 H7] Hv Hlt Hbb Hq Hd. pose proof (values_bounds _ Hv) as (B1 & B2 & B3).
  unfold grows in *. cbn [e_rep e_counters bytes packets drops Counters_default] in *.
  unfold rep_finish. pose proof (report_once_exact p udp (r_last r) (r_t r) b q d) as Hline.
  rewrite Hline by (rewrite ?H2; lia).
  destruct H6 as (snaps & Hall & Hlen & Hlast & Hrep).
  rewrite <- Hlast, <- Hlen in Hline. specialize (Hline ltac:(rewrite ?Hlast; lia) ltac:(lia)
    ltac:(rewrite ?Hlast; lia) ltac:(rewrite ?Hlast; lia) ltac:(lia) ltac:(lia) ltac:(lia)).
  pose proof (reporter_snoc p udp snaps 0 0 0 0 _ _ b q d Hall ltac:(lia) ltac:(lia) Hrep Hline) as Hnew.
  rewrite Hlast, Hlen in Hnew.
  split; cbn [e_rep e_counters r_last r_t r_lines r_pc bytes packets drops Counters_default].
  - unfold grows. cbn. lia.
  - rewrite length_app. destruct udp; cbn; lia.
  - rewrite zsum_app, H3. destruct udp; cbn; lia.
  - intros ->. destruct (H4 eq_refl) as [E1 E2]. rewrite !zsum_app, E1, E2. cbn. lia.
  - apply Forall_app. split; [done|]. constructor; [|constructor]. destruct udp; cbn; lia.
  - eexists. split_and!; [| | |exact Hnew].
    + apply Forall_app. split; [done|]. by repeat constructor.
    + rewrite length_app. destruct udp; cbn; lia.
    + by apply last_snapshot_snoc.
  - done.
Qed.
Lemma rep_lines_grow e e' :
  step p udp e e' → (length (r_lines (e_rep e)) ≤ length (r_lines (e_rep e')))%nat.
Proof.
  intros [go Hst]. destruct Hst; cbn; try lia; [destruct udp; cbn; [lia|]|];
    unfold rep_finish; case_match; cbn; rewrite ?length_app; lia.
Qed.

Lemma rep_inv_step e e' :
  step p udp e e' → values e → rep_inv e → zlen (r_lines (e_rep e)) + 1 < 2 ^ 64 → rep_inv e'.
Proof.
  intros Hs Hv Hi Hlt. pose proof (values_step e e' Hs Hv) as [_ Hg].
  pose proof (ri_pc e Hi) as Hpc. pose proof (ri_le e Hi) as [_ Hle].
  assert (∀ c : Counters, grows c c) as Hrefl by (unfold grows; intros; lia).
  destruct Hs as [go Hst]; destruct Hst as [c run ws r m i a l Hw|c ws r m Er|c ws r m Er|c run ws r m Er
    |c run ws r m b Er|c run ws r m b q Er|c run ws r Hd|c run ws r|c run ws r Hd];
    cbn [e_rep e_counters] in *; try rewrite Er in Hpc.
  - rewrite <- (rep_at_id r). eapply rep_inv_move; [exact Hi|done|].
    unfold grows in Hg. destruct (r_pc r); try done; [lia|]. destruct Hpc as (? & ? & ?). split_and!; lia || done.
  - by eapply rep_inv_move.
  - by eapply rep_inv_move.
  - eapply rep_inv_move; [exact Hi|done|]. unfold grows in Hle. lia.
  - unfold grows in Hle. assert (udp = true ∨ udp = false) as [Eu|Eu] by (destruct udp; auto).
    + match goal with |- rep_inv (Engine _ _ _ ?x _) => replace x with (rep_at r (RLoadD b (packets c))) by by rewrite Eu end.
      eapply rep_inv_move; [exact Hi|done|]. split_and!; lia || done.
    + match goal with |- rep_inv (Engine _ _ _ ?x _) =>
        replace x with (rep_finish p udp r b (packets c) (drops (r_last r))) by by rewrite Eu end.
      eapply rep_inv_finish; [exact Hi|done|done|lia|lia|lia].
  - unfold grows in *. eapply rep_inv_finish; [exact Hi|done|done|lia..].
  - rewrite <- (rep_at_id r). eapply rep_inv_move; [exact Hi|done|done].
  - rewrite <- (rep_at_id r). eapply rep_inv_move; [exact Hi|done|done].
  - rewrite <- (rep_at_id r). eapply rep_inv_move; [exact Hi|done|done].
Qed.

Lemma rep_inv_run e :
  rtc (step p udp) (engine_init ws0) e → zlen (r_lines (e_rep e)) + 1 < 2 ^ 64 → values e ∧ rep_inv e.
Proof.
  intros H. revert e H. refine (rtc_ind_r (λ e, _ → _) _ _ _); [intros _|intros e e' Hr Hs IH Hlt].
  - split; [apply values_init|]. split; cbn; try done; try lia.
    exists []. by split_and!.
  - pose proof (rep_lines_grow e e' Hs). destruct IH as [Hv Hi]; [lia|].
    split; [by apply (values_step e)|]. apply (rep_inv_step e); [done..|lia].
Qed.
End reporter_lemmas.

(** ** Lemmas: the main thread *)

Section main_lemmas.
Context (p : profile) (udp : bool).

(** Once the workers are joined the counters rest, and the totals are the
    counters. *)
Definition main_inv (e : engine) : Prop :=
  match e_main e with
  | MJoin => True
  | MStore | MWait => Forall (λ w, w = []) (e_workers e)
  | MDone b q => Forall (λ w, w = []) (e_workers e)
      ∧ b = bytes (e_counters e) ∧ q = if udp then packets (e_counters e) else 0
  end.

Lemma no_work (ws : list (list atom)) i a l : Forall (λ w, w = []) ws → ws !! i = Some (a :: l) → False.
Proof. intros H Hw. eapply Forall_lookup_1 in H; [|exact Hw]. done. Qed.

Lemma main_inv_step e e' : step p udp e e' → main_inv e → main_inv e'.
Proof.
  intros [go Hst]. unfold main_inv.
  destruct Hst as [c run ws r m i a l Hw| | | | | | | |]; cbn; try done.
  destruct m; cbn; [done|..].
  - intros H. by destruct (no_work ws i a l H Hw).
  - intros H. by destruct (no_work ws i a l H Hw).
  - intros [H _]. by destruct (no_work ws i a l H Hw).
Qed.

Lemma main_inv_run ws0 e : rtc (step p udp) (engine_init ws0) e → main_inv e.
Proof.
  revert e. refine (rtc_ind_r main_inv _ _ _); [done|]. intros e e' _ Hs IH. by eapply main_inv_step.
Qed.

(** *** Termination *)

Definition atoms_left (ws : list (list atom)) : nat := length (concat ws).

Definition main_rank (m : mpc) : nat :=
  match m with MJoin => 3 | MStore => 2 | MWait => 1 | MDone _ _ => 0 end.

Definition rep_rank (pc : rpc) : nat :=
  match pc with RLoadB => 4 | RLoadP _ => 3 | RLoadD _ _ => 2 | RTest => 1 | RExit | RPanic => 0 end.

(** What is left to do until the reporter next finds the flag set. *)
Definition left_to_do (e : engine) : nat :=
  (atoms_left (e_workers e) + main_rank (e_main e) + rep_rank (r_pc (e_rep e)))%nat.

Lemma atoms_left_step ws i a l :
  ws !! i = Some (a :: l) → atoms_left ws = S (atoms_left (<[i := l]> ws)).
Proof.
  revert i. unfold atoms_left. induction ws as [|w ws IH]; intros [|i] H; cbn in H; [done..| |].
  - simplify_eq. change (<[0%nat:=l]> ((a :: l) :: ws)) with (l :: ws). cbn. done.
  - change (<[S i:=l]> (w :: ws)) with (w :: <[i:=l]> ws). cbn. rewrite !length_app, (IH _ H). lia.
Qed.

Lemma rep_finish_rank r b q d : (rep_rank (r_pc (rep_finish p udp r b q d)) ≤ 1)%nat.
Proof. unfold rep_finish. case_match; cbn; lia. Qed.

Lemma left_to_do_step go e e' :
  lstep p udp go e e' →
  if go then left_to_do e' = (left_to_do e + 3)%nat else (left_to_do e' < left_to_do e)%nat.
Proof.
  intros Hst. destruct Hst as [c run ws r m i a l Hw|c ws r m Er|c ws r m Er|c run ws r m Er
    |c run ws r m b Er|c run ws r m b q Er|c run ws r Hd|c run ws r|c run ws r Hd];
    unfold left_to_do; cbn [e_workers e_main e_rep r_pc rep_at]; try rewrite Er; cbn [main_rank rep_rank];
    try lia.
  - rewrite (atoms_left_step ws i a l Hw). lia.
  - pose proof (rep_finish_rank r b (packets c) (drops (r_last r))).
    destruct udp; cbn [r_pc rep_at rep_rank]; lia.
  - pose proof (rep_finish_rank r b q (drops c)). lia.
Qed.

Lemma runs_bound n g e e' :
  runs p udp n g e e' → (n + left_to_do e' ≤ left_to_do e + 4 * g)%nat.
Proof.
  induction 1 as [|n g go e e' e'' Hst _ IH]; [lia|].
  apply left_to_do_step in Hst. destruct go; lia.
Qed.

Lemma runs_steps n g e e' : runs p udp n g e e' → rtc (step p udp) e e'.
Proof.
  induction 1 as [|n g go e e' e'' Hst _ IH]; [done|]. eapply rtc_l; [by exists go|done].
Qed.

(** The flag is set until the main thread waits for the reporter. *)
Definition flag_inv (e : engine) : Prop :=
  e_run e = match e_main e with MJoin | MStore => true | MWait | MDone _ _ => false end.

Lemma flag_inv_step e e' : step p udp e e' → flag_inv e → flag_inv e'.
Proof. intros [go Hst]. unfold flag_inv. destruct Hst; cbn; try done. Qed.

Lemma flag_inv_run ws0 e : rtc (step p udp) (engine_init ws0) e → flag_inv e.
Proof.
  revert e. refine (rtc_ind_r flag_inv _ _ _); [done|]. intros e e' _ Hs IH. by eapply flag_inv_step.
Qed.

(** A thread other than a reporter about to sleep can move. *)
Lemma progress_awake e : flag_inv e → (∀ b q, e_main e ≠ MDone b q) → ∃ e', lstep p udp false e e'.
Proof.
  destruct e as [c run ws r m]. unfold flag_inv. intros Hf Hm. cbn in Hf, Hm. destruct m as [| | |b q].
  - destruct (decide (Forall (λ w, w = []) ws)) as [H|H]; [by eexists; apply s_join|].
    apply not_Forall_Exists in H; [|apply _]. apply Exists_exists in H as (w & Hin & Hw).
    apply list_elem_of_lookup_1 in Hin as [i Hi]. destruct w as [|a l]; [by destruct Hw|].
    eexists. by eapply s_work.
  - eexists. apply s_store.
  - subst run. destruct (r_pc r) as [| |b|b q| |] eqn:Er; eexists;
      [by apply s_rep_exit|by apply s_rep_bytes|by eapply s_rep_packets|by eapply s_rep_drops|
       apply s_done; by left|apply s_done; by right].
  - by destruct (Hm b q).
Qed.

(** From any reachable state the engine can come to its totals, with no
    second of the reporter in between. *)
Lemma can_finish_awake e : flag_inv e → ∃ n e' b q, runs p udp n 0 e e' ∧ e_main e' = MDone b q.
Proof.
  remember (left_to_do e) as n eqn:En. revert e En. induction (lt_wf n) as [n _ IH]. intros e -> Hf.
  destruct (e_main e) as [| | |b q] eqn:Em; [..|by exists 0%nat, e, b, q; split; [constructor|]];
    (destruct (progress_awake e Hf) as [e1 H1]; [by rewrite Em|];
     destruct (IH (left_to_do e1) (left_to_do_step false e e1 H1) e1 eq_refl) as (k & e' & b & q & Hr & Hd);
       [eapply flag_inv_step; [by exists false|done]|];
     exists (S k), e', b, q; split; [exact (runs_cons p udp k 0 false e e1 e' H1 Hr)|done]).
Qed.

Lemma can_finish e : flag_inv e → ∃ e' b q, rtc (step p udp) e e' ∧ e_main e' = MDone b q.
Proof.
  intros Hf. destruct (can_finish_awake e Hf) as (n & e' & b & q & Hr & Hd). exists e', b, q.
  split; [by eapply runs_steps|done].
Qed.

(** A cleared flag stays cleared, and the reporter no longer sleeps. *)
Lemma runs_cleared n g e e' : e_run e = false → runs p udp n g e e' → g = 0%nat.
Proof.
  intros Hf Hr. induction Hr as [|n g go e e' e'' Hst _ IH]; [done|].
  destruct Hst; cbn [e_run] in *; try done; by apply IH.
Qed.

(** What is left then: the reporter's loads, its exit, and the totals. *)
Lemma cleared_rank e : flag_inv e → main_inv e → e_run e = false → (left_to_do e ≤ 5)%nat.
Proof.
  unfold flag_inv, main_inv, left_to_do. intros -> Hm Hrun. destruct (e_main e) as [| | |b q]; try done.
  - assert (atoms_left (e_workers e) = 0%nat) as ->.
    { unfold atoms_left. induction Hm as [|w ws -> _ IH]; [done|exact IH]. }
    destruct (r_pc (e_rep e)); cbn; lia.
  - destruct Hm as [Hm _]. assert (atoms_left (e_workers e) = 0%nat) as ->.
    { unfold atoms_left. induction Hm as [|w ws -> _ IH]; [done|exact IH]. }
    destruct (r_pc (e_rep e)); cbn; lia.
Qed.
End main_lemmas.

(** What the main thread reads when everything is joined. *)
Lemma summary_totals p udp ws e b q :
  rtc (step p udp) (engine_init ws) e → e_main e = MDone b q →
  b = wrap 64 (total b_of ws) ∧ q = if udp then wrap 64 (total p_of ws) else 0.
Proof.
  intros Hr Hm. pose proof (main_inv_run p udp ws e Hr) as Hi. unfold main_inv in Hi. rewrite Hm in Hi.
  destruct Hi as (Hw & -> & ->). pose proof (counters_inv_run p udp ws e Hr) as Hc. unfold counters_inv in Hc.
  rewrite (total_done b_of _ Hw), (total_done p_of _ Hw), (total_done d_of _ Hw), !Z.sub_0_r in Hc.
  rewrite Hc. done.
Qed.

(** ** Properties *)

(** C20: the totals a client reports are exact.  In every interleaving of
    any number of workers with the reporter and the main thread, when the
    main thread has read its totals all workers have finished, the run flag
    is cleared, and the totals are the sums of all the workers' additions,
    none lost and none counted twice (modulo [2^64], as the atomics
    wrap). *)
Theorem summary_exact p udp ws e b q :
  rtc (step p udp) (engine_init ws) e → e_main e = MDone b q →
  b = wrap 64 (total b_of ws) ∧ q = (if udp then wrap 64 (total p_of ws) else 0)
  ∧ Forall (λ w, w = []) (e_workers e).
Proof.
  intros Hr Hm. destruct (summary_totals p udp ws e b q Hr Hm) as [-> ->].
  pose proof (main_inv_run p udp ws e Hr) as Hi. unfold main_inv in Hi. rewrite Hm in Hi.
  by destruct Hi as (Hw & _).
Qed.

(** Two workers of one batch each. *)
Definition two_workers : list (list atom) := [[AddPackets 64; AddBytes 89600]; [AddPackets 3; AddBytes 4200]].

(** A schedule that lets the reporter read between the two additions of
    the first worker. *)
Lemma two_workers_run : ∃ e, runs Debug true 12 1 (engine_init two_workers) e
  ∧ e_main e = MDone 93800 67 ∧ r_lines (e_rep e) = [ReportLine 1 4200 67 0 67].
Proof.
  eexists. split; [|shelve].
  eapply (runs_cons _ _ _ _ false); [apply (s_work _ _ _ _ _ _ _ 0 (AddPackets 64) [AddBytes 89600]); reflexivity|].
  eapply (runs_cons _ _ _ _ false); [apply (s_work _ _ _ _ _ _ _ 1 (AddPackets 3) [AddBytes 4200]); reflexivity|].
  eapply (runs_cons _ _ _ _ true); [apply s_rep_go; reflexivity|].
  eapply (runs_cons _ _ _ _ false); [apply (s_work _ _ _ _ _ _ _ 1 (AddBytes 4200) []); reflexivity|].
  eapply (runs_cons _ _ _ _ false); [apply s_rep_bytes; reflexivity|].
  eapply (runs_cons _ _ _ _ false); [apply (s_work _ _ _ _ _ _ _ 0 (AddBytes 89600) []); reflexivity|].
  eapply (runs_cons _ _ _ _ false); [eapply s_rep_packets; reflexivity|].
  eapply (runs_cons _ _ _ _ false); [eapply s_rep_drops; reflexivity|].
  eapply (runs_cons _ _ _ _ false); [apply s_join; repeat constructor|].
  eapply (runs_cons _ _ _ _ false); [apply s_store|].
  eapply (runs_cons _ _ _ _ false); [apply s_rep_exit; reflexivity|].
  eapply (runs_cons _ _ _ _ false); [apply s_done; left; reflexivity|].
  apply runs_nil.
  Unshelve. vm_compute. split; reflexivity.
Defined.

Lemma summary_exact_witness : ∃ e, rtc (step Debug true) (engine_init two_workers) e
  ∧ e_main e = MDone 93800 67 ∧ 93800 = wrap 64 (total b_of two_workers).
Proof.
  destruct two_workers_run as (e & Hr & Hm & _). apply runs_steps in Hr. exists e.
  split; [exact Hr|]. split; [exact Hm|].
  destruct (summary_exact Debug true two_workers e 93800 67 Hr Hm) as (H & _). exact H.
Defined.

(** C13: the reporter under concurrency.  While workers add to the counters
    between any two of its loads, the reporter never underflows or
    overflows, in either profile; every figure it prints is non-negative
    and the loss denominator is the packets plus the drops of the line; the
    lines add up to the counters it read last, which never exceed the
    current ones; and they are the lines of the sequential reporter loop on
    the readings it made. *)
Theorem reporter_concurrent p udp ws e :
  Forall (Forall nonneg) ws → total b_of ws < 2 ^ 64 → total p_of ws + total d_of ws < 2 ^ 64 →
  rtc (step p udp) (engine_init ws) e → zlen (r_lines (e_rep e)) + 1 < 2 ^ 64 →
  let lines := r_lines (e_rep e) in
  let last := r_last (e_rep e) in
  r_pc (e_rep e) ≠ RPanic
  ∧ grows last (e_counters e)
  ∧ zsum rl_bytes lines = bytes last
  ∧ (udp = true → zsum rl_packets lines = packets last ∧ zsum rl_drops lines = drops last)
  ∧ Forall (λ l, 0 ≤ rl_bytes l ∧ 0 ≤ rl_packets l ∧ 0 ≤ rl_drops l
      ∧ rl_total l = rl_packets l + rl_drops l) lines
  ∧ ∃ snaps, last_snapshot Counters_default snaps = last ∧ reporter p udp snaps 0 0 0 0 = Ok lines.
Proof.
  intros Hnn Hb Hpd Hr Hlt lines last.
  destruct (rep_inv_run p udp ws Hnn Hb Hpd e Hr Hlt) as [Hv [[H0 H1] H2 H3 H4 H5 (snaps & _ & _ & Hl & Hrep) H7]].
  split_and!; try done; [|by exists snaps]. intros E. by rewrite E in H7.
Qed.

Lemma reporter_concurrent_witness : ∃ e, rtc (step Debug true) (engine_init two_workers) e
  ∧ r_lines (e_rep e) = [ReportLine 1 4200 67 0 67] ∧ r_pc (e_rep e) ≠ RPanic
  ∧ zsum rl_bytes (r_lines (e_rep e)) = bytes (r_last (e_rep e)).
Proof.
  destruct two_workers_run as (e & Hr & _ & Hl). apply runs_steps in Hr. exists e.
  split; [exact Hr|]. split; [exact Hl|].
  destruct (reporter_concurrent Debug true two_workers e) as (H1 & _ & H2 & _).
  - repeat (apply Forall_cons_2 || apply Forall_nil_2); vm_compute; split_and!; discriminate.
  - vm_compute. reflexivity.
  - vm_compute. reflexivity.
  - exact Hr.
  - rewrite Hl. vm_compute. reflexivity.
  - split; [exact H1|exact H2].
Defined.

(** C33: an engine terminates.  A run with [g] seconds of the reporter takes
    at most one step per addition of the workers and four per second, plus
    four.  The main thread clears the flag: it is set exactly until the main
    thread waits for the reporter.  From then on the reporter starts no other
    second, and at most five steps follow.  Until the main thread has its
    totals, a thread other than a reporter about to sleep can move, and from
    every state the engine can come to its totals with no further second:
    there is no deadlock, and none of the waiting is for the reporter. *)
Theorem engine_terminates p udp ws n g e :
  runs p udp n g (engine_init ws) e →
  (n ≤ atoms_left ws + 4 + 4 * g)%nat
  ∧ e_run e = (match e_main e with MJoin | MStore => true | MWait | MDone _ _ => false end)
  ∧ (e_run e = false → ∀ n' g' e', runs p udp n' g' e e' → g' = 0%nat ∧ (n' ≤ 5)%nat)
  ∧ ((∀ b q, e_main e ≠ MDone b q) → ∃ e', lstep p udp false e e')
  ∧ ∃ n' e' b q, runs p udp n' 0 e e' ∧ e_main e' = MDone b q.
Proof.
  intros Hr. pose proof (runs_steps p udp _ _ _ _ Hr) as Hs. pose proof (flag_inv_run p udp ws e Hs) as Hf.
  split_and!; [|exact Hf|..|by apply progress_awake|by apply can_finish_awake].
  - apply runs_bound in Hr. unfold left_to_do in Hr. cbn [engine_init e_workers e_main e_rep rep_init r_pc main_rank rep_rank] in Hr. lia.
  - intros Hrun n' g' e' Hr'. pose proof (runs_cleared p udp _ _ _ _ Hrun Hr') as ->. split; [done|].
    pose proof (cleared_rank udp e Hf (main_inv_run p udp ws e Hs) Hrun). apply runs_bound in Hr'. lia.
Qed.

Lemma engine_terminates_witness : ∃ e, runs Debug true 12 1 (engine_init two_workers) e
  ∧ (12 ≤ atoms_left two_workers + 4 + 4 * 1)%nat ∧ e_run e = false.
Proof.
  destruct two_workers_run as (e & Hr & Hm & _). exists e. split; [exact Hr|].
  destruct (engine_terminates Debug true two_workers 12 1 e Hr) as (H & Hf & _). split; [exact H|].
  rewrite Hf, Hm. reflexivity.
Defined.
