(* ===== verification/Share.v ===== *)
(** * Workers that share counters

    The AF_XDP generator and the sink run one thread per queue.  A thread
    owns its socket, its rings and its umem; what the threads share is the
    atomic counters.  Here a thread is any step relation whose steps may
    carry one [fetch_add]; a step of the whole is a step of one thread, so
    the results hold for every interleaving. *)

From S2P Require Import Prelude Loss Threads.

Definition atoms_of (a : option atom) : list atom := match a with Some a => [a] | None => [] end.

Section shared.
Context {W : Type} (move : W → option atom → W → Prop).

(** The threads and the counters. *)
Inductive sys_step : list W * Counters → list W * Counters → Prop :=
| sys_move ws c i w a w' :
    ws !! i = Some w → move w a w' →
    sys_step (ws, c) (<[i := w']> ws, do_atoms (atoms_of a) c).

(** What every thread keeps is kept by the whole; [P] may depend on the
    thread's index. *)
Lemma sys_invariant (P : nat → W → Prop) s s' :
  (∀ i w a w', P i w → move w a w' → P i w') →
  rtc sys_step s s' → (∀ i w, s.1 !! i = Some w → P i w) → ∀ i w, s'.1 !! i = Some w → P i w.
Proof.
  intros Hmove. induction 1 as [|s s1 s2 Hs _ IH]; intros HP; [done|].
  apply IH. destruct Hs as [ws c i w a w' Hi Hm]. cbn [fst] in *. intros j v Hj.
  apply list_lookup_insert_Some in Hj as [(-> & -> & _)|[_ Hj]]; eauto.
Qed.

Lemma sys_length s s' : rtc sys_step s s' → length s'.1 = length s.1.
Proof.
  induction 1 as [|s s1 s2 Hs _ IH]; [done|]. rewrite IH.
  destruct Hs as [ws c i w a w' Hi Hm]. cbn [fst]. apply length_insert.
Qed.

(** Threads that can each make a run of their own can make them one after
    the other. *)
Definition moves (w w' : W) : Prop := ∃ a, move w a w'.

Lemma sys_one ws c i w w' : ws !! i = Some w → rtc moves w w' → ∃ c', rtc sys_step (ws, c) (<[i := w']> ws, c').
Proof.
  intros Hi H. revert ws c Hi. induction H as [w|w w1 w2 [a Ha] _ IH]; intros ws c Hi.
  - exists c. rewrite list_insert_id by done. apply rtc_refl.
  - destruct (IH (<[i := w1]> ws) (do_atoms (atoms_of a) c)) as [c' Hc].
    { apply list_lookup_insert_eq. by eapply lookup_lt_Some. }
    exists c'. rewrite list_insert_insert_eq in Hc. eapply rtc_l; [by eapply sys_move|exact Hc].
Qed.

Lemma sys_all ws ws' c : Forall2 (rtc moves) ws ws' → ∃ c', rtc sys_step (ws, c) (ws', c').
Proof.
  intros H. change (∃ c', rtc sys_step ([] ++ ws, c) ([] ++ ws', c')). generalize (@nil W) as done. revert c.
  induction H as [|w w' ws ws' Hw _ IH]; intros c done; [exists c; apply rtc_refl|].
  destruct (sys_one (done ++ w :: ws) c (length done) w w') as [c1 H1]; [by apply list_lookup_middle|done|].
  rewrite insert_app_r_alt, Nat.sub_diag in H1 by lia. cbn [insert list_insert] in H1.
  destruct (IH c1 (done ++ [w'])) as [c2 H2]. rewrite <- !app_assoc in H2. exists c2. by etrans.
Qed.

(** A thread's own record of its additions. *)
Context (log : W → list atom).
Context (Hlog : ∀ w a w', move w a w' → log w' = log w ++ atoms_of a).

Lemma total_insert f ws i (w w' : W) :
  ws !! i = Some w →
  total f (log <$> <[i := w']> ws) = total f (log <$> ws) - zsum f (log w) + zsum f (log w').
Proof.
  revert i. unfold total. induction ws as [|v ws IH]; intros [|i] H; cbn in H; [done..| |].
  - simplify_eq. change (<[0%nat:=w']> (w :: ws)) with (w' :: ws). rewrite !fmap_cons, !zsum_cons. lia.
  - change (<[S i:=w']> (v :: ws)) with (v :: <[i:=w']> ws). rewrite !fmap_cons, !zsum_cons, (IH _ H). lia.
Qed.

(** The counters are the sum of what the threads added: no addition is lost
    and none is counted twice. *)
Lemma sys_counters s s' c0 :
  counters_ok c0 → rtc sys_step s s' →
  let sums ws := added (total b_of (log <$> ws)) (total p_of (log <$> ws)) (total d_of (log <$> ws)) c0 in
  s.2 = sums s.1 → s'.2 = sums s'.1.
Proof.
  intros Hc H sums. induction H as [|s s1 s2 Hs _ IH]; [done|]. intros E. apply IH.
  destruct Hs as [ws c i w a w' Hi Hm]. cbn [fst snd] in *. subst c sums. cbv beta.
  pose proof (Hlog _ _ _ Hm) as El.
  rewrite do_atoms_added, added_added by apply added_ok.
  rewrite !(total_insert _ ws i w w' Hi), El, !zsum_app. f_equal; lia.
Qed.
End shared.

(** ** Running out of steps *)

Section countdown.
Context {W : Type} (prog env : W → W → Prop).

(** A run with [n] steps of the program in it, and any number of steps of
    its surroundings in between. *)
Inductive counted : nat → W → W → Prop :=
| counted_nil w : counted 0 w w
| counted_prog n w w1 w2 : prog w w1 → counted n w1 w2 → counted (S n) w w2
| counted_env n w w1 w2 : env w w1 → counted n w1 w2 → counted n w w2.

Context (inv : W → Prop) (rank : W → nat).
Context (Hprog : ∀ w w', inv w → prog w w' → inv w' ∧ (rank w' < rank w)%nat).
Context (Henv : ∀ w w', inv w → env w w' → inv w' ∧ rank w' = rank w).

(** A rank that every step of the program lowers, and nothing else changes,
    bounds the steps. *)
Lemma counted_rank n w w' : counted n w w' → inv w → inv w' ∧ (n + rank w' ≤ rank w)%nat.
Proof.
  induction 1 as [w|n w w1 w2 Hs _ IH|n w w1 w2 Hs _ IH]; intros Hi; [split; [done|lia]|..].
  - destruct (Hprog _ _ Hi Hs) as [Hi1 Hr]. destruct (IH Hi1). split; [done|lia].
  - destruct (Henv _ _ Hi Hs) as [Hi1 Hr]. destruct (IH Hi1). split; [done|lia].
Qed.

(** Where the program can always step, rank 0 is reached. *)
Lemma counted_end w : (∀ v, inv v → rank v ≠ 0%nat → ∃ v', prog v v') → inv w →
  ∃ n w', counted n w w' ∧ inv w' ∧ rank w' = 0%nat.
Proof.
  intros Hgo. remember (rank w) as r eqn:E. revert w E.
  induction (lt_wf r) as [r _ IH]. intros w -> Hi. destruct (decide (rank w = 0%nat)) as [E|E].
  - exists 0%nat, w. split_and!; [constructor|done..].
  - destruct (Hgo w Hi E) as (w1 & Hs). destruct (Hprog _ _ Hi Hs) as [Hi1 Hr].
    destruct (IH _ Hr w1 eq_refl Hi1) as (n & w' & Hc & Hi' & E').
    exists (S n), w'. split_and!; [by econstructor|done..].
Qed.
End countdown.
