(* ===== verification/TxSteps.v ===== *)
(** * The generator, step by step ([src/xdp/gen.rs])

    [Gen] lets the kernel act once per iteration of [tx_loop].  Here the
    loop is a state machine whose steps are its accesses to what it shares:
    one ring operation, one [fetch_add], one look at the clock; the kernel
    acts between any two of them, and so do the other workers
    ([Share]).  The ring operations themselves are justified as single
    steps in [Spsc]. *)

From Stdlib Require Import Sorted.
From S2P Require Import Prelude Ring Simd Frame Loss Gen Sink Wire Net Threads Share.

(** ** The program *)

(** Where a worker is: at the loop test, before the recycling, in the batch
    with [n] attempts left, before the wakeup, before either [fetch_add], at
    the pacing test, before the window is reset, or out of the loop. *)
Inductive gpc : Type :=
| GTest
| GRecycle
| GSend (n : nat) (sent : Z)
| GKick (sent : Z)
| GPackets (sent : Z)
| GBytes (sent : Z)
| GPace
| GReset
| GDone.

#[export] Instance gpc_eq_dec : EqDecision gpc.
Proof. solve_decision. Defined.

(** A worker's locals and its half of the socket. *)
Record gloc : Type := GLoc {
  gl_pc : gpc;
  gl_tx : TxState;
  gl_payload : list Z;
  gl_seq : Z;
  gl_sent_sec : Z;
  gl_sec_start : Z;
  gl_kicks : list sendto;
}.

Definition gl_at (l : gloc) (pc : gpc) : gloc :=
  GLoc pc (gl_tx l) (gl_payload l) (gl_seq l) (gl_sent_sec l) (gl_sec_start l) (gl_kicks l).

Definition gl_set (l : gloc) (pc : gpc) (s : TxState) (payload : list Z) (seq : Z) : gloc :=
  GLoc pc s payload seq (gl_sent_sec l) (gl_sec_start l) (gl_kicks l).

Definition gl_with_tx (l : gloc) (s : TxState) : gloc := gl_set l (gl_pc l) s (gl_payload l) (gl_seq l).

(** [if sent > 0] behind the batch. *)
Definition after_batch (sent : Z) : gpc := if 0 <? sent then GKick sent else GPace.

Section program.
Context (p : profile) (c : cpu) (LEVEL : option SimdLevel).
Context (frame_total pps_per deadline : Z).

(** One step; [run] and [now] are the flag and the clock where the step
    reads them. *)
Definition gen_step (run : bool) (now : Z) (l : gloc) : res (gloc * option atom) :=
  match gl_pc l with
  | GTest => Ok (gl_at l (if run && (now <? deadline) then GRecycle else GDone), None)
  | GRecycle =>
      s ← recycle (gl_tx l);
      Ok (gl_set l (GSend TX_BATCH 0) s (gl_payload l) (gl_seq l), None)
  | GSend O sent => Ok (gl_at l (after_batch sent), None)
  | GSend (S n) sent =>
      payload ← stamp_seq (gl_payload l) (gl_seq l);
      seq ← arith p 64 (gl_seq l + 1);
      '(ok, s) ← tx_one p c LEVEL (gl_tx l) payload;
      if (ok : bool) then
        sent ← arith p 64 (sent + 1);
        Ok (gl_set l (GSend n sent) s payload seq, None)
      else Ok (gl_set l (after_batch sent) s payload seq, None)
  | GKick sent =>
      Ok (GLoc (GPackets sent) (gl_tx l) (gl_payload l) (gl_seq l) (gl_sent_sec l) (gl_sec_start l)
            (gl_kicks l ++ [kick (gl_tx l)]), None)
  | GPackets sent => Ok (gl_at l (GBytes sent), Some (AddPackets sent))
  | GBytes sent =>
      b ← arith p 64 (sent * frame_total);
      sent_sec ← arith p 64 (gl_sent_sec l + sent);
      Ok (GLoc GPace (gl_tx l) (gl_payload l) (gl_seq l) sent_sec (gl_sec_start l) (gl_kicks l),
          Some (AddBytes b))
  | GPace => Ok (gl_at l (if (0 <? pps_per) && (pps_per <=? gl_sent_sec l) then GReset else GTest), None)
  | GReset => Ok (GLoc GTest (gl_tx l) (gl_payload l) (gl_seq l) 0 now (gl_kicks l), None)
  | GDone => Ok (l, None)
  end.
End program.

(** [tx_loop] up to its first test. *)
Definition gen_init (s : TxState) (worker payload_len start : Z) : gloc :=
  GLoc GTest s (splice (replicate (Z.to_nat payload_len) 0) 0 (to_le_bytes 8 worker)) 0 0 start [].

(** ** A worker and the kernel *)

(** The descriptors the kernel holds; for the statements: the frames it has
    taken so far, the additions made, and how many iterations and steps the
    program has begun. *)
Record gworker : Type := GWorker {
  gw : gloc;
  gw_fl : list XdpDesc;
  gw_wire : list (list Z);
  gw_log : list atom;
  gw_iters : Z;
  gw_steps : Z;
}.

Definition gworker_init (l : gloc) : gworker := GWorker l [] [] [] 0 0.

Definition begins (l : gloc) : Z := if decide (gl_pc l = GRecycle) then 1 else 0.

Section moves.
Context (p : profile) (c : cpu) (LEVEL : option SimdLevel).
Context (frame_total pps_per deadline kt kc : Z).

Inductive gmove : gworker → option atom → gworker → Prop :=
| g_prog run now l a l' fl wire log iters steps :
    gl_pc l ≠ GDone → gen_step p c LEVEL frame_total pps_per deadline run now l = Ok (l', a) →
    gmove (GWorker l fl wire log iters steps) a
      (GWorker l' fl wire (log ++ atoms_of a) (iters + begins l) (steps + 1))
| g_kernel l fl s' fl' wire log iters steps :
    tx_kernel kt kc (gl_tx l) fl s' fl' →
    gmove (GWorker l fl wire log iters steps) None
      (GWorker (gl_with_tx l s') fl' (wire ++ transmitted (gl_tx l) s') log iters steps).

Lemma gmove_log w a w' : gmove w a w' → gw_log w' = gw_log w ++ atoms_of a.
Proof. destruct 1; cbn; [done|]. by rewrite app_nil_r. Qed.
End moves.

(** ** Lemmas: one worker *)

(** Frames handed to the ring that the counters do not show yet. *)
Definition pend_packets (pc : gpc) : Z :=
  match pc with GSend _ s | GKick s | GPackets s => s | _ => 0 end.
Definition pend_bytes (pc : gpc) : Z :=
  match pc with GSend _ s | GKick s | GPackets s | GBytes s => s | _ => 0 end.
Definition in_batch (pc : gpc) : Z := match pc with GSend _ _ => 1 | _ => 0 end.

Definition pc_ok (pc : gpc) : Prop :=
  match pc with
  | GSend n s => 0 ≤ s ∧ s + Z.of_nat n ≤ Z.of_nat TX_BATCH
  | GKick s | GPackets s | GBytes s => 0 < s ≤ Z.of_nat TX_BATCH
  | _ => True
  end.

Lemma pend_after_batch s : 0 ≤ s → pend_packets (after_batch s) = s ∧ pend_bytes (after_batch s) = s
  ∧ in_batch (after_batch s) = 0.
Proof. intros H. unfold after_batch. destruct (Z.ltb_spec 0 s); cbn; lia. Qed.

Lemma after_batch_ok s : 0 ≤ s ≤ Z.of_nat TX_BATCH → pc_ok (after_batch s).
Proof. intros H. unfold after_batch. destruct (Z.ltb_spec 0 s); [|done]. cbn [pc_ok]. lia. Qed.

Section worker.
Context (p : profile) (c : cpu) (LEVEL : option SimdLevel).
Context (src_mac dst_mac src_ip dst_ip : list Z) (src_port dst_port : Z).
Context (kt kc : Z) (frames : list Z).
Context (Hisa : isa_ok c) (Hcell : oncelock_ok c LEVEL).
Context (Hsm : is_mac src_mac) (Hdm : is_mac dst_mac).
Context (Hsi : is_ip src_ip) (Hdi : is_ip dst_ip).
Context (Hsp : is_u16 src_port) (Hdp : is_u16 dst_port).
Context (Hcapt : zlen frames ≤ 2 ^ kt) (Hcapc : zlen frames ≤ 2 ^ kc).
Context (payload : list Z) (H16 : 16 ≤ zlen payload) (Hfit : OUTER_HDR + zlen payload ≤ FRAME_SIZE).
Context (pps_per deadline : Z).

Abbreviation inv := (tx_inv src_mac dst_mac src_ip dst_ip src_port dst_port kt kc frames).
Abbreviation total_len := (OUTER_HDR + zlen payload).
Abbreviation flow := (flow_frame src_mac dst_mac src_ip dst_ip src_port dst_port payload).
Abbreviation nok := (numbered_ok payload).

(** Who owns which frame, and what the numbers handed out so far became:
    on the wire, in the ring, or left out. *)
Definition gown (w : gworker) (pc : gpc) (log : list atom) (seq iters : Z) : Prop :=
  ∃ qt fl qc nums k,
    inv (gl_tx (gw w)) qt fl qc ∧ fl.*1 = gw_fl w ∧ Forall nok qt ∧ Forall flow (gw_wire w)
    ∧ (frame_num <$> gw_wire w) ++ (payload_seq <$> qt.*2) = nums
    ∧ run_of 0 seq k nums ∧ k + in_batch pc ≤ iters
    ∧ zlen nums = zsum p_of log + pend_packets pc
    ∧ zlen nums * total_len = zsum b_of log + pend_bytes pc * total_len.

Record ginv (w : gworker) : Prop := {
  gi_own : gown w (gl_pc (gw w)) (gw_log w) (gl_seq (gw w)) (gw_iters w);
  gi_pay : pay_ok payload (gl_payload (gw w));
  gi_drops : zsum d_of (gw_log w) = 0;
  gi_pc : pc_ok (gl_pc (gw w));
  gi_sec : 0 ≤ gl_sent_sec (gw w) ∧ gl_sent_sec (gw w) + pend_bytes (gl_pc (gw w)) ≤ gl_seq (gw w);
  gi_steps : 0 ≤ gl_seq (gw w) ≤ gw_steps w;
}.

(** Another program point, the same account. *)
Lemma gown_pc w pc pc' log log' seq iters iters' :
  gown w pc log seq iters →
  zsum p_of log' + pend_packets pc' = zsum p_of log + pend_packets pc →
  zsum b_of log' + pend_bytes pc' * total_len = zsum b_of log + pend_bytes pc * total_len →
  in_batch pc' - iters' ≤ in_batch pc - iters → gown w pc' log' seq iters'.
Proof.
  intros (qt & fl & qc & nums & k & H1 & H2 & H3 & H4 & H5 & H6 & H7 & H8 & H9) E1 E2 E3.
  exists qt, fl, qc, nums, k. split_and!; try done; try lia.
Qed.

(** The kernel's turn. *)
Lemma ginv_kernel l fl s' fl' wire log iters steps :
  tx_kernel kt kc (gl_tx l) fl s' fl' → ginv (GWorker l fl wire log iters steps) →
  ginv (GWorker (gl_with_tx l s') fl' (wire ++ transmitted (gl_tx l) s') log iters steps).
Proof.
  intros Hk [(qt & fl0 & qc & nums & k & H1 & H2 & H3 & H4 & H5 & H6) P D C S T].
  cbn [gw gw_fl gw_wire gw_log gw_iters gw_steps] in *. subst fl.
  destruct (kernel_takes src_mac dst_mac src_ip dst_ip src_port dst_port kt kc frames Hcapc payload H16
    (gl_tx l) s' fl' qt fl0 qc Hk H1 H3) as (tk & qt' & fl1 & qc' & -> & Hi & Efl & Hf & En).
  split; cbn [gw gw_fl gw_wire gw_log gw_iters gw_steps gl_with_tx gl_set gl_pc gl_seq gl_sent_sec gl_payload]; try done.
  apply Forall_app in H3 as [_ H3]. exists qt', fl1, qc', nums, k.
  cbn [gw gw_fl gw_wire gl_with_tx gl_set gl_tx]. split_and!; try done; try apply H6.
  - by apply Forall_app.
  - by rewrite fmap_app, En, <- app_assoc, <- fmap_app, <- fmap_app.
Qed.
(** A batch attempt: a frame goes to the ring with the next number, or the
    pool is empty and the number is left out. *)
Lemma ginv_send run now l fl wire log iters steps n sent :
  gl_pc l = GSend (S n) sent → ginv (GWorker l fl wire log iters steps) → steps < 2 ^ 64 - 2 →
  ∃ l', gen_step p c LEVEL total_len pps_per deadline run now l = Ok (l', None)
    ∧ ginv (GWorker l' fl wire log iters (steps + 1))
    ∧ (pool (gl_tx l) ≠ [] → gl_pc l' = GSend n (sent + 1)).
Proof.
  intros Epc [(qt & fl0 & qc & nums & k & H1 & H2 & H3 & H4 & H5 & H6 & H7 & H8 & H9) P D C S T] Hlt.
  cbn [gw gw_fl gw_wire gw_log gw_iters gw_steps] in *. rewrite Epc in *.
  cbn [pc_ok pend_packets pend_bytes in_batch] in *. unfold TX_BATCH in C.
  unfold gen_step. rewrite Epc.
  assert (16 ≤ zlen (gl_payload l) ∧ numbered (gl_payload l) (gl_seq l) = numbered payload (gl_seq l)) as [Hp16 Hnum].
  { destruct P as [->|[k' ->]]; [done|]. by rewrite length_numbered, numbered_numbered. }
  unfold stamp_seq. rewrite decide_True by done. cbn [mbind res_bind].
  fold (numbered (gl_payload l) (gl_seq l)). rewrite Hnum.
  rewrite (arith_fits p 64 (gl_seq l + 1)) by (split; lia). cbn [mbind res_bind].
  destruct (tx_one_spec p c LEVEL src_mac dst_mac src_ip dst_ip src_port dst_port kt kc frames
    Hisa Hcell Hsm Hdm Hsi Hdi Hsp Hdp (gl_tx l) qt fl0 qc (numbered payload (gl_seq l)) H1)
    as [[Epool ->]|[(pool' & a & s' & Epool & _ & -> & Epool' & Hinv')|(s' & Hfull & Hne & _)]];
    [by rewrite length_numbered|..].
  - cbn [mbind res_bind]. eexists. split; [done|]. split; [|by intros []].
    pose proof (pend_after_batch sent ltac:(lia)) as (Q1 & Q2 & Q3).
    split; cbn [gw gw_fl gw_wire gw_log gw_iters gw_steps gl_set gl_pc gl_seq gl_sent_sec gl_payload];
      [|by right; eexists|done|apply after_batch_ok; unfold TX_BATCH; lia|lia|lia].
    exists qt, fl0, qc, nums, (k + 1). cbn [gw gl_set gl_tx gw_fl gw_wire]. rewrite Q1, Q2, Q3.
    split_and!; try done; try lia.
    pose proof (run_of_app 0 (gl_seq l) (gl_seq l + 1) k 1 nums [] H6) as R. rewrite app_nil_r in R. apply R.
    pose proof (run_of_batch (gl_seq l) 0 1 ltac:(lia) ltac:(lia)) as B. by rewrite Z.add_0_r in B.
  - cbn [mbind res_bind]. rewrite (arith_fits p 64 (sent + 1)) by (split; lia). cbn [mbind res_bind].
    eexists. split; [done|]. split; [|done].
    split; cbn [gw gw_fl gw_wire gw_log gw_iters gw_steps gl_set gl_pc gl_seq gl_sent_sec gl_payload pend_bytes pc_ok];
      [|by right; eexists|done|unfold TX_BATCH; lia|lia|lia].
    rewrite length_numbered in Hinv' by done.
    eexists (qt ++ [_]), fl0, qc, (nums ++ [gl_seq l]), k. cbn [gw gl_set gl_tx gw_fl gw_wire pend_packets pend_bytes in_batch].
    split; [exact Hinv'|]. split_and!; try done.
    + apply Forall_app. split; [done|]. constructor; [|done]. exists (gl_seq l). split; [|done]. unfold seq_ok. lia.
    + rewrite fmap_app, fmap_app, app_assoc, H5. do 2 f_equal. cbn [fmap list_fmap snd].
      by rewrite payload_seq_numbered by (done || split; lia).
    + pose proof (run_of_app 0 (gl_seq l) (gl_seq l + 1) k 0 nums [gl_seq l] H6) as R. rewrite Z.add_0_r in R. apply R.
      pose proof (run_of_batch (gl_seq l) 1 0 ltac:(lia) ltac:(lia)) as B. rewrite Z.add_0_r in B.
      by replace (seqZ (gl_seq l) 1) with [gl_seq l] in B by (cbn; f_equal; lia).
    + rewrite length_app. cbn [length]. lia.
    + rewrite length_app. cbn [length]. lia.
  - pose proof (room src_mac dst_mac src_ip dst_ip src_port dst_port kt kc frames Hcapt _ _ _ _ H1 Hne). lia.
Qed.

(** The other points move counters and clocks only. *)
Lemma ginv_account l l' fl wire log log' iters iters' steps steps' :
  ginv (GWorker l fl wire log iters steps) →
  gl_tx l' = gl_tx l → gl_payload l' = gl_payload l → gl_seq l' = gl_seq l → pc_ok (gl_pc l') →
  zsum p_of log' + pend_packets (gl_pc l') = zsum p_of log + pend_packets (gl_pc l) →
  zsum b_of log' + pend_bytes (gl_pc l') * total_len = zsum b_of log + pend_bytes (gl_pc l) * total_len →
  zsum d_of log' = zsum d_of log → in_batch (gl_pc l') - iters' ≤ in_batch (gl_pc l) - iters →
  0 ≤ gl_sent_sec l' → gl_sent_sec l' + pend_bytes (gl_pc l') ≤ gl_sent_sec l + pend_bytes (gl_pc l) →
  steps ≤ steps' → ginv (GWorker l' fl wire log' iters' steps').
Proof.
  intros [O P D C S T] E1 E2 E3 Hpc Ep Eb Ed Ei S0 S1 Hs.
  cbn [gw gw_fl gw_wire gw_log gw_iters gw_steps] in *.
  split; cbn [gw gw_fl gw_wire gw_log gw_iters gw_steps]; rewrite ?E2, ?E3, ?Ed; try done; try lia.
  eapply gown_pc in O; [|exact Ep|exact Eb|exact Ei].
  destruct O as (qt & fl0 & qc & nums & k & O). exists qt, fl0, qc, nums, k. cbn [gw gw_fl gw_wire] in *. by rewrite E1.
Qed.

(** Before a batch the returned frames go to the pool. *)
Lemma ginv_recycle run now l fl wire log iters steps :
  gl_pc l = GRecycle → ginv (GWorker l fl wire log iters steps) →
  ∃ l', gen_step p c LEVEL total_len pps_per deadline run now l = Ok (l', None)
    ∧ ginv (GWorker l' fl wire log (iters + 1) (steps + 1))
    ∧ gl_pc l' = GSend TX_BATCH 0 ∧ (pool (gl_tx l) ≠ [] → pool (gl_tx l') ≠ []).
Proof.
  intros Epc [(qt & fl0 & qc & nums & k & H1 & H2 & H3 & H4 & H5 & H6 & H7 & H8 & H9) P D C S T].
  cbn [gw gw_fl gw_wire gw_log gw_iters gw_steps] in *. rewrite Epc in *. unfold gen_step. rewrite Epc.
  destruct (recycle_spec src_mac dst_mac src_ip dst_ip src_port dst_port kt kc frames _ _ _ _ H1)
    as (s' & -> & Ep & Hi'). cbn [mbind res_bind]. eexists. split; [done|].
  split; [|split; [done|cbn [gl_set gl_tx]; rewrite Ep; by destruct (pool (gl_tx l))]].
  cbn [pend_packets pend_bytes in_batch] in *.
  split; cbn [gw gw_fl gw_wire gw_log gw_iters gw_steps gl_set gl_pc gl_seq gl_sent_sec gl_payload pend_bytes];
    try done; try lia.
  exists qt, fl0, [], nums, k. cbn [gw gl_set gl_tx gw_fl gw_wire pend_packets pend_bytes in_batch].
  split_and!; try done; lia.
Qed.

Lemma ginv_prog run now l fl wire log iters steps :
  ginv (GWorker l fl wire log iters steps) → steps < 2 ^ 64 - 2 → gl_pc l ≠ GDone →
  ∃ l' a, gen_step p c LEVEL total_len pps_per deadline run now l = Ok (l', a)
    ∧ ginv (GWorker l' fl wire (log ++ atoms_of a) (iters + begins l) (steps + 1)).
Proof.
  intros Hi Hlt Hd. pose proof Hi as [_ _ _ C S T]. cbn [gw gw_fl gw_wire gw_log gw_iters gw_steps] in *.
  assert (0 < total_len ≤ 4096) as Ht by (unfold FRAME_SIZE in Hfit; change OUTER_HDR with 42 in *; lia).
  assert (∀ l' log' a, gl_tx l' = gl_tx l → gl_payload l' = gl_payload l → gl_seq l' = gl_seq l →
    pc_ok (gl_pc l') → log' = log ++ atoms_of a →
    zsum p_of (atoms_of a) + pend_packets (gl_pc l') = pend_packets (gl_pc l) →
    zsum b_of (atoms_of a) + pend_bytes (gl_pc l') * total_len = pend_bytes (gl_pc l) * total_len →
    zsum d_of (atoms_of a) = 0 → in_batch (gl_pc l') ≤ in_batch (gl_pc l) → begins l = 0 →
    0 ≤ gl_sent_sec l' → gl_sent_sec l' + pend_bytes (gl_pc l') ≤ gl_sent_sec l + pend_bytes (gl_pc l) →
    ginv (GWorker l' fl wire log' (iters + begins l) (steps + 1))) as Hgo.
  { intros l' log' a E1 E2 E3 Hpc -> Ep Eb Ed Ei E0 S0 S1. rewrite E0.
    apply (ginv_account l l' fl wire log _ iters _ steps _ Hi); rewrite ?zsum_app; try done; lia. }
  unfold begins in *. destruct (gl_pc l) as [| |[|n] sent|sent|sent|sent| | |] eqn:Epc; try done;
    cbn [pc_ok pend_packets pend_bytes in_batch] in *; unfold TX_BATCH in *.
  4:{ destruct (ginv_send run now l fl wire log iters steps n sent Epc Hi Hlt) as (l' & -> & Hi' & _).
      exists l', None. rewrite app_nil_r, decide_False, Z.add_0_r by done. done. }
  2:{ destruct (ginv_recycle run now l fl wire log iters steps Epc Hi) as (l' & -> & Hi' & _).
      exists l', None. by rewrite app_nil_r, decide_True. }
  all: unfold gen_step; rewrite Epc.
  - do 2 eexists. split; [done|]. apply (Hgo _ _ None); cbn; try done; try lia; by destruct (_ && _).
  - do 2 eexists. split; [done|]. pose proof (pend_after_batch sent ltac:(lia)) as (Q1 & Q2 & Q3).
    apply (Hgo _ _ None); cbn [gl_at gl_pc gl_tx gl_payload gl_seq gl_sent_sec atoms_of];
      rewrite ?Q1, ?Q2, ?Q3, ?app_nil_r; try done; try (cbn; lia). apply after_batch_ok. unfold TX_BATCH. lia.
  - do 2 eexists. split; [done|]. apply (Hgo _ _ None); cbn; try done; try lia.
  - do 2 eexists. split; [done|]. apply (Hgo _ _ (Some (AddPackets sent))); cbn; try done; try lia.
  - rewrite (arith_fits p 64 (sent * total_len)) by (split; nia). cbn [mbind res_bind].
    rewrite (arith_fits p 64 (gl_sent_sec l + sent)) by (split; lia). cbn [mbind res_bind].
    do 2 eexists. split; [done|]. apply (Hgo _ _ (Some (AddBytes (sent * total_len)))); cbn; try done; try lia.
  - do 2 eexists. split; [done|]. destruct (_ && _); apply (Hgo _ _ None); cbn; try done; lia.
  - do 2 eexists. split; [done|]. apply (Hgo _ _ None); cbn; try done; lia.
Qed.
End worker.

(** ** Lemmas: after the deadline *)

(** How many steps of its own a worker needs at most once the loop test
    fails. *)
Definition rank (pc : gpc) : nat :=
  match pc with
  | GDone => 0
  | GTest => 1
  | GReset => 2
  | GPace => 3
  | GBytes _ => 4
  | GPackets _ => 5
  | GKick _ => 6
  | GSend n _ => 7 + n
  | GRecycle => 8 + TX_BATCH
  end.

Section late.
Context (p : profile) (c : cpu) (LEVEL : option SimdLevel).
Context (frame_total pps_per deadline kt kc : Z).

(** A step of the program that finds the deadline past or the flag cleared,
    and the kernel's turn. *)
Inductive late_prog : gworker → gworker → Prop :=
| late_step_prog run now l a l' fl wire log iters steps :
    run = false ∨ deadline ≤ now → gl_pc l ≠ GDone →
    gen_step p c LEVEL frame_total pps_per deadline run now l = Ok (l', a) →
    late_prog (GWorker l fl wire log iters steps)
      (GWorker l' fl wire (log ++ atoms_of a) (iters + begins l) (steps + 1)).

Inductive late_kernel : gworker → gworker → Prop :=
| late_step_kernel l fl s' fl' wire log iters steps :
    tx_kernel kt kc (gl_tx l) fl s' fl' →
    late_kernel (GWorker l fl wire log iters steps)
      (GWorker (gl_with_tx l s') fl' (wire ++ transmitted (gl_tx l) s') log iters steps).

(** A run of a worker and its kernel, [n] of the steps the program's, all of
    them after the deadline or with the flag cleared. *)
Definition late_run : nat → gworker → gworker → Prop := counted late_prog late_kernel.

Lemma after_batch_rank s : (rank (after_batch s) ≤ 6)%nat.
Proof. unfold after_batch. case_match; cbn; lia. Qed.

Lemma late_step run now l l' a :
  run = false ∨ deadline ≤ now → gl_pc l ≠ GDone →
  gen_step p c LEVEL frame_total pps_per deadline run now l = Ok (l', a) →
  (rank (gl_pc l') < rank (gl_pc l))%nat.
Proof.
  intros Hlate Hd H. unfold gen_step in H. destruct (gl_pc l) as [| |[|n] sent|sent|sent|sent| | |] eqn:E; try done.
  - simplify_eq. replace (run && (now <? deadline)) with false; [cbn; lia|].
    destruct Hlate as [->|Hl]; [done|]. symmetry. apply andb_false_intro2. lia.
  - apply res_bind_inv in H as (s & _ & H). simplify_eq. cbn [gl_set gl_pc rank]. lia.
  - simplify_eq. cbn [gl_at gl_pc]. pose proof (after_batch_rank sent). cbn [rank]. lia.
  - apply res_bind_inv in H as (pl & _ & H). apply res_bind_inv in H as (sq & _ & H).
    apply res_bind_inv in H as ([[] s] & _ & H).
    + apply res_bind_inv in H as (sn & _ & H). simplify_eq. cbn. lia.
    + simplify_eq. cbn [gl_set gl_pc]. pose proof (after_batch_rank sent). cbn [rank]. lia.
  - simplify_eq. cbn. lia.
  - simplify_eq. cbn. lia.
  - apply res_bind_inv in H as (b & _ & H). apply res_bind_inv in H as (ss & _ & H). simplify_eq. cbn. lia.
  - simplify_eq. cbn. case_match; cbn; lia.
  - simplify_eq. cbn. lia.
Qed.

Lemma late_prog_moves w w' : late_prog w w' → moves (gmove p c LEVEL frame_total pps_per deadline kt kc) w w'.
Proof. destruct 1 as [run now l a l' fl wire log iters steps _ Hd Hs]. exists a. by econstructor. Qed.

(** A step takes no frame out of the account. *)
Lemma gen_step_account run now l l' a :
  pc_ok (gl_pc l) → gen_step p c LEVEL frame_total pps_per deadline run now l = Ok (l', a) →
  pend_packets (gl_pc l) ≤ zsum p_of (atoms_of a) + pend_packets (gl_pc l').
Proof.
  intros Hpc H. unfold gen_step in H. destruct (gl_pc l) as [| |[|n] sent|sent|sent|sent| | |] eqn:E; cbn [pc_ok] in Hpc.
  - simplify_eq. by destruct (_ && _).
  - apply res_bind_inv in H as (s & _ & H). by simplify_eq.
  - simplify_eq. cbn [gl_at gl_pc]. rewrite (proj1 (pend_after_batch sent ltac:(lia))). cbn. lia.
  - apply res_bind_inv in H as (pl & _ & H). apply res_bind_inv in H as (sq & _ & H).
    apply res_bind_inv in H as ([[] s] & _ & H).
    + unfold TX_BATCH in Hpc. rewrite arith_fits in H by (split; lia). cbn [mbind res_bind] in H. simplify_eq. cbn. lia.
    + simplify_eq. cbn [gl_set gl_pc]. rewrite (proj1 (pend_after_batch sent ltac:(lia))). cbn. lia.
  - simplify_eq. cbn. lia.
  - simplify_eq. cbn. lia.
  - apply res_bind_inv in H as (b & _ & H). apply res_bind_inv in H as (ss & _ & H). by simplify_eq.
  - simplify_eq. cbn. by destruct (_ && _).
  - by simplify_eq.
  - simplify_eq. by rewrite E.
Qed.
End late.

Lemma rank_bound pc : pc_ok pc → (rank pc ≤ 72)%nat.
Proof. destruct pc; cbn; unfold TX_BATCH; lia. Qed.

Lemma rank_done pc : rank pc = 0%nat → pc = GDone.
Proof. by destruct pc. Qed.

(** ** Lemmas: the sequential loop *)

Section sequential.
Context (p : profile) (c : cpu) (LEVEL : option SimdLevel).
Context (frame_total pps_per deadline : Z).

(** The program alone, with what it adds. *)
Inductive prog_step : gloc * list atom → gloc * list atom → Prop :=
| prog_one run now l l' a log :
    gen_step p c LEVEL frame_total pps_per deadline run now l = Ok (l', a) →
    prog_step (l, log) (l', log ++ atoms_of a).

(** The locals of [Gen]'s loop at a program point. *)
Definition loc_at (pc : gpc) (l : loop_state) : gloc :=
  GLoc pc (ls_tx l) (ls_payload l) (ls_seq l) (ls_sent_sec l) (ls_sec_start l) (ls_kicks l).

Lemma prog_once run now l l' a log log' x :
  gen_step p c LEVEL frame_total pps_per deadline run now l = Ok (l', a) → log' = log ++ atoms_of a →
  rtc prog_step (l', log') x → rtc prog_step (l, log) x.
Proof. intros H -> Hr. eapply rtc_l; [by econstructor|done]. Qed.

Lemma prog_silent run now l l' log x :
  gen_step p c LEVEL frame_total pps_per deadline run now l = Ok (l', None) →
  rtc prog_step (l', log) x → rtc prog_step (l, log) x.
Proof. intros H. apply (prog_once run now l l' None); [done|]. symmetry. apply app_nil_r. Qed.

Lemma batch_steps n : ∀ l sent s pl seq sent' log,
  gl_pc l = GSend n sent →
  tx_batch p c LEVEL n (gl_tx l) (gl_payload l) (gl_seq l) sent = Ok (s, pl, seq, sent') →
  rtc prog_step (l, log) (gl_set l (after_batch sent') s pl seq, log).
Proof.
  induction n as [|n IH]; intros l sent s pl seq sent' log Epc H; cbn [tx_batch] in H.
  - simplify_eq. eapply (prog_silent false 0); [by unfold gen_step; rewrite Epc|].
    destruct l. apply rtc_refl.
  - apply res_bind_inv in H as (pl1 & H1 & H). apply res_bind_inv in H as (sq1 & H2 & H).
    apply res_bind_inv in H as ([[] s1] & H3 & H).
    + apply res_bind_inv in H as (sn & H4 & H).
      eapply (prog_silent false 0).
      { unfold gen_step. rewrite Epc, H1. cbn [mbind res_bind]. rewrite H2. cbn [mbind res_bind].
        rewrite H3. cbn [mbind res_bind]. rewrite H4. reflexivity. }
      apply (IH (gl_set l (GSend n sn) s1 pl1 sq1) sn s pl seq sent' log); done.
    + simplify_eq. eapply (prog_silent false 0); [|apply rtc_refl].
      unfold gen_step. rewrite Epc, H1. cbn [mbind res_bind]. rewrite H2. cbn [mbind res_bind].
      by rewrite H3.
Qed.
(** An iteration of [Gen]'s loop is a run of the program's steps, from the
    recycling to the loop test, that makes the same additions. *)
Lemma iter_steps e l l' slept :
  tx_iter p c LEVEL frame_total pps_per e l = Ok (l', slept) →
  ∃ log, rtc prog_step (loc_at GRecycle l, []) (loc_at GTest l', log)
    ∧ ls_counters l' = do_atoms log (ls_counters l).
Proof.
  intros H. unfold tx_iter in H. apply res_bind_inv in H as (s & Hr & H).
  apply res_bind_inv in H as ([[[s1 pl] seq] sent] & Hb & H).
  pose proof (λ log, batch_steps TX_BATCH (gl_set (loc_at GRecycle l) (GSend TX_BATCH 0) s (ls_payload l) (ls_seq l))
    0 s1 pl seq sent log eq_refl Hb) as Hbatch.
  assert (∀ log x, rtc prog_step (gl_set (gl_set (loc_at GRecycle l) (GSend TX_BATCH 0) s (ls_payload l) (ls_seq l))
      (after_batch sent) s1 pl seq, log) x → rtc prog_step (loc_at GRecycle l, log) x) as Hstart.
  { intros log x Hx. eapply (prog_silent false 0); [by unfold gen_step; cbn; rewrite Hr|].
    etrans; [apply Hbatch|exact Hx]. }
  clear Hbatch. apply res_bind_inv in H as ([[cs ss] kicks] & Hcs & H).
  assert (∃ log, cs = do_atoms log (ls_counters l) ∧ rtc prog_step (loc_at GRecycle l, [])
    (GLoc GPace s1 pl seq ss (ls_sec_start l) kicks, log)) as (log & -> & Hrun).
  { unfold after_batch in Hstart. destruct (0 <? sent).
    - apply res_bind_inv in Hcs as (b & Hb1 & Hcs). apply res_bind_inv in Hcs as (ss' & Hss & Hcs). simplify_eq.
      exists [AddPackets sent; AddBytes b]. split; [done|]. apply Hstart.
      eapply (prog_silent false 0); [reflexivity|]. eapply (prog_once false 0); [reflexivity..|].
      eapply (prog_once false 0); [unfold gen_step; cbn -[arith]; rewrite Hb1; cbn -[arith]; rewrite Hss; reflexivity|reflexivity|].
      apply rtc_refl.
    - simplify_eq. exists []. split; [done|]. apply Hstart. apply rtc_refl. }
  exists log. destruct ((0 <? pps_per) && (pps_per <=? ss)) eqn:Ep; simplify_eq; (split; [|done]);
    (etrans; [exact Hrun|]).
  - eapply (prog_silent false 0); [unfold gen_step; cbn -[andb]; by rewrite Ep|].
    eapply (prog_silent false (ev_now_reset e)); [reflexivity|]. apply rtc_refl.
  - eapply (prog_silent false 0); [unfold gen_step; cbn -[andb]; by rewrite Ep|]. apply rtc_refl.
Qed.
End sequential.

(** ** All workers *)

Definition worker_payload (w : nat) (payload_len : Z) : list Z :=
  splice (replicate (Z.to_nat payload_len) 0) 0 (to_le_bytes 8 (Z.of_nat w)).

(** The threads [xdp_udp_blast] spawns, one per state, where they enter
    [tx_loop] (they have pinned themselves before, see [gen_threads] in
    [Xdp]); [start] is when each reads the clock first. *)
Definition gen_workers (states : list TxState) (payload_len : Z) (start : nat → Z) : list gworker :=
  imap (λ w s, gworker_init (gen_init s (Z.of_nat w) payload_len (start w))) states.

Lemma length_worker_payload w payload_len : 8 ≤ payload_len → zlen (worker_payload w payload_len) = payload_len.
Proof.
  intros H. unfold worker_payload.
  rewrite length_splice; rewrite ?length_replicate, ?length_to_le_bytes; lia.
Qed.

Lemma worker_payload_sid w payload_len : 16 ≤ payload_len → Z.of_nat w < 2 ^ 64 →
  payload_sid (worker_payload w payload_len) = Z.of_nat w.
Proof.
  intros H Hw. unfold payload_sid, worker_payload.
  pose proof (slice_splice_eq (replicate (Z.to_nat payload_len) 0) 0 (to_le_bytes 8 (Z.of_nat w))) as E.
  rewrite length_to_le_bytes in E. change (Z.of_nat 8) with 8 in E.
  rewrite E by (rewrite ?length_replicate; lia). apply from_to_le_u64. split; lia.
Qed.

Section generator.
Context (p : profile) (c : cpu) (LEVEL : option SimdLevel).
Context (src_mac dst_mac src_ip dst_ip : list Z) (src_port dst_port kt kc : Z).
Context (frames : list Z) (payload_len pps_per deadline : Z).
Context (Hflow : flow_ok c LEVEL src_mac dst_mac src_ip dst_ip src_port dst_port).
Context (Hcapt : zlen frames ≤ 2 ^ kt) (Hcapc : zlen frames ≤ 2 ^ kc).
Context (H16 : 16 ≤ payload_len) (Hfit : OUTER_HDR + payload_len ≤ FRAME_SIZE).

Abbreviation inv := (tx_inv src_mac dst_mac src_ip dst_ip src_port dst_port kt kc frames).
Abbreviation move := (gmove p c LEVEL (OUTER_HDR + payload_len) pps_per deadline kt kc).
Abbreviation winv i w := (ginv src_mac dst_mac src_ip dst_ip src_port dst_port kt kc frames
  (worker_payload i payload_len) w).

(** What a worker handed over: the frames the kernel took, and those in its
    TX ring. *)
Definition handed (w : gworker) : Z := zlen (gw_wire w) + in_ring (gl_tx (gw w)).

(** The worker invariant, as long as the numbers last. *)
Definition good (i : nat) (w : gworker) : Prop := gw_steps w < 2 ^ 64 - 2 → winv i w.

Lemma good_init states start i w :
  Forall (λ s, inv s [] [] []) states → gen_workers states payload_len start !! i = Some w → good i w.
Proof.
  intros Hs Hi _. unfold gen_workers in Hi. rewrite list_lookup_imap in Hi.
  destruct (states !! i) as [s|] eqn:E; [|done]. cbn in Hi. simplify_eq.
  eapply Forall_lookup_1 in Hs; [|exact E].
  split; cbn; try done; try lia; [|by left].
  exists [], [], [], [], 0. cbn. split_and!; try done; try lia.
  split_and!; [constructor|done|cbn; lia|done].
Qed.

Lemma good_move i w a w' : good i w → move w a w' → good i w'.
Proof.
  intros Hg Hm. pose proof Hflow as (?&?&?&?&?&?&?&?).
  pose proof (length_worker_payload i payload_len ltac:(lia)) as HL.
  destruct Hm as [run now l a l' fl wire log iters steps Hd Hs|l fl s' fl' wire log iters steps Hk];
    unfold good in *; cbn [gw_steps] in *; intros Hlt.
  - destruct (ginv_prog p c LEVEL src_mac dst_mac src_ip dst_ip src_port dst_port kt kc frames) with
      (payload := worker_payload i payload_len) (run := run) (now := now) (l := l) (fl := fl) (wire := wire)
      (log := log) (iters := iters) (steps := steps) (pps_per := pps_per) (deadline := deadline)
      as (l1 & a1 & E & Hi); try done; try lia; [by apply Hg; lia|].
    rewrite HL in E. rewrite Hs in E. by simplify_eq.
  - apply ginv_kernel with (kt := kt) (kc := kc) (fl := fl); try done; [lia|]. by apply Hg.
Qed.

(** Every reachable state of the whole. *)
Lemma good_reachable states start c0 ws cs :
  Forall (λ s, inv s [] [] []) states →
  rtc (sys_step move) (gen_workers states payload_len start, c0) (ws, cs) →
  ∀ i w, ws !! i = Some w → good i w.
Proof.
  intros Hs Hr. apply (sys_invariant move good _ _ good_move Hr). intros i w Hi. by eapply good_init.
Qed.

(** What the invariant says in plain terms: the sockets' account, the numbers
    on the wire, and the counters' share of this worker. *)
Definition sent_well (i : nat) (w : gworker) : Prop :=
  ∃ qt fl qc rest k,
    inv (gl_tx (gw w)) qt fl qc ∧ fl.*1 = gw_fl w
    ∧ Forall (flow_frame src_mac dst_mac src_ip dst_ip src_port dst_port (worker_payload i payload_len)) (gw_wire w)
    ∧ length rest = length qt
    ∧ run_of 0 (gl_seq (gw w)) k ((frame_num <$> gw_wire w) ++ rest) ∧ k ≤ gw_iters w
    ∧ zlen (gw_wire w) + zlen qt = zsum p_of (gw_log w) + pend_packets (gl_pc (gw w))
    ∧ (zlen (gw_wire w) + zlen qt) * (OUTER_HDR + payload_len)
      = zsum b_of (gw_log w) + pend_bytes (gl_pc (gw w)) * (OUTER_HDR + payload_len).

Lemma winv_sent_well i w : winv i w → sent_well i w.
Proof.
  intros [(qt & fl & qc & nums & k & H1 & H2 & H3 & H4 & H5 & H6 & H7 & H8 & H9) _ _ C _ _].
  rewrite length_worker_payload in H9 by lia. subst nums. rewrite length_app, !length_fmap in H8, H9.
  exists qt, fl, qc, (payload_seq <$> qt.*2), k. rewrite !length_fmap.
  split_and!; try done; try lia.
  - destruct (gl_pc (gw w)); cbn [in_batch] in *; lia.
Qed.

(** These are the frames it has counted, and those of the batch at hand. *)
Lemma winv_handed i w : winv i w → handed w = zsum p_of (gw_log w) + pend_packets (gl_pc (gw w)).
Proof.
  intros Hi. destruct (winv_sent_well i w Hi) as (qt & fl & qc & rest & k & Hinv & _ & _ & _ & _ & _ & Ep & _).
  unfold handed, in_ring. rewrite (ring_contents_rep _ _ _ (inv_tx _ _ _ _ _ _ _ _ _ _ _ _ _ Hinv)), length_fmap. exact Ep.
Qed.

(** A worker that has not left the loop is never stuck. *)
Lemma winv_steps i w run now : winv i w → gw_steps w < 2 ^ 64 - 2 → gl_pc (gw w) ≠ GDone →
  ∃ l' a, gen_step p c LEVEL (OUTER_HDR + payload_len) pps_per deadline run now (gw w) = Ok (l', a).
Proof.
  intros Hi Hlt Hd. pose proof Hflow as (?&?&?&?&?&?&?&?).
  pose proof (length_worker_payload i payload_len ltac:(lia)) as HL.
  destruct w as [l fl wire log iters steps]. cbn [gw gw_steps] in *.
  destruct (ginv_prog p c LEVEL src_mac dst_mac src_ip dst_ip src_port dst_port kt kc frames) with
    (payload := worker_payload i payload_len) (run := run) (now := now) (l := l) (fl := fl) (wire := wire)
    (log := log) (iters := iters) (steps := steps) (pps_per := pps_per) (deadline := deadline)
    as (l1 & a1 & E & _); try done; try lia.
  rewrite HL in E. by eauto.
Qed.

(** The invariant with steps enough to leave the loop. *)
Definition late_inv (i : nat) (w : gworker) : Prop :=
  winv i w ∧ gw_steps w + Z.of_nat (rank (gl_pc (gw w))) < 2 ^ 64 - 2.

Lemma late_inv_prog i w w' :
  late_inv i w → late_prog p c LEVEL (OUTER_HDR + payload_len) pps_per deadline w w' →
  late_inv i w' ∧ (rank (gl_pc (gw w')) < rank (gl_pc (gw w)))%nat.
Proof.
  intros [Hi Hlt] H. destruct H as [run now l a l' fl wire log iters steps Hl Hd Hs].
  pose proof (late_step p c LEVEL (OUTER_HDR + payload_len) pps_per deadline run now l l' a Hl Hd Hs) as Hr.
  cbn [gw gw_steps] in *. split; [|done]. split; cbn [gw gw_steps]; [|lia].
  eapply (good_move i); [intros _; exact Hi|by econstructor|cbn [gw_steps]; lia].
Qed.

Lemma late_inv_kernel i w w' :
  late_inv i w → late_kernel kt kc w w' → late_inv i w' ∧ rank (gl_pc (gw w')) = rank (gl_pc (gw w)).
Proof.
  intros [Hi Hlt] H. destruct H as [l fl s' fl' wire log iters steps Hk]. cbn [gw gw_steps] in *.
  split; [|done]. split; [|done].
  eapply (good_move i); [intros _; exact Hi|by econstructor|cbn [gw_steps]; lia].
Qed.

(** A late run is short, and can be made until the worker is out of the
    loop. *)
Lemma late_bound i n w w' :
  late_inv i w → late_run p c LEVEL (OUTER_HDR + payload_len) pps_per deadline kt kc n w w' →
  late_inv i w' ∧ (n + rank (gl_pc (gw w')) ≤ rank (gl_pc (gw w)))%nat.
Proof.
  intros Hi H. apply (counted_rank _ _ (late_inv i) (λ w, rank (gl_pc (gw w)))
    (late_inv_prog i) (late_inv_kernel i) n w w' H Hi).
Qed.

Lemma late_leaves i w : late_inv i w →
  ∃ n w', late_run p c LEVEL (OUTER_HDR + payload_len) pps_per deadline kt kc n w w' ∧ gl_pc (gw w') = GDone.
Proof.
  intros Hi. destruct (counted_end _ (late_kernel kt kc) (late_inv i) (λ w, rank (gl_pc (gw w)))
    (late_inv_prog i) w) as (n & w' & H & _ & E); [|done|].
  - intros v [Hv Hlt] Hr. destruct (winv_steps i v false 0 Hv) as (l' & a & Hs); [lia|by intros E; rewrite E in Hr|].
    destruct v as [l fl wire log iters steps]. eexists. econstructor; [by left| |exact Hs].
    cbn [gw] in Hr. by intros E; rewrite E in Hr.
  - exists n, w'. split; [exact H|]. by apply rank_done.
Qed.

(** On its own: it leaves the loop, the kernel takes nothing meanwhile, and
    no frame it handed over is taken back. *)
Lemma late_alone i w : late_inv i w → ∃ w',
  rtc (moves (gmove p c LEVEL (OUTER_HDR + payload_len) pps_per deadline kt kc)) w w'
  ∧ late_inv i w' ∧ gl_pc (gw w') = GDone ∧ gw_wire w' = gw_wire w ∧ handed w ≤ handed w'.
Proof.
  intros Hi. destruct (counted_end (late_prog p c LEVEL (OUTER_HDR + payload_len) pps_per deadline) (λ _ _, False)
    (late_inv i) (λ w, rank (gl_pc (gw w))) (late_inv_prog i) w) as (n & w' & H & Hi' & E); [|done|].
  { intros v [Hv Hlt] Hr. destruct (winv_steps i v false 0 Hv) as (l' & a & Hs); [lia|by intros E; rewrite E in Hr|].
    destruct v as [l fl wire log iters steps]. eexists. econstructor; [by left| |exact Hs].
    cbn [gw] in Hr. by intros E; rewrite E in Hr. }
  exists w'. apply rank_done in E. clear Hi'.
  induction H as [w|n w w1 w2 Hs _ IH|n w w1 w2 []]; [by split_and!|].
  destruct (late_inv_prog i _ _ Hi Hs) as [Hi1 _]. destruct (IH Hi1 E) as (Hr & Hl & Hd & Hw & Hle).
  assert (gw_wire w1 = gw_wire w ∧ handed w ≤ handed w1) as [Ew Hh].
  { split; [by destruct Hs|]. rewrite (winv_handed i w), (winv_handed i w1) by (apply Hi || apply Hi1).
    pose proof (gi_pc _ _ _ _ _ _ _ _ _ _ _ (proj1 Hi)) as Hpc. destruct Hs as [run now l a l' fl wire log iters steps _ _ Hs].
    cbn [gw gw_log] in *. rewrite zsum_app. pose proof (gen_step_account _ _ _ _ _ _ run now l l' a Hpc Hs). lia. }
  split_and!; [|done|done|by rewrite Hw|lia]. eapply rtc_l; [|exact Hr]. by apply late_prog_moves.
Qed.

(** A run in which the kernel takes the first frame, and the worker then finds
    the deadline past. *)
Lemma first_frame_run (i : nat) s st : Z.of_nat i < 2 ^ 64 → inv s [] [] [] → frames ≠ [] → ∃ w f,
  rtc (moves (gmove p c LEVEL (OUTER_HDR + payload_len) pps_per deadline kt kc))
    (gworker_init (gen_init s (Z.of_nat i) payload_len st)) w
  ∧ gl_pc (gw w) = GDone ∧ gw_steps w < 2 ^ 64 - 2
  ∧ gw_wire w = [f] ∧ 1 ≤ handed w
  ∧ zlen f = OUTER_HDR + payload_len ∧ frame_sid f = Z.of_nat i ∧ seq_ok (frame_num f).
Proof.
  intros Hi Hs Hne. pose proof Hflow as (Hf1&Hf2&Hf3&Hf4&Hf5&Hf6&Hf7&Hf8).
  pose proof (length_worker_payload i payload_len ltac:(lia)) as HL.
  assert (pool s ≠ []) as Hpool.
  { intros E. pose proof (inv_part _ _ _ _ _ _ _ _ _ _ _ _ _ Hs) as HP. rewrite E in HP. cbn in HP.
    by apply Permutation_nil in HP. }
  set (l1 := gl_at (gen_init s (Z.of_nat i) payload_len st) GRecycle).
  assert (winv i (GWorker l1 [] [] [] 0 1)) as H1.
  { eapply (good_move i (gworker_init (gen_init s (Z.of_nat i) payload_len st)) None); [|
      change [] with ([] ++ atoms_of None) at 3; change 1 with (0 + 1); change 0 with (0 + 0) at 2;
      apply (g_prog p c LEVEL (OUTER_HDR + payload_len) pps_per deadline kt kc true (deadline - 1)
        (gen_init s (Z.of_nat i) payload_len st) None l1); [done|]|cbn; lia].
    - apply (good_init (replicate (i + 1) s) (λ _, st)); [by apply Forall_replicate|].
      unfold gen_workers. rewrite list_lookup_imap, lookup_replicate_2 by lia. done.
    - unfold gen_step, l1. cbn [gen_init gl_pc]. by rewrite (proj2 (Z.ltb_lt _ _)) by lia. }
  destruct (ginv_recycle p c LEVEL src_mac dst_mac src_ip dst_ip src_port dst_port kt kc frames
    (worker_payload i payload_len) pps_per deadline true 0 l1 [] [] [] 0 1 eq_refl H1)
    as (l2 & E2 & H2 & Epc2 & Hp2). specialize (Hp2 Hpool).
  destruct (ginv_send p c LEVEL src_mac dst_mac src_ip dst_ip src_port dst_port kt kc frames) with
    (payload := worker_payload i payload_len) (run := true) (now := 0) (l := l2) (fl := [] : list XdpDesc)
    (wire := [] : list (list Z)) (log := [] : list atom) (iters := 0 + 1) (steps := 1 + 1) (n := 63%nat) (sent := 0)
    (pps_per := pps_per) (deadline := deadline)
    as (l3 & E3 & H3 & Epc3); try done; try lia. specialize (Epc3 Hp2). rewrite HL in E2, E3.
  pose proof (instant_kernel_contract kt kc (gl_tx l3) []) as Hk.
  destruct (instant_kernel (gl_tx l3) []) as [s4 fl4] eqn:E4. cbn [fst snd] in Hk.
  set (w4 := GWorker (gl_with_tx l3 s4) fl4 ([] ++ transmitted (gl_tx l3) s4) [] (0 + 1) (1 + 1 + 1)).
  assert (winv i w4) as H4 by (apply (ginv_kernel src_mac dst_mac src_ip dst_ip src_port dst_port kt kc frames)
    with (fl := [] : list XdpDesc); [done|lia|exact Hk|exact H3]).
  assert (handed w4 = 1) as Eh.
  { rewrite (winv_handed i w4 H4). unfold w4. cbn [gw gw_log gl_with_tx gl_set gl_pc]. rewrite Epc3. done. }
  assert (in_ring s4 = 0) as Er.
  { destruct (gi_own _ _ _ _ _ _ _ _ _ _ _ H3) as (qt & fl & qc & nums & k & Hinv & _). cbn [gw] in Hinv.
    pose proof (inv_tx _ _ _ _ _ _ _ _ _ _ _ _ _ Hinv) as Ht. pose proof (inv_comp _ _ _ _ _ _ _ _ _ _ _ _ _ Hinv) as Hc.
    unfold instant_kernel in E4. destruct (drain_rep kt _ _ Ht) as (tx' & Etx & Ht'). rewrite Etx in E4.
    destruct (push_rep kc _ _ (desc_addr <$> qt.*1) Hc) as (comp' & Ec & _). rewrite Ec in E4.
    injection E4 as <- <-. unfold in_ring. cbn [set_comp set_tx tx]. by rewrite (ring_contents_rep kt _ _ Ht'). }
  assert (∃ f, gw_wire w4 = [f]) as [f Ef].
  { unfold handed in Eh. unfold w4 in Eh at 2. cbn [gw gl_with_tx gl_set gl_tx] in Eh. rewrite Er in Eh.
    destruct (gw_wire w4) as [|f [|g l]]; cbn [length] in Eh; [lia|by exists f|lia]. }
  destruct (winv_sent_well i w4 H4) as (qt & fl & qc & rest & k & _ & _ & Hfl & _).
  rewrite Ef in Hfl. apply Forall_cons in Hfl as [(F1 & F2 & F3 & _) _]. rewrite HL in F1.
  rewrite worker_payload_sid in F2 by lia.
  destruct (late_alone i w4) as (w & Hrun & [Hw Hlt] & Hd & Ew & Hh).
  { split; [exact H4|]. unfold w4. cbn [gw gw_steps gl_with_tx gl_set gl_pc]. rewrite Epc3. cbn [rank]. lia. }
  exists w, f. split_and!; try done; [|lia|congruence|lia].
  eapply rtc_l; [|eapply rtc_l; [|eapply rtc_l; [|eapply rtc_l; [|exact Hrun]]]].
  - exists None. apply (g_prog p c LEVEL (OUTER_HDR + payload_len) pps_per deadline kt kc true (deadline - 1)
      (gen_init s (Z.of_nat i) payload_len st) None l1); [done|].
    unfold gen_step, l1. cbn [gen_init gl_pc]. by rewrite (proj2 (Z.ltb_lt _ _)) by lia.
  - exists None. by apply (g_prog p c LEVEL (OUTER_HDR + payload_len) pps_per deadline kt kc true 0 l1 None l2).
  - exists None. apply (g_prog p c LEVEL (OUTER_HDR + payload_len) pps_per deadline kt kc true 0 l2 None l3);
      [by rewrite Epc2|exact E3].
  - exists None. cbn [atoms_of app]. unfold begins. cbn [l1 gl_at gl_pc]. rewrite Epc2. cbn.
    exact (g_kernel p c LEVEL (OUTER_HDR + payload_len) pps_per deadline kt kc l3 [] s4 fl4 [] [] 1 3 Hk).
Qed.

Context (states : list TxState) (start : nat → Z) (c0 cs : Counters) (ws : list gworker).
Context (Hstates : Forall (λ s, inv s [] [] []) states) (Hc0 : counters_ok c0).
Context (Hrun : rtc (sys_step move) (gen_workers states payload_len start, c0) (ws, cs)).
Context (Hsteps : Forall (λ w, gw_steps w < 2 ^ 64 - 2) ws).

Lemma reachable_winv i w : ws !! i = Some w → winv i w.
Proof.
  intros Hi. apply (good_reachable _ _ _ _ _ Hstates Hrun i w Hi).
  by eapply (Forall_lookup_1 _ _ _ _ Hsteps).
Qed.

Lemma gen_workers_logs (f : atom → Z) sts st : total f (gw_log <$> gen_workers sts payload_len st) = 0.
Proof.
  unfold gen_workers, total. generalize 0%nat. revert st.
  enough (∀ sts (g : nat → TxState → gworker), (∀ i s, gw_log (g i s) = []) →
    zsum (zsum f) (gw_log <$> imap g sts) = 0) as E by (intros; by apply E).
  clear. intros sts. induction sts as [|s sts IH]; intros g Hg; [done|].
  cbn [imap]. rewrite fmap_cons, zsum_cons, Hg, IH by (intros; apply Hg). done.
Qed.

Lemma reachable_counters :
  cs = added (total b_of (gw_log <$> ws)) (total p_of (gw_log <$> ws)) 0 c0.
Proof.
  pose proof (sys_counters move gw_log (gmove_log _ _ _ _ _ _ _ _) _ _ c0 Hc0 Hrun) as E.
  cbn [fst snd] in E. rewrite E.
  - f_equal. unfold total. apply zsum_zero. intros lg (w & -> & (i & Hi)%list_elem_of_lookup)%list_elem_of_fmap.
    apply (gi_drops _ _ _ _ _ _ _ _ _ _ _ (reachable_winv i w Hi)).
  - rewrite !gen_workers_logs. by rewrite added_0.
Qed.

Lemma reachable_done :
  Forall (λ w, gl_pc (gw w) = GDone) ws →
  total b_of (gw_log <$> ws) = total p_of (gw_log <$> ws) * (OUTER_HDR + payload_len).
Proof.
  intros Hd. unfold total.
  enough (∀ l : list gworker, (∀ i w, l !! i = Some w → zsum b_of (gw_log w) = zsum p_of (gw_log w) * (OUTER_HDR + payload_len)) →
    zsum (zsum b_of) (gw_log <$> l) = zsum (zsum p_of) (gw_log <$> l) * (OUTER_HDR + payload_len)) as E.
  { apply E. intros i w Hi. pose proof (winv_sent_well _ _ (reachable_winv i w Hi))
      as (qt & fl & qc & rest & k & _ & _ & _ & _ & _ & _ & Ep & Eb).
    rewrite (Forall_lookup_1 _ _ _ _ Hd Hi) in Ep, Eb. cbn [pend_packets pend_bytes] in *. lia. }
  clear. intros l. induction l as [|w l IH]; intros H; [done|]. rewrite !fmap_cons, !zsum_cons.
  rewrite (H 0%nat w eq_refl), IH; [lia|]. intros i v Hv. by apply (H (S i)).
Qed.
End generator.

(** ** Properties *)

(** C9: The AF_XDP generator as it runs: one thread per socket, all of
    them adding to the same atomic counters, the kernel of each socket acting
    between any two accesses, in any interleaving.  No worker panics or is
    stuck, the frames of each socket stay in one place each, every frame the
    kernel takes is the flow's with the worker's stream id, its numbers go up
    with at most one left out per iteration begun, and the counters are
    exactly what the workers added: no [fetch_add] is lost.  When all have
    left the loop the byte counter has grown by the packet counter's growth
    times the frame length, and the packets are the frames handed to the
    rings. *)
Theorem generator_any_schedule p c LEVEL src_mac dst_mac src_ip dst_ip src_port dst_port kt kc frames
    payload_len pps_per deadline states start c0 ws cs :
  flow_ok c LEVEL src_mac dst_mac src_ip dst_ip src_port dst_port →
  zlen frames ≤ 2 ^ kt → zlen frames ≤ 2 ^ kc →
  16 ≤ payload_len → OUTER_HDR + payload_len ≤ FRAME_SIZE →
  Forall (λ s, tx_inv src_mac dst_mac src_ip dst_ip src_port dst_port kt kc frames s [] [] []) states →
  counters_ok c0 → zlen states < 2 ^ 64 →
  rtc (sys_step (gmove p c LEVEL (OUTER_HDR + payload_len) pps_per deadline kt kc))
    (gen_workers states payload_len start, c0) (ws, cs) →
  Forall (λ w, gw_steps w < 2 ^ 64 - 2) ws →
  length ws = length states
  ∧ (∀ i w, ws !! i = Some w →
      sent_well src_mac dst_mac src_ip dst_ip src_port dst_port kt kc frames payload_len i w
      ∧ payload_sid (worker_payload i payload_len) = Z.of_nat i
      ∧ (gl_pc (gw w) ≠ GDone → ∀ run now, ∃ l' a,
          gen_step p c LEVEL (OUTER_HDR + payload_len) pps_per deadline run now (gw w) = Ok (l', a)))
  ∧ cs = added (total b_of (gw_log <$> ws)) (total p_of (gw_log <$> ws)) 0 c0
  ∧ (Forall (λ w, gl_pc (gw w) = GDone) ws →
      total b_of (gw_log <$> ws) = total p_of (gw_log <$> ws) * (OUTER_HDR + payload_len)).
Proof.
  intros Hflow Hkt Hkc H16 Hfit Hst Hc0 Hn Hrun Hsteps.
  pose proof (sys_length _ _ _ Hrun) as HL. cbn [fst] in HL. unfold gen_workers in HL. rewrite length_imap in HL.
  assert (∀ i w, ws !! i = Some w → ginv src_mac dst_mac src_ip dst_ip src_port dst_port kt kc frames
    (worker_payload i payload_len) w) as Hinv by (intros i w Hi; eapply reachable_winv; [..|exact Hrun|exact Hsteps|exact Hi]; done).
  split_and!; [done| |eapply reachable_counters; [..|exact Hrun|exact Hsteps]; done|
    eapply reachable_done; [..|exact Hrun|exact Hsteps]; done].
  intros i w Hi. pose proof (lookup_lt_Some _ _ _ Hi). split_and!.
  - by apply winv_sent_well, Hinv.
  - apply worker_payload_sid; lia.
  - intros Hd run now. apply (winv_steps p c LEVEL src_mac dst_mac src_ip dst_ip src_port dst_port kt kc frames
      payload_len pps_per deadline Hflow Hkt H16 Hfit i w run now); [by apply Hinv| |done].
    by apply (Forall_lookup_1 _ _ _ _ Hsteps Hi).
Qed.

(** C15: The generator ends: from any state a run can be in, a worker that
    finds the deadline past (or the flag cleared) where it looks makes at most
    72 more steps of its own, whatever the kernel does in between; it can
    make each of them, so it leaves the loop. *)
Theorem generator_leaves p c LEVEL src_mac dst_mac src_ip dst_ip src_port dst_port kt kc frames
    payload_len pps_per deadline states start c0 ws cs i w :
  flow_ok c LEVEL src_mac dst_mac src_ip dst_ip src_port dst_port →
  zlen frames ≤ 2 ^ kt → zlen frames ≤ 2 ^ kc →
  16 ≤ payload_len → OUTER_HDR + payload_len ≤ FRAME_SIZE →
  Forall (λ s, tx_inv src_mac dst_mac src_ip dst_ip src_port dst_port kt kc frames s [] [] []) states →
  rtc (sys_step (gmove p c LEVEL (OUTER_HDR + payload_len) pps_per deadline kt kc))
    (gen_workers states payload_len start, c0) (ws, cs) →
  ws !! i = Some w → gw_steps w < 2 ^ 64 - 80 →
  let late := late_run p c LEVEL (OUTER_HDR + payload_len) pps_per deadline kt kc in
  (∀ n w', late n w w' →
     (n ≤ 72)%nat
     ∧ (gl_pc (gw w') ≠ GDone → ∀ run now, ∃ l' a,
          gen_step p c LEVEL (OUTER_HDR + payload_len) pps_per deadline run now (gw w') = Ok (l', a)))
  ∧ ∃ n w', late n w w' ∧ gl_pc (gw w') = GDone.
Proof.
  intros Hflow Hkt Hkc H16 Hfit Hst Hrun Hi Hlt late.
  assert (good src_mac dst_mac src_ip dst_ip src_port dst_port kt kc frames payload_len i w) as Hg
    by (by eapply good_reachable).
  pose proof (rank_bound _ (gi_pc _ _ _ _ _ _ _ _ _ _ _ (Hg ltac:(lia)))) as Hr.
  assert (late_inv src_mac dst_mac src_ip dst_ip src_port dst_port kt kc frames payload_len i w) as Hi'
    by (split; [apply Hg; lia|lia]).
  split; [|by eapply late_leaves]. intros n w' Hl.
  destruct (late_bound p c LEVEL src_mac dst_mac src_ip dst_ip src_port dst_port kt kc frames payload_len
    pps_per deadline Hflow Hkt Hkc H16 Hfit i n w w' Hi' Hl) as [[Hw Hlt'] Hn]. split; [lia|]. intros Hd run now.
  apply (winv_steps p c LEVEL src_mac dst_mac src_ip dst_ip src_port dst_port kt kc frames
    payload_len pps_per deadline Hflow Hkt H16 Hfit i w' run now); [done|lia|done].
Qed.

(** *** Two concrete workers *)

Abbreviation demo_move := (gmove Release haswell None (OUTER_HDR + 64) 0 100 1 1).

Definition demo_ws : list gworker := gen_workers [demo_tx; demo_tx] 64 (λ _, 0).

(** Worker [i] makes a step at a clock reading, or its kernel takes and
    completes everything in the ring. *)
Definition demo_step (x : nat * option Z) (st : list gworker * Counters) : list gworker * Counters :=
  match st.1 !! x.1 with
  | Some w =>
      match x.2 with
      | Some now =>
        if decide (gl_pc (gw w) = GDone) then st else
        match gen_step Release haswell None (OUTER_HDR + 64) 0 100 true now (gw w) with
        | Ok (l', a) =>
            (<[x.1 := GWorker l' (gw_fl w) (gw_wire w) (gw_log w ++ atoms_of a)
                 (gw_iters w + begins (gw w)) (gw_steps w + 1)]> st.1, do_atoms (atoms_of a) st.2)
        | _ => st
        end
      | None =>
        let k := instant_kernel (gl_tx (gw w)) (gw_fl w) in
        (<[x.1 := GWorker (gl_with_tx (gw w) k.1) k.2 (gw_wire w ++ transmitted (gl_tx (gw w)) k.1)
             (gw_log w) (gw_iters w) (gw_steps w)]> st.1, st.2)
      end
  | None => st
  end.

Fixpoint demo_exec (xs : list (nat * option Z)) (st : list gworker * Counters) : list gworker * Counters :=
  match xs with [] => st | x :: xs => demo_exec xs (demo_step x st) end.

Lemma demo_exec_rtc xs : ∀ st, rtc (sys_step demo_move) st (demo_exec xs st).
Proof.
  induction xs as [|[i e] xs IH]; intros [ws c]; [apply rtc_refl|]. cbn [demo_exec].
  etrans; [|apply IH]. unfold demo_step. cbn [fst snd].
  destruct (ws !! i) as [w|] eqn:E; [|apply rtc_refl]. destruct e as [now|].
  - case_decide as Hd; [apply rtc_refl|].
    destruct (gen_step _ _ _ _ _ _ _ _ _) as [[l' a]| |] eqn:Es; [|apply rtc_refl..].
    apply rtc_once. apply (sys_move demo_move ws c i w a); [exact E|].
    destruct w as [l fl wire log iters steps]. by econstructor.
  - apply rtc_once. apply (sys_move demo_move ws c i w None); [exact E|].
    destruct w as [l fl wire log iters steps]. constructor. apply instant_kernel_contract.
Qed.

(** One worker sends a batch, its kernel takes it between the wakeup and the
    first [fetch_add], while the other is in its own batch. *)
Definition demo_schedule : list (nat * option Z) :=
  [(0%nat, Some 10); (0%nat, Some 10); (1%nat, Some 10); (0%nat, Some 10); (0%nat, Some 10); (1%nat, Some 10);
   (0%nat, Some 10); (0%nat, Some 10); (0%nat, None); (1%nat, Some 10); (0%nat, Some 10); (0%nat, Some 10)].

Lemma generator_any_schedule_witness :
  let ws := (demo_exec demo_schedule (demo_ws, Counters_default)).1 in
  length ws = 2%nat
  ∧ (∀ i w, ws !! i = Some w →
      sent_well [0;17;34;51;68;85] [170;187;204;221;238;255] [10;0;0;1] [10;0;0;2] 40000 5201 1 1 [0; 4096] 64 i w
      ∧ payload_sid (worker_payload i 64) = Z.of_nat i
      ∧ (gl_pc (gw w) ≠ GDone → ∀ run now, ∃ l' a,
          gen_step Release haswell None (OUTER_HDR + 64) 0 100 run now (gw w) = Ok (l', a)))
  ∧ mkCounters 212 2 0
    = added (total b_of (gw_log <$> ws)) (total p_of (gw_log <$> ws)) 0 Counters_default
  ∧ (Forall (λ w, gl_pc (gw w) = GDone) ws →
      total b_of (gw_log <$> ws) = total p_of (gw_log <$> ws) * (OUTER_HDR + 64)).
Proof.
  intros ws.
  apply (generator_any_schedule Release haswell None _ _ _ _ _ _ 1 1 [0; 4096] 64 0 100 [demo_tx; demo_tx]
    (λ _, 0) Counters_default ws (mkCounters 212 2 0) demo_flow_ok);
    [vm_compute; discriminate..| | |vm_compute; reflexivity| |].
  - constructor; [exact demo_tx_inv|]. constructor; [exact demo_tx_inv|constructor].
  - exact Counters_default_ok.
  - replace (ws, mkCounters 212 2 0) with (demo_exec demo_schedule (demo_ws, Counters_default)).
    + apply demo_exec_rtc.
    + unfold ws. rewrite (surjective_pairing (demo_exec _ _)) at 1. apply (f_equal2 pair); [reflexivity|vm_compute; reflexivity].
  - apply (bool_decide_unpack _). vm_compute. exact I.
Defined.

Lemma generator_leaves_witness :
  let st := demo_exec demo_schedule (demo_ws, Counters_default) in
  let w := default (gworker_init (gen_init demo_tx 1 64 0)) (st.1 !! 1%nat) in
  let late := late_run Release haswell None (OUTER_HDR + 64) 0 100 1 1 in
  (∀ n w', late n w w' →
     (n ≤ 72)%nat
     ∧ (gl_pc (gw w') ≠ GDone → ∀ run now, ∃ l' a,
          gen_step Release haswell None (OUTER_HDR + 64) 0 100 run now (gw w') = Ok (l', a)))
  ∧ ∃ n w', late n w w' ∧ gl_pc (gw w') = GDone.
Proof.
  intros st w.
  apply (generator_leaves Release haswell None _ _ _ _ _ _ 1 1 [0; 4096] 64 0 100 [demo_tx; demo_tx]
    (λ _, 0) Counters_default st.1 st.2 1 w demo_flow_ok);
    [vm_compute; discriminate..| | |vm_compute; reflexivity|vm_compute; reflexivity].
  - constructor; [exact demo_tx_inv|]. constructor; [exact demo_tx_inv|constructor].
  - rewrite <- surjective_pairing. apply demo_exec_rtc.
Defined.
