(* ===== verification/Engine.v ===== *)
(** * The four engines ([src/net.rs])

    [tcp_server], [tcp_client], [udp_server] and [udp_client] as wholes:
    the sockets they open, the threads they spawn with the CPU and the start
    delay of each, and what each thread adds to the shared counters.  The
    threads run under every interleaving of [Threads]; what the operating
    system returns to a thread is an argument, as in [Net]. *)

From S2P Require Import Prelude Ring Loss Sys Affinity Net Threads.

(** ** Clock *)

(** [Instant + Duration::from_secs(secs)], in nanoseconds: the seconds of an
    [Instant] are an [i64], and the addition panics on overflow. *)
Definition instant_add (now secs : Z) : res Z :=
  if now + secs * SEC <? 2 ^ 63 * SEC then Ok (now + secs * SEC) else Panic.

(** ** Threads *)

(** A spawned thread: the CPU it pins itself to, how long it sleeps first
    (milliseconds), its [fetch_add]s, and the datagrams it sends. *)
Record worker : Type := Worker {
  w_cpu : option Z;
  w_delay : Z;
  w_atoms : list atom;
  w_wire : list (list Z);
}.

(** ** The UDP client *)

(** The additions of the sending loop. *)
Fixpoint send_atoms (p : profile) (len deadline : Z) (envs : list send_env) : res (list atom) :=
  match envs with
  | [] => Ok []
  | ev :: envs =>
      if se_now ev <? deadline then
        here ← (if 0 <? se_ret ev then
                  b ← arith p 64 (se_ret ev * len);
                  Ok [AddPackets (se_ret ev); AddBytes b]
                else Ok []);
        rest ← send_atoms p len deadline envs;
        Ok (here ++ rest)
      else Ok []
  end.

(** What a client thread meets: whether [bind] and [connect] succeed, the
    clock when its pacing starts, and its iterations. *)
Record udp_env : Type := UdpEnv {
  ue_bind : bool;
  ue_connect : bool;
  ue_start : Z;
  ue_loop : list send_env;
}.

Definition udp_client_body {L : CpuSets} (p : profile) (cpus : list Z) (t len pps deadline : Z) (ev : udp_env)
    : res worker :=
  cpu ← pin cpus t;
  if negb (ue_bind ev) then Ok (Worker cpu 0 [] [])
  else if negb (ue_connect ev) then Ok (Worker cpu 0 [] [])
  else
    '(s, _) ← udp_client_thread p t len pps deadline (ue_start ev) Counters_default (ue_loop ev);
    l ← send_atoms p len deadline (ue_loop ev);
    Ok (Worker cpu 0 l (ss_wire s)).

(** [udp_client] up to the joins. *)
Definition udp_client {L : CpuSets} (p : profile) (cpus : list Z) (threads duration len0 target_pps now : Z)
    (env : Z → udp_env) : res (list worker) :=
  deadline ← instant_add now duration;
  let len := Z.max len0 HDR in
  pps ← pps_per_thread target_pps threads;
  mapM (λ t, udp_client_body p cpus t len pps deadline (env t)) (seqZ 0 threads).

(** ** The UDP server *)

(** [note_seq] as the addition it makes. *)
Definition note_seq_atoms (p : profile) (last_seq : gmap Z Z) (sid seq : Z)
    : res (gmap Z Z * list atom) :=
  match last_seq !! sid with
  | None => Ok (<[sid := seq]> last_seq, [])
  | Some prev =>
      d ← gap p prev seq;
      Ok (<[sid := seq]> last_seq, if d =? 0 then [] else [AddDrops d])
  end.

Fixpoint recv_msgs_atoms (p : profile) (bufs : list (list Z)) (lens : list Z) (last_seq : gmap Z Z)
    : res (gmap Z Z * list atom) :=
  match bufs, lens with
  | b :: bufs, n :: lens =>
      '(last_seq, l) ←
        (if HDR <=? n then
           if decide (16 ≤ zlen b) then note_seq_atoms p last_seq (payload_sid b) (payload_seq b)
           else Panic
         else Ok (last_seq, []));
      '(last_seq, k) ← recv_msgs_atoms p bufs lens last_seq;
      Ok (last_seq, AddBytes n :: AddPackets 1 :: l ++ k)
  | _, [] => Ok (last_seq, [])
  | [], _ => Panic
  end.

Fixpoint recv_loop_atoms (p : profile) (batches : list (list (list Z))) (bufs : list (list Z))
    (last_seq : gmap Z Z) : res (list atom) :=
  match batches with
  | [] => Ok []
  | dgrams :: batches =>
      let '(bufs, lens) := recvmmsg bufs dgrams in
      '(last_seq, l) ← recv_msgs_atoms p bufs lens last_seq;
      k ← recv_loop_atoms p batches bufs last_seq;
      Ok (l ++ k)
  end.

(** A thread of [udp_server] over the batches its socket delivers. *)
Definition udp_server_body {L : CpuSets} (p : profile) (cpus : list Z) (w len : Z) (batches : list (list (list Z)))
    : res worker :=
  cpu ← pin cpus w;
  l ← recv_loop_atoms p batches
        (replicate BATCH (replicate (Z.to_nat (Z.max len 2048)) 0)) ∅;
  Ok (Worker cpu 0 l []).

(** One listener per worker; the sockets of earlier workers are already in
    their threads when a later one fails. *)
Fixpoint open_all (open : sys (result io_err Z)) (n : nat) : sys (result io_err (list Z)) :=
  match n with
  | O => mret (Okay [])
  | S n =>
      try open (λ fd,
      try (open_all open n) (λ fds,
      mret (Okay (fd :: fds))))
  end.

Definition server_workers (cpus : list Z) : Z := Z.max (zlen cpus) 1.

(** [udp_server]: its sockets, and its threads once they are open. *)
Definition udp_server_sockets (k : kernel) (e : endian) (addr : option (list SocketAddr)) (cpus : list Z)
    : sys (result io_err (list Z)) :=
  open_all (reuseport_udp_socket k e addr) (Z.to_nat (server_workers cpus)).

Definition udp_server {L : CpuSets} (p : profile) (cpus : list Z) (len0 : Z) (batches : Z → list (list (list Z)))
    : res (list worker) :=
  let len := Z.max len0 HDR in
  mapM (λ w, udp_server_body p cpus w len (batches w)) (seqZ 0 (server_workers cpus)).

(** ** TCP *)

Fixpoint tcp_reader_atoms (reads : list io_result) : list atom :=
  match reads with
  | IoOk n :: reads => if n =? 0 then [] else AddBytes n :: tcp_reader_atoms reads
  | _ => []
  end.

Fixpoint tcp_writer_atoms (deadline : Z) (writes : list (Z * io_result)) : list atom :=
  match writes with
  | (now, IoOk n) :: writes =>
      if now <? deadline then
        if n =? 0 then [] else AddBytes n :: tcp_writer_atoms deadline writes
      else []
  | _ => []
  end.

(** The buffer a writer sends over and over, and what the socket takes of it:
    [write] returns how many of the buffer's first bytes it took. *)
Definition tcp_buf : list Z := replicate (Z.to_nat (256 * 1024)) 0xAB.

Fixpoint tcp_writer_wire (deadline : Z) (writes : list (Z * io_result)) : list (list Z) :=
  match writes with
  | (now, IoOk n) :: writes =>
      if now <? deadline then
        if n =? 0 then [] else take (Z.to_nat n) tcp_buf :: tcp_writer_wire deadline writes
      else []
  | _ => []
  end.

Definition tcp_server_sockets (k : kernel) (e : endian) (addr : option (list SocketAddr)) (cpus : list Z)
    : sys (result io_err (list Z)) :=
  open_all (reuseport_tcp_listener k e addr) (Z.to_nat (server_workers cpus)).

(** The readers [tcp_server] spawns for the results of [accept] over all
    listeners, in the order of their [fetch_add] on the shared counter: a
    failed [accept] is skipped and takes no number. *)
Fixpoint tcp_readers {L : CpuSets} (cpus : list Z) (next : Z) (conns : list (option (list io_result)))
    : res (list worker) :=
  match conns with
  | [] => Ok []
  | None :: conns => tcp_readers cpus next conns
  | Some reads :: conns =>
      cpu ← pin cpus next;
      ws ← tcp_readers cpus (wrap 64 (next + 1)) conns;
      Ok (Worker cpu 0 (tcp_reader_atoms reads) [] :: ws)
  end.

(** [tcp_server] once its sockets are open: its listeners pin themselves,
    then accept. *)
Definition tcp_server {L : CpuSets} (cpus : list Z) (conns : list (option (list io_result)))
    : res (list (option Z) * list worker) :=
  listeners ← mapM (pin cpus) (seqZ 0 (server_workers cpus));
  readers ← tcp_readers cpus 0 conns;
  Ok (listeners, readers).

(** A thread of [tcp_client]: [None] for a connection that failed. *)
Definition tcp_client_body {L : CpuSets} (p : profile) (cpus : list Z) (t deadline : Z)
    (conn : option (list (Z * io_result))) : res worker :=
  cpu ← pin cpus t;
  delay ← (if 0 <? t then arith p 64 (t * 25) else Ok 0);
  Ok (match conn with
      | Some writes => Worker cpu delay (tcp_writer_atoms deadline writes) (tcp_writer_wire deadline writes)
      | None => Worker cpu delay [] []
      end).

Definition tcp_client {L : CpuSets} (p : profile) (cpus : list Z) (threads duration now : Z)
    (conn : Z → option (list (Z * io_result))) : res (list worker) :=
  deadline ← instant_add now duration;
  mapM (λ t, tcp_client_body p cpus t deadline (conn t)) (seqZ 0 threads).

(** ** Lemmas: threads *)

(** A thread per index, each described by [R]. *)
Lemma mapM_spawn {A B} (f : A → res B) (R : A → B → Prop) l :
  (∀ x, x ∈ l → ∃ y, f x = Ok y ∧ R x y) → ∃ ys, mapM f l = Ok ys ∧ Forall2 R l ys.
Proof.
  induction l as [|x l IH]; intros H; [by exists []|].
  destruct (H x) as (y & Hy & Hr); [left|]. destruct IH as (ys & Hys & Hrs); [set_solver|].
  exists (y :: ys). split; [|by constructor].
  cbn [mapM]. rewrite Hy. cbn [mbind res_bind]. by rewrite Hys.
Qed.

Lemma mapM_inv {A B} (f : A → res B) l ys : mapM f l = Ok ys → Forall2 (λ x y, f x = Ok y) l ys.
Proof.
  revert ys. induction l as [|x l IH]; intros ys H; cbn [mapM] in H; [by injection H as <-|].
  apply res_bind_inv in H as (y & Hy & H). apply res_bind_inv in H as (ys' & Hys & H). injection H as <-.
  constructor; [done|]. by apply IH.
Qed.

(** A sum over threads from a sum per thread. *)
Lemma total_threads {A} (f : atom → Z) (g : A → Z) l (ws : list worker) :
  Forall2 (λ x w, zsum f (w_atoms w) = g x) l ws → total f (w_atoms <$> ws) = zsum g l.
Proof.
  induction 1 as [|x w l ws Hw _ IH]; [done|]. unfold total in *.
  by rewrite fmap_cons, !zsum_cons, Hw, IH.
Qed.

Lemma total_threads_wrap {A} (f : atom → Z) (g : A → Z) l (ws : list worker) :
  Forall2 (λ x w, wrap 64 (zsum f (w_atoms w)) = wrap 64 (g x)) l ws →
  wrap 64 (total f (w_atoms <$> ws)) = wrap 64 (zsum g l).
Proof.
  induction 1 as [|x w l ws Hw _ IH]; [done|]. unfold total in *.
  rewrite fmap_cons, !zsum_cons. rewrite <- wrap_add_l, Hw, wrap_add_l.
  by rewrite <- wrap_add_r, IH, wrap_add_r.
Qed.

(** ** Lemmas: the UDP client *)

Lemma send_atoms_spec p len deadline envs :
  0 ≤ len → 64 * len < 2 ^ 64 → Forall (λ ev, se_ret ev ≤ 64) envs →
  let n := sent_total (se_ret <$> running deadline envs) in
  ∃ l, send_atoms p len deadline envs = Ok l ∧ Forall nonneg l
    ∧ zsum p_of l = n ∧ zsum b_of l = n * len ∧ zsum d_of l = 0.
Proof.
  intros Hlen Hml. induction 1 as [|ev envs Hev _ IH]; cbn [send_atoms running].
  { by exists []. }
  destruct (se_now ev <? deadline); [|by exists []].
  destruct IH as (l & -> & Hn & Hp & Hb & Hd). rewrite fmap_cons. unfold sent_total in *. rewrite zsum_cons.
  set (n := zsum (Z.max 0) (se_ret <$> running deadline envs)) in *. clearbody n.
  destruct (Z.ltb_spec 0 (se_ret ev)) as [Hr|Hr].
  - rewrite arith_fits by (split; nia). cbn [mbind res_bind]. eexists. split; [done|]. split_and!.
    + repeat constructor; cbn; try lia; try nia. done.
    + rewrite zsum_app, Hp. cbn. lia.
    + rewrite zsum_app, Hb. cbn. lia.
    + rewrite zsum_app, Hd. done.
  - cbn [mbind res_bind app]. exists l. split; [done|]. rewrite (Z.max_l 0) by lia. by rewrite !Z.add_0_l.
Qed.

(** What a client thread does. *)
Definition client_rets (deadline : Z) (ev : udp_env) : list Z :=
  if ue_bind ev && ue_connect ev then se_ret <$> running deadline (ue_loop ev) else [].

Definition client_env_ok (ev : udp_env) : Prop :=
  Forall (λ e, se_ret e ≤ 64) (ue_loop ev) ∧ 64 * (zlen (ue_loop ev) + 2) < 2 ^ 64.

(** A client thread that has pinned itself. *)
Definition client_body_ok (len0 deadline : Z) (cpus : list Z) (t : Z) (ev : udp_env) (w : worker) : Prop :=
  let n := sent_total (client_rets deadline ev) in
  w_cpu w = pin_target cpus t
  ∧ w_wire w = numbered (client_base t len0) <$> blocks 0 (client_rets deadline ev)
  ∧ Forall nonneg (w_atoms w)
  ∧ zsum p_of (w_atoms w) = n ∧ zsum b_of (w_atoms w) = n * Z.max len0 HDR ∧ zsum d_of (w_atoms w) = 0.

Lemma udp_client_body_pinned {L : CpuSets} p cpus t len0 pps deadline ev c :
  pin cpus t = Ok c → 64 * Z.max len0 HDR < 2 ^ 64 → client_env_ok ev →
  ∃ w, udp_client_body p cpus t (Z.max len0 HDR) pps deadline ev = Ok w ∧ client_body_ok len0 deadline cpus t ev w.
Proof.
  intros Hp Hml [Hr Hlt]. unfold client_body_ok, udp_client_body, client_rets. rewrite Hp.
  apply pin_inv in Hp as ->. cbn [mbind res_bind].
  destruct (ue_bind ev); cbn [negb andb]; [|by eexists].
  destruct (ue_connect ev); cbn [negb andb]; [|by eexists].
  destruct (udp_client_thread_spec p t (Z.max len0 HDR) pps deadline (ue_start ev) Counters_default
    (ue_loop ev)) as (s & left & -> & Hw & _); try done.
  cbn [mbind res_bind].
  destruct (send_atoms_spec p (Z.max len0 HDR) deadline (ue_loop ev)) as (l & -> & Hl);
    [unfold HDR; lia|done|done|].
  cbn [mbind res_bind]. eexists. split; [done|]. cbn [w_cpu w_wire w_atoms]. split; [done|].
  split; [|exact Hl]. rewrite Hw. unfold client_base. by replace (Z.max (Z.max len0 HDR) HDR) with (Z.max len0 HDR) by lia.
Qed.

Lemma udp_client_body_inv {L : CpuSets} p cpus t len0 pps deadline ev w :
  64 * Z.max len0 HDR < 2 ^ 64 → client_env_ok ev →
  udp_client_body p cpus t (Z.max len0 HDR) pps deadline ev = Ok w → client_body_ok len0 deadline cpus t ev w.
Proof.
  intros Hml He Hb. destruct (pin cpus t) as [c| |] eqn:Hp; [|unfold udp_client_body in Hb; rewrite Hp in Hb; discriminate Hb..].
  destruct (udp_client_body_pinned p cpus t len0 pps deadline ev c Hp Hml He) as (w' & E & Hw). rewrite Hb in E. by injection E as <-.
Qed.

(** The additions of a thread are what the loop of [Net] leaves in the
    counters when it runs alone. *)
Lemma send_atoms_alone p t len0 pps deadline start c envs s left l :
  64 * Z.max len0 HDR < 2 ^ 64 → Forall (λ ev, se_ret ev ≤ 64) envs → 64 * (zlen envs + 2) < 2 ^ 64 →
  counters_ok c → udp_client_thread p t len0 pps deadline start c envs = Ok (s, left) →
  send_atoms p (Z.max len0 HDR) deadline envs = Ok l → do_atoms l c = ss_counters s.
Proof.
  intros Hml Hr Hlt Hc Hrun Hl. pose proof Hc as (Hcb & Hcp & Hcd).
  destruct (udp_client_thread_spec p t len0 pps deadline start c envs ltac:(lia) Hr Hlt Hcb Hcp)
    as (s' & left' & E & _ & Ec). rewrite Hrun in E. simplify_eq. rewrite Ec.
  destruct (send_atoms_spec p (Z.max len0 HDR) deadline envs) as (l' & E & _ & H1 & H2 & H3);
    [unfold HDR; lia|done|done|]. rewrite Hl in E. simplify_eq.
  rewrite do_atoms_added, H1, H2, H3 by done. unfold added, add_packets, add_bytes. cbn.
  by rewrite Z.add_0_r, (wrap_small 64 (drops c)).
Qed.

(** ** Lemmas: the UDP server *)

Lemma note_seq_link p last c sid seq :
  note_seq p last c sid seq = (λ x, (x.1, do_atoms x.2 c)) <$> note_seq_atoms p last sid seq.
Proof.
  unfold note_seq, note_seq_atoms. destruct (last !! sid); [|done].
  destruct (gap p _ seq) as [d| |]; cbn; [|done..]. by destruct (d =? 0).
Qed.

Lemma recv_msgs_link p bufs : ∀ lens last c,
  recv_msgs p bufs lens last c = (λ x, (x.1, do_atoms x.2 c)) <$> recv_msgs_atoms p bufs lens last.
Proof.
  induction bufs as [|b bufs IH]; intros [|n lens] last c; [done..|].
  cbn [recv_msgs recv_msgs_atoms].
  assert (∀ last' l, recv_msgs p bufs lens last' (do_atoms l (add_packets 1 (add_bytes n c))) =
    (λ x, (x.1, do_atoms x.2 c)) <$> ('(last', k) ← recv_msgs_atoms p bufs lens last';
      Ok (last', AddBytes n :: AddPackets 1 :: l ++ k))) as Hgo.
  { intros last' l. rewrite IH. destruct (recv_msgs_atoms p bufs lens last') as [[l' k]| |];
      cbn [fmap res_fmap mbind res_bind fst snd]; [|done..].
    by rewrite !do_atoms_cons, do_atoms_app. }
  destruct (HDR <=? n); [|apply (Hgo last [])].
  case_decide; [|done]. rewrite note_seq_link.
  destruct (note_seq_atoms p last _ _) as [[last' l]| |]; cbn [fmap res_fmap mbind res_bind]; [|done..].
  apply (Hgo last' l).
Qed.

(** A server thread that runs alone is the worker of [Net]. *)
Lemma recv_loop_link p batches : ∀ bufs last c,
  snd <$> recv_loop p batches bufs last c = (λ l, do_atoms l c) <$> recv_loop_atoms p batches bufs last.
Proof.
  induction batches as [|ds batches IH]; intros bufs last c; [done|].
  cbn [recv_loop recv_loop_atoms]. unfold recv_iter. destruct (recvmmsg bufs ds) as [bufs' lens].
  assert (∀ last' l, snd <$> recv_loop p batches bufs' last' (do_atoms l c) =
    (λ l, do_atoms l c) <$> (k ← recv_loop_atoms p batches bufs' last'; Ok (l ++ k))) as Hgo.
  { intros last' l. rewrite IH. destruct (recv_loop_atoms p batches bufs' last');
      cbn [fmap res_fmap mbind res_bind]; [|done..]. by rewrite do_atoms_app. }
  destruct lens as [|n lens].
  - replace (recv_msgs_atoms p bufs' [] last) with (Ok (last, @nil atom)) by (by destruct bufs').
    apply (Hgo last []).
  - rewrite recv_msgs_link.
    destruct (recv_msgs_atoms p bufs' (n :: lens) last) as [[last' l]| |]; cbn [fmap res_fmap mbind res_bind]; [|done..].
    apply (Hgo last' l).
Qed.

(** The sequence headers of the datagrams a socket delivered. *)
Definition arrivals (len0 : Z) (batches : list (list (list Z))) : list (Z * Z) :=
  omap (header (server_blen len0)) (concat batches).

Definition batches_ok (len0 : Z) (sids : list Z) (batches : list (list (list Z))) : Prop :=
  Forall (λ ds, (length ds ≤ BATCH)%nat) batches ∧ Forall good_arrival (arrivals len0 batches)
  ∧ ∀ x, x ∈ arrivals len0 batches → x.1 ∈ sids.

(** What a server thread adds, by counter. *)
Definition stream_gaps (sids : list Z) (l : list (Z * Z)) : Z := zsum (λ sid, gaps None (stream sid l)) sids.

Lemma udp_server_body_spec {L : CpuSets} `{!CpuSetsOk L} p cpus w len0 sids batches :
  cpus_fit cpus → NoDup sids → batches_ok len0 sids batches →
  ∃ t, udp_server_body p cpus w (Z.max len0 HDR) batches = Ok t ∧ w_cpu t = pin_target cpus w
    ∧ wrap 64 (zsum b_of (w_atoms t)) = wrap 64 (zsum (reported (server_blen len0)) (concat batches))
    ∧ wrap 64 (zsum p_of (w_atoms t)) = wrap 64 (zlen (concat batches))
    ∧ wrap 64 (zsum d_of (w_atoms t)) = wrap 64 (stream_gaps sids (arrivals len0 batches)).
Proof.
  intros Hfit Hnd (Hb & Hg & Hin). unfold udp_server_body. rewrite pin_ok by done. cbn [mbind res_bind].
  change (Z.to_nat (Z.max (Z.max len0 HDR) 2048)) with (server_blen len0).
  set (bufs := replicate BATCH (replicate (server_blen len0) 0)).
  pose proof (recv_loop_spec p (server_blen len0) (server_blen_16 len0) batches bufs ∅ Counters_default
    (server_replicate len0)) as Hr.
  unfold bufs in Hr. rewrite length_replicate in Hr. fold bufs in Hr. specialize (Hr Hb ltac:(done) ltac:(done)).
  cbn zeta in Hr.
  destruct (note_all_sum p sids (arrivals len0 batches) ∅ (add_packets (zlen (concat batches))
    (add_bytes (zsum (reported (server_blen len0)) (concat batches)) Counters_default))) as [last' En]; try done.
  unfold arrivals in En at 1. rewrite En in Hr.
  pose proof (recv_loop_link p batches bufs ∅ Counters_default) as Hl.
  destruct (recv_loop p batches bufs ∅ Counters_default) as [[[bufs' last''] c]| |]; cbn in Hr; [|done..].
  injection Hr as -> ->. cbn [fmap res_fmap snd] in Hl.
  destruct (recv_loop_atoms p batches bufs ∅) as [l| |]; cbn in Hl; [|done..]. injection Hl as Hl.
  cbn [mbind res_bind]. eexists. split; [done|]. cbn [w_cpu w_atoms]. split; [done|].
  rewrite do_atoms_added in Hl by done. unfold added, add_drops, add_packets, add_bytes in Hl.
  cbn [bytes packets drops Counters_default] in Hl. rewrite !Z.add_0_l in Hl.
  injection Hl as E1 E2 E3. split_and!; [done|done|]. by rewrite <- E3.
Qed.

(** Gaps of a stream that only one socket sees. *)
Lemma stream_app sid l k : stream sid (l ++ k) = stream sid l ++ stream sid k.
Proof. unfold stream. by rewrite filter_app, fmap_app. Qed.

Lemma gaps_one_socket sid (ls : list (list (Z * Z))) :
  (∀ i j li lj, ls !! i = Some li → ls !! j = Some lj →
     stream sid li ≠ [] → stream sid lj ≠ [] → i = j) →
  zsum (λ l, gaps None (stream sid l)) ls = gaps None (stream sid (concat ls)).
Proof.
  induction ls as [|l ls IH]; intros H; [done|]. rewrite zsum_cons. cbn [concat].
  rewrite stream_app, IH by (intros i j li lj Hi Hj Hni Hnj; cut (S i = S j); [lia|]; by eapply (H (S i) (S j))).
  destruct (stream sid l) as [|x s] eqn:E; [done|].
  assert (stream sid (concat ls) = []) as ->; [|by rewrite app_nil_r; cbn; lia].
  clear IH. assert (∀ i li, ls !! i = Some li → stream sid li = []) as H'.
  { intros i li Hi. destruct (decide (stream sid li = [])) as [?|Hne]; [done|].
    exfalso. assert (0%nat = S i); [|lia]. eapply (H 0%nat (S i)); [done|exact Hi|by rewrite E|done]. }
  clear -H'. induction ls as [|l ls IH]; [done|]. cbn [concat]. rewrite stream_app, (H' 0%nat l), IH; try done.
  intros i li Hi. by apply (H' (S i)).
Qed.

Lemma zsum_swap {A B} (f : A → B → Z) l k :
  zsum (λ x, zsum (f x) k) l = zsum (λ y, zsum (λ x, f x y) l) k.
Proof.
  induction l as [|x l IH]; [symmetry; by apply zsum_zero|]. rewrite zsum_cons, IH. clear IH.
  induction k as [|y k IH]; [done|]. rewrite !zsum_cons, <- IH. lia.
Qed.

Lemma zsum_fmap {A B} (f : B → Z) (g : A → B) l : zsum f (g <$> l) = zsum (λ x, f (g x)) l.
Proof. induction l as [|x l IH]; [done|]. by rewrite fmap_cons, !zsum_cons, IH. Qed.

Lemma zsum_concat {A} (f : A → Z) ls : zsum (zsum f) ls = zsum f (concat ls).
Proof. induction ls as [|l ls IH]; [done|]. cbn [concat]. by rewrite zsum_cons, zsum_app, IH. Qed.

Lemma zlen_concat {A} (ls : list (list A)) : zlen (concat ls) = zsum (λ l, zlen l) ls.
Proof.
  induction ls as [|l ls IH]; [done|]. cbn [concat]. rewrite zsum_cons, length_app, Nat2Z.inj_add, IH. done.
Qed.

(** All workers of a server, in any schedule. *)
Lemma udp_server_totals {L : CpuSets} `{!CpuSetsOk L} p cpus len0 sids (batches : Z → list (list (list Z))) :
  let ids := seqZ 0 (server_workers cpus) in
  cpus_fit cpus → NoDup sids → (∀ w, w ∈ ids → batches_ok len0 sids (batches w)) →
  (∀ sid w w', w ∈ ids → w' ∈ ids → stream sid (arrivals len0 (batches w)) ≠ [] →
     stream sid (arrivals len0 (batches w')) ≠ [] → w = w') →
  let all := concat ((λ w, concat (batches w)) <$> ids) in
  ∃ ws, udp_server p cpus len0 batches = Ok ws
    ∧ w_cpu <$> ws = pin_target cpus <$> ids
    ∧ ∀ e, rtc (step p true) (engine_init (w_atoms <$> ws)) e → Forall (λ w, w = []) (e_workers e) →
      e_counters e = mkCounters (wrap 64 (zsum (reported (server_blen len0)) all)) (wrap 64 (zlen all))
        (wrap 64 (stream_gaps sids (concat ((λ w, arrivals len0 (batches w)) <$> ids)))).
Proof.
  intros ids Hfit Hnd Hok Hone all. unfold udp_server. fold ids.
  destruct (mapM_spawn (λ w, udp_server_body p cpus w (Z.max len0 HDR) (batches w)) _ ids
    (λ w Hw, udp_server_body_spec p cpus w len0 sids (batches w) Hfit Hnd (Hok w Hw))) as (ws & Hws & HR).
  exists ws. split; [exact Hws|]. split.
  { clear -HR. induction HR as [|w t l ws (Hc & _) _ IH]; [done|]. rewrite !fmap_cons. by f_equal. }
  intros e Hrun Hdone. pose proof (counters_inv_run p true (w_atoms <$> ws) e Hrun) as Hc. unfold counters_inv in Hc.
  rewrite (total_done b_of _ Hdone), (total_done p_of _ Hdone), (total_done d_of _ Hdone), !Z.sub_0_r in Hc.
  rewrite Hc. unfold added. cbn [bytes packets drops Counters_default]. rewrite !Z.add_0_l. f_equal.
  - rewrite (total_threads_wrap b_of (λ w, zsum (reported (server_blen len0)) (concat (batches w))) ids)
      by (eapply Forall2_impl; [exact HR|]; by intros w t (_ & H & _)).
    f_equal. subst all. by rewrite <- zsum_concat, zsum_fmap.
  - rewrite (total_threads_wrap p_of (λ w, zlen (concat (batches w))) ids)
      by (eapply Forall2_impl; [exact HR|]; by intros w t (_ & _ & H & _)).
    f_equal. subst all. by rewrite zlen_concat, zsum_fmap.
  - rewrite (total_threads_wrap d_of (λ w, stream_gaps sids (arrivals len0 (batches w))) ids)
      by (eapply Forall2_impl; [exact HR|]; by intros w t (_ & _ & _ & H)).
    f_equal. unfold stream_gaps. rewrite zsum_swap. apply zsum_ext. intros sid _.
    rewrite <- gaps_one_socket, zsum_fmap; [done|].
    intros i j li lj Hi Hj Hni Hnj. rewrite list_lookup_fmap in Hi, Hj.
    destruct (ids !! i) as [w|] eqn:Ei; [|done]. destruct (ids !! j) as [w'|] eqn:Ej; [|done].
    cbn in Hi, Hj. simplify_eq. assert (w = w') as <-.
    { apply (Hone sid); [by eapply list_elem_of_lookup_2..|done|done]. }
    eapply NoDup_lookup; [apply NoDup_seqZ|exact Ei|exact Ej].
Qed.

(** ** Properties *)

(** C19: the UDP server counts loss correctly whatever the schedule.  Any
    number of pinned workers, each with its own socket and its own table of
    last numbers, add to the shared counters in any interleaving.  If every
    stream reaches one socket (what SO_REUSEPORT's flow hash gives), then
    no worker panics, and when the delivered datagrams are processed the
    counters are the number of datagrams, their bytes, and the sum over all
    streams of the stream's own sequence gaps. *)
Theorem udp_server_any_schedule {L : CpuSets} `{!CpuSetsOk L} p cpus len0 sids (batches : Z → list (list (list Z))) :
  cpus_fit cpus → NoDup sids → (∀ w, batches_ok len0 sids (batches w)) →
  let ids := seqZ 0 (server_workers cpus) in
  (∀ sid w w', w ∈ ids → w' ∈ ids → stream sid (arrivals len0 (batches w)) ≠ [] →
     stream sid (arrivals len0 (batches w')) ≠ [] → w = w') →
  let all := concat ((λ w, concat (batches w)) <$> ids) in
  ∃ ws, udp_server p cpus len0 batches = Ok ws
    ∧ w_cpu <$> ws = pin_target cpus <$> ids
    ∧ ∀ e, rtc (step p true) (engine_init (w_atoms <$> ws)) e → Forall (λ w, w = []) (e_workers e) →
      e_counters e = mkCounters (wrap 64 (zsum (reported (server_blen len0)) all)) (wrap 64 (zlen all))
        (wrap 64 (stream_gaps sids (concat ((λ w, arrivals len0 (batches w)) <$> ids)))).
Proof. intros Hfit Hnd Hok ids Hone all. by apply udp_server_totals. Qed.

(** Two sockets, one stream each: the first loses number 1. *)
Definition demo_batches (w : Z) : list (list (list Z)) :=
  if w =? 0 then [[numbered (client_base 1 32) 0]; [numbered (client_base 1 32) 2]]
  else if w =? 1 then [[numbered (client_base 2 32) 5; numbered (client_base 2 32) 6]]
  else [].

Lemma demo_arrivals w : arrivals 32 (demo_batches w) =
  if w =? 0 then [(1, 0); (1, 2)] else if w =? 1 then [(2, 5); (2, 6)] else [].
Proof. unfold demo_batches. destruct (w =? 0); [|destruct (w =? 1)]; vm_compute; reflexivity. Defined.

Lemma demo_batches_ok w : batches_ok 32 [1; 2] (demo_batches w).
Proof.
  unfold batches_ok. rewrite demo_arrivals. unfold demo_batches.
  destruct (w =? 0); [|destruct (w =? 1)].
  - split_and!; [do 2 (apply Forall_cons_2; [vm_compute; lia|]); apply Forall_nil_2| |].
    + apply Forall_forall. intros x Hx. repeat (apply elem_of_cons in Hx as [->|Hx]; [by repeat split|]). set_solver.
    + intros x Hx. repeat (apply elem_of_cons in Hx as [->|Hx]; [set_solver|]). set_solver.
  - split_and!; [apply Forall_cons_2; [vm_compute; lia|]; apply Forall_nil_2| |].
    + apply Forall_forall. intros x Hx. repeat (apply elem_of_cons in Hx as [->|Hx]; [by repeat split|]). set_solver.
    + intros x Hx. repeat (apply elem_of_cons in Hx as [->|Hx]; [set_solver|]). set_solver.
  - split_and!; [apply Forall_nil_2|apply Forall_nil_2|set_solver].
Defined.

Lemma udp_server_any_schedule_witness :
  ∃ ws, udp_server (L:=bit_sets 6) Release [4; 5] 32 demo_batches = Ok ws ∧ w_cpu <$> ws = [Some 4; Some 5]
    ∧ ∀ e, rtc (step Release true) (engine_init (w_atoms <$> ws)) e → Forall (λ w, w = []) (e_workers e) →
      e_counters e = mkCounters 128 4 1.
Proof.
  destruct (@udp_server_any_schedule (bit_sets 6) (bit_sets_ok 6) Release [4; 5] 32 [1; 2] demo_batches)
    as (ws & H1 & H2 & H3).
  - apply (bool_decide_unpack _). vm_compute. exact I.
  - apply (bool_decide_unpack _). vm_compute. exact I.
  - exact demo_batches_ok.
  - intros sid w w' _ _. rewrite !demo_arrivals. unfold stream.
    destruct (w =? 0) eqn:E1, (w' =? 0) eqn:E2, (w =? 1) eqn:E3, (w' =? 1) eqn:E4; try lia;
      cbn; repeat case_decide; cbn in *; try done; intros; exfalso; congruence.
  - exists ws. split; [exact H1|]. split; [exact H2|]. intros e Hr Hd. rewrite (H3 e Hr Hd).
    vm_compute. reflexivity.
Defined.

(** The doubled numbers, from [x]. *)
Lemma gaps_stride n x : 0 < n → gaps None ((λ i, 2 * i + x) <$> seqZ 0 n) = n - 1.
Proof.
  intros Hn. assert (∀ m a q, 0 ≤ m → q = 2 * (a - 1) + x →
    gaps (Some q) ((λ i, 2 * i + x) <$> seqZ a m) = m) as H.
  { intros m a q Hm. revert a q. pattern m. apply natlike_ind; [done| |done]. clear m Hm.
    intros m Hm IH a q ->. rewrite seqZ_cons by lia. replace (Z.pred (Z.succ m)) with m by lia.
    rewrite fmap_cons. cbn [gaps]. rewrite (IH (Z.succ a)) by lia. lia. }
  rewrite seqZ_cons by lia. rewrite fmap_cons. cbn [gaps]. rewrite (H (Z.pred n)); lia.
Qed.

(** The flow-hash assumption is needed.  When a stream's datagrams
    alternate between two sockets, each worker sees every other number and
    counts the rest as lost: a lossless stream of [2 n] datagrams is
    reported with [2 (n - 1)] drops. *)
Theorem split_stream_phantom_loss {L : CpuSets} `{!CpuSetsOk L} p len0 sid n batches cpu0 cpu1 :
  cpus_fit [cpu0; cpu1] → 0 < n → is_u64 sid → 2 * n < 2 ^ 64 - 1 →
  (∀ w, Forall (λ ds, (length ds ≤ BATCH)%nat) (batches w)) →
  (∀ w, arrivals len0 (batches w) = (λ i, (sid, 2 * i + w)) <$> if (w =? 0) || (w =? 1) then seqZ 0 n else []) →
  ∃ ws, udp_server p [cpu0; cpu1] len0 batches = Ok ws
    ∧ ∀ e, rtc (step p true) (engine_init (w_atoms <$> ws)) e → Forall (λ w, w = []) (e_workers e) →
      drops (e_counters e) = 2 * (n - 1).
Proof.
  intros Hfit Hn Hsid Hlt Hb Ha. assert (∀ w, w ∈ [0; 1] → batches_ok len0 [sid] (batches w)) as Hok.
  { intros w Hw. assert (w = 0 ∨ w = 1) by set_solver. split_and!; [done|..]; rewrite Ha.
    - apply Forall_fmap. apply Forall_forall. intros i Hi. unfold good_arrival, seq_ok. cbn.
      assert (i ∈ seqZ 0 n) as Hi' by (by destruct (_ || _); [|set_solver]).
      apply elem_of_seqZ in Hi'. split; [done|lia].
    - intros x (i & -> & _)%list_elem_of_fmap. set_solver. }
  destruct (mapM_spawn (λ w, udp_server_body p [cpu0; cpu1] w (Z.max len0 HDR) (batches w)) _ [0; 1]
    (λ w Hw, udp_server_body_spec p [cpu0; cpu1] w len0 [sid] (batches w) Hfit (NoDup_singleton sid) (Hok w Hw))) as (ws & Hws & HR).
  exists ws. split; [exact Hws|]. intros e Hrun Hdone.
  pose proof (counters_inv_run p true (w_atoms <$> ws) e Hrun) as Hc. unfold counters_inv in Hc.
  rewrite (total_done d_of _ Hdone), Z.sub_0_r in Hc. rewrite Hc. unfold added.
  cbn [drops Counters_default]. rewrite Z.add_0_l.
  rewrite (total_threads_wrap d_of (λ w, stream_gaps [sid] (arrivals len0 (batches w))) [0; 1])
    by (eapply Forall2_impl; [exact HR|]; by intros w t (_ & _ & _ & H)).
  assert (∀ w, w ∈ [0; 1] → stream_gaps [sid] (arrivals len0 (batches w)) = n - 1) as Hg.
  { intros w Hw. assert (w = 0 ∨ w = 1) by set_solver.
    rewrite Ha. replace ((w =? 0) || (w =? 1)) with true by lia.
    unfold stream_gaps. cbn [zsum foldr]. rewrite Z.add_0_r. rewrite <- (gaps_stride n w Hn). f_equal.
    unfold stream. generalize (seqZ 0 n). intros l. induction l as [|i l IH]; [done|].
    rewrite !fmap_cons, filter_cons_True by done. rewrite fmap_cons. by f_equal. }
  rewrite !zsum_cons, !Hg by set_solver. cbn [zsum foldr]. rewrite wrap_small; [lia|split; lia].
Qed.

(** Two datagrams each way, on two sockets. *)
Definition split_batches (w : Z) : list (list (list Z)) :=
  [(λ i, numbered (client_base 9 32) (2 * i + w)) <$> if (w =? 0) || (w =? 1) then seqZ 0 2 else []].

Lemma split_stream_phantom_loss_witness :
  ∃ ws, udp_server (L:=bit_sets 2) Debug [0; 1] 32 split_batches = Ok ws
    ∧ ∀ e, rtc (step Debug true) (engine_init (w_atoms <$> ws)) e → Forall (λ w, w = []) (e_workers e) →
      drops (e_counters e) = 2 * (2 - 1).
Proof.
  apply (@split_stream_phantom_loss (bit_sets 2) (bit_sets_ok 2) Debug 32 9 2 split_batches 0 1).
  - apply (bool_decide_unpack _). vm_compute. exact I.
  - lia.
  - done.
  - lia.
  - intros w. unfold split_batches. destruct ((w =? 0) || (w =? 1)); repeat constructor.
  - intros w. unfold split_batches. destruct (w =? 0) eqn:E0, (w =? 1) eqn:E1; try lia.
    + assert (w = 0) as -> by lia. vm_compute. reflexivity.
    + assert (w = 1) as -> by lia. vm_compute. reflexivity.
    + reflexivity.
Defined.

(** The numbers of two lossless streams, one [a] ahead of the other, taken
    in turns. *)
Definition collide (a n : Z) : list Z := concat ((λ i, [a + i; i]) <$> seqZ 0 n).

Lemma gaps_collide a n : 0 ≤ a → 0 < n → gaps None (collide a n) = (n - 1) * a.
Proof.
  intros Ha Hn. unfold collide.
  assert (∀ m i q, 0 ≤ m → q = i - 1 → gaps (Some q) (concat ((λ i, [a + i; i]) <$> seqZ i m)) = m * a) as H.
  { intros m i q Hm. revert i q. pattern m. apply natlike_ind; [done| |done]. clear m Hm.
    intros m Hm IH i q ->. rewrite seqZ_cons by lia. replace (Z.pred (Z.succ m)) with m by lia.
    rewrite fmap_cons. cbn [concat app gaps]. rewrite IH by lia. lia. }
  rewrite seqZ_cons by lia. rewrite fmap_cons. cbn [concat app gaps]. rewrite H; lia.
Qed.

(** Stream ids are thread indices and not unique to a client.  When the
    threads [t] of two clients, both on a lossless network and one of them
    [a] datagrams ahead, reach the same worker in turns, the worker takes
    them for one stream and adds [(n - 1) * a] drops. *)
Theorem two_clients_collide p t len0 len1 a n batches c :
  is_u64 t → Z.max len0 HDR ≤ Z.max len1 2048 → 0 ≤ a → 0 < n → a + n < 2 ^ 64 - 1 →
  Forall (λ ds, (length ds ≤ BATCH)%nat) batches →
  concat batches = numbered (client_base t len0) <$> collide a n →
  is_u64 (bytes c) → is_u64 (packets c) → is_u64 (drops c) →
  ∃ bufs last', udp_server_worker p len1 batches c =
    Ok (bufs, last', add_drops ((n - 1) * a) (add_packets (zlen (collide a n))
      (add_bytes (zlen (collide a n) * Z.max len0 HDR) c))).
Proof.
  intros Ht Hle Ha Hn Hlt Hb E Hcb Hcp Hcd. rewrite <- (gaps_collide a n) by done.
  apply (server_counts p t len0 len1 batches (collide a n) c); try done. unfold collide. apply Forall_concat, Forall_fmap, Forall_forall.
  intros i Hi. apply elem_of_seqZ in Hi. unfold seq_ok. repeat constructor; cbn; lia.
Qed.

Lemma two_clients_collide_witness :
  ∃ bufs last', udp_server_worker Release 32
    [numbered (client_base 0 32) <$> [1000; 0; 1001; 1; 1002; 2]] Counters_default =
    Ok (bufs, last', mkCounters 192 6 2000).
Proof.
  apply (two_clients_collide Release 0 32 32 1000 3
    [numbered (client_base 0 32) <$> [1000; 0; 1001; 1; 1002; 2]] Counters_default);
    try done; try lia.
  apply Forall_cons_2; [vm_compute; lia|]. apply Forall_nil_2.
Defined.

(** The threads of a client and what they add together. *)
Lemma udp_client_threads {L : CpuSets} p cpus threads len0 pps deadline env ws :
  64 * Z.max len0 HDR < 2 ^ 64 → (∀ t, client_env_ok (env t)) →
  mapM (λ t, udp_client_body p cpus t (Z.max len0 HDR) pps deadline (env t)) (seqZ 0 threads) = Ok ws →
    w_cpu <$> ws = pin_target cpus <$> seqZ 0 threads
    ∧ w_wire <$> ws = (λ t, numbered (client_base t len0) <$> blocks 0 (client_rets deadline (env t)))
        <$> seqZ 0 threads
    ∧ total p_of (w_atoms <$> ws) = zlen (concat (w_wire <$> ws))
    ∧ total b_of (w_atoms <$> ws) = zlen (concat (w_wire <$> ws)) * Z.max len0 HDR
    ∧ total d_of (w_atoms <$> ws) = 0
    ∧ Forall (Forall nonneg) (w_atoms <$> ws).
Proof.
  intros Hml Henv Hws. apply mapM_inv in Hws.
  induction Hws as [|t w l ws Hw _ (E1 & E2 & E3 & E4 & E5 & E6)]; [split_and!; done || constructor|].
  apply udp_client_body_inv in Hw as (H1 & H2 & H3 & H4 & H5 & H6); [|done|apply Henv].
  unfold total in *. rewrite !fmap_cons, !zsum_cons. cbn [concat].
  rewrite length_app, Nat2Z.inj_add, E3, E4, E5, H4, H5, H6, H2, length_fmap, length_blocks.
  split_and!; [by f_equal|by f_equal|lia|lia|lia|by constructor].
Qed.

(** They start unless a CPU is out of range. *)
Lemma udp_client_starts {L : CpuSets} `{!CpuSetsOk L} p cpus threads len0 pps deadline env :
  64 * Z.max len0 HDR < 2 ^ 64 → (∀ t, client_env_ok (env t)) →
  let threads_of := mapM (λ t, udp_client_body p cpus t (Z.max len0 HDR) pps deadline (env t)) (seqZ 0 threads) in
  (∃ ws, threads_of = Ok ws) ∨ (threads_of = Panic ∧ ¬ cpus_fit cpus).
Proof.
  intros Hml Henv. cbv zeta. induction (seqZ 0 threads) as [|t l IH]; [left; by eexists|].
  cbn [mapM]. destruct (pin_cases cpus t) as [Hp|[Hp Hc]].
  - destruct (udp_client_body_pinned p cpus t len0 pps deadline (env t) _ Hp Hml (Henv t)) as (w & -> & _).
    cbn [mbind res_bind]. destruct IH as [[ws ->]|[-> Hc]]; [left; by eexists|by right].
  - right. split; [|done]. unfold udp_client_body. by rewrite Hp.
Qed.

(** A thread whose CPU is out of range panics, and with it the client. *)
Lemma udp_client_pin_panics {L : CpuSets} `{!CpuSetsOk L} p cpus threads len0 pps deadline env t cpu :
  64 * Z.max len0 HDR < 2 ^ 64 → (∀ t, client_env_ok (env t)) →
  0 ≤ t < threads → pin_target cpus t = Some cpu → CPU_SETSIZE ≤ cpu →
  mapM (λ t, udp_client_body p cpus t (Z.max len0 HDR) pps deadline (env t)) (seqZ 0 threads) = Panic.
Proof.
  intros Hml Henv Ht Hc Hcpu.
  destruct (udp_client_starts p cpus threads len0 pps deadline env Hml Henv) as [[ws Hws]|[-> _]]; [|done].
  apply mapM_inv in Hws.
  destruct (Forall2_lookup_l _ _ _ (Z.to_nat t) t Hws) as (w & _ & Hw); [apply lookup_seqZ; lia|].
  unfold udp_client_body, pin in Hw. rewrite Hc, pin_to_cpu_panics in Hw by (unfold CPU_SETSIZE in *; lia). discriminate Hw.
Qed.

(** The summary of a UDP client.  The client starts for every duration
    and thread count except those that panic: a duration beyond the clock's
    range, a packet target with no threads, or a CPU beyond those of a
    [cpu_set_t].  Otherwise every thread is pinned to its CPU and sends its
    own numbered datagrams, and under every interleaving the packets of the
    summary are the datagrams that left all threads and the bytes are their
    total length. *)
Theorem udp_client_summary {L : CpuSets} `{!CpuSetsOk L} p cpus threads duration len0 target now env :
  64 * Z.max len0 HDR < 2 ^ 64 → (∀ t, client_env_ok (env t)) →
  let deadline := now + duration * SEC in
  match udp_client p cpus threads duration len0 target now env with
  | Panic => 2 ^ 63 * SEC ≤ deadline ∨ (target ≠ 0 ∧ threads = 0) ∨ ¬ cpus_fit cpus
  | Undefined => False
  | Ok ws =>
      let sent := concat (w_wire <$> ws) in
      w_cpu <$> ws = pin_target cpus <$> seqZ 0 threads
      ∧ w_wire <$> ws = (λ t, numbered (client_base t len0) <$> blocks 0 (client_rets deadline (env t)))
          <$> seqZ 0 threads
      ∧ ∀ e b q, rtc (step p true) (engine_init (w_atoms <$> ws)) e → e_main e = MDone b q →
        q = wrap 64 (zlen sent) ∧ b = wrap 64 (zlen sent * Z.max len0 HDR)
  end.
Proof.
  intros Hml Henv deadline. unfold udp_client, instant_add. fold deadline.
  destruct (Z.ltb_spec deadline (2 ^ 63 * SEC)) as [Hd|Hd]; cbn [mbind res_bind]; [|by left].
  assert ((∃ pps, pps_per_thread target threads = Ok pps)
    ∨ (pps_per_thread target threads = Panic ∧ target ≠ 0 ∧ threads = 0)) as [[pps ->]|[-> ?]].
  { unfold pps_per_thread. destruct (Z.eqb_spec target 0); [by left; eexists|].
    destruct (Z.eqb_spec threads 0); [by right|]. left; by eexists. }
  2: { by right; left. }
  cbn [mbind res_bind].
  destruct (udp_client_starts p cpus threads len0 pps deadline env Hml Henv) as [[ws Hws]|[-> Hc]]; [|by right; right].
  rewrite Hws. destruct (udp_client_threads p cpus threads len0 pps deadline env ws Hml Henv Hws) as (H1 & H2 & H3 & H4 & _).
  split_and!; [done|done|]. intros e b q Hrun Hm.
  destruct (summary_totals p true (w_atoms <$> ws) e b q Hrun Hm) as [-> ->]. by rewrite H3, H4.
Qed.

Definition demo_env (t : Z) : udp_env := UdpEnv (negb (t =? 1)) true 0 demo_envs.

(** Three threads, of which the second cannot bind: 2 * (64 + 10 + 64)
    datagrams leave. *)
Lemma udp_client_summary_witness :
  ∃ ws, udp_client (L:=bit_sets 12) Debug [8] 3 1 64 0 (-999999950) demo_env = Ok ws
    ∧ ∀ e b q, rtc (step Debug true) (engine_init (w_atoms <$> ws)) e → e_main e = MDone b q →
      q = 276 ∧ b = 17664.
Proof.
  pose proof (@udp_client_summary (bit_sets 12) (bit_sets_ok 12) Debug [8] 3 1 64 0 (-999999950) demo_env) as H.
  destruct (udp_client (L:=bit_sets 12) Debug [8] 3 1 64 0 (-999999950) demo_env) as [ws| |] eqn:E.
  - exists ws. split; [reflexivity|]. destruct H as (_ & Hw & Hs); [vm_compute; reflexivity| |].
    { intros t. split; apply (bool_decide_unpack _); vm_compute; exact I. }
    intros e b q Hr Hm. destruct (Hs e b q Hr Hm) as [-> ->]. rewrite Hw. vm_compute. split; reflexivity.
  - exfalso. vm_compute in E. discriminate.
  - exfalso. vm_compute in E. discriminate.
Defined.

(** *** The rate of a whole client *)

(** A thread that starts its pacing after [now] on a monotone clock. *)
Definition client_clock_ok (p : profile) (t len0 pps deadline now : Z) (ev : udp_env) : Prop :=
  now ≤ ue_start ev
  ∧ clock_ok p (Z.max len0 HDR) pps deadline (ue_start ev) (ue_loop ev)
      (SendState (replicate BATCH (client_base t len0)) 0 0 (ue_start ev) Counters_default []).

Lemma udp_body_rate {L : CpuSets} p cpus t len0 pps duration now ev w :
  64 * Z.max len0 HDR < 2 ^ 64 → client_env_ok ev → 0 < pps → 0 ≤ duration →
  client_clock_ok p t len0 pps (now + duration * SEC) now ev →
  udp_client_body p cpus t (Z.max len0 HDR) pps (now + duration * SEC) ev = Ok w →
  zlen (w_wire w) ≤ duration * (pps + 63).
Proof.
  intros Hml [Hr Hlt] Hpps Hdur [Hst Hck] Hb. unfold udp_client_body in Hb.
  apply res_bind_inv in Hb as (cpu & _ & Hb).
  destruct (ue_bind ev); cbn [negb] in Hb; [|simplify_eq; cbn; nia].
  destruct (ue_connect ev); cbn [negb] in Hb; [|simplify_eq; cbn; nia].
  apply res_bind_inv in Hb as ([s left] & Hrun & Hb). apply res_bind_inv in Hb as (l & _ & Hb). simplify_eq.
  cbn [w_wire]. assert (Z.max (Z.max len0 HDR) HDR = Z.max len0 HDR) as E by (unfold HDR; lia).
  eapply (udp_thread_rate p t (Z.max len0 HDR) pps (now + duration * SEC) (ue_start ev) Counters_default (ue_loop ev));
    [lia|done|done|done|done|lia| |exact Hrun].
  unfold client_base in *. by rewrite E.
Qed.

(** C18: a paced UDP client keeps to [--target-pps], within a batch per
    thread and second.  With a target and at least one thread, on monotone
    clocks, whatever [sendmmsg] returns and however the threads interleave,
    the datagrams that leave all threads in the whole run are at most
    [duration] times the target (one datagram per thread, if that is more)
    plus 63 for each thread and each second: [duration * (max target threads +
    63 * threads)].  The packets of the summary are those datagrams. *)
Theorem udp_client_rate {L : CpuSets} p cpus threads duration len0 target now env ws e b q :
  64 * Z.max len0 HDR < 2 ^ 64 → (∀ t, client_env_ok (env t)) →
  0 ≤ duration → 0 < target → 0 < threads →
  (∀ t, client_clock_ok p t len0 (Z.max (target / threads) 1) (now + duration * SEC) now (env t)) →
  udp_client p cpus threads duration len0 target now env = Ok ws →
  rtc (step p true) (engine_init (w_atoms <$> ws)) e → e_main e = MDone b q →
  let sent := zlen (concat (w_wire <$> ws)) in
  sent ≤ duration * (Z.max target threads + 63 * threads) ∧ q = wrap 64 sent.
Proof.
  intros Hml Henv Hdur Htg Hth Hck Hc Hrun Hm sent. unfold udp_client, instant_add, pps_per_thread in Hc.
  destruct (_ <? _); [|done]. cbn [mbind res_bind] in Hc.
  rewrite (proj2 (Z.eqb_neq target 0)), (proj2 (Z.eqb_neq threads 0)) in Hc by lia. cbn [mbind res_bind] in Hc.
  set (pps := Z.max (target / threads) 1) in *. assert (1 ≤ pps) as Hpps1 by (subst pps; lia).
  destruct (udp_client_threads p cpus threads len0 pps (now + duration * SEC) env ws Hml Henv Hc) as (_ & _ & Hp & _).
  destruct (summary_totals p true _ e b q Hrun Hm) as [_ ->]. rewrite Hp. split; [|done].
  assert (sent ≤ threads * (duration * (pps + 63))) as Hle.
  { unfold sent. rewrite zlen_concat, zsum_fmap. apply mapM_inv in Hc.
    assert (zsum (λ w, zlen (w_wire w)) ws ≤ zlen (seqZ 0 threads) * (duration * (pps + 63))) as H.
    { clear Hrun Hm Hp sent. revert Hc. generalize (seqZ 0 threads). intros l.
      induction 1 as [|t w l ws Hw _ IH]; [cbn; lia|].
      rewrite zsum_cons. cbn [length]. pose proof (udp_body_rate p cpus t len0 pps duration now (env t) w Hml (Henv t)
        ltac:(lia) Hdur (Hck t) Hw).
      rewrite Nat2Z.inj_succ, Z.mul_succ_l. lia. }
    rewrite length_seqZ in H. lia. }
  assert (threads * pps ≤ Z.max target threads) as Hpps.
  { pose proof (Z.mul_div_le target threads Hth). subst pps. lia. }
  nia.
Qed.

(** Two threads that send one batch each and sleep until the deadline. *)
Definition paced_env (t : Z) : udp_env := UdpEnv true true 1 [SendEnv 2 64 3 (SEC + 1); SendEnv (SEC + 2) 64 0 0].

Lemma udp_client_rate_witness :
  ∃ ws, udp_client (L:=bit_sets 12) Debug [8] 2 1 64 10 0 paced_env = Ok ws
    ∧ ∀ e b q, rtc (step Debug true) (engine_init (w_atoms <$> ws)) e → e_main e = MDone b q →
      let sent := zlen (concat (w_wire <$> ws)) in
      sent ≤ 1 * (Z.max 10 2 + 63 * 2) ∧ q = wrap 64 sent.
Proof.
  pose proof (@udp_client_rate (bit_sets 12) Debug [8] 2 1 64 10 0 paced_env) as H.
  destruct (udp_client (L:=bit_sets 12) Debug [8] 2 1 64 10 0 paced_env) as [ws| |] eqn:E;
    [|exfalso; vm_compute in E; discriminate..].
  exists ws. split; [reflexivity|]. intros e b q. apply H; try lia; [vm_compute; reflexivity|..|reflexivity].
  - intros t. split; apply (bool_decide_unpack _); vm_compute; exact I.
  - intros t. split; [vm_compute; discriminate|]. unfold paced_env. cbn [ue_loop ue_start clock_ok].
    split; [vm_compute; discriminate|]. intros _. split; [vm_compute; discriminate|].
    destruct (send_iter_spec Debug (client_base t 64) ltac:(rewrite length_client_base; unfold HDR; lia) (Z.max 64 HDR)
      (Z.max (10 / 2) 1) (SendEnv 2 64 3 (SEC + 1))
      (SendState (replicate BATCH (client_base t 64)) 0 0 1 Counters_default []))
      as (slept & sent & st & -> & _ & Hwin); cbn [ss_bufs ss_seq ss_sent ss_start se_ret se_now_pace se_now_reset] in *;
      [apply Forall_replicate; by left|apply length_replicate|unfold HDR; lia..|].
    destruct (Hwin ltac:(lia) ltac:(lia)) as [(-> & Hlt & _)|(_ & _ & -> & _)]; [exfalso; clear -Hlt; vm_compute in Hlt; discriminate|].
    split; [vm_compute; discriminate|]. split; [vm_compute; discriminate|]. intros Hlt. vm_compute in Hlt. discriminate.
Defined.

(** ** TCP *)

Lemma tcp_reader_link reads : ∀ c, (tcp_reader reads c).1 = do_atoms (tcp_reader_atoms reads) c.
Proof.
  induction reads as [|[n|] reads IH]; intros c; [done| |done]. cbn [tcp_reader tcp_reader_atoms].
  destruct (n =? 0); [done|]. by rewrite IH.
Qed.

Lemma tcp_writer_link deadline ws : ∀ c,
  (tcp_writer deadline ws c).1 = do_atoms (tcp_writer_atoms deadline ws) c.
Proof.
  induction ws as [|[now r] ws IH]; intros c; [done|]. cbn [tcp_writer tcp_writer_atoms].
  destruct r as [n|]; destruct (now <? deadline); try done. destruct (n =? 0); [done|]. by rewrite IH.
Qed.

(** A thread that runs alone leaves in the counters what the sequential
    loop of its engine leaves: the additions the interleaving theorems are
    about are the ones of the loops, for the UDP receiver, the TCP reader
    and the TCP writer from any state and for the UDP sender within its
    bounds. *)
Theorem threads_are_loops p :
  (∀ batches bufs last c, snd <$> recv_loop p batches bufs last c =
     (λ l, do_atoms l c) <$> recv_loop_atoms p batches bufs last)
  ∧ (∀ reads c, (tcp_reader reads c).1 = do_atoms (tcp_reader_atoms reads) c)
  ∧ (∀ deadline ws c, (tcp_writer deadline ws c).1 = do_atoms (tcp_writer_atoms deadline ws) c)
  ∧ (∀ t len0 pps deadline start c envs,
       64 * Z.max len0 HDR < 2 ^ 64 ∧ Forall (λ ev, se_ret ev ≤ 64) envs ∧ 64 * (zlen envs + 2) < 2 ^ 64
         ∧ counters_ok c →
       ∃ s left l, udp_client_thread p t len0 pps deadline start c envs = Ok (s, left)
         ∧ send_atoms p (Z.max len0 HDR) deadline envs = Ok l ∧ do_atoms l c = ss_counters s).
Proof.
  split_and!; [exact (recv_loop_link p)|exact tcp_reader_link|exact tcp_writer_link|].
  intros t len0 pps deadline start c envs (Hml & Hr & Hlt & Hc). pose proof Hc as (Hcb & Hcp & _).
  destruct (udp_client_thread_spec p t len0 pps deadline start c envs ltac:(lia) Hr Hlt Hcb Hcp)
    as (s & left & Hrun & _).
  destruct (send_atoms_spec p (Z.max len0 HDR) deadline envs ltac:(unfold HDR; lia) Hml Hr) as (l & Hl & _).
  exists s, left, l. split_and!; [done..|]. by eapply send_atoms_alone.
Qed.

(** [write] takes at most the buffer. *)
Definition write_ok (x : Z * io_result) : Prop :=
  match x.2 with IoOk n => 0 ≤ n ≤ zlen tcp_buf | IoErr => True end.
Definition conn_ok (conn : option (list (Z * io_result))) : Prop :=
  match conn with Some writes => Forall write_ok writes | None => True end.

(** The bytes a connection's client handed to the network, in order. *)
Definition sent_stream (w : worker) : list Z := concat (w_wire w).

(** What [read] returns for the pieces a connection delivers: their lengths,
    and 0 at the end of the stream. *)
Definition reads_of (pieces : list (list Z)) : list io_result :=
  ((λ l, IoOk (zlen l)) <$> pieces) ++ [IoOk 0].

Definition accepts_of (conns : list (option (list (list Z)))) : list (option (list io_result)) :=
  (λ c : option (list (list Z)), reads_of <$> c) <$> conns.

(** The network delivers every stream that is not empty, byte for byte, to
    one accepted connection, cut into pieces that are not empty; the others
    stay empty, and [accept]s that fail are [None]. *)
Record tcp_network (ws : list worker) (conns : list (option (list (list Z)))) : Prop := {
  tn_pieces : ∀ pieces, Some pieces ∈ conns → Forall (λ l, l ≠ []) pieces;
  tn_streams : filter (λ s, s ≠ []) (@concat Z <$> omap id conns) ≡ₚ filter (λ s, s ≠ []) (sent_stream <$> ws);
}.

(** A writer counts the bytes the socket took. *)
Lemma tcp_writer_bytes deadline ws : Forall write_ok ws →
  zsum b_of (tcp_writer_atoms deadline ws) = zlen (concat (tcp_writer_wire deadline ws)).
Proof.
  induction 1 as [|[now r] ws Hw _ IH]; [done|]. destruct r as [n|]; [|done]. cbn in Hw.
  cbn [tcp_writer_atoms tcp_writer_wire]. destruct (now <? deadline); [|done]. destruct (n =? 0); [done|].
  rewrite zsum_cons, IH. cbn [concat b_of]. rewrite length_app, length_take. lia.
Qed.

(** A reader counts the bytes its connection delivers. *)
Lemma tcp_reader_bytes pieces : Forall (λ l, l ≠ []) pieces →
  zsum b_of (tcp_reader_atoms (reads_of pieces)) = zlen (concat pieces).
Proof.
  unfold reads_of. induction 1 as [|l pieces Hl _ IH]; [done|]. rewrite fmap_cons. cbn [app tcp_reader_atoms].
  destruct (Z.eqb_spec (zlen l) 0) as [E|_]; [by destruct l|].
  rewrite zsum_cons, IH. cbn [concat b_of]. rewrite length_app. lia.
Qed.

Lemma zsum_streams l : zsum (λ s : list Z, zlen s) (filter (λ s, s ≠ []) l) = zsum (λ s : list Z, zlen s) l.
Proof.
  induction l as [|s l IH]; [done|]. rewrite filter_cons, zsum_cons, <- IH. case_decide as E; [by rewrite zsum_cons|].
  by destruct s.
Qed.

Lemma tcp_client_body_bytes {L : CpuSets} p cpus t deadline conn w : conn_ok conn →
  tcp_client_body p cpus t deadline conn = Ok w → zsum b_of (w_atoms w) = zlen (sent_stream w).
Proof.
  intros Hc (c & _ & (d & _ & [= <-])%res_bind_inv)%res_bind_inv.
  destruct conn as [ws|]; [by apply tcp_writer_bytes|done].
Qed.

Lemma tcp_client_bytes {L : CpuSets} p cpus threads duration now conn ws :
  (∀ t, conn_ok (conn t)) → tcp_client p cpus threads duration now conn = Ok ws →
  total b_of (w_atoms <$> ws) = zsum (λ s : list Z, zlen s) (sent_stream <$> ws).
Proof.
  intros Hc H. unfold tcp_client in H. apply res_bind_inv in H as (d & _ & H). apply mapM_inv in H.
  unfold total. rewrite !zsum_fmap. induction H as [|t w l ws Hw _ IH]; [done|].
  rewrite !zsum_cons, IH. by rewrite (tcp_client_body_bytes p cpus t d (conn t) w).
Qed.

Lemma tcp_readers_bytes {L : CpuSets} cpus conns : ∀ next rs,
  (∀ pieces, Some pieces ∈ conns → Forall (λ l, l ≠ []) pieces) →
  tcp_readers cpus next (accepts_of conns) = Ok rs →
  total b_of (w_atoms <$> rs) = zsum (λ s : list Z, zlen s) (@concat Z <$> omap id conns).
Proof.
  unfold total. induction conns as [|[pieces|] conns IH]; intros next rs Hp H; unfold accepts_of in *;
    rewrite ?fmap_cons in H; cbn [tcp_readers fmap option_fmap option_map] in H.
  - by injection H as <-.
  - apply res_bind_inv in H as (c & _ & (ws & Hws & [= <-])%res_bind_inv). cbn [omap list_omap id].
    rewrite !fmap_cons, !zsum_cons. cbn [w_atoms]. rewrite tcp_reader_bytes by (apply Hp; by left).
    f_equal. eapply IH; [|exact Hws]. intros q Hq. apply Hp. by right.
  - cbn [omap list_omap id]. eapply IH; [|exact H]. intros q Hq. apply Hp. by right.
Qed.

(** The listeners and readers start with CPUs that fit. *)
Lemma tcp_server_starts {L : CpuSets} `{!CpuSetsOk L} cpus conns : cpus_fit cpus →
  ∃ rs, tcp_server cpus conns = Ok (pin_target cpus <$> seqZ 0 (server_workers cpus), rs)
    ∧ tcp_readers cpus 0 conns = Ok rs ∧ w_cpu <$> rs = place_readers cpus 0 (length (omap id conns)).
Proof.
  intros Hfit. unfold tcp_server.
  assert (∀ l, mapM (pin cpus) l = Ok (pin_target cpus <$> l)) as ->.
  { induction l as [|i l IH]; [done|]. cbn [mapM]. rewrite pin_ok by done. cbn [mbind res_bind]. by rewrite IH. }
  cbn [mbind res_bind].
  assert (∀ next, ∃ rs, tcp_readers cpus next conns = Ok rs
    ∧ w_cpu <$> rs = place_readers cpus next (length (omap id conns))) as H.
  { induction conns as [|[reads|] conns IH]; intros next; [by eexists| |apply IH].
    cbn [tcp_readers omap list_omap id length place_readers]. rewrite pin_ok by done. cbn [mbind res_bind].
    destruct (IH (wrap 64 (next + 1))) as (rs & -> & <-). cbn [mbind res_bind]. by eexists. }
  destruct (H 0) as (rs & -> & Hcpu). exists rs. done.
Qed.

Lemma zsum_perm {A} (f : A → Z) l k : l ≡ₚ k → zsum f l = zsum f k.
Proof. induction 1; rewrite ?zsum_cons; lia. Qed.

(** C26: both ends of a TCP run report the volume that went over the
    network.  The client's connections take bytes of the writers' buffers;
    the network delivers every stream to one of the server's connections, cut
    into whatever pieces, in whatever order the listeners accept them (with
    failed [accept]s in between).  Then, with CPUs in range, the server's
    listeners and readers start, each on its CPU, and under every schedule of
    the client's and of the server's threads the bytes of the client's summary
    and the server's byte counter, once its readers have met the end of their
    streams, are the number of bytes that the network carried. *)
Theorem tcp_volume_end_to_end {L L' : CpuSets} `{!CpuSetsOk L'} p cpus cpus' threads duration now conn conns (ws : list worker) e b q :
  (∀ t, conn_ok (conn t)) → cpus_fit cpus' →
  tcp_client p cpus threads duration now conn = Ok ws →
  rtc (step p false) (engine_init (w_atoms <$> ws)) e → e_main e = MDone b q →
  tcp_network ws conns →
  let volume := zlen (concat (sent_stream <$> ws)) in
  b = wrap 64 volume ∧ q = 0
  ∧ ∃ rs, tcp_server (L:=L') cpus' (accepts_of conns)
      = Ok (pin_target cpus' <$> seqZ 0 (server_workers cpus'), rs)
    ∧ w_cpu <$> rs = place_readers cpus' 0 (length (omap id conns))
    ∧ ∀ e', rtc (step p false) (engine_init (w_atoms <$> rs)) e' → Forall (λ w, w = []) (e_workers e') →
      bytes (e_counters e') = wrap 64 volume.
Proof.
  intros Hok Hfit Hc Hrun Hm [Hpieces Hstreams] volume.
  assert (total b_of (w_atoms <$> ws) = volume) as Hv.
  { subst volume. rewrite zlen_concat. by eapply tcp_client_bytes. }
  destruct (summary_totals p false _ e b q Hrun Hm) as [-> ->]. rewrite Hv. split; [done|]. split; [done|].
  destruct (tcp_server_starts (L:=L') cpus' (accepts_of conns) Hfit) as (rs & Hrs & Hrd & Hcpu).
  exists rs. split; [done|]. split.
  { rewrite Hcpu. f_equal. unfold accepts_of. clear. induction conns as [|[pieces|] conns IH]; cbn; [done|by f_equal|done]. }
  intros e' Hrun' Hdone. pose proof (counters_inv_run p false _ e' Hrun') as Hi. unfold counters_inv in Hi.
  rewrite (total_done b_of _ Hdone), Z.sub_0_r in Hi. rewrite Hi. unfold added.
  cbn [bytes Counters_default]. rewrite Z.add_0_l. f_equal.
  rewrite (tcp_readers_bytes cpus' conns 0 rs Hpieces Hrd), <- zsum_streams.
  rewrite (zsum_perm _ _ _ Hstreams), zsum_streams. subst volume. by rewrite zlen_concat.
Qed.

(** Two connected threads, whose writes take 100, 50 and 7 bytes, and one
    that is refused; the streams arrive in other pieces, the shorter first. *)
Definition demo_conn (t : Z) : option (list (Z * io_result)) :=
  if t =? 0 then Some [(1, IoOk 100); (2, IoOk 50)]
  else if t =? 1 then None else Some [(30, IoOk 7)].

Definition ab (n : nat) : list Z := replicate n 0xAB.
Definition demo_accepts : list (option (list (list Z))) :=
  [Some [ab 7]; None; Some [ab 30; ab 60; ab 60]].

(** The schedule that runs one thread after the other. *)
Lemma drain_workers p udp c run r m k ws :
  rtc (step p udp) (Engine c run (replicate k [] ++ ws) r m)
    (Engine (foldl (λ c w, do_atoms w c) c ws) run (replicate (k + length ws) []) r m).
Proof.
  revert c k. induction ws as [|w ws IH]; intros c k; cbn [foldl length].
  { rewrite Nat.add_0_r, app_nil_r. apply rtc_refl. }
  revert c. induction w as [|a w IHw]; intros c.
  - replace (k + S (length ws))%nat with (S k + length ws)%nat by lia.
    replace (replicate k [] ++ [] :: ws) with (replicate (S k) [] ++ ws); [apply IH|].
    replace (S k) with (k + 1)%nat by lia. by rewrite replicate_add, <- app_assoc.
  - eapply rtc_l; [|apply (IHw (do_atom c a))]. exists false.
    pose proof (s_work p udp c run (replicate k [] ++ (a :: w) :: ws) r m k a w) as Hs.
    rewrite lookup_app_r, length_replicate, Nat.sub_diag in Hs by (rewrite length_replicate; lia).
    specialize (Hs eq_refl).
    rewrite insert_app_r_alt, length_replicate, Nat.sub_diag in Hs by (rewrite length_replicate; lia).
    exact Hs.
Qed.

(** The counters after the threads, one after the other. *)
Definition in_turn (ws : list (list atom)) : Counters := foldl (λ c w, do_atoms w c) Counters_default ws.

(** An engine can always run to its summary. *)
Lemma engine_finishes p udp ws :
  rtc (step p udp) (engine_init ws)
    (Engine (in_turn ws) false (replicate (length ws) []) (rep_at rep_init RExit)
       (MDone (bytes (in_turn ws)) (if udp then packets (in_turn ws) else 0))).
Proof.
  etrans; [exact (drain_workers p udp Counters_default true rep_init MJoin 0 ws)|]. fold (in_turn ws).
  cbn [Nat.add].
  eapply rtc_l; [exists false; apply s_join; by apply Forall_replicate|].
  eapply rtc_l; [exists false; apply s_store|].
  eapply rtc_l; [exists false; by apply s_rep_exit|].
  eapply rtc_l; [exists false; apply s_done; by left|]. apply rtc_refl.
Qed.

Lemma tcp_buf_take n : Z.of_nat n ≤ 262144 → take n tcp_buf = ab n.
Proof. intros H. unfold tcp_buf, ab. rewrite take_replicate. f_equal. lia. Qed.

Lemma length_tcp_buf : zlen tcp_buf = 262144.
Proof. unfold tcp_buf. rewrite length_replicate. lia. Qed.

Lemma demo_conn_ok t : conn_ok (demo_conn t).
Proof.
  assert (∀ now n, 0 ≤ n ≤ 262144 → write_ok (now, IoOk n)) as H.
  { intros now n Hn. unfold write_ok. cbn [snd]. by rewrite length_tcp_buf. }
  unfold demo_conn. destruct (t =? 0); [|destruct (t =? 1)]; cbn [conn_ok]; [|exact I|];
    repeat (apply Forall_cons_2; [apply H; lia|]); apply Forall_nil_2.
Qed.

Lemma demo_tcp_client : ∃ ws, tcp_client (L:=bit_sets 2) Release [0; 1] 3 1 0 demo_conn = Ok ws
  ∧ sent_stream <$> ws = [ab 150; []; ab 7].
Proof.
  unfold tcp_client, instant_add, tcp_client_body, demo_conn. rewrite (proj2 (Z.ltb_lt _ _)) by (unfold SEC; lia).
  cbn [mbind res_bind]. change (seqZ 0 3) with [0; 1; 2].
  eexists. split; [reflexivity|]. unfold sent_stream.
  cbn -[take tcp_buf ab]. rewrite !tcp_buf_take by lia. reflexivity.
Qed.

Lemma tcp_volume_end_to_end_witness :
  ∃ ws rs, tcp_client (L:=bit_sets 2) Release [0; 1] 3 1 0 demo_conn = Ok ws
    ∧ tcp_server (L:=bit_sets 4) [3] (accepts_of demo_accepts) = Ok ([Some 3], rs)
    ∧ ∀ e b q e', rtc (step Release false) (engine_init (w_atoms <$> ws)) e → e_main e = MDone b q →
      rtc (step Release false) (engine_init (w_atoms <$> rs)) e' → Forall (λ w, w = []) (e_workers e') →
      b = 157 ∧ bytes (e_counters e') = 157.
Proof.
  destruct demo_tcp_client as (ws & E & Hw).
  assert (tcp_network ws demo_accepts) as Hnet.
  { split.
    - intros pieces. unfold demo_accepts. rewrite !elem_of_cons. intros [[= ->]|[[=]|[[= ->]|H]]]; [..|by apply elem_of_nil in H];
        repeat constructor; discriminate.
    - rewrite Hw. apply perm_swap. }
  assert (cpus_fit [3]) as Hfit by (apply (bool_decide_unpack _); vm_compute; exact I).
  pose proof (λ e b q Hr Hm, @tcp_volume_end_to_end (bit_sets 2) (bit_sets 4) (bit_sets_ok 4) Release [0; 1] [3] 3 1 0
    demo_conn demo_accepts ws e b q demo_conn_ok Hfit E Hr Hm Hnet) as H. cbv zeta in H. rewrite Hw in H.
  pose proof (engine_finishes Release false (w_atoms <$> ws)) as Hr.
  destruct (H _ _ _ Hr eq_refl) as (_ & _ & rs & Hrs & _). exists ws, rs. split; [exact E|]. split; [exact Hrs|].
  intros e b q e' He Hm He' Hd. destruct (H e b q He Hm) as (-> & _ & rs' & Hrs' & _ & Hend).
  rewrite Hrs in Hrs'. injection Hrs' as <-. split; [vm_compute; reflexivity|]. rewrite (Hend e' He' Hd).
  vm_compute. reflexivity.
Defined.

(** ** Sockets of the servers *)

Section server_sockets.
Context (k : kernel) (e : endian).

Lemma wp_open_all open n : (∀ h, wp open h (listen_post h)) → ∀ h,
  wp (open_all open n) h (λ r h', ∃ new, opened h' = OpenSet (new ++ fds (opened h)) (maps (opened h))
    ∧ match r with Okay l => new = reverse l ∧ length l = n | Err _ => (length new < n)%nat end).
Proof.
  intros Ho. induction n as [|n IH]; intros h; cbn [open_all].
  { apply wp_ret. exists []. split; [by destruct (opened h)|done]. }
  apply wp_try. eapply wp_mono; [apply Ho|]. intros [fd|err] h1 H1; cbn in H1.
  2:{ exists []. rewrite H1. split; [by destruct (opened h)|cbn; lia]. }
  destruct H1 as [H1 _]. apply wp_try. eapply wp_mono; [apply IH|]. rewrite H1. cbn [fds maps].
  intros [l|err] h2 (new & H2 & H3).
  - destruct H3 as [-> H3]. apply wp_ret. exists (reverse (fd :: l)). split; [|cbn; split; [done|lia]].
    rewrite H2, reverse_cons. by rewrite <- app_assoc.
  - exists (new ++ [fd]). split; [rewrite H2; by rewrite <- app_assoc|]. rewrite length_app. cbn. lia.
Qed.
End server_sockets.

(** The servers' sockets.  Whatever system calls fail, [tcp_server] and
    [udp_server] either hold one bound socket per CPU (at least one) and
    nothing else, or return an error with the sockets of fewer workers
    open: those already belong to running threads, and a socket that failed
    half-way is closed. *)
Theorem server_sockets_per_cpu k e addr cpus h :
  let post r h' := ∃ new, opened h' = OpenSet (new ++ fds (opened h)) (maps (opened h))
    ∧ match r : result io_err (list Z) with
      | Okay l => new = reverse l ∧ zlen l = Z.max (zlen cpus) 1
      | Err _ => zlen new < Z.max (zlen cpus) 1
      end in
  wp (udp_server_sockets k e addr cpus) h post ∧ wp (tcp_server_sockets k e addr cpus) h post.
Proof.
  intros post. assert (∀ open, (∀ h, wp open h (listen_post h)) →
    wp (open_all open (Z.to_nat (server_workers cpus))) h post) as H.
  { intros open Ho. eapply wp_mono; [by apply wp_open_all|]. intros r h' (new & H1 & H2).
    exists new. split; [done|]. unfold server_workers in *.
    destruct r; [destruct H2 as [-> H2]; split; [done|lia]|lia]. }
  split; apply H; [apply wp_reuseport_udp|apply wp_reuseport_tcp].
Qed.

(** ** Termination of a sending thread *)

Lemma running_stops deadline envs ev : ev ∈ envs → deadline ≤ se_now ev → running deadline envs ≠ envs.
Proof.
  induction envs as [|x envs IH]; intros Hin Hev; [by apply not_elem_of_nil in Hin|].
  cbn [running]. destruct (Z.ltb_spec (se_now x) deadline) as [Hx|]; [|done].
  apply elem_of_cons in Hin as [->|Hin]; [lia|]. intros [= E]. by apply (IH Hin Hev).
Qed.

Lemma send_while_left p len pps deadline envs : ∀ s s' left,
  send_while p len pps deadline envs s = Ok (s', left) → running deadline envs ≠ envs → left = true.
Proof.
  induction envs as [|ev envs IH]; intros s s' left H Hne; [done|]. cbn [send_while running] in *.
  destruct (se_now ev <? deadline); [|by simplify_eq].
  apply res_bind_inv in H as ([s1 slept] & _ & H). eapply IH; [exact H|]. congruence.
Qed.

(** C32: a client thread terminates.  On a clock that advances by at least
    [delta] nanoseconds per iteration, whatever [sendmmsg] returns and
    however long the pacing sleeps, the loop leaves after at most
    [(deadline - now0) / delta + 2] iterations without a panic. *)
Theorem udp_client_thread_terminates p t len0 pps deadline start c (env : nat → send_env) now0 delta :
  64 * len0 < 2 ^ 64 → (∀ i, se_ret (env i) ≤ 64) → 0 < delta →
  (∀ i, now0 + Z.of_nat i * delta ≤ se_now (env i)) →
  64 * (Z.max 0 (deadline - now0) / delta + 4) < 2 ^ 64 →
  is_u64 (bytes c) → is_u64 (packets c) →
  let n := Z.to_nat (Z.max 0 (deadline - now0) / delta + 2) in
  ∃ s, udp_client_thread p t len0 pps deadline start c (env <$> seq 0 n) = Ok (s, true).
Proof.
  intros Hml Hr Hd Hclk Hlt Hb Hp n. set (D := Z.max 0 (deadline - now0)) in *.
  assert (0 ≤ D / delta) as Hq by (apply Z.div_pos; lia).
  assert (length (env <$> seq 0 n) = n) as HL by by rewrite length_fmap, length_seq.
  destruct (udp_client_thread_spec p t len0 pps deadline start c (env <$> seq 0 n)) as (s & left & Hrun & _);
    [done|apply Forall_fmap, Forall_forall; intros i _; apply Hr|rewrite HL; lia|done|done|].
  exists s. rewrite Hrun. do 2 f_equal. unfold udp_client_thread in Hrun.
  eapply send_while_left; [exact Hrun|].
  apply (running_stops _ _ (env (n - 1)%nat)).
  - apply list_elem_of_fmap. exists (n - 1)%nat. split; [done|]. apply elem_of_seq. lia.
  - specialize (Hclk (n - 1)%nat). pose proof (Z.mul_succ_div_gt D delta Hd). nia.
Qed.

Lemma udp_client_thread_terminates_witness :
  ∃ s, udp_client_thread Debug 0 100 0 10 0 Counters_default
    ((λ i, SendEnv (Z.of_nat i * 5) 64 0 0) <$> seq 0 4) = Ok (s, true).
Proof.
  apply (udp_client_thread_terminates Debug 0 100 0 10 0 Counters_default
    (λ i, SendEnv (Z.of_nat i * 5) 64 0 0) 0 5); try done; try lia.
Defined.
