(* ===== verification/Udp.v ===== *)
(** * A UDP run, end to end ([src/net.rs])

    [udp_client] on one host, [udp_server] on another, all their threads under
    any schedule, and a network between them that may lose datagrams but
    keeps each stream's order: what the server's counters say about what the
    client's summary claims. *)

From Stdlib Require Import Sorted.
From S2P Require Import Prelude Loss Affinity Net Threads Engine.

(** ** What the network does *)

(** What the server's sockets [ids] were handed, and the part of it that
    carries the stream id [t]. *)
Definition delivered (ids : list Z) (batches : Z → list (list (list Z))) : list (list Z) :=
  concat ((λ w, concat (batches w)) <$> ids).
Definition stream_of (t : Z) (ds : list (list Z)) : list (list Z) := filter (λ d, payload_sid d = t) ds.

(** Datagrams may be lost, but none is made up, each thread's datagrams keep
    their order and arrive with the first and the last, and a stream goes to
    one socket; [recvmmsg] is asked for at most [BATCH] messages. *)
Record udp_network (ws : list worker) (ids : list Z) (batches : Z → list (list (list Z))) : Prop := {
  un_batch : ∀ w, w ∈ ids → Forall (λ ds, (length ds ≤ BATCH)%nat) (batches w);
  un_real : ∀ d, d ∈ delivered ids batches → ∃ i w, ws !! i = Some w ∧ d ∈ w_wire w;
  un_order : ∀ i w, ws !! i = Some w → sublist (stream_of (Z.of_nat i) (delivered ids batches)) (w_wire w);
  un_ends : ∀ i w, ws !! i = Some w →
    head (stream_of (Z.of_nat i) (delivered ids batches)) = head (w_wire w)
    ∧ last (stream_of (Z.of_nat i) (delivered ids batches)) = last (w_wire w);
  un_socket : ∀ v w d e, v ∈ ids → w ∈ ids → d ∈ concat (batches v) → e ∈ concat (batches w) →
    payload_sid d = payload_sid e → v = w;
}.

(** The numbers a thread stamped between its first and its last datagram and
    did not send: what partial and failed [sendmmsg] calls leave out. *)
Definition unsent (deadline : Z) (ev : udp_env) : Z := gaps None (blocks 0 (client_rets deadline ev)).

(** ** Lemmas *)

Lemma payload_sid_numbered t len0 x : is_u64 t → payload_sid (numbered (client_base t len0) x) = t.
Proof.
  intros Ht. pose proof (length_client_base t len0) as HL. unfold HDR in HL. unfold payload_sid, numbered.
  rewrite slice_splice_ne by (rewrite ?length_to_le_bytes; lia).
  unfold client_base. rewrite slice_splice_in, Z.sub_diag
    by (rewrite ?length_replicate, ?length_to_le_bytes; unfold HDR; lia).
  rewrite slice_full by (by rewrite length_to_le_bytes). by apply from_to_le_u64.
Qed.

Lemma omap_concat {A B} (f : A → option B) (ls : list (list A)) :
  (omap f (concat ls) : list B) = concat ((λ l, omap f l : list B) <$> ls).
Proof. induction ls as [|l ls IH]; [done|]. cbn [concat fmap list_fmap]. by rewrite omap_app, IH. Qed.

Lemma elem_of_concat {A} (x : A) ls : x ∈ concat ls ↔ ∃ l, l ∈ ls ∧ x ∈ l.
Proof.
  rewrite list_elem_of_In, in_concat. setoid_rewrite list_elem_of_In. done.
Qed.

(** A complete or silent client leaves no number out. *)
Lemma unsent_complete deadline ev :
  Forall (λ e, se_ret e = 64) (ue_loop ev) → unsent deadline ev = 0.
Proof.
  intros H. unfold unsent, client_rets. destruct (ue_bind ev && ue_connect ev); [|done].
  rewrite blocks_full; [apply gaps_consecutive|]. apply Forall_fmap.
  induction H as [|e envs He _ IH]; cbn [running]; [constructor|].
  destruct (se_now e <? deadline); by constructor.
Qed.

Section run.
Context (len0 len1 deadline threads : Z) (env : Z → udp_env).
Context (Hfit : Z.max len0 HDR ≤ Z.max len1 2048) (Hthreads : threads < 2 ^ 64).
Context (Henv : ∀ t, client_env_ok (env t)).

(** The numbers of a thread. *)
Abbreviation nums t := (blocks 0 (client_rets deadline (env t))).
Abbreviation wire t := (numbered (client_base t len0) <$> nums t).

Lemma nums_ok t : Forall seq_ok (nums t) ∧ StronglySorted Z.lt (nums t).
Proof.
  destruct (Henv t) as [Hr Hlt]. unfold client_rets.
  destruct (ue_bind (env t) && ue_connect (env t)); [|split; constructor].
  split; [by apply blocks_seq_ok|]. apply blocks_sorted, Forall_fmap. clear Hlt.
  induction Hr as [|e envs He _ IH]; cbn [running]; [constructor|].
  destruct (se_now e <? deadline); by constructor.
Qed.

Context (ws : list worker) (Hws : w_wire <$> ws = (λ t, wire t) <$> seqZ 0 threads).
Context (ids : list Z) (batches : Z → list (list (list Z))) (Hnet : udp_network ws ids batches).

Lemma worker_wire i w : ws !! i = Some w → w_wire w = wire (Z.of_nat i) ∧ Z.of_nat i < threads.
Proof.
  intros Hi. pose proof (f_equal (.!! i) Hws) as E. rewrite !list_lookup_fmap, Hi in E. cbn in E.
  destruct (seqZ 0 threads !! i) as [t|] eqn:Et; [|done]. apply lookup_seqZ in Et as [-> Hlt].
  cbn in E. injection E as E. by rewrite Z.add_0_l in E.
Qed.

Lemma thread_worker t : 0 ≤ t < threads → ∃ w, ws !! Z.to_nat t = Some w.
Proof.
  intros Ht. apply lookup_lt_is_Some_2. rewrite <- (length_fmap w_wire), Hws, length_fmap, length_seqZ. lia.
Qed.

(** What arrives is a datagram of one of the threads, whole. *)
Lemma seen d : d ∈ delivered ids batches →
  ∃ t x, 0 ≤ t < threads ∧ d = numbered (client_base t len0) x ∧ seq_ok x
    ∧ header (server_blen len1) d = Some (t, x) ∧ reported (server_blen len1) d = Z.max len0 HDR
    ∧ payload_sid d = t ∧ payload_seq d = x.
Proof.
  intros Hd. destruct (un_real _ _ _ Hnet d Hd) as (i & w & Hi & Hw).
  destruct (worker_wire i w Hi) as [Ew Hlt]. rewrite Ew in Hw. apply list_elem_of_fmap in Hw as (x & -> & Hx).
  pose proof (proj1 (nums_ok (Z.of_nat i))) as Hok. rewrite Forall_forall in Hok. specialize (Hok x Hx).
  assert (is_u64 x) as Hx64 by (destruct Hok; split; lia).
  destruct (header_numbered (Z.of_nat i) len0 len1 x) as [E1 E2]; [split; lia|done|done|].
  exists (Z.of_nat i), x. split_and!; try done; [lia|apply payload_sid_numbered; split; lia|].
  apply payload_seq_numbered; [|done]. rewrite length_client_base. unfold HDR. lia.
Qed.

Lemma seen_headers :
  concat ((λ w, arrivals len1 (batches w)) <$> ids)
    = (λ d, (payload_sid d, payload_seq d)) <$> delivered ids batches.
Proof.
  assert (concat ((λ w, arrivals len1 (batches w)) <$> ids) = omap (header (server_blen len1)) (delivered ids batches)) as ->.
  { unfold arrivals, delivered. rewrite omap_concat, <- list_fmap_compose. done. }
  assert (∀ d, d ∈ delivered ids batches → header (server_blen len1) d = Some (payload_sid d, payload_seq d)) as H.
  { intros d Hd. destruct (seen d Hd) as (t & x & _ & _ & _ & -> & _ & -> & ->). done. }
  revert H. generalize (delivered ids batches). intros l H. induction l as [|d l IH]; [done|].
  cbn [omap list_omap]. rewrite (H d) by (by left). rewrite fmap_cons, <- IH; [done|]. intros e He. apply H. by right.
Qed.

Lemma arrival_seen w x : w ∈ ids → x ∈ arrivals len1 (batches w) →
  ∃ d, d ∈ concat (batches w) ∧ d ∈ delivered ids batches ∧ x = (payload_sid d, payload_seq d).
Proof.
  intros Hw (d & Hd & Hx)%list_elem_of_omap. assert (d ∈ delivered ids batches) as Hin.
  { unfold delivered. apply elem_of_concat. exists (concat (batches w)). split; [|done].
    by apply (list_elem_of_fmap_2 (λ w, concat (batches w))). }
  exists d. split_and!; [done|done|]. destruct (seen d Hin) as (t & y & _ & _ & _ & E & _ & -> & ->).
  rewrite E in Hx. by simplify_eq.
Qed.

Lemma seen_batches w : w ∈ ids → batches_ok len1 (seqZ 0 threads) (batches w).
Proof.
  intros Hw. split_and!; [by apply (un_batch _ _ _ Hnet)|..].
  - apply Forall_forall. intros x Hx. destruct (arrival_seen w x Hw Hx) as (d & _ & Hd & ->).
    destruct (seen d Hd) as (t & y & Ht & _ & Hy & _ & _ & -> & ->). split; [split; cbn; lia|done].
  - intros x Hx. destruct (arrival_seen w x Hw Hx) as (d & _ & Hd & ->).
    destruct (seen d Hd) as (t & y & Ht & _ & _ & _ & _ & -> & _). apply elem_of_seqZ. cbn. lia.
Qed.

Lemma seen_socket sid v w : v ∈ ids → w ∈ ids →
  stream sid (arrivals len1 (batches v)) ≠ [] → stream sid (arrivals len1 (batches w)) ≠ [] → v = w.
Proof.
  assert (∀ u, u ∈ ids → stream sid (arrivals len1 (batches u)) ≠ [] →
    ∃ d, d ∈ concat (batches u) ∧ payload_sid d = sid) as H.
  { intros u Hu Hne. unfold stream in Hne. destruct (filter (λ x, x.1 = sid) (arrivals len1 (batches u))) as [|x l] eqn:E; [done|].
    assert (x ∈ filter (λ x, x.1 = sid) (arrivals len1 (batches u))) as Hx by (rewrite E; by left).
    apply list_elem_of_filter in Hx as [Hx1 Hx]. destruct (arrival_seen u x Hu Hx) as (d & Hd & _ & ->). by exists d. }
  intros Hv Hw Hne Hne'. destruct (H v Hv Hne) as (d & Hd & Ed), (H w Hw Hne') as (e & He & Ee).
  apply (un_socket _ _ _ Hnet v w d e); try done. congruence.
Qed.

(** The numbers of a stream, in the order of arrival. *)
Lemma stream_seqs sid ds :
  stream sid ((λ d, (payload_sid d, payload_seq d)) <$> ds) = payload_seq <$> stream_of sid ds.
Proof.
  unfold stream_of. induction ds as [|d ds IH]; [done|]. rewrite fmap_cons.
  destruct (decide (payload_sid d = sid)) as [<-|Hne].
  - rewrite stream_cons_eq, filter_cons_True, fmap_cons by done. by rewrite IH.
  - rewrite stream_cons_ne, filter_cons_False by done. done.
Qed.

(** One stream: the numbers left out and the datagrams lost. *)
Lemma stream_drops t : 0 ≤ t < threads →
  let s := payload_seq <$> stream_of t (delivered ids batches) in
  gaps None s = unsent deadline (env t) + (zlen (nums t) - zlen s) ∧ zlen s ≤ zlen (nums t).
Proof.
  intros Ht. cbv zeta. destruct (thread_worker t Ht) as [w Hi]. destruct (worker_wire _ w Hi) as [Ew _].
  pose proof (un_order _ _ _ Hnet _ w Hi) as Hsub. destruct (un_ends _ _ _ Hnet _ w Hi) as [Hh Hl].
  rewrite Z2Nat.id in * by lia. rewrite Ew in *. destruct (nums_ok t) as [Hok Hsort].
  apply sublist_fmap_inv in Hsub as (l & E & Hsub). rewrite E in *.
  pose proof (length_client_base t len0) as HL. unfold HDR in HL.
  assert (Forall seq_ok l) as Hl'.
  { apply Forall_forall. intros x Hx. rewrite Forall_forall in Hok. apply Hok. by eapply elem_of_sublist. }
  destruct (same_ends (client_base t len0) l (nums t) ltac:(lia) Hl' Hok Hh Hl) as [Hh' Hla].
  rewrite seqs_of_numbered by (done || lia). unfold unsent. split; [by apply gaps_lost|].
  apply sublist_length in Hsub. lia.
Qed.

(** All streams together. *)
Lemma total_drops :
  stream_gaps (seqZ 0 threads) (concat ((λ w, arrivals len1 (batches w)) <$> ids))
    = zsum (λ t, unsent deadline (env t)) (seqZ 0 threads)
      + (zlen (concat (w_wire <$> ws)) - zlen (delivered ids batches))
  ∧ zlen (delivered ids batches) ≤ zlen (concat (w_wire <$> ws)).
Proof.
  rewrite seen_headers. unfold stream_gaps. set (ds := delivered ids batches).
  assert (zsum (λ t, zlen (payload_seq <$> stream_of t ds)) (seqZ 0 threads) = zlen ds) as Egot.
  { rewrite <- (length_fmap (λ d, (payload_sid d, payload_seq d)) ds), <- (stream_total (seqZ 0 threads)).
    - apply zsum_ext. intros t _. by rewrite stream_seqs.
    - apply NoDup_seqZ.
    - intros x (d & -> & Hd)%list_elem_of_fmap. destruct (seen d Hd) as (t & y & Ht & _ & _ & _ & _ & -> & _).
      apply elem_of_seqZ. cbn. lia. }
  assert (zlen (concat (w_wire <$> ws)) = zsum (λ t, zlen (nums t)) (seqZ 0 threads)) as ->.
  { rewrite zlen_concat, Hws, zsum_fmap. apply zsum_ext. intros t _. by rewrite length_fmap. }
  rewrite <- Egot. split.
  - rewrite (zsum_ext _ (λ t, unsent deadline (env t) - (zlen (payload_seq <$> stream_of t ds) - zlen (nums t)))).
    + rewrite zsum_sub, zsum_sub. lia.
    + intros t Ht%elem_of_seqZ. rewrite stream_seqs. destruct (stream_drops t ltac:(lia)) as [E _]. cbv zeta in E. fold ds in E. lia.
  - apply zsum_between. intros t Ht%elem_of_seqZ. apply (stream_drops t). lia.
Qed.

(** The bytes the server counts. *)
Lemma total_bytes : zsum (reported (server_blen len1)) (delivered ids batches) = zlen (delivered ids batches) * Z.max len0 HDR.
Proof.
  assert (∀ d, d ∈ delivered ids batches → reported (server_blen len1) d = Z.max len0 HDR) as H.
  { intros d Hd. by destruct (seen d Hd) as (t & x & _ & _ & _ & _ & E & _). }
  revert H. generalize (delivered ids batches). intros l H. induction l as [|d l IH]; [done|].
  rewrite zsum_cons, (H d), IH by (by left || intros e He; apply H; by right). cbn [length]. lia.
Qed.
End run.

(** ** Properties *)

(** C3: loss, end to end, for whole engines.  Every thread of [udp_client] on
    one host and of [udp_server] on the other, each engine in any schedule,
    with a network between them that keeps to [udp_network]: the client's
    summary is the datagrams that left and their bytes; the server, on CPUs
    that [CPU_SET] takes, starts without a panic, and once its threads have
    worked off what arrived its counters are the datagrams that arrived, their
    bytes, and exactly the datagrams the network lost plus the numbers the
    client left out between its first and last ones.  When every [sendmmsg]
    took its whole batch, the two programs' figures add up: the client's
    packets are the server's packets and drops. *)
Theorem udp_run_exact {L L' : CpuSets} `{!CpuSetsOk L'} p cpus threads duration len0 target now env (ws : list worker) e b q
    p' cpus' len1 batches :
  64 * Z.max len0 HDR < 2 ^ 64 → Z.max len0 HDR ≤ Z.max len1 2048 → threads < 2 ^ 64 →
  (∀ t, client_env_ok (env t)) → cpus_fit cpus' →
  udp_client (L:=L) p cpus threads duration len0 target now env = Ok ws →
  rtc (step p true) (engine_init (w_atoms <$> ws)) e → e_main e = MDone b q →
  let ids := seqZ 0 (server_workers cpus') in
  udp_network ws ids batches →
  let sent := zlen (concat (w_wire <$> ws)) in
  let got := zlen (delivered ids batches) in
  let left_out := zsum (λ t, unsent (now + duration * SEC) (env t)) (seqZ 0 threads) in
  q = wrap 64 sent ∧ b = wrap 64 (sent * Z.max len0 HDR)
  ∧ ∃ rs, udp_server (L:=L') p' cpus' len1 batches = Ok rs
    ∧ ∀ e', rtc (step p' true) (engine_init (w_atoms <$> rs)) e' → Forall (λ w, w = []) (e_workers e') →
      e_counters e' = mkCounters (wrap 64 (got * Z.max len0 HDR)) (wrap 64 got) (wrap 64 (sent - got + left_out))
      ∧ ((∀ t, Forall (λ ev, se_ret ev = 64) (ue_loop (env t))) → sent < 2 ^ 64 →
         q = packets (e_counters e') + drops (e_counters e')).
Proof.
  intros Hml Hfit Hth Henv Hcpus Hc Hrun Hm ids Hnet sent got left_out. unfold udp_client, instant_add in Hc.
  destruct (_ <? _); [|done]. cbn [mbind res_bind] in Hc. apply res_bind_inv in Hc as (pps & _ & Hc).
  destruct (udp_client_threads p cpus threads len0 pps (now + duration * SEC) env ws Hml Henv Hc)
    as (_ & Hw & Hp & Hb & _).
  destruct (summary_totals p true _ e b q Hrun Hm) as [-> ->]. rewrite Hp, Hb. fold sent.
  split; [done|]. split; [done|].
  destruct (udp_server_totals (L:=L') p' cpus' len1 (seqZ 0 threads) batches) as (rs & Hrs & _ & Hend).
  - exact Hcpus.
  - apply NoDup_seqZ.
  - intros w Hwi. by eapply seen_batches.
  - intros sid v w Hv Hwi. by eapply seen_socket.
  - exists rs. split; [done|]. intros e' Hrun' Hdone. rewrite (Hend e' Hrun' Hdone).
    change (concat ((λ w, concat (batches w)) <$> seqZ 0 (server_workers cpus'))) with (delivered ids batches).
    cbv zeta in Hend. change (seqZ 0 (server_workers cpus')) with ids.
    destruct (total_drops len0 len1 (now + duration * SEC) threads env Hfit Hth Henv ws Hw ids batches Hnet) as [-> Hle].
    fold sent got in Hle.
    rewrite (total_bytes len0 len1 (now + duration * SEC) threads env Hfit Hth Henv ws Hw ids batches Hnet).
    fold sent got left_out. split; [f_equal; f_equal; lia|]. intros Hfull Hlt.
    assert (left_out = 0) as ->. { apply zsum_zero. intros t _. by apply unsent_complete. }
    cbn [packets drops]. rewrite !wrap_small by (split; lia). lia.
Qed.

(** Two threads of one batch each, to one socket each; the sixth datagram of
    the first is lost. *)
Definition full_env (t : Z) : udp_env := UdpEnv true true 0 [SendEnv 1 64 2 2; SendEnv SEC 64 0 0].
Definition demo_wire (t : Z) : list (list Z) := numbered (client_base t 32) <$> seqZ 0 64.
Definition lossy_batches (w : Z) : list (list (list Z)) :=
  if w =? 0 then [take 5 (demo_wire 0); drop 6 (demo_wire 0)] else if w =? 1 then [demo_wire 1] else [].

Lemma lossy_batch w : w ∈ [0; 1] →
  Forall (λ ds, (length ds ≤ BATCH)%nat) (lossy_batches w)
  ∧ Forall (λ d, payload_sid d = w) (concat (lossy_batches w))
  ∧ concat (lossy_batches w) `sublist_of` demo_wire w
  ∧ head (concat (lossy_batches w)) = head (demo_wire w) ∧ last (concat (lossy_batches w)) = last (demo_wire w)
  ∧ stream_of w (delivered [0; 1] lossy_batches) = concat (lossy_batches w).
Proof.
  intros [->|[->|H]%elem_of_cons]%elem_of_cons; [..|by apply elem_of_nil in H].
  - split_and!; [apply (bool_decide_unpack _); vm_compute; exact I|apply (bool_decide_unpack _); vm_compute; exact I
      | |vm_compute; reflexivity..].
    change (concat (lossy_batches 0)) with (take 5 (demo_wire 0) ++ (drop 6 (demo_wire 0) ++ [])). rewrite app_nil_r.
    rewrite <- (take_drop 5 (demo_wire 0)) at 3. apply sublist_app; [done|].
    change (drop 6 (demo_wire 0)) with (drop 1 (drop 5 (demo_wire 0))). apply sublist_drop.
  - split_and!; [apply (bool_decide_unpack _); vm_compute; exact I|apply (bool_decide_unpack _); vm_compute; exact I
      | |vm_compute; reflexivity..].
    change (concat (lossy_batches 1)) with (demo_wire 1 ++ []). by rewrite app_nil_r.
Qed.

Lemma lossy_network ws : w_wire <$> ws = demo_wire <$> [0; 1] → udp_network ws [0; 1] lossy_batches.
Proof.
  intros Hw. assert (∀ i w, ws !! i = Some w → Z.of_nat i ∈ [0; 1] ∧ w_wire w = demo_wire (Z.of_nat i)) as H.
  { intros i w Hi. pose proof (f_equal (.!! i) Hw) as E. rewrite !list_lookup_fmap, Hi in E.
    destruct ([0; 1] !! i) as [t|] eqn:Et; [|done].
    change (Some (w_wire w) = Some (demo_wire t)) in E. injection E as E.
    assert (t = Z.of_nat i) as -> by (destruct i as [|[|i]]; cbn in Et; by simplify_eq).
    split; [by eapply list_elem_of_lookup_2|done]. }
  assert (∀ v, v ∈ [0; 1] → ∃ i w, ws !! i = Some w ∧ w_wire w = demo_wire v) as H'.
  { intros v Hv. pose proof (f_equal (.!! Z.to_nat v) Hw) as E. rewrite !list_lookup_fmap in E.
    assert ([0; 1] !! Z.to_nat v = Some v) as Ev.
    { apply elem_of_cons in Hv as [->|[->|Hv]%elem_of_cons]; [done..|by apply elem_of_nil in Hv]. }
    rewrite Ev in E. destruct (ws !! Z.to_nat v) as [w|] eqn:Ew; [|done].
    change (Some (w_wire w) = Some (demo_wire v)) in E. injection E as E. by do 2 eexists. }
  split.
  - intros w Hwi. by apply lossy_batch.
  - intros d (l & (v & -> & Hv)%list_elem_of_fmap & Hd)%elem_of_concat.
    destruct (H' v Hv) as (i & w & Hi & Ew). exists i, w. split; [done|]. rewrite Ew.
    destruct (lossy_batch v Hv) as (_ & _ & Hs & _). by eapply elem_of_sublist.
  - intros i w Hi. destruct (H i w Hi) as [Hin ->]. by destruct (lossy_batch _ Hin) as (_ & _ & Hs & _ & _ & ->).
  - intros i w Hi. destruct (H i w Hi) as [Hin ->]. by destruct (lossy_batch _ Hin) as (_ & _ & _ & Hh & Hl & ->).
  - intros v w d e Hv Hwi Hd He E. destruct (lossy_batch v Hv) as (_ & H1 & _), (lossy_batch w Hwi) as (_ & H2 & _).
    rewrite Forall_forall in H1, H2. by rewrite <- (H1 d Hd), <- (H2 e He).
Qed.

Lemma udp_run_exact_witness :
  ∃ ws rs, udp_client (L:=bit_sets 4) Release [3] 2 1 32 0 0 full_env = Ok ws ∧ udp_server (L:=bit_sets 6) Debug [4; 5] 32 lossy_batches = Ok rs
  ∧ ∀ e b q e', rtc (step Release true) (engine_init (w_atoms <$> ws)) e → e_main e = MDone b q →
      rtc (step Debug true) (engine_init (w_atoms <$> rs)) e' → Forall (λ w, w = []) (e_workers e') →
      q = 128 ∧ e_counters e' = mkCounters 4064 127 1 ∧ q = packets (e_counters e') + drops (e_counters e').
Proof.
  destruct (udp_client (L:=bit_sets 4) Release [3] 2 1 32 0 0 full_env) as [ws| |] eqn:E; [|exfalso; vm_compute in E; discriminate..].
  assert (w_wire <$> ws = demo_wire <$> [0; 1]) as Hw.
  { apply (f_equal (λ r, match r with Ok ws => w_wire <$> ws | _ => [] end)) in E. rewrite <- E. vm_compute. reflexivity. }
  assert (∀ t, client_env_ok (full_env t)) as Henv by (intros t; split; apply (bool_decide_unpack _); vm_compute; exact I).
  pose proof (engine_finishes Release true (w_atoms <$> ws)) as Hfin.
  assert (64 * Z.max 32 HDR < 2 ^ 64) as Hml by (vm_compute; reflexivity).
  assert (Z.max 32 HDR ≤ Z.max 32 2048) as Hfit by (vm_compute; discriminate).
  assert (cpus_fit [4; 5]) as Hcpus by (apply (bool_decide_unpack _); vm_compute; exact I).
  assert (2 < 2 ^ 64) as Hth by (vm_compute; reflexivity).
  pose proof (λ e b q Hr Hm, @udp_run_exact (bit_sets 4) (bit_sets 6) (bit_sets_ok 6) Release [3] 2 1 32 0 0 full_env ws e b q Debug [4; 5] 32 lossy_batches
    Hml Hfit Hth Henv Hcpus E Hr Hm (lossy_network ws Hw)) as H. cbv zeta in H. rewrite Hw in H.
  destruct (H _ _ _ Hfin eq_refl) as (_ & _ & rs & Hrs & _). exists ws, rs. split; [reflexivity|]. split; [exact Hrs|].
  intros e b q e' Hr Hm Hr' Hd. destruct (H e b q Hr Hm) as (Hq & _ & rs' & Hrs' & Hend).
  rewrite Hrs in Hrs'. injection Hrs' as <-. destruct (Hend e' Hr' Hd) as (Hc & Hsum). split; [|split].
  - rewrite Hq. vm_compute. reflexivity.
  - rewrite Hc. vm_compute. reflexivity.
  - apply Hsum; [|vm_compute; reflexivity]. intros t. repeat constructor.
Defined.
