(* ===== verification/RxSteps.v ===== *)
(** * The sink, step by step ([src/xdp/sink.rs])

    [rx_loop] as a state machine: one ring operation, one [fetch_add] or one
    look at the clock per step, with the kernel delivering frames and taking
    chunks between any two of them, and the other workers running meanwhile
    ([Share]).  Where [Sink] drains the ring against a kernel that acts once
    per iteration, here the kernel may write into every chunk it owns while
    the program reads the others. *)

From S2P Require Import Prelude Ring Frame Loss Gen Sink Wire Net Threads Share Engine.

(** ** The program *)

(** Where a worker is: at the loop test, before [poll], before the drain,
    before either [fetch_add] of the next frame, before its sequence number is
    noted, before the chunks are given back, or out of the loop. *)
Inductive spc : Type :=
| STest
| SPoll
| SConsume
| SBytes (todo : list XdpDesc) (recycle : list Z)
| SPackets (d : XdpDesc) (todo : list XdpDesc) (recycle : list Z)
| SNote (d : XdpDesc) (todo : list XdpDesc) (recycle : list Z)
| SEnqueue (recycle : list Z)
| SDone.

#[export] Instance spc_eq_dec : EqDecision spc.
Proof. solve_decision. Defined.

(** A worker's locals and its half of the socket. *)
Record sloc : Type := SLoc {
  sl_pc : spc;
  sl_sock : RxSock;
  sl_last : gmap Z Z;
}.

Definition sl_at (l : sloc) (pc : spc) : sloc := SLoc pc (sl_sock l) (sl_last l).

Definition sl_with_sock (l : sloc) (s : RxSock) : sloc := SLoc (sl_pc l) s (sl_last l).

(** The sequence header of a frame, when it is long enough to have one, and
    what noting it adds. *)
Definition note_frame (p : profile) (last_seq : gmap Z Z) (frame : list Z) : res (gmap Z Z * list atom) :=
  if HDRS + 16 <=? zlen frame then
    let b := drop (Z.to_nat HDRS) frame in
    note_seq_atoms p last_seq (payload_sid b) (payload_seq b)
  else Ok (last_seq, []).

Section program.
Context (p : profile) (deadline : Z).

(** One step; [run] and [now] are the flag and the clock where the step
    reads them. *)
Definition sink_step (run : bool) (now : Z) (l : sloc) : res (sloc * option atom) :=
  let s := sl_sock l in
  match sl_pc l with
  | STest => Ok (sl_at l (if run && (now <? deadline) then SPoll else SDone), None)
  | SPoll => Ok (sl_at l SConsume, None)
  | SConsume =>
      '(descs, rx') ← consume_rx (rs_rx s);
      Ok (SLoc (match descs with [] => STest | _ => SBytes descs [] end)
            (mkRxSock (rs_fd s) rx' (rs_fill s) (rs_area s)) (sl_last l), None)
  | SBytes [] recycle => Ok (sl_at l (SEnqueue recycle), None)
  | SBytes (d :: todo) recycle =>
      (* from_raw_parts(sock.umem.ptr_at(desc.addr), len) *)
      if decide (in_area (rs_area s) d) then
        Ok (sl_at l (SPackets d todo recycle), Some (AddBytes (desc_len d)))
      else Undefined
  | SPackets d todo recycle => Ok (sl_at l (SNote d todo recycle), Some (AddPackets 1))
  | SNote d todo recycle =>
      '(last_seq, ds) ← note_frame p (sl_last l) (frame_at (rs_area s) d);
      Ok (SLoc (SBytes todo (recycle ++ [desc_addr d])) s last_seq, head ds)
  | SEnqueue recycle =>
      '(_, fill') ← enqueue_batch (rs_fill s) recycle;
      Ok (SLoc STest (mkRxSock (rs_fd s) (rs_rx s) fill' (rs_area s)) (sl_last l), None)
  | SDone => Ok (l, None)
  end.
End program.

(** [rx_loop] up to its first test. *)
Definition sink_init (s : RxSock) : sloc := SLoc STest s ∅.

(** ** A worker and the kernel *)

(** AF_XDP's receive side between two states of the socket: entries leave
    the fill ring oldest first; each chunk taken is still held or was
    delivered at the end of the RX ring, as a descriptor inside the chunk; the
    kernel writes into no chunk but those. *)
Definition rx_kernel_step (kr kf : Z) (s : RxSock) (held : list Z) (s' : RxSock) (held' : list Z) : Prop :=
  ∀ qr qf,
    ring_rep kr (rs_rx s) qr → ring_rep kf (rs_fill s) qf → zlen qr + zlen qf + zlen held ≤ 2 ^ kr →
    ∃ taken qf' dl,
      qf = taken ++ qf'
      ∧ held ++ (chunk <$> taken) ≡ₚ held' ++ (desc_chunk <$> dl)
      ∧ ring_rep kf (rs_fill s') qf'
      ∧ ring_rep kr (rs_rx s') (qr ++ dl)
      ∧ Forall desc_in_chunk dl
      ∧ length (rs_area s') = length (rs_area s)
      ∧ ∀ x : nat, chunk (Z.of_nat x) ∉ held ++ (chunk <$> qf) → rs_area s' !! x = rs_area s !! x.

(** The frames delivered between two states. *)
Definition delivered (s s' : RxSock) : list (list Z) :=
  frame_at (rs_area s') <$> drop (length (ring_contents (rs_rx s))) (ring_contents (rs_rx s')).

(** The chunks the kernel holds; for the statements: the frames it has
    delivered, those the program has accounted for, and the additions made. *)
Record sworker : Type := SWorker {
  sw : sloc;
  sw_held : list Z;
  sw_got : list (list Z);
  sw_seen : list (list Z);
  sw_log : list atom;
}.

Definition sworker_init (l : sloc) : sworker := SWorker l [] [] [] [].

(** The frame a step of the program finishes. *)
Definition finishes (l : sloc) : list (list Z) :=
  match sl_pc l with SNote d _ _ => [frame_at (rs_area (sl_sock l)) d] | _ => [] end.

Section moves.
Context (p : profile) (deadline kr kf : Z).

Inductive smove : sworker → option atom → sworker → Prop :=
| s_prog run now l a l' held got seen log :
    sl_pc l ≠ SDone → sink_step p deadline run now l = Ok (l', a) →
    smove (SWorker l held got seen log) a
      (SWorker l' held got (seen ++ finishes l) (log ++ atoms_of a))
| s_kernel l held s' held' got seen log :
    rx_kernel_step kr kf (sl_sock l) held s' held' →
    smove (SWorker l held got seen log) None
      (SWorker (sl_with_sock l s') held' (got ++ delivered (sl_sock l) s') seen log).

Lemma smove_log w a w' : smove w a w' → sw_log w' = sw_log w ++ atoms_of a.
Proof. destruct 1; cbn; [done|]. by rewrite app_nil_r. Qed.
End moves.

(** ** What the frames add up to *)

(** All additions for a list of frames, in order. *)
Fixpoint frames_atoms (p : profile) (last_seq : gmap Z Z) (fs : list (list Z))
    : res (gmap Z Z * list atom) :=
  match fs with
  | [] => Ok (last_seq, [])
  | f :: fs =>
      '(last_seq, ds) ← note_frame p last_seq f;
      '(last_seq, l) ← frames_atoms p last_seq fs;
      Ok (last_seq, AddBytes (zlen f) :: AddPackets 1 :: ds ++ l)
  end.

(** The sequence headers of a list of frames. *)
Definition frame_arrival (f : list Z) : option (Z * Z) :=
  if HDRS + 16 <=? zlen f then Some (frame_sid f, frame_num f) else None.

Lemma frames_atoms_snoc p fs f : ∀ last last1 l1 last2 ds,
  frames_atoms p last fs = Ok (last1, l1) → note_frame p last1 f = Ok (last2, ds) →
  frames_atoms p last (fs ++ [f]) = Ok (last2, l1 ++ AddBytes (zlen f) :: AddPackets 1 :: ds).
Proof.
  induction fs as [|g fs IH]; intros last last1 l1 last2 ds H1 H2; cbn [frames_atoms app] in *.
  - simplify_eq. rewrite H2. cbn [mbind res_bind]. by rewrite app_nil_r.
  - destruct (note_frame p last g) as [[last' dg]| |]; cbn [mbind res_bind] in *; [|done..].
    destruct (frames_atoms p last' fs) as [[last'' l]| |] eqn:E; cbn [mbind res_bind] in *; [|done..].
    simplify_eq. rewrite (IH _ _ _ _ _ E H2). cbn [mbind res_bind app]. by rewrite <- app_assoc.
Qed.

(** Frames and bytes are counted one by one. *)
Lemma frames_atoms_counts p fs : ∀ last last' l,
  frames_atoms p last fs = Ok (last', l) →
  zsum p_of l = zlen fs ∧ zsum b_of l = zsum (λ f, zlen f) fs.
Proof.
  induction fs as [|f fs IH]; intros last last' l H; cbn [frames_atoms] in H; [by simplify_eq|].
  apply res_bind_inv in H as ([last1 ds] & H1 & H). apply res_bind_inv in H as ([last2 k] & H2 & H). simplify_eq.
  destruct (IH _ _ _ H2) as [Hp Hb]. rewrite !zsum_cons, !zsum_app, Hp, Hb. cbn [p_of b_of length].
  assert (zsum p_of ds = 0 ∧ zsum b_of ds = 0) as [-> ->]; [|lia].
  unfold note_frame, note_seq_atoms in H1. destruct (_ <=? _); [|by simplify_eq].
  destruct (last !! _); [|by simplify_eq]. apply res_bind_inv in H1 as (d & _ & H1). simplify_eq.
  by destruct (d =? 0).
Qed.

(** The drops are the gaps of each stream. *)
Lemma frames_atoms_drops p sids fs : ∀ last,
  NoDup sids → (∀ x, x ∈ omap frame_arrival fs → x.1 ∈ sids) → Forall good_arrival (omap frame_arrival fs) →
  (∀ i s, last !! i = Some s → seq_ok s) →
  ∃ last' l, frames_atoms p last fs = Ok (last', l)
    ∧ zsum d_of l = zsum (λ sid, gaps (last !! sid) (stream sid (omap frame_arrival fs))) sids.
Proof.
  induction fs as [|f fs IH]; intros last Hnd Hin Hg Hl.
  { exists last, []. split; [done|]. symmetry. by apply zsum_zero. }
  assert (omap frame_arrival (f :: fs) =
    if HDRS + 16 <=? zlen f then (frame_sid f, frame_num f) :: omap frame_arrival fs else omap frame_arrival fs) as Eo
    by (cbn [omap list_omap]; unfold frame_arrival at 1; by destruct (_ <=? _)).
  rewrite Eo in *. clear Eo. cbn [frames_atoms]. unfold note_frame.
  destruct (HDRS + 16 <=? zlen f).
  - apply Forall_cons in Hg as [[Hsid Hs] Hg]. cbn [fst snd] in *.
    change (Z.to_nat HDRS) with 42%nat. fold (frame_sid f) (frame_num f).
    edestruct (IH (<[frame_sid f := frame_num f]> last)) as (last' & l & E & Ed); [done|set_solver|done|..].
    { intros i s' Hi. apply lookup_insert_Some in Hi as [[_ <-]|[_ Hi]]; eauto. }
    assert (∃ ds, note_seq_atoms p last (frame_sid f) (frame_num f) = Ok (<[frame_sid f := frame_num f]> last, ds)
      ∧ zsum d_of ds = gaps (last !! frame_sid f) [frame_num f]) as (ds & -> & Eds).
    { unfold note_seq_atoms. destruct (last !! frame_sid f) as [q|] eqn:Eq; [|by eexists].
      rewrite gap_exact; [|eauto|by apply seq_ok_u64]. cbn [mbind res_bind]. eexists. split; [done|].
      cbn [gaps]. destruct (Z.eqb_spec (Z.max 0 (frame_num f - q - 1)) 0) as [->|]; [done|]. cbn. lia. }
    cbn [mbind res_bind]. rewrite E. cbn [mbind res_bind]. do 2 eexists. split; [done|].
    rewrite !zsum_cons, zsum_app, Ed, Eds. cbn [d_of].
    rewrite (zsum_update (λ i, gaps (last !! i) (stream i ((frame_sid f, frame_num f) :: omap frame_arrival fs)))
      (λ i, gaps (<[frame_sid f:=frame_num f]> last !! i) (stream i (omap frame_arrival fs))) sids (frame_sid f)
      (gaps (last !! frame_sid f) [frame_num f])); [lia|done| | |].
    + apply (Hin (frame_sid f, frame_num f)). set_solver.
    + rewrite stream_cons_eq, lookup_insert_eq. cbn [gaps]. lia.
    + intros i Hi. by rewrite stream_cons_ne, lookup_insert_ne.
  - cbn [mbind res_bind]. destruct (IH last Hnd Hin Hg Hl) as (last' & l & -> & Ed). cbn [mbind res_bind].
    do 2 eexists. split; [done|]. rewrite !zsum_cons. cbn [d_of app]. exact Ed.
Qed.

Lemma note_frame_release last f : ∃ r, note_frame Release last f = Ok r.
Proof.
  unfold note_frame. destruct (_ <=? _); [|by eexists]. unfold note_seq_atoms.
  destruct (last !! _) as [q|]; [|by eexists].
  unfold gap. rewrite (arith_release 64 (q + 1)) by lia. cbn [mbind res_bind].
  destruct (_ <? _); [|by eexists].
  rewrite arith_release by lia. cbn [mbind res_bind]. rewrite arith_release by lia. by eexists.
Qed.

(** Noting adds at most one atom. *)
Lemma note_frame_atom p last f last' ds : note_frame p last f = Ok (last', ds) → atoms_of (head ds) = ds.
Proof.
  unfold note_frame, note_seq_atoms. destruct (_ <=? _); [|by intros [= <- <-]].
  destruct (last !! _); [|by intros [= <- <-]]. intros H. apply res_bind_inv in H as (d & _ & H). simplify_eq.
  by destruct (d =? 0).
Qed.

(** Good frames are never a panic, in either profile. *)
Lemma note_frame_good p fs f last l :
  frames_atoms p ∅ fs = Ok (last, l) → Forall good_arrival (omap frame_arrival (fs ++ [f])) →
  ∃ r, note_frame p last f = Ok r.
Proof.
  intros H Hg. set (arrs := omap frame_arrival (fs ++ [f])) in *.
  destruct (frames_atoms_drops p (remove_dups arrs.*1) (fs ++ [f]) ∅) as (last' & l' & E & _).
  - apply NoDup_remove_dups.
  - intros x Hx. apply elem_of_remove_dups. by apply list_elem_of_fmap_2.
  - done.
  - intros i s Hi. by rewrite lookup_empty in Hi.
  - clear Hg arrs. revert last l last' l' H E. generalize (∅ : gmap Z Z) as last0.
    induction fs as [|g fs IH]; intros last0 last l last' l' H E; cbn [frames_atoms app] in *.
    + simplify_eq. destruct (note_frame p last f); [by eexists|done..].
    + destruct (note_frame p last0 g) as [[last1 dg]| |]; cbn [mbind res_bind] in *; [|done..].
      destruct (frames_atoms p last1 fs) as [[last2 k]| |] eqn:E1; cbn [mbind res_bind] in *; [|done..].
      destruct (frames_atoms p last1 (fs ++ [f])) as [[last3 k']| |] eqn:E2; cbn [mbind res_bind] in *; [|done..].
      simplify_eq. by eapply IH.
Qed.

(** ** Lemmas: one worker *)

(** The descriptors a worker has drained and not finished, the chunks it has
    finished and not given back, and the additions it has made for the frame
    it is at. *)
Definition user_descs (pc : spc) : list XdpDesc :=
  match pc with SBytes todo _ => todo | SPackets d todo _ | SNote d todo _ => d :: todo | _ => [] end.
Definition user_addrs (pc : spc) : list Z :=
  match pc with SBytes _ r | SPackets _ _ r | SNote _ _ r | SEnqueue r => r | _ => [] end.
Definition partial (pc : spc) : list atom :=
  match pc with
  | SPackets d _ _ => [AddBytes (desc_len d)]
  | SNote d _ _ => [AddBytes (desc_len d); AddPackets 1]
  | _ => []
  end.

Section worker.
Context (p : profile) (deadline kr kf : Z) (frames : list Z).
Context (Hnd : NoDup frames) (Hcapr : zlen frames ≤ 2 ^ kr) (Hcapf : zlen frames ≤ 2 ^ kf).

(** Who owns which chunk, and where the delivered frames are: accounted for,
    drained, or in the RX ring, in the order of delivery. *)
Definition sown (w : sworker) (qr : list XdpDesc) (qf : list Z) : Prop :=
  let pc := sl_pc (sw w) in
  let s := sl_sock (sw w) in
  ring_rep kr (rs_rx s) qr ∧ ring_rep kf (rs_fill s) qf
  ∧ (desc_chunk <$> user_descs pc ++ qr) ++ (chunk <$> user_addrs pc ++ qf) ++ sw_held w ≡ₚ frames
  ∧ Forall desc_in_chunk (user_descs pc ++ qr)
  ∧ sw_got w = sw_seen w ++ (frame_at (rs_area s) <$> user_descs pc ++ qr).

Record sinv (w : sworker) : Prop := {
  si_own : ∃ qr qf, sown w qr qf;
  si_frames : ∀ a, a ∈ frames → 0 ≤ a ∧ a + FRAME_SIZE ≤ zlen (rs_area (sl_sock (sw w)));
  si_log : ∃ l, frames_atoms p ∅ (sw_seen w) = Ok (sl_last (sw w), l) ∧ sw_log w = l ++ partial (sl_pc (sw w));
}.

(** A descriptor inside one of the chunks. *)
Lemma desc_inside area d :
  (∀ a, a ∈ frames → 0 ≤ a ∧ a + FRAME_SIZE ≤ zlen area) → desc_chunk d ∈ frames → desc_in_chunk d →
  in_area area d ∧ zlen (frame_at area d) = desc_len d
  ∧ ∀ x, desc_addr d ≤ x < desc_addr d + desc_len d → chunk x = desc_chunk d.
Proof.
  intros Hfr Hd [Hl0 Hl]. destruct (Hfr _ Hd) as [Hc0 Hc].
  unfold in_area, desc_chunk, chunk, FRAME_SIZE in *.
  pose proof (Z.mul_div_le (desc_addr d) 4096 ltac:(lia)) as Hle. split; [lia|]. split.
  - unfold frame_at. apply length_slice; lia.
  - intros x Hx. f_equal. symmetry. apply (Z.div_unique_pos x 4096 _ (x - 4096 * (desc_addr d / 4096))); lia.
Qed.

(** Reading a descriptor depends on its chunk only. *)
Lemma frame_at_stable area area' d :
  0 ≤ desc_addr d →
  (∀ x : nat, desc_addr d ≤ Z.of_nat x < desc_addr d + desc_len d → area' !! x = area !! x) →
  frame_at area' d = frame_at area d.
Proof.
  intros H0 H. unfold frame_at. apply list_eq. intros i. rewrite !lookup_slice by done.
  case_decide; [|done]. apply H. lia.
Qed.

Lemma sown_desc w qr qf d : sinv w → sown w qr qf → d ∈ user_descs (sl_pc (sw w)) ++ qr →
  in_area (rs_area (sl_sock (sw w))) d ∧ zlen (frame_at (rs_area (sl_sock (sw w))) d) = desc_len d
  ∧ ∀ x, desc_addr d ≤ x < desc_addr d + desc_len d → chunk x = desc_chunk d.
Proof.
  intros Hi (_ & _ & HP & Hds & _) Hd. apply desc_inside; [apply (si_frames _ Hi)| |].
  - rewrite <- HP. apply elem_of_app. left. by apply list_elem_of_fmap_2.
  - rewrite Forall_forall in Hds. by apply Hds.
Qed.

(** The kernel's turn: it delivers into chunks of its own, so what the
    program holds keeps its contents. *)
Lemma sinv_kernel l held s' held' got seen log :
  rx_kernel_step kr kf (sl_sock l) held s' held' → sinv (SWorker l held got seen log) →
  sinv (SWorker (sl_with_sock l s') held' (got ++ delivered (sl_sock l) s') seen log).
Proof.
  intros Hk Hi. destruct (si_own _ Hi) as (qr & qf & Ho). pose proof Ho as (Hr & Hf & HP & Hds & Hg).
  cbn [sw sw_held sw_got sw_seen sw_log] in *.
  pose proof (Permutation_length HP) as HL. rewrite !length_app, !length_fmap, !length_app in HL.
  destruct (Hk qr qf Hr Hf) as (tk & qf' & dl & -> & HP' & Rf & Rr & Hdl & Ha & Hw); [lia|].
  split; cbn [sw sw_held sw_got sw_seen sw_log sl_with_sock sl_pc sl_sock sl_last].
  - exists (qr ++ dl), qf'. unfold sown. cbn [sw sw_held sw_got sw_seen sl_with_sock sl_pc sl_sock].
    split_and!; [done|done| | |].
    + rewrite <- HP, !fmap_app.
      transitivity ((desc_chunk <$> user_descs (sl_pc l)) ++ (desc_chunk <$> qr) ++
        (chunk <$> user_addrs (sl_pc l)) ++ (chunk <$> qf') ++ (held' ++ (desc_chunk <$> dl)));
        [solve_Permutation|]. rewrite <- HP'. solve_Permutation.
    + rewrite app_assoc. by apply Forall_app.
    + unfold delivered. rewrite (ring_contents_rep kr _ _ Hr), (ring_contents_rep kr _ _ Rr), drop_app_length.
      rewrite app_assoc, fmap_app, app_assoc. f_equal. rewrite Hg. f_equal.
      apply list_fmap_ext. intros i d Hd. apply list_elem_of_lookup_2 in Hd.
      destruct (sown_desc _ _ _ d Hi Ho Hd) as ([H0 _] & _ & Hx). cbn [sw] in *. symmetry.
      apply frame_at_stable; [done|]. intros x Hxr. apply Hw. rewrite (Hx _ Hxr). intros Hin.
      rewrite <- HP in Hnd. apply NoDup_app in Hnd as (_ & Hdis & _).
      apply (Hdis (desc_chunk d)); [by apply list_elem_of_fmap_2|].
      rewrite fmap_app. apply elem_of_app in Hin as [Hin|Hin]; rewrite !elem_of_app; [by right|].
      left. by right.
  - rewrite Ha. apply (si_frames _ Hi).
  - apply (si_log _ Hi).
Qed.

(** The other program points: the same descriptors, one addition more. *)
Lemma sinv_keep l l' held got seen log a :
  sinv (SWorker l held got seen log) →
  sl_sock l' = sl_sock l → sl_last l' = sl_last l →
  user_descs (sl_pc l') = user_descs (sl_pc l) → user_addrs (sl_pc l') = user_addrs (sl_pc l) →
  partial (sl_pc l') = partial (sl_pc l) ++ atoms_of a →
  sinv (SWorker l' held got seen (log ++ atoms_of a)).
Proof.
  intros [(qr & qf & Ho) Hfr (k & Ek & El)] E1 E2 E3 E4 E5. cbn [sw sw_held sw_got sw_seen sw_log] in *.
  unfold sown in Ho. cbn [sw sw_held sw_got sw_seen sw_log] in Ho.
  split; unfold sown; cbn [sw sw_held sw_got sw_seen sw_log]; rewrite ?E1, ?E2, ?E3, ?E4, ?E5.
  - by exists qr, qf.
  - done.
  - exists k. split; [done|]. by rewrite El, app_assoc.
Qed.

(** A drain takes everything the ring holds. *)
Lemma sinv_consume run now l l' a held got seen log :
  sl_pc l = SConsume → sink_step p deadline run now l = Ok (l', a) →
  sinv (SWorker l held got seen log) → sinv (SWorker l' held got seen (log ++ atoms_of a)).
Proof.
  intros Epc Hs [(qr & qf & Hr & Hf & HP & Hds & Hg) Hfr Hl].
  cbn [sw sw_held sw_got sw_seen sw_log] in *. unfold sink_step in Hs. rewrite Epc in *.
  cbn [user_descs user_addrs partial app] in *.
  destruct (drain_rep kr (rs_rx (sl_sock l)) qr Hr) as (rx' & Ec & Hr'). rewrite Ec in Hs.
  cbn [mbind res_bind] in Hs. simplify_eq. cbn [atoms_of]. rewrite app_nil_r.
  split; cbn [sw sw_held sw_got sw_seen sw_log sl_pc sl_sock sl_last rs_area]; [|done|].
  - exists [], qf. unfold sown. cbn [sw sw_held sw_got sw_seen sl_pc sl_sock rs_rx rs_fill rs_area].
    destruct qr; cbn [user_descs user_addrs app]; rewrite ?app_nil_r; done.
  - destruct Hl as (k & Ek & El). exists k. by destruct qr.
Qed.

(** A frame is finished: its chunk is kept for the fill ring. *)
Lemma sinv_note run now l l' a d todo r held got seen log :
  sl_pc l = SNote d todo r → sink_step p deadline run now l = Ok (l', a) →
  sinv (SWorker l held got seen log) →
  sinv (SWorker l' held got (seen ++ [frame_at (rs_area (sl_sock l)) d]) (log ++ atoms_of a)).
Proof.
  intros Epc Hs Hi. destruct (si_own _ Hi) as (qr & qf & Ho).
  destruct (sown_desc _ _ _ d Hi Ho) as (_ & Hlen & _); [cbn [sw]; rewrite Epc; by left|].
  destruct Ho as (Hr & Hf & HP & Hds & Hg). destruct Hi as [_ Hfr (k & Ek & El)].
  cbn [sw sw_held sw_got sw_seen sw_log] in *. unfold sink_step in Hs. rewrite Epc in *.
  cbn [user_descs user_addrs partial app] in *.
  apply res_bind_inv in Hs as ([last' ds] & Hn & Hs). simplify_eq.
  rewrite (note_frame_atom _ _ _ _ _ Hn).
  split; cbn [sw sw_held sw_got sw_seen sw_log sl_pc sl_sock sl_last]; [|done|].
  - exists qr, qf. unfold sown. cbn [sw sw_held sw_got sw_seen sl_pc sl_sock user_descs user_addrs].
    split_and!; [done|done| | |].
    + rewrite <- HP. rewrite fmap_cons, !fmap_app. change (chunk <$> [desc_addr d]) with [desc_chunk d]. solve_Permutation.
    + by apply Forall_cons in Hds as [_ ?].
    + by rewrite fmap_cons, <- app_assoc.
  - eexists. split; [by eapply frames_atoms_snoc|]. cbn [partial]. rewrite app_nil_r, Hlen, <- app_assoc. done.
Qed.

(** The chunks go back to the fill ring: all of them, although the result
    of [enqueue_batch] is not looked at. *)
Lemma sinv_enqueue run now l l' a r held got seen log :
  sl_pc l = SEnqueue r → sink_step p deadline run now l = Ok (l', a) →
  sinv (SWorker l held got seen log) → sinv (SWorker l' held got seen (log ++ atoms_of a)).
Proof.
  intros Epc Hs [(qr & qf & Hr & Hf & HP & Hds & Hg) Hfr Hl].
  cbn [sw sw_held sw_got sw_seen sw_log] in *. unfold sink_step in Hs. rewrite Epc in *.
  cbn [user_descs user_addrs partial app] in *.
  pose proof (Permutation_length HP) as HL. rewrite !length_app, !length_fmap, length_app in HL.
  destruct (push_rep kf (rs_fill (sl_sock l)) qf r Hf) as (f' & Ec & Hf'). rewrite Ec in Hs.
  rewrite take_ge in Hf' by lia.
  cbn [mbind res_bind] in Hs. simplify_eq. cbn [atoms_of]. rewrite app_nil_r.
  split; cbn [sw sw_held sw_got sw_seen sw_log sl_pc sl_sock sl_last rs_area]; [|done|done].
  exists qr, (qf ++ r). unfold sown. cbn [sw sw_held sw_got sw_seen sl_pc sl_sock rs_rx rs_fill rs_area user_descs user_addrs app].
  split_and!; try done. rewrite <- HP, !fmap_app. solve_Permutation.
Qed.

(** Every step of the program keeps the invariant. *)
Lemma sinv_prog run now l l' a held got seen log :
  sink_step p deadline run now l = Ok (l', a) → sl_pc l ≠ SDone →
  sinv (SWorker l held got seen log) → sinv (SWorker l' held got (seen ++ finishes l) (log ++ atoms_of a)).
Proof.
  intros Hs Hd Hi. unfold finishes.
  destruct (sl_pc l) as [| | |[|d todo] r|d todo r|d todo r|r|] eqn:Epc; try done; rewrite ?app_nil_r.
  3: by eapply sinv_consume.
  6: by eapply sinv_note.
  6: by eapply sinv_enqueue.
  all: unfold sink_step in Hs; rewrite Epc in Hs.
  - simplify_eq. eapply (sinv_keep l _ held got seen log None); try done; unfold sl_at; cbn [sl_pc]; rewrite Epc;
      by destruct (_ && _).
  - simplify_eq. eapply (sinv_keep l _ held got seen log None); try done; unfold sl_at; cbn [sl_pc]; by rewrite Epc.
  - simplify_eq. eapply (sinv_keep l _ held got seen log None); try done; unfold sl_at; cbn [sl_pc]; by rewrite Epc.
  - case_decide; [|done]. simplify_eq.
    eapply (sinv_keep l _ held got seen log (Some _)); try done; unfold sl_at; cbn [sl_pc]; by rewrite Epc.
  - simplify_eq. eapply (sinv_keep l _ held got seen log (Some _)); try done; unfold sl_at; cbn [sl_pc]; by rewrite Epc.
Qed.

(** The program is never stuck: no panic, no read outside the umem.  In the
    debug profile this needs sequence numbers below the last one, whose
    successor overflows. *)
Lemma sinv_progress run now w :
  sinv w → p = Release ∨ Forall good_arrival (omap frame_arrival (sw_got w)) → sl_pc (sw w) ≠ SDone →
  ∃ l' a, sink_step p deadline run now (sw w) = Ok (l', a).
Proof.
  intros Hi Hgood Hd. destruct (si_own _ Hi) as (qr & qf & Ho).
  pose proof (λ d, sown_desc w qr qf d Hi Ho) as Hin. pose proof Ho as (Hr & Hf & _ & _ & Hg).
  unfold sink_step. destruct (sl_pc (sw w)) as [| | |[|d todo] r|d todo r|d todo r|r|] eqn:Epc;
    try done; try (by do 2 eexists).
  - destruct (drain_rep kr _ qr Hr) as (rx' & -> & _). by do 2 eexists.
  - destruct (Hin d) as (Ha & _ & _); [by left|]. rewrite decide_True by done. by do 2 eexists.
  - destruct (si_log _ Hi) as (k & Ek & _).
    assert (∃ x, note_frame p (sl_last (sw w)) (frame_at (rs_area (sl_sock (sw w))) d) = Ok x) as [[last' ds] ->]; [|by do 2 eexists].
    destruct Hgood as [->|Hgood]; [apply note_frame_release|]. eapply note_frame_good; [exact Ek|].
    rewrite Hg in Hgood. cbn [user_descs app] in Hgood. rewrite fmap_cons in Hgood.
    rewrite cons_middle, app_assoc, omap_app in Hgood. by apply Forall_app in Hgood as [? _].
  - destruct (push_rep kf _ qf r Hf) as (f' & -> & _). by do 2 eexists.
Qed.
End worker.

(** ** Lemmas: the sequential loop *)

Section sequential.
Context (p : profile) (deadline : Z).

(** The program alone, with what it adds. *)
Inductive sink_seq : sloc * list atom → sloc * list atom → Prop :=
| sink_seq_step run now l l' a log :
    sink_step p deadline run now l = Ok (l', a) → sink_seq (l, log) (l', log ++ atoms_of a).

(** One step, its addition given as a list. *)
Lemma sink_seq_l l l' a log k x :
  sink_step p deadline false 0 l = Ok (l', a) → log ++ atoms_of a = k → rtc sink_seq (l', k) x → rtc sink_seq (l, log) x.
Proof. intros H <- Hx. eapply rtc_l; [by econstructor|exact Hx]. Qed.

Lemma note_frame_at area d last : in_area area d →
  note_frame p last (frame_at area d) =
    (if HDRS + 16 <=? desc_len d then
       let b := drop (Z.to_nat HDRS) (slice area (desc_addr d) (desc_len d)) in
       note_seq_atoms p last (payload_sid b) (payload_seq b)
     else Ok (last, [])).
Proof.
  intros [H0 H1]. unfold note_frame. fold (frame_at area d).
  assert ((HDRS + 16 <=? zlen (frame_at area d)) = (HDRS + 16 <=? desc_len d)) as ->; [|done].
  unfold frame_at, slice. rewrite length_take, length_drop. apply eq_iff_eq_true. rewrite !Z.leb_le. unfold HDRS. lia.
Qed.

(** The frames of a drain. *)
Lemma frames_steps s : ∀ descs r last c last' c' log,
  rx_frames p (rs_area s) descs last c = Ok (last', c') →
  ∃ k, rtc sink_seq (SLoc (SBytes descs r) s last, log)
      (SLoc (SBytes [] (r ++ (desc_addr <$> descs))) s last', log ++ k)
    ∧ c' = do_atoms k c.
Proof.
  induction descs as [|d descs IH]; intros r last c last' c' log H; cbn [rx_frames] in H.
  { simplify_eq. exists []. rewrite !app_nil_r. split; [apply rtc_refl|done]. }
  apply res_bind_inv in H as ([last1 c1] & Hf & H). unfold rx_frame in Hf. case_decide as Hin; [|done].
  assert (∃ ds, note_frame p last (frame_at (rs_area s) d) = Ok (last1, ds)
    ∧ c1 = do_atoms ds (add_packets 1 (add_bytes (desc_len d) c))) as (ds & En & ->).
  { rewrite note_frame_at by done. destruct (HDRS + 16 <=? desc_len d); [|simplify_eq; by exists []].
    rewrite note_seq_link in Hf. destruct (note_seq_atoms p last _ _) as [[l1 k1]| |]; [|done..].
    cbn [fmap res_fmap fst snd] in Hf. simplify_eq. by exists k1. }
  destruct (IH (r ++ [desc_addr d]) _ _ _ _ (log ++ AddBytes (desc_len d) :: AddPackets 1 :: ds) H) as (k & Hk & ->).
  exists (AddBytes (desc_len d) :: AddPackets 1 :: ds ++ k). split.
  - eapply (sink_seq_l _ (SLoc (SPackets d descs r) s last) (Some (AddBytes (desc_len d)))); [|reflexivity|].
    { unfold sink_step. cbn [sl_pc sl_sock sl_at]. by rewrite decide_True by exact Hin. }
    eapply (sink_seq_l _ (SLoc (SNote d descs r) s last) (Some (AddPackets 1))); [reflexivity|reflexivity|].
    eapply (sink_seq_l _ (SLoc (SBytes descs (r ++ [desc_addr d])) s last1) (head ds)); [|reflexivity|].
    { unfold sink_step. cbn [sl_pc sl_sock sl_last]. by rewrite En. }
    rewrite (note_frame_atom _ _ _ _ _ En), <- !app_assoc in *. cbn [atoms_of app] in *.
    exact Hk.
  - rewrite !do_atoms_cons, do_atoms_app. done.
Qed.

(** An iteration of [Sink]'s loop is a run of the program's steps, from the
    drain to the loop test, that makes the same additions. *)
Lemma rx_iter_steps s last c s' last' c' :
  rx_iter p s last c = Ok (s', last', c') →
  ∃ log, rtc sink_seq (SLoc SConsume s last, []) (SLoc STest s' last', log) ∧ c' = do_atoms log c.
Proof.
  intros H. unfold rx_iter in H. apply res_bind_inv in H as ([descs rx'] & Hc & H).
  set (s1 := mkRxSock (rs_fd s) rx' (rs_fill s) (rs_area s)) in H.
  assert (sink_step p deadline false 0 (SLoc SConsume s last)
    = Ok (SLoc (match descs with [] => STest | _ => SBytes descs [] end) s1 last, None)) as Hs.
  { unfold sink_step. cbn [sl_pc sl_sock sl_last]. by rewrite Hc. }
  destruct descs as [|d descs].
  { simplify_eq. exists []. split; [|done]. eapply sink_seq_l; [exact Hs|reflexivity|apply rtc_refl]. }
  apply res_bind_inv in H as ([last1 c1] & Hf & H). apply res_bind_inv in H as ([n fill'] & He & H). simplify_eq.
  destruct (frames_steps s1 (d :: descs) [] _ _ _ _ [] Hf) as (k & Hk & ->). exists k. split; [|done].
  eapply sink_seq_l; [exact Hs|reflexivity|]. etrans; [exact Hk|].
  eapply sink_seq_l; [reflexivity|apply app_nil_r|].
  eapply (sink_seq_l _ (SLoc STest (mkRxSock (rs_fd s1) (rs_rx s1) fill' (rs_area s1)) last') None); [|apply app_nil_r|apply rtc_refl].
  unfold sink_step. cbn [sl_at sl_pc sl_sock sl_last app]. by rewrite He.
Qed.
End sequential.

(** ** All workers *)

(** The threads [xdp_udp_sink] spawns, one per socket, where they enter
    [rx_loop] (see [sink_threads] in [Xdp] for how they get there). *)
Definition sink_workers (socks : list RxSock) : list sworker := (λ s, sworker_init (sink_init s)) <$> socks.

Section sink.
Context (p : profile) (deadline kr kf : Z) (frames : list Z).
Context (Hnd : NoDup frames) (Hcapr : zlen frames ≤ 2 ^ kr) (Hcapf : zlen frames ≤ 2 ^ kf).

Abbreviation winv := (sinv p kr kf frames).
Abbreviation move := (smove p deadline kr kf).

Lemma winv_init s qf : rx_inv kr kf frames s [] qf [] → winv (sworker_init (sink_init s)).
Proof.
  intros [Hr Hf Hfr HP Hd]. split; [|done|by exists []].
  exists [], qf. unfold sown. cbn. by split_and!.
Qed.

Lemma winv_move w a w' : winv w → move w a w' → winv w'.
Proof.
  intros Hi Hm. destruct Hm as [run now l a l' held got seen log Hd Hs|l held s' held' got seen log Hk].
  - by eapply sinv_prog.
  - eapply sinv_kernel; done.
Qed.

Context (socks : list RxSock) (c0 cs : Counters) (ws : list sworker).
Context (Hsocks : Forall (λ s, ∃ qf, rx_inv kr kf frames s [] qf []) socks) (Hc0 : counters_ok c0).
Context (Hrun : rtc (sys_step move) (sink_workers socks, c0) (ws, cs)).

Lemma sink_winv i w : ws !! i = Some w → winv w.
Proof.
  apply (sys_invariant move (λ _, winv) _ _ (λ _, winv_move) Hrun). intros j v Hj. cbn [fst] in Hj.
  unfold sink_workers in Hj. rewrite list_lookup_fmap in Hj. destruct (socks !! j) as [s|] eqn:E; [|done].
  cbn in Hj. simplify_eq. eapply Forall_lookup_1 in Hsocks as [qf Hq]; [|exact E]. by eapply winv_init.
Qed.

Lemma sink_counters :
  cs = added (total b_of (sw_log <$> ws)) (total p_of (sw_log <$> ws)) (total d_of (sw_log <$> ws)) c0.
Proof.
  pose proof (sys_counters move sw_log (smove_log _ _ _ _) _ _ c0 Hc0 Hrun) as E. cbn [fst snd] in E. apply E.
  assert (∀ f : atom → Z, total f (sw_log <$> sink_workers socks) = 0) as H0.
  { intros f. unfold total, sink_workers. apply zsum_zero. intros l (w & -> & (s & -> & _)%list_elem_of_fmap)%list_elem_of_fmap. done. }
  rewrite !H0. by rewrite added_0.
Qed.

(** What a worker between two frames has added. *)
Lemma winv_counts w : winv w → partial (sl_pc (sw w)) = [] →
  zsum p_of (sw_log w) = zlen (sw_seen w) ∧ zsum b_of (sw_log w) = zsum (λ f, zlen f) (sw_seen w).
Proof.
  intros Hi E. destruct (si_log _ _ _ _ _ Hi) as (l & El & ->). rewrite E, app_nil_r.
  by eapply frames_atoms_counts.
Qed.

Lemma winv_drops w sids : winv w → partial (sl_pc (sw w)) = [] → NoDup sids →
  (∀ x, x ∈ omap frame_arrival (sw_seen w) → x.1 ∈ sids) → Forall good_arrival (omap frame_arrival (sw_seen w)) →
  zsum d_of (sw_log w) = stream_gaps sids (omap frame_arrival (sw_seen w)).
Proof.
  intros Hi E Hs Hin Hg. destruct (si_log _ _ _ _ _ Hi) as (l & El & ->). rewrite E, app_nil_r.
  destruct (frames_atoms_drops p sids (sw_seen w) ∅ Hs Hin Hg) as (last' & l' & El' & Ed).
  { intros i s Hl. by rewrite lookup_empty in Hl. }
  rewrite El in El'. simplify_eq. rewrite Ed. unfold stream_gaps. apply zsum_ext. intros sid _. by rewrite lookup_empty.
Qed.

(** The totals over all workers, when each is between two frames. *)
Lemma sink_totals sids :
  Forall (λ w, partial (sl_pc (sw w)) = []) ws → NoDup sids →
  let arrs := (λ w, omap frame_arrival (sw_seen w)) <$> ws in
  Forall (λ l, Forall good_arrival l ∧ ∀ x, x ∈ l → x.1 ∈ sids) arrs →
  (∀ sid i j li lj, arrs !! i = Some li → arrs !! j = Some lj →
     stream sid li ≠ [] → stream sid lj ≠ [] → i = j) →
  let all := concat (sw_seen <$> ws) in
  total p_of (sw_log <$> ws) = zlen all ∧ total b_of (sw_log <$> ws) = zsum (λ f, zlen f) all
  ∧ total d_of (sw_log <$> ws) = stream_gaps sids (concat arrs).
Proof.
  intros Hpart Hs arrs Hok Hone all.
  assert (∀ f (g : sworker → Z), (∀ w, w ∈ ws → zsum f (sw_log w) = g w) → total f (sw_log <$> ws) = zsum g ws) as Htot.
  { intros f g H. unfold total. rewrite zsum_fmap. by apply zsum_ext. }
  assert (∀ w, w ∈ ws → winv w ∧ partial (sl_pc (sw w)) = []) as Hw.
  { intros w Hw. rewrite Forall_forall in Hpart. split; [|by apply Hpart].
    apply list_elem_of_lookup in Hw as (i & Hi). by eapply sink_winv. }
  split_and!.
  - rewrite (Htot _ (λ w, zlen (sw_seen w))) by (intros w H; by apply winv_counts; apply Hw).
    unfold all. by rewrite zlen_concat, zsum_fmap.
  - rewrite (Htot _ (λ w, zsum (λ f, zlen f) (sw_seen w))) by (intros w H; by apply winv_counts; apply Hw).
    unfold all. by rewrite <- zsum_concat, zsum_fmap.
  - rewrite (Htot _ (λ w, stream_gaps sids (omap frame_arrival (sw_seen w)))).
    + unfold stream_gaps. rewrite zsum_swap. apply zsum_ext. intros sid _.
      rewrite <- (gaps_one_socket sid arrs (Hone sid)). unfold arrs. by rewrite zsum_fmap.
    + intros w H. unfold arrs in Hok. rewrite Forall_fmap, Forall_forall in Hok.
      destruct (Hok w H) as [Hg Hin]. by apply winv_drops; [apply Hw..|done|done|done].
Qed.
End sink.

(** ** Lemmas: after the deadline *)

(** How many steps of its own a worker needs at most once the loop test
    fails, when a drain gives at most [n] descriptors. *)
Definition srank (n : nat) (pc : spc) : nat :=
  match pc with
  | SDone => 0
  | STest => 1
  | SEnqueue _ => 2
  | SBytes todo _ => 3 + 3 * length todo
  | SNote _ todo _ => 4 + 3 * length todo
  | SPackets _ todo _ => 5 + 3 * length todo
  | SConsume => 4 + 3 * n
  | SPoll => 5 + 3 * n
  end.

Section late.
Context (p : profile) (deadline kr kf : Z) (frames : list Z).
Context (Hnd : NoDup frames) (Hcapr : zlen frames ≤ 2 ^ kr) (Hcapf : zlen frames ≤ 2 ^ kf).

Inductive sink_late_prog : sworker → sworker → Prop :=
| sink_late_step run now l a l' held got seen log :
    run = false ∨ deadline ≤ now → sl_pc l ≠ SDone → sink_step p deadline run now l = Ok (l', a) →
    sink_late_prog (SWorker l held got seen log)
      (SWorker l' held got (seen ++ finishes l) (log ++ atoms_of a)).

Inductive sink_late_kernel : sworker → sworker → Prop :=
| sink_late_env l held s' held' got seen log :
    rx_kernel_step kr kf (sl_sock l) held s' held' →
    sink_late_kernel (SWorker l held got seen log)
      (SWorker (sl_with_sock l s') held' (got ++ delivered (sl_sock l) s') seen log).

(** A run of a worker and its kernel, [n] of the steps the program's, all of
    them after the deadline or with the flag cleared. *)
Definition sink_late_run : nat → sworker → sworker → Prop := counted sink_late_prog sink_late_kernel.

Abbreviation winv := (sinv p kr kf frames).
Abbreviation wrank := (λ w, srank (length frames) (sl_pc (sw w))).

(** A drain gives at most all chunks. *)
Lemma ring_bound w qr qf : sown kr kf frames w qr qf → (length (user_descs (sl_pc (sw w))) + length qr ≤ length frames)%nat.
Proof.
  intros (_ & _ & HP & _). apply Permutation_length in HP. rewrite !length_app, !length_fmap, !length_app in HP. lia.
Qed.

Lemma sink_rank_bound w : winv w → (wrank w ≤ 5 + 3 * length frames)%nat.
Proof.
  intros [(qr & qf & Ho) _ _]. apply ring_bound in Ho.
  destruct (sl_pc (sw w)); cbn [srank user_descs length] in *; lia.
Qed.

Lemma sink_late_rank w w' : winv w → sink_late_prog w w' → winv w' ∧ (wrank w' < wrank w)%nat.
Proof.
  intros Hi H. destruct H as [run now l a l' held got seen log Hlate Hd Hs].
  split; [by eapply sinv_prog|]. destruct (si_own _ _ _ _ _ Hi) as (qr & qf & Ho).
  pose proof (ring_bound _ _ _ Ho) as Hlen. destruct Ho as (Hr & _). cbn [sw] in *. unfold sink_step in Hs.
  destruct (sl_pc l) as [| | |[|d todo] r|d todo r|d todo r|r|] eqn:E; try done.
  - simplify_eq. replace (run && (now <? deadline)) with false; [cbn; lia|].
    destruct Hlate as [->|Hl]; [done|]. symmetry. apply andb_false_intro2. lia.
  - simplify_eq. cbn. lia.
  - destruct (drain_rep kr _ qr Hr) as (rx' & Ec & _). rewrite Ec in Hs. cbn [mbind res_bind] in Hs. simplify_eq.
    cbn [sl_pc srank user_descs length] in *. destruct qr; cbn [srank length] in *; lia.
  - simplify_eq. cbn. lia.
  - case_decide; [|done]. simplify_eq. cbn. lia.
  - simplify_eq. cbn. lia.
  - apply res_bind_inv in Hs as ([last' ds] & _ & Hs). simplify_eq. cbn. lia.
  - apply res_bind_inv in Hs as ([k f'] & _ & Hs). simplify_eq. cbn. lia.
Qed.

Lemma sink_late_env_inv w w' : winv w → sink_late_kernel w w' → winv w' ∧ wrank w' = wrank w.
Proof.
  intros Hi H. destruct H as [l held s' held' got seen log Hk]. split; [|done].
  eapply sinv_kernel; done.
Qed.

(** Whether the ring has been drained since the last look at the clock. *)
Definition drained (w : sworker) : Prop :=
  match sl_pc (sw w) with SPoll | SConsume => True | _ => ring_rep kr (rs_rx (sl_sock (sw w))) [] end.

Lemma drained_late w w' : winv w → sink_late_prog w w' → drained w → drained w'.
Proof.
  intros Hi H Hd. destruct (si_own _ _ _ _ _ Hi) as (qr & qf & Hr & _).
  destruct H as [run now l a l' held got seen log Hlate _ Hs]. unfold drained in *. cbn [sw] in *.
  unfold sink_step in Hs. destruct (sl_pc l) as [| | |[|d todo] r|d todo r|d todo r|r|] eqn:E.
  - simplify_eq. replace (run && (now <? deadline)) with false; [done|].
    destruct Hlate as [->|Hl]; [done|]. symmetry. apply andb_false_intro2. lia.
  - by simplify_eq.
  - destruct (drain_rep kr _ qr Hr) as (rx' & Ec & Hr'). rewrite Ec in Hs. cbn [mbind res_bind] in Hs. simplify_eq.
    cbn [sl_pc sl_sock rs_rx]. by destruct qr.
  - by simplify_eq.
  - case_decide; [|done]. by simplify_eq.
  - by simplify_eq.
  - apply res_bind_inv in Hs as ([last' ds] & _ & Hs). by simplify_eq.
  - apply res_bind_inv in Hs as ([k f'] & _ & Hs). by simplify_eq.
  - simplify_eq. by rewrite E.
Qed.

Lemma sink_late_moves w w' : sink_late_prog w w' → moves (smove p deadline kr kf) w w' ∧ sw_got w' = sw_got w.
Proof.
  destruct 1 as [run now l a l' held got seen log _ Hd Hs]. split; [|done]. exists a. by econstructor.
Qed.

(** On its own a worker leaves the loop; when the last drain was not before
    the last delivery, it has accounted for every frame by then. *)
Lemma sink_alone w : winv w → p = Release ∨ Forall good_arrival (omap frame_arrival (sw_got w)) → ∃ w',
  rtc (moves (smove p deadline kr kf)) w w'
  ∧ winv w' ∧ sl_pc (sw w') = SDone ∧ sw_got w' = sw_got w ∧ (drained w → sw_seen w' = sw_got w').
Proof.
  intros Hi Hg. destruct (counted_end sink_late_prog (λ _ _, False)
    (λ w, winv w ∧ (p = Release ∨ Forall good_arrival (omap frame_arrival (sw_got w)))) wrank) with (w := w)
    as (n & w' & H & _ & E); [| |done|].
  { intros v v' [Hv Hgv] Hs. destruct (sink_late_rank v v' Hv Hs) as [H1 H2].
    destruct (sink_late_moves v v' Hs) as [_ ->]. done. }
  { intros v [Hv Hgv] Hr. destruct (sinv_progress p deadline kr kf frames false 0 v Hv Hgv) as (l' & a & Hst);
      [by intros E; rewrite E in Hr|]. destruct v as [l held got seen log]. eexists.
    econstructor; [by left| |exact Hst]. cbn [sw] in Hr. by intros E; rewrite E in Hr. }
  exists w'. assert (sl_pc (sw w') = SDone) as Hd by (by destruct (sl_pc (sw w'))). clear E Hg.
  induction H as [w|n w w1 w2 Hs _ IH|n w w1 w2 []].
  - split_and!; try done. intros Hdr. unfold drained in Hdr. rewrite Hd in Hdr.
    destruct (si_own _ _ _ _ _ Hi) as (qr & qf & Hr & _ & _ & _ & ->). rewrite Hd. cbn [user_descs app].
    rewrite <- (ring_contents_rep kr _ _ Hr), (ring_contents_rep kr _ _ Hdr). by rewrite app_nil_r.
  - destruct (sink_late_rank w w1 Hi Hs) as [Hi1 _]. destruct (sink_late_moves w w1 Hs) as [Hm Eg].
    destruct (IH Hi1 Hd) as (H1 & H2 & _ & H4 & H5). split_and!; [by eapply rtc_l|done|done|congruence|].
    intros Hdr. by apply H5, (drained_late w w1).
Qed.
End late.

(** ** Properties *)

(** C10: The AF_XDP sink as it runs: one thread per socket, all of them
    adding to the same atomic counters, the kernel of each socket delivering
    frames, taking chunks and writing into the chunks it owns between any two
    accesses, in any interleaving.  No worker reads outside its umem or is
    stuck (in the release profile, or when no sequence number is the last
    one); every chunk is in exactly one place; each worker accounts for the
    frames in the order of their delivery with the contents they were
    delivered with, none left out; and the counters are exactly what the
    workers added.  When the workers have left their loops and every stream
    reached one socket (the flow hash), they are the frames, their bytes, and
    each stream's own gaps. *)
Theorem sink_any_schedule p deadline kr kf frames socks c0 ws cs sids :
  NoDup frames → zlen frames ≤ 2 ^ kr → zlen frames ≤ 2 ^ kf →
  Forall (λ s, ∃ qf, rx_inv kr kf frames s [] qf []) socks → counters_ok c0 →
  rtc (sys_step (smove p deadline kr kf)) (sink_workers socks, c0) (ws, cs) →
  let arrs := (λ w, omap frame_arrival (sw_seen w)) <$> ws in
  let all := concat (sw_seen <$> ws) in
  length ws = length socks
  ∧ (∀ i w, ws !! i = Some w →
      (∃ qr qf, sown kr kf frames w qr qf)
      ∧ (p = Release ∨ Forall good_arrival (omap frame_arrival (sw_got w)) → sl_pc (sw w) ≠ SDone →
         ∀ run now, ∃ l' a, sink_step p deadline run now (sw w) = Ok (l', a)))
  ∧ cs = added (total b_of (sw_log <$> ws)) (total p_of (sw_log <$> ws)) (total d_of (sw_log <$> ws)) c0
  ∧ (Forall (λ w, sl_pc (sw w) = SDone) ws → NoDup sids →
     Forall (λ l, Forall good_arrival l ∧ ∀ x, x ∈ l → x.1 ∈ sids) arrs →
     (∀ sid i j li lj, arrs !! i = Some li → arrs !! j = Some lj →
        stream sid li ≠ [] → stream sid lj ≠ [] → i = j) →
     cs = added (zsum (λ f, zlen f) all) (zlen all) (stream_gaps sids (concat arrs)) c0).
Proof.
  intros Hnd Hkr Hkf Hs Hc0 Hrun arrs all.
  pose proof (sys_length _ _ _ Hrun) as HL. cbn [fst] in HL. unfold sink_workers in HL. rewrite length_fmap in HL.
  assert (∀ i w, ws !! i = Some w → sinv p kr kf frames w) as Hinv by (intros i w Hi; by eapply sink_winv).
  assert (cs = added (total b_of (sw_log <$> ws)) (total p_of (sw_log <$> ws)) (total d_of (sw_log <$> ws)) c0)
    as Hcs by (by eapply sink_counters).
  split_and!; [done| |done|].
  - intros i w Hi. split; [apply (si_own _ _ _ _ _ (Hinv i w Hi))|].
    intros Hok Hd run now. eapply sinv_progress; try done. by eapply Hinv.
  - intros Hdone Hsids Hok Hone. rewrite Hcs.
    destruct (sink_totals p deadline kr kf frames Hnd Hkr Hkf socks c0 cs ws Hs Hrun sids) as (E1 & E2 & E3); try done.
    + eapply Forall_impl; [exact Hdone|]. intros w E. cbn beta in E. by rewrite E.
    + by rewrite E1, E2, E3.
Qed.

(** C16: The sink ends: from any state a run in the release profile can be in,
    a worker that finds the deadline past (or the flag cleared) where it looks
    makes at most five steps of its own and three for each chunk, whatever the
    kernel delivers in between; it can make each of them, so it leaves the
    loop. *)
Theorem sink_leaves deadline kr kf frames socks c0 ws cs i w :
  NoDup frames → zlen frames ≤ 2 ^ kr → zlen frames ≤ 2 ^ kf →
  Forall (λ s, ∃ qf, rx_inv kr kf frames s [] qf []) socks →
  rtc (sys_step (smove Release deadline kr kf)) (sink_workers socks, c0) (ws, cs) → ws !! i = Some w →
  (∀ n w', sink_late_run Release deadline kr kf n w w' → (n ≤ 5 + 3 * length frames)%nat
     ∧ (sl_pc (sw w') ≠ SDone → ∀ run now, ∃ l' a, sink_step Release deadline run now (sw w') = Ok (l', a)))
  ∧ ∃ n w', sink_late_run Release deadline kr kf n w w' ∧ sl_pc (sw w') = SDone.
Proof.
  intros Hnd Hkr Hkf Hs Hrun Hi.
  assert (sinv Release kr kf frames w) as Hinv by (by eapply sink_winv).
  pose proof (sink_rank_bound _ _ _ _ w Hinv) as Hb.
  pose proof (sink_late_rank Release deadline kr kf frames Hkf) as Hp.
  pose proof (sink_late_env_inv Release kr kf frames Hnd Hkr) as He.
  split.
  - intros n w' Hl. destruct (counted_rank _ _ _ _ Hp He n w w' Hl Hinv) as [Hw Hn]. split; [lia|].
    intros Hd run now. eapply sinv_progress; try done. by left.
  - destruct (counted_end _ (sink_late_kernel kr kf) _ _ Hp w) as (n & w' & H & _ & E); [|done|].
    + intros v Hv Hr. destruct (sinv_progress Release deadline kr kf frames false 0 v Hv) as (l' & a & Hst);
        [by left|by intros E; rewrite E in Hr|]. destruct v as [l held got seen log]. eexists.
      econstructor; [by left| |exact Hst]. cbn [sw] in Hr. by intros E; rewrite E in Hr.
    + exists n, w'. split; [exact H|]. by destruct (sl_pc (sw w')).
Qed.

(** *** Two concrete workers *)

(** The kernel of [Wire] writes into the chunk it delivers only. *)
Lemma deliver_step kr kf f s held : zlen f ≤ 3840 →
  rx_kernel_step kr kf s held (deliver f s held).1 (deliver f s held).2.
Proof.
  intros Hf qr qf Hrx Hfill Hroom.
  destruct (deliver_contract kr kf f Hf s held qr qf Hrx Hfill Hroom) as (tk & qf' & dl & H1 & H2 & H3 & H4 & H5 & H6).
  exists tk, qf', dl. split_and!; try done. intros x Hx. clear -Hf Hfill Hx.
  unfold deliver. destruct (drain_rep kf (rs_fill s) qf Hfill) as (f' & -> & _).
  destruct qf as [|a rest]; [done|]. destruct (produce_tx _ _) as [[n rx']| |]; [|done..].
  cbn [fst rs_area]. case_decide as Hd; [|done]. unfold FRAME_SIZE in *.
  rewrite lookup_splice by lia. rewrite decide_False; [done|]. intros Hin. apply Hx.
  apply elem_of_app. right. rewrite fmap_cons. apply elem_of_cons. left.
  unfold chunk, FRAME_SIZE in *. f_equal. symmetry.
  apply (Z.div_unique_pos (Z.of_nat x) 4096 _ (Z.of_nat x - 4096 * (a / 4096))); lia.
Qed.

(** What it delivers is the frame. *)
Lemma deliver_delivered kr kf frames f s a rest : 0 ≤ kr → 0 < zlen f ≤ 3840 → rx_inv kr kf frames s [] (a :: rest) [] →
  delivered s (deliver f s []).1 = [f].
Proof.
  intros Hkr Hf [Hr Hfill Hfr HP _]. unfold delivered. rewrite (ring_contents_rep kr _ _ Hr). cbn [length drop].
  unfold deliver. destruct (drain_rep kf (rs_fill s) _ Hfill) as (f' & -> & _).
  set (d := mkXdpDesc _ _ _). destruct (push_rep kr (rs_rx s) [] [d] Hr) as (r' & -> & Hr').
  rewrite take_ge in Hr' by (cbn [length]; pose proof (Z.pow_pos_nonneg 2 kr); lia).
  cbn [fst rs_rx rs_area]. rewrite (ring_contents_rep kr _ _ Hr'). cbn [app drop].
  destruct (Hfr (chunk a)) as [Hc0 Hc]; [rewrite <- HP; cbn; by left|].
  rewrite decide_True by done. unfold d, FRAME_SIZE in *. change ([frame_at (splice (rs_area s) (chunk a + 256) f)
    (mkXdpDesc (chunk a + 256) (zlen f) 0)] = [f]). unfold frame_at. cbn [desc_addr desc_len].
  f_equal. apply slice_splice_eq; lia.
Qed.

(** A run in which a frame is delivered first, and the worker then finds the
    deadline past. *)
Lemma first_delivery_run p deadline kr kf frames s qf f : 0 ≤ kr →
  NoDup frames → zlen frames ≤ 2 ^ kr → zlen frames ≤ 2 ^ kf → frames ≠ [] → rx_inv kr kf frames s [] qf [] →
  0 < zlen f ≤ 3840 → p = Release ∨ Forall good_arrival (omap frame_arrival [f]) →
  ∃ w, rtc (moves (smove p deadline kr kf)) (sworker_init (sink_init s)) w
    ∧ sl_pc (sw w) = SDone ∧ sw_seen w = [f].
Proof.
  intros Hkr0 Hnd Hkr Hkf Hne Hi Hf Hgood.
  assert (∃ a rest, qf = a :: rest) as (a & rest & ->).
  { destruct qf as [|a rest]; [|by exists a, rest]. pose proof (rinv_part _ _ _ _ _ _ _ Hi) as HP. cbn in HP.
    by apply Permutation_nil in HP. }
  pose proof (deliver_step kr kf f s [] ltac:(lia)) as Hk.
  pose proof (deliver_delivered kr kf frames f s a rest Hkr0 Hf Hi) as Ed.
  destruct (deliver f s []) as [s1 held1]. cbn [fst snd] in Hk, Ed.
  set (w1 := SWorker (sl_with_sock (sink_init s) s1) held1 ([] ++ delivered s s1) [] []).
  set (w2 := SWorker (sl_at (sl_with_sock (sink_init s) s1) SPoll) held1 ([] ++ delivered s s1) ([] ++ []) ([] ++ atoms_of None)).
  assert (smove p deadline kr kf (sworker_init (sink_init s)) None w1) as M1 by by apply s_kernel.
  assert (smove p deadline kr kf w1 None w2) as M2.
  { apply (s_prog p deadline kr kf true (deadline - 1) (sl_with_sock (sink_init s) s1) None); [done|].
    unfold sink_step. cbn [sl_with_sock sink_init sl_pc]. by rewrite (proj2 (Z.ltb_lt _ _)) by lia. }
  assert (sinv p kr kf frames w2) as H2.
  { eapply winv_move; [..|exact M2]; [done..|]. eapply winv_move; [..|exact M1]; [done..|]. by eapply winv_init. }
  assert (sw_got w2 = [f]) as Eg by (unfold w2; cbn [sw_got app]; exact Ed).
  destruct (sink_alone p deadline kr kf frames Hkf w2 H2) as (w & Hrun & _ & Hd & Ew & Hs); [by rewrite Eg|].
  exists w. split_and!; [|done|]; [|by rewrite Hs, Ew by exact I].
  eapply rtc_l; [by eexists|]. eapply rtc_l; [by eexists|]. exact Hrun.
Qed.

(** Worker [i] makes a step at a clock reading, or its kernel delivers a
    frame. *)
Definition demo_rstep (x : nat * (Z + list Z)) (st : list sworker * Counters) : list sworker * Counters :=
  match st.1 !! x.1 with
  | Some w =>
      match x.2 with
      | inl now =>
          if decide (sl_pc (sw w) = SDone) then st else
          match sink_step Release 50 true now (sw w) with
          | Ok (l', a) =>
              (<[x.1 := SWorker l' (sw_held w) (sw_got w) (sw_seen w ++ finishes (sw w)) (sw_log w ++ atoms_of a)]> st.1,
                do_atoms (atoms_of a) st.2)
          | _ => st
          end
      | inr f =>
          if decide (zlen f ≤ 3840) then
            let k := deliver f (sl_sock (sw w)) (sw_held w) in
            (<[x.1 := SWorker (sl_with_sock (sw w) k.1) k.2 (sw_got w ++ delivered (sl_sock (sw w)) k.1)
                 (sw_seen w) (sw_log w)]> st.1, st.2)
          else st
      end
  | None => st
  end.

Fixpoint demo_rexec (xs : list (nat * (Z + list Z))) (st : list sworker * Counters) : list sworker * Counters :=
  match xs with [] => st | x :: xs => demo_rexec xs (demo_rstep x st) end.

Lemma demo_rexec_rtc xs : ∀ st, rtc (sys_step (smove Release 50 1 1)) st (demo_rexec xs st).
Proof.
  induction xs as [|[i e] xs IH]; intros [ws c]; [apply rtc_refl|]. cbn [demo_rexec].
  etrans; [|apply IH]. unfold demo_rstep. cbn [fst snd].
  destruct (ws !! i) as [w|] eqn:E; [|apply rtc_refl]. destruct e as [now|f].
  - case_decide as Hd; [apply rtc_refl|].
    destruct (sink_step _ _ _ _ _) as [[l' a]| |] eqn:Es; [|apply rtc_refl..].
    apply rtc_once. apply (sys_move _ ws c i w a); [exact E|].
    destruct w as [l held got seen log]. by econstructor.
  - case_decide as Hd; [|apply rtc_refl].
    apply rtc_once. apply (sys_move _ ws c i w None); [exact E|].
    destruct w as [l held got seen log]. constructor. by apply deliver_step.
Qed.

(** Two sockets; the first is given two frames of stream 0 while it runs, the
    second drains an empty ring; then the deadline passes. *)
Definition demo_rschedule : list (nat * (Z + list Z)) :=
  [(0%nat, inl 10); (0%nat, inr demo_first); (1%nat, inl 10); (0%nat, inl 10); (0%nat, inl 10); (1%nat, inl 10);
   (0%nat, inl 10); (0%nat, inl 10); (1%nat, inl 10); (0%nat, inl 10); (0%nat, inl 10); (0%nat, inl 10);
   (0%nat, inr demo_last); (0%nat, inl 10); (0%nat, inl 10); (0%nat, inl 10); (1%nat, inl 60);
   (0%nat, inl 10); (0%nat, inl 10); (0%nat, inl 10); (0%nat, inl 10); (0%nat, inl 10); (0%nat, inl 60)].

Definition demo_rws : list sworker := (demo_rexec demo_rschedule (sink_workers [empty_sock; empty_sock], Counters_default)).1.

Lemma demo_socks_inv : Forall (λ s, ∃ qf, rx_inv 1 1 [0; 4096] s [] qf []) [empty_sock; empty_sock].
Proof. repeat constructor; exists [0; 4096]; apply empty_sock_inv. Qed.

Lemma demo_rws_run : rtc (sys_step (smove Release 50 1 1)) (sink_workers [empty_sock; empty_sock], Counters_default)
  (demo_rws, mkCounters 212 2 3).
Proof.
  assert ((demo_rexec demo_rschedule (sink_workers [empty_sock; empty_sock], Counters_default)).2 = mkCounters 212 2 3)
    as E by (vm_compute; reflexivity).
  rewrite <- E. unfold demo_rws. rewrite <- surjective_pairing. apply demo_rexec_rtc.
Qed.

Lemma demo_rws_arrs : (λ w, omap frame_arrival (sw_seen w)) <$> demo_rws = [[(0, 0); (0, 4)]; []].
Proof. vm_compute. reflexivity. Qed.

Lemma sink_any_schedule_witness :
  length demo_rws = 2%nat
  ∧ mkCounters 212 2 3 = added 212 2 (stream_gaps [0] [(0, 0); (0, 4)]) Counters_default.
Proof.
  destruct (sink_any_schedule Release 50 1 1 [0; 4096] [empty_sock; empty_sock] Counters_default demo_rws
    (mkCounters 212 2 3) [0]) as (HL & _ & _ & Hend);
    [apply (bool_decide_unpack _); vm_compute; exact I|vm_compute; discriminate..|exact demo_socks_inv
    |exact Counters_default_ok|exact demo_rws_run|].
  split; [exact HL|]. rewrite demo_rws_arrs in Hend.
  assert (concat (sw_seen <$> demo_rws) = [demo_first; demo_last]) as Ea by (vm_compute; reflexivity).
  rewrite Ea in Hend. apply Hend.
  - apply (bool_decide_unpack _). vm_compute. exact I.
  - apply NoDup_singleton.
  - clear. constructor; [split|constructor; [split|]; [apply Forall_nil_2|by intros x Hx%elem_of_nil|apply Forall_nil_2]].
    + apply Forall_cons_2; [by split|]. apply Forall_cons_2; [by split|apply Forall_nil_2].
    + intros x [->|[->|[]%elem_of_nil]%elem_of_cons]%elem_of_cons; by left.
  - clear. intros sid [|[|i]] [|[|j]] li lj Hi Hj Hni Hnj; cbn in Hi, Hj; simplify_eq; try done; by cbn in *.
Defined.

Lemma sink_leaves_witness :
  let w := default (sworker_init (sink_init empty_sock)) (demo_rws !! 1%nat) in
  (∀ n w', sink_late_run Release 50 1 1 n w w' → (n ≤ 11)%nat
     ∧ (sl_pc (sw w') ≠ SDone → ∀ run now, ∃ l' a, sink_step Release 50 run now (sw w') = Ok (l', a)))
  ∧ ∃ n w', sink_late_run Release 50 1 1 n w w' ∧ sl_pc (sw w') = SDone.
Proof.
  intros w.
  apply (sink_leaves 50 1 1 [0; 4096] [empty_sock; empty_sock] Counters_default demo_rws (mkCounters 212 2 3) 1 w);
    [apply (bool_decide_unpack _); vm_compute; exact I|vm_compute; discriminate..|exact demo_socks_inv
    |exact demo_rws_run|vm_compute; reflexivity].
Defined.
