(* ===== verification/Xdp.v ===== *)
(** * All queues, end to end ([src/xdp/gen.rs] to [src/xdp/sink.rs])

    The generator's threads on one host and the sink's on the other, each
    under any interleaving with its kernels ([TxSteps], [RxSteps]), and a
    network between them that may lose frames but keeps each stream's order:
    what the sink's counters say about the whole run. *)

From Stdlib Require Import Sorted.
From S2P Require Import Prelude Ring Simd Frame Loss Gen Sink Wire Net Threads Share TxSteps Engine RxSteps.
From S2P Require Import Strs Affinity Sys Xsk Loader Netif Blast.

(** ** The threads *)

(** The threads [xdp_udp_blast] spawns: each pins itself, then enters
    [tx_loop]; with the CPUs they pinned themselves to. *)
Definition gen_threads {L : CpuSets} (cpus : list Z) (states : list TxState) (payload_len : Z) (start : nat → Z)
    : res (list Z * list gworker) :=
  pins ← mapM (pin_worker cpus) (seqZ 0 (zlen states));
  Ok (pins, gen_workers states payload_len start).

(** Those of [xdp_udp_sink], which enter [rx_loop]. *)
Definition sink_threads {L : CpuSets} (cpus : list Z) (socks : list RxSock) : res (list Z * list sworker) :=
  pins ← mapM (pin_worker cpus) (seqZ 0 (zlen socks));
  Ok (pins, sink_workers socks).

(** ** What the network does *)

(** The frames of one stream among all that the sink accounted for. *)
Definition received (rs : list sworker) (i : nat) : list (list Z) :=
  filter (λ f, frame_sid f = Z.of_nat i) (concat (sw_seen <$> rs)).

(** Frames may be lost, but none is made up, each stream keeps its order and
    arrives with its first and its last frame, and a stream goes to one
    queue. *)
Record network (ws : list gworker) (rs : list sworker) : Prop := {
  net_real : ∀ f, f ∈ concat (sw_seen <$> rs) → ∃ i w, ws !! i = Some w ∧ f ∈ gw_wire w;
  net_order : ∀ i w, ws !! i = Some w → sublist (received rs i) (gw_wire w);
  net_ends : ∀ i w, ws !! i = Some w →
    head (received rs i) = head (gw_wire w) ∧ last (received rs i) = last (gw_wire w);
  net_queue : ∀ i j v w f g, rs !! i = Some v → rs !! j = Some w → f ∈ sw_seen v → g ∈ sw_seen w →
    frame_sid f = frame_sid g → i = j;
}.

(** ** Lemmas *)

(** A sum over the indices of a list. *)
Lemma zsum_index {A} (f : nat → Z) (g : A → Z) l :
  (∀ i x, l !! i = Some x → f i = g x) → zsum (λ i, f (Z.to_nat i)) (seqZ 0 (zlen l)) = zsum g l.
Proof.
  induction l as [|x l IH] using rev_ind; intros H; [done|].
  rewrite length_app. cbn [length]. replace (Z.of_nat (length l + 1)) with (zlen l + 1) by lia.
  rewrite seqZ_app, !zsum_app by lia. rewrite IH.
  - f_equal. change (seqZ (0 + zlen l) 1) with [0 + (0 + zlen l)]. rewrite !zsum_cons. cbn [zsum foldr].
    rewrite (H (Z.to_nat (0 + (0 + zlen l))) x); [done|].
    replace (Z.to_nat (0 + (0 + zlen l))) with (length l) by lia. by rewrite lookup_app_r, Nat.sub_diag.
  - intros i y Hi. apply H. rewrite lookup_app_l; [done|]. by eapply lookup_lt_Some.
Qed.

Lemma zsum_const {A} (f : A → Z) k l : (∀ x, x ∈ l → f x = k) → zsum f l = zlen l * k.
Proof.
  induction l as [|x l IH]; intros H; [done|]. rewrite zsum_cons, (H x), IH; [cbn [length]; lia| |by left].
  intros y Hy. apply H. by right.
Qed.

(** Long frames all have a header. *)
Lemma long_arrivals fs : Forall (λ f, 58 ≤ zlen f) fs →
  omap frame_arrival fs = (λ f, (frame_sid f, frame_num f)) <$> fs.
Proof.
  induction 1 as [|f fs Hf _ IH]; [done|]. cbn [omap list_omap]. unfold frame_arrival at 1.
  rewrite (proj2 (Z.leb_le _ _)) by (unfold HDRS; lia). by rewrite fmap_cons, <- IH.
Qed.

(** The numbers of a stream are those of its frames. *)
Lemma stream_frames sid fs :
  stream sid ((λ f, (frame_sid f, frame_num f)) <$> fs) = frame_num <$> filter (λ f, frame_sid f = sid) fs.
Proof.
  induction fs as [|f fs IH]; [done|]. rewrite fmap_cons. destruct (decide (frame_sid f = sid)) as [<-|Hne].
  - rewrite stream_cons_eq, filter_cons_True, fmap_cons by done. by rewrite IH.
  - rewrite stream_cons_ne, filter_cons_False by done. done.
Qed.

(** One stream: its gaps are its lost frames and what its worker left out. *)
Lemma stream_loss wire recv rest seq k iters :
  run_of 0 seq k ((frame_num <$> wire) ++ rest) → k ≤ iters →
  sublist recv wire → head recv = head wire → last recv = last wire →
  zlen wire - zlen recv ≤ gaps None (frame_num <$> recv) ≤ zlen wire - zlen recv + iters.
Proof.
  intros Hr Hk Hs Hh Hl. destruct recv as [|f recv].
  { destruct wire; [|done]. cbn. destruct Hr as (_ & _ & _ & ?). lia. }
  destruct (run_gaps _ _ (frame_num <$> wire) rest (frame_num <$> f :: recv) Hr) as (sk & Hg & Hsk).
  - by apply sublist_fmap.
  - done.
  - by rewrite !head_fmap, Hh.
  - by rewrite !fmap_last, Hl.
  - rewrite !length_fmap in Hg. lia.
Qed.

(** What the whole of the workers put on the wire, and what they handed to
    their rings. *)
Definition sent_frames (ws : list gworker) : Z := zsum (λ w, zlen (gw_wire w)) ws.
Definition handed_over (ws : list gworker) : Z := zsum handed ws.

Section loss.
Context (src_mac dst_mac src_ip dst_ip : list Z) (src_port dst_port kt kc : Z) (frames : list Z) (payload_len : Z).
Context (H16 : 16 ≤ payload_len).
Context (ws : list gworker) (rs : list sworker) (Hn : zlen ws < 2 ^ 64).
Context (Hsent : ∀ i w, ws !! i = Some w →
  sent_well src_mac dst_mac src_ip dst_ip src_port dst_port kt kc frames payload_len i w).
Context (Hnet : network ws rs).

(** Every frame the sink saw is a frame of one of the streams. *)
Lemma seen_flow f : f ∈ concat (sw_seen <$> rs) →
  zlen f = OUTER_HDR + payload_len ∧ 0 ≤ frame_sid f < zlen ws ∧ seq_ok (frame_num f).
Proof.
  intros Hf. destruct (net_real _ _ Hnet f Hf) as (i & w & Hi & Hw).
  pose proof (lookup_lt_Some _ _ _ Hi).
  destruct (Hsent i w Hi) as (qt & fl & qc & rest & k & _ & _ & Hfl & _).
  rewrite Forall_forall in Hfl. destruct (Hfl f Hw) as (H1 & H2 & H3 & _).
  rewrite length_worker_payload in H1 by lia. rewrite worker_payload_sid in H2 by lia. rewrite H2. split_and!; [done|lia|lia|apply H3..].
Qed.

Lemma seen_long i v : rs !! i = Some v →
  omap frame_arrival (sw_seen v) = (λ f, (frame_sid f, frame_num f)) <$> sw_seen v.
Proof.
  intros Hi. apply long_arrivals, Forall_forall. intros f Hf.
  destruct (seen_flow f) as [-> _]; [|change OUTER_HDR with 42; lia].
  apply list_elem_of_In, in_concat. exists (sw_seen v). split; apply list_elem_of_In; [|done].
  apply list_elem_of_fmap_2. by eapply list_elem_of_lookup_2.
Qed.

Lemma seen_arrivals :
  concat ((λ v, omap frame_arrival (sw_seen v)) <$> rs)
    = (λ f, (frame_sid f, frame_num f)) <$> concat (sw_seen <$> rs).
Proof.
  rewrite (list_fmap_ext _ (λ v, (λ f, (frame_sid f, frame_num f)) <$> sw_seen v)) by (intros i v Hi; by eapply seen_long).
  clear. induction rs as [|v l IH]; [done|]. rewrite !fmap_cons. cbn [concat]. by rewrite IH, fmap_app.
Qed.

(** What [RxSteps] asks of the arrivals. *)
Lemma seen_ok : Forall (λ l, Forall good_arrival l ∧ ∀ x, x ∈ l → x.1 ∈ seqZ 0 (zlen ws))
  ((λ v, omap frame_arrival (sw_seen v)) <$> rs).
Proof.
  apply Forall_forall. intros l Hl. apply list_elem_of_fmap in Hl as (v & -> & Hv).
  apply list_elem_of_lookup in Hv as (i & Hi). rewrite (seen_long i v Hi).
  assert (∀ f, f ∈ sw_seen v → zlen f = OUTER_HDR + payload_len ∧ 0 ≤ frame_sid f < zlen ws ∧ seq_ok (frame_num f)) as H.
  { intros f Hf. apply seen_flow. apply list_elem_of_In, in_concat. exists (sw_seen v). split; apply list_elem_of_In; [|done].
    apply list_elem_of_fmap_2. by eapply list_elem_of_lookup_2. }
  split.
  - apply Forall_fmap, Forall_forall. intros f Hf. destruct (H f Hf) as (_ & H2 & H3). split; cbn [fst snd]; [split; lia|done].
  - intros x (f & -> & Hf)%list_elem_of_fmap. apply elem_of_seqZ. destruct (H f Hf) as (_ & H2 & _). cbn [fst]. lia.
Qed.

Lemma seen_queue sid i j li lj :
  ((λ v, omap frame_arrival (sw_seen v)) <$> rs) !! i = Some li →
  ((λ v, omap frame_arrival (sw_seen v)) <$> rs) !! j = Some lj →
  stream sid li ≠ [] → stream sid lj ≠ [] → i = j.
Proof.
  rewrite !list_lookup_fmap. intros Hi Hj Hni Hnj.
  destruct (rs !! i) as [v|] eqn:Ei; [|done]. destruct (rs !! j) as [w|] eqn:Ej; [|done]. cbn in Hi, Hj. simplify_eq.
  rewrite (seen_long i v Ei), stream_frames in Hni. rewrite (seen_long j w Ej), stream_frames in Hnj.
  destruct (filter _ (sw_seen v)) as [|f l] eqn:Ef; [done|]. destruct (filter _ (sw_seen w)) as [|g k] eqn:Eg; [done|].
  assert (f ∈ filter (λ f, frame_sid f = sid) (sw_seen v)) as Hf by (rewrite Ef; by left).
  assert (g ∈ filter (λ f, frame_sid f = sid) (sw_seen w)) as Hg by (rewrite Eg; by left).
  apply list_elem_of_filter in Hf as [Hf Hfv], Hg as [Hg Hgw].
  apply (net_queue _ _ Hnet i j v w f g Ei Ej Hfv Hgw). congruence.
Qed.

(** The drops of all streams: the frames lost, and at most one number for
    each iteration of the generator. *)
Lemma loss_total :
  let got := zlen (concat (sw_seen <$> rs)) in
  let drops := stream_gaps (seqZ 0 (zlen ws)) (concat ((λ v, omap frame_arrival (sw_seen v)) <$> rs)) in
  sent_frames ws - got ≤ drops ≤ sent_frames ws - got + zsum gw_iters ws.
Proof.
  cbv zeta. unfold stream_gaps. rewrite seen_arrivals.
  set (fs := concat (sw_seen <$> rs)).
  set (S := λ i : nat, frame_num <$> received rs i).
  assert (∀ sid, sid ∈ seqZ 0 (zlen ws) →
    stream sid ((λ f, (frame_sid f, frame_num f)) <$> fs) = S (Z.to_nat sid)) as ES.
  { intros sid Hs%elem_of_seqZ. rewrite stream_frames. unfold S, received. by rewrite Z2Nat.id by lia. }
  assert (zsum (λ sid, zlen (S (Z.to_nat sid))) (seqZ 0 (zlen ws)) = zlen fs) as Egot.
  { rewrite <- (length_fmap (λ f, (frame_sid f, frame_num f)) fs).
    rewrite <- (stream_total (seqZ 0 (zlen ws))).
    - apply zsum_ext. intros sid Hs. by rewrite ES.
    - apply NoDup_seqZ.
    - intros x (f & -> & Hf)%list_elem_of_fmap. apply elem_of_seqZ. destruct (seen_flow f Hf) as (_ & H2 & _). cbn [fst]. lia. }
  rewrite (zsum_ext _ (λ sid, gaps None (S (Z.to_nat sid)))) by (intros sid Hs; by rewrite ES).
  assert (∀ A (g : gworker → A) (d : A) i w, ws !! i = Some w → default d (g <$> ws !! i) = g w) as Ed
    by (intros A g d i w ->; done).
  assert (∀ g : gworker → Z, zsum (λ sid, default 0 (g <$> ws !! Z.to_nat sid)) (seqZ 0 (zlen ws)) = zsum g ws) as Eidx.
  { intros g. apply (zsum_index (λ i, default 0 (g <$> ws !! i)) g ws). intros i w Hi. by apply Ed. }
  assert (∀ sid, sid ∈ seqZ 0 (zlen ws) →
    default 0 ((λ w, zlen (gw_wire w)) <$> ws !! Z.to_nat sid) - zlen (S (Z.to_nat sid)) ≤ gaps None (S (Z.to_nat sid))
    ∧ gaps None (S (Z.to_nat sid)) ≤ default 0 ((λ w, zlen (gw_wire w)) <$> ws !! Z.to_nat sid)
        - (zlen (S (Z.to_nat sid)) - default 0 (gw_iters <$> ws !! Z.to_nat sid))) as Hb.
  { intros sid Hs%elem_of_seqZ. destruct (lookup_lt_is_Some_2 ws (Z.to_nat sid)) as [w Hi]; [lia|].
    rewrite Hi. cbn [fmap option_fmap option_map default]. unfold S. rewrite length_fmap.
    destruct (Hsent _ _ Hi) as (qt & fl & qc & rest & k & _ & _ & _ & _ & Hr & Hk & _).
    destruct (net_ends _ _ Hnet _ _ Hi) as [Hh Hl].
    pose proof (stream_loss _ _ _ _ _ _ Hr Hk (net_order _ _ Hnet _ _ Hi) Hh Hl). unfold id. lia. }
  unfold sent_frames. rewrite <- (Eidx (λ w, zlen (gw_wire w))), <- (Eidx gw_iters), <- Egot. split.
  - rewrite <- zsum_sub. apply zsum_between. intros sid Hs. apply Hb, Hs.
  - etrans; [apply zsum_between; intros sid Hs; apply Hb, Hs|]. rewrite zsum_sub, zsum_sub. lia.
Qed.

(** All frames have the flow's length. *)
Lemma seen_bytes :
  zsum (λ f, zlen f) (concat (sw_seen <$> rs)) = zlen (concat (sw_seen <$> rs)) * (OUTER_HDR + payload_len).
Proof. apply zsum_const. intros f Hf. apply (seen_flow f Hf). Qed.
End loss.

(** With CPUs to pin to, all below 1024, no thread panics before its loop. *)
Lemma thread_cpu_some cpus w : cpus ≠ [] → ∃ c, thread_cpu cpus w = Ok c ∧ c ∈ cpus.
Proof.
  intros H. unfold thread_cpu. destruct cpus as [|c0 l] eqn:E; [done|]. rewrite <- E.
  pose proof (Z.mod_pos_bound w (zlen cpus)) as Hm.
  destruct (lookup_lt_is_Some_2 cpus (Z.to_nat (w mod zlen cpus))) as [c Hc].
  - rewrite E in *. cbn [length] in *. lia.
  - rewrite Hc. exists c. split; [done|]. by eapply list_elem_of_lookup_2.
Qed.

Lemma pin_worker_ok {L : CpuSets} `{!CpuSetsOk L} cpus w : cpus ≠ [] → cpus_fit cpus →
  ∃ c, pin_worker cpus w = Ok c ∧ thread_cpu cpus w = Ok c.
Proof.
  intros Hne Hfit. destruct (thread_cpu_some cpus w Hne) as (c & Hc & Hin). exists c. split; [|done].
  unfold pin_worker. rewrite Hc. cbn [mbind res_bind]. unfold cpus_fit in Hfit. rewrite Forall_forall in Hfit.
  by destruct (pin_to_cpu_ok c (Hfit c Hin)) as [b ->].
Qed.

Lemma pin_workers_ok {L : CpuSets} `{!CpuSetsOk L} cpus n : cpus ≠ [] → cpus_fit cpus →
  ∃ pins, mapM (pin_worker cpus) (seqZ 0 n) = Ok pins ∧ Forall2 (λ w c, thread_cpu cpus w = Ok c) (seqZ 0 n) pins.
Proof. intros Hne Hfit. apply mapM_spawn. intros w _. by apply pin_worker_ok. Qed.

(** What the set-ups hand to the threads. *)
Lemma ring_caps : zlen (frames RING_SIZE FRAME_COUNT) ≤ 2 ^ 11 ∧ zlen (frames 0 RING_SIZE) ≤ 2 ^ 11.
Proof. rewrite !length_frames by (unfold RING_SIZE, FRAME_COUNT; lia). unfold RING_SIZE, FRAME_COUNT. lia. Qed.

Lemma blast_plan_ok p k XDP_PROG c LEVEL H xdp iface dst_ip dst_port payload_len target cpus h plan h' :
  xsk_contract k → isa_ok c → oncelock_ok c LEVEL → addrs_ok (h_ifaddrs H) →
  is_ip dst_ip → is_u16 dst_port → payload_len ≤ FRAME_SIZE - OUTER_HDR →
  xdp_udp_blast p k XDP_PROG H xdp iface dst_ip dst_port payload_len target cpus h = (Ok (Okay plan), h') →
  ∃ src_mac dst_mac src_ip,
    flow_ok c LEVEL src_mac dst_mac src_ip dst_ip 40000 dst_port
    ∧ 16 ≤ plan_payload_len plan ∧ OUTER_HDR + plan_payload_len plan ≤ FRAME_SIZE
    ∧ Forall (λ s, tx_inv src_mac dst_mac src_ip dst_ip 40000 dst_port 11 11 (frames RING_SIZE FRAME_COUNT) s [] [] [])
        (plan_states plan)
    ∧ zlen (plan_states plan) < 2 ^ 64.
Proof.
  intros Hk Hisa Hcell Ha Hip Hport Hlen E.
  destruct (wp_outcome _ _ _ _ _ (wp_xdp_udp_blast p k XDP_PROG Hk H xdp iface dst_ip dst_port
    payload_len target cpus h Ha) E) as (r & [= <-] & Hn & Hpl & _ & sm & dm & si & Hsm & Hdm & Hsi & Hst).
  exists sm, dm, si. split_and!; [done|lia| | |].
  - rewrite Hpl. unfold FRAME_SIZE in *. change OUTER_HDR with 42 in *. lia.
  - apply Forall_forall. intros s Hs. apply list_elem_of_lookup in Hs as (w & Hw). by destruct (Hst w s Hw).
  - rewrite Hn. pose proof (workers_small cpus (Z.max (get_rx_queue_count (h_fs H) iface) 1)). lia.
Qed.

Lemma sink_plan_ok p k XDP_PROG H iface cpus h socks h' :
  xsk_contract k → xdp_udp_sink p k XDP_PROG H iface cpus h = (Ok (Okay socks), h') →
  Forall (λ s, ∃ qf, rx_inv 11 11 (frames 0 RING_SIZE) s [] qf []) (rx_sock <$> socks).
Proof.
  intros Hk E. destruct (wp_outcome _ _ _ _ _ (wp_xdp_udp_sink p k XDP_PROG Hk H iface cpus h) E)
    as (r & [= <-] & Hall & _ & _).
  apply Forall_fmap. eapply Forall_impl; [exact Hall|]. intros s Hs. eexists. by apply rx_sock_inv.
Qed.

(** What a generator whose threads have left their loops counted. *)
Lemma gen_totals p c LEVEL src_mac dst_mac src_ip dst_ip src_port dst_port kt kc frames
    payload_len pps_per deadline states start g0 gcs ws :
  flow_ok c LEVEL src_mac dst_mac src_ip dst_ip src_port dst_port →
  zlen frames ≤ 2 ^ kt → zlen frames ≤ 2 ^ kc →
  16 ≤ payload_len → OUTER_HDR + payload_len ≤ FRAME_SIZE →
  Forall (λ s, tx_inv src_mac dst_mac src_ip dst_ip src_port dst_port kt kc frames s [] [] []) states →
  counters_ok g0 →
  rtc (sys_step (gmove p c LEVEL (OUTER_HDR + payload_len) pps_per deadline kt kc))
    (gen_workers states payload_len start, g0) (ws, gcs) →
  Forall (λ w, gw_steps w < 2 ^ 64 - 2) ws → Forall (λ w, gl_pc (gw w) = GDone) ws →
  gcs = added (handed_over ws * (OUTER_HDR + payload_len)) (handed_over ws) 0 g0 ∧ sent_frames ws ≤ handed_over ws.
Proof.
  intros Hflow Hkt Hkc H16 Hfit Hst Hg0 Hgen Hsteps Hgdone.
  assert (gcs = added (total b_of (gw_log <$> ws)) (total p_of (gw_log <$> ws)) 0 g0) as Hgcs
    by (eapply reachable_counters; [..|exact Hgen|exact Hsteps]; done).
  assert (total b_of (gw_log <$> ws) = total p_of (gw_log <$> ws) * (OUTER_HDR + payload_len)) as Hb
    by (eapply reachable_done; [..|exact Hgen|exact Hsteps|exact Hgdone]; done).
  assert (total p_of (gw_log <$> ws) = handed_over ws) as Hhand.
  { unfold total, handed_over. rewrite zsum_fmap. apply zsum_ext. intros w Hw.
    apply list_elem_of_lookup in Hw as (i & Hi). symmetry.
    erewrite (winv_handed src_mac dst_mac src_ip dst_ip src_port dst_port kt kc frames payload_len) with (i := i);
      [|done|eapply reachable_winv; [..|exact Hgen|exact Hsteps|exact Hi]; done].
    rewrite (Forall_lookup_1 _ _ _ _ Hgdone Hi). cbn [pend_packets]. lia. }
  split; [by rewrite Hgcs, Hb, Hhand|].
  unfold sent_frames, handed_over. apply zsum_between. intros w _. unfold handed, in_ring. lia.
Qed.

(** Both systems and the network, composed. *)
Lemma xdp_run p c LEVEL src_mac dst_mac src_ip dst_ip src_port dst_port kt kc frames
    payload_len pps_per deadline states start g0 gcs ws
    p' sink_deadline kr kf rframes socks c0 cs rs :
  flow_ok c LEVEL src_mac dst_mac src_ip dst_ip src_port dst_port →
  zlen frames ≤ 2 ^ kt → zlen frames ≤ 2 ^ kc →
  16 ≤ payload_len → OUTER_HDR + payload_len ≤ FRAME_SIZE →
  Forall (λ s, tx_inv src_mac dst_mac src_ip dst_ip src_port dst_port kt kc frames s [] [] []) states →
  counters_ok g0 → zlen states < 2 ^ 64 →
  rtc (sys_step (gmove p c LEVEL (OUTER_HDR + payload_len) pps_per deadline kt kc))
    (gen_workers states payload_len start, g0) (ws, gcs) →
  Forall (λ w, gw_steps w < 2 ^ 64 - 2 ∧ gl_pc (gw w) = GDone) ws →
  NoDup rframes → zlen rframes ≤ 2 ^ kr → zlen rframes ≤ 2 ^ kf →
  Forall (λ s, ∃ qf, rx_inv kr kf rframes s [] qf []) socks → counters_ok c0 →
  rtc (sys_step (smove p' sink_deadline kr kf)) (sink_workers socks, c0) (rs, cs) →
  Forall (λ w, sl_pc (sw w) = SDone) rs →
  network ws rs →
  let frame_len := OUTER_HDR + payload_len in
  let got := zlen (concat (sw_seen <$> rs)) in
  let n := handed_over ws in
  gcs = added (n * frame_len) n 0 g0 ∧ sent_frames ws ≤ n
  ∧ ∃ skipped, cs = added (got * frame_len) got (sent_frames ws - got + skipped) c0
    ∧ 0 ≤ skipped ≤ zsum gw_iters ws.
Proof.
  intros Hflow Hkt Hkc H16 Hfit Hst Hg0 Hn Hgen Hgdone Hnd Hkr Hkf Hsocks Hc0 Hsink Hsdone Hnet frame_len got n.
  apply Forall_and in Hgdone as [Hsteps Hgdone].
  assert (zlen ws < 2 ^ 64) as Hn'.
  { pose proof (sys_length _ _ _ Hgen) as HL. cbn [fst] in HL. unfold gen_workers in HL. rewrite length_imap in HL. by rewrite HL. }
  assert (∀ i w, ws !! i = Some w →
    sent_well src_mac dst_mac src_ip dst_ip src_port dst_port kt kc frames payload_len i w) as Hsent.
  { intros i w Hi. apply winv_sent_well; [done|]. eapply reachable_winv; [..|exact Hgen|exact Hsteps|exact Hi]; done. }
  destruct (gen_totals p c LEVEL src_mac dst_mac src_ip dst_ip src_port dst_port kt kc frames payload_len pps_per
    deadline states start g0 gcs ws) as [Hgcs Hle]; try done.
  destruct (loss_total src_mac dst_mac src_ip dst_ip src_port dst_port kt kc frames payload_len H16 ws rs Hn' Hsent Hnet)
    as [Hlo Hhi]. fold got in Hlo, Hhi.
  destruct (sink_totals p' sink_deadline kr kf rframes Hnd Hkr Hkf socks c0 cs rs Hsocks Hsink (seqZ 0 (zlen ws)))
    as (E1 & E2 & E3).
  - eapply Forall_impl; [exact Hsdone|]. intros w E. cbn beta in E. by rewrite E.
  - apply NoDup_seqZ.
  - eapply seen_ok; done.
  - intros sid i j li lj Hi Hj. by eapply seen_queue.
  - fold got in E1. set (drops := stream_gaps _ _) in *. split_and!; [exact Hgcs|exact Hle|].
    + exists (drops - (sent_frames ws - got)). split; [|lia].
      rewrite (sink_counters p' sink_deadline kr kf socks c0 cs rs Hc0 Hsink), E1, E2, E3.
      f_equal; [|unfold drops; lia]. by eapply seen_bytes.
Qed.

(** ** Properties *)

(** C2: The AF_XDP figures, end to end and for any schedule.  Any number of
    generator workers on one host and of sink workers on another, each set of
    threads interleaved in any way with its kernels, and a network that keeps
    to [network]: when all threads have left their loops, the generator's
    counters have grown by the frames its workers handed to their rings (those
    the kernel took, and those it left there) and by their bytes; the sink's
    have grown by the frames it received, their bytes, and a loss that is the
    frames the network lost plus at most one number for each iteration of the
    generator. *)
Theorem xdp_any_schedule p c LEVEL src_mac dst_mac src_ip dst_ip src_port dst_port kt kc frames
    payload_len pps_per deadline states start g0 gcs ws
    p' sink_deadline kr kf rframes socks c0 cs rs :
  flow_ok c LEVEL src_mac dst_mac src_ip dst_ip src_port dst_port →
  zlen frames ≤ 2 ^ kt → zlen frames ≤ 2 ^ kc →
  16 ≤ payload_len → OUTER_HDR + payload_len ≤ FRAME_SIZE →
  Forall (λ s, tx_inv src_mac dst_mac src_ip dst_ip src_port dst_port kt kc frames s [] [] []) states →
  counters_ok g0 → zlen states < 2 ^ 64 →
  rtc (sys_step (gmove p c LEVEL (OUTER_HDR + payload_len) pps_per deadline kt kc))
    (gen_workers states payload_len start, g0) (ws, gcs) →
  Forall (λ w, gw_steps w < 2 ^ 64 - 2 ∧ gl_pc (gw w) = GDone) ws →
  NoDup rframes → zlen rframes ≤ 2 ^ kr → zlen rframes ≤ 2 ^ kf →
  Forall (λ s, ∃ qf, rx_inv kr kf rframes s [] qf []) socks → counters_ok c0 →
  rtc (sys_step (smove p' sink_deadline kr kf)) (sink_workers socks, c0) (rs, cs) →
  Forall (λ w, sl_pc (sw w) = SDone) rs →
  network ws rs →
  let frame_len := OUTER_HDR + payload_len in
  let got := zlen (concat (sw_seen <$> rs)) in
  let n := handed_over ws in
  gcs = added (n * frame_len) n 0 g0 ∧ sent_frames ws ≤ n
  ∧ ∃ skipped, cs = added (got * frame_len) got (sent_frames ws - got + skipped) c0
    ∧ 0 ≤ skipped ≤ zsum gw_iters ws.
Proof. apply xdp_run. Qed.

(** C1: The whole of [--xdp] between two hosts.  Whatever [xdp_udp_blast] and
    [xdp_udp_sink] were given, if both set-ups succeed and there are CPUs to
    pin to, all of them below 1024, then every thread they spawn pins itself
    to its CPU and enters its loop; and the threads' runs, in any interleaving
    with the kernels of the new sockets and over a network that keeps to
    [network], end with the generator's counters at the frames its workers
    handed to their rings (those the kernel took, and those it left there) and
    at their bytes, and with the sink's at the frames and bytes it received and
    the frames lost, plus at most one number for each iteration of the
    generator. *)
Theorem xdp_hosts_any_schedule {L L' : CpuSets} `{!CpuSetsOk L, !CpuSetsOk L'}
    p k XDP_PROG c LEVEL H xdp iface dst_ip dst_port payload_len target cpus h plan h' deadline start
    p' k' XDP_PROG' H' iface' cpus' g socks g' sink_deadline :
  xsk_contract k → isa_ok c → oncelock_ok c LEVEL → addrs_ok (h_ifaddrs H) →
  is_ip dst_ip → is_u16 dst_port → payload_len ≤ FRAME_SIZE - OUTER_HDR →
  xdp_udp_blast p k XDP_PROG H xdp iface dst_ip dst_port payload_len target cpus h = (Ok (Okay plan), h') →
  xsk_contract k' →
  xdp_udp_sink p' k' XDP_PROG' H' iface' cpus' g = (Ok (Okay socks), g') →
  cpus ≠ [] → cpus_fit cpus → cpus' ≠ [] → cpus_fit cpus' →
  let frame_len := OUTER_HDR + plan_payload_len plan in
  ∃ pins ws0 pins' rs0,
    gen_threads (L:=L) cpus (plan_states plan) (plan_payload_len plan) start = Ok (pins, ws0)
    ∧ Forall2 (λ w c, thread_cpu cpus w = Ok c) (seqZ 0 (zlen ws0)) pins
    ∧ sink_threads (L:=L') cpus' (rx_sock <$> socks) = Ok (pins', rs0)
    ∧ Forall2 (λ w c, thread_cpu cpus' w = Ok c) (seqZ 0 (zlen rs0)) pins'
    ∧ ∀ gcs ws cs rs,
      rtc (sys_step (gmove p c LEVEL frame_len (plan_pps plan) deadline 11 11)) (ws0, Counters_default) (ws, gcs) →
      Forall (λ w, gw_steps w < 2 ^ 64 - 2 ∧ gl_pc (gw w) = GDone) ws →
      rtc (sys_step (smove p' sink_deadline 11 11)) (rs0, Counters_default) (rs, cs) →
      Forall (λ w, sl_pc (sw w) = SDone) rs →
      network ws rs →
      let n := handed_over ws in
      let got := zlen (concat (sw_seen <$> rs)) in
      gcs = added (n * frame_len) n 0 Counters_default ∧ sent_frames ws ≤ n
      ∧ ∃ skipped, cs = added (got * frame_len) got (sent_frames ws - got + skipped) Counters_default
        ∧ 0 ≤ skipped ≤ zsum gw_iters ws.
Proof.
  intros Hk Hisa Hcell Ha Hip Hport Hlen E Hk' E' Hc Hfit Hc' Hfit' frame_len.
  unfold gen_threads, sink_threads.
  destruct (pin_workers_ok (L:=L) cpus (zlen (plan_states plan)) Hc Hfit) as (pins & -> & Hpins).
  destruct (pin_workers_ok (L:=L') cpus' (zlen (rx_sock <$> socks)) Hc' Hfit') as (pins' & -> & Hpins').
  cbn [mbind res_bind]. do 4 eexists. split; [done|].
  split; [unfold gen_workers; by rewrite length_imap|]. split; [done|].
  split; [unfold sink_workers; by rewrite length_fmap|].
  intros gcs ws cs rs Hgen Hgdone Hsink Hsdone Hnet.
  destruct (blast_plan_ok p k XDP_PROG c LEVEL H xdp iface dst_ip dst_port payload_len target cpus h plan h')
    as (sm & dm & si & Hflow & H16 & Hframe & Hst & Hn); try done.
  pose proof (sink_plan_ok p' k' XDP_PROG' H' iface' cpus' g socks g' Hk' E') as Hall.
  destruct ring_caps as [Hcap Hcap'].
  apply (xdp_run p c LEVEL sm dm si dst_ip 40000 dst_port 11 11 (frames RING_SIZE FRAME_COUNT)
    (plan_payload_len plan) (plan_pps plan) deadline (plan_states plan) start Counters_default gcs ws
    p' sink_deadline 11 11 (frames 0 RING_SIZE) (rx_sock <$> socks) Counters_default cs rs); try done.
  apply NoDup_frames.
Qed.

(** *** One worker, two queues, and a network that loses the middle *)

Definition demo_send_schedule : list (nat * option Z) :=
  (λ t, (0%nat, t)) <$>
    (replicate 9 (Some 10) ++ [None] ++ replicate 9 (Some 20) ++ [None; Some 100]).

Definition demo_xdp : list gworker * Counters :=
  demo_exec demo_send_schedule (gen_workers [demo_tx] 64 (λ _, 0), Counters_default).

Lemma demo_xdp_wire : gw_wire <$> demo_xdp.1 = [demo_sent].
Proof. vm_compute. reflexivity. Qed.

Lemma demo_seen : sw_seen <$> demo_rws = [[demo_first; demo_last]; []].
Proof. vm_compute. reflexivity. Qed.

(** The four frames of the worker, the first and the last of which arrive. *)
Lemma demo_sent_parts : ∃ a b, demo_sent = [demo_first; a; b; demo_last].
Proof. do 2 eexists. reflexivity. Qed.

Lemma demo_sids : frame_sid demo_first = 0 ∧ frame_sid demo_last = 0.
Proof. split; vm_compute; reflexivity. Qed.

Lemma demo_network ws rs :
  gw_wire <$> ws = [demo_sent] → sw_seen <$> rs = [[demo_first; demo_last]; []] → network ws rs.
Proof.
  intros Hw Hr. destruct demo_sent_parts as (a & b & Es). destruct demo_sids as [S1 S2].
  assert (∀ i w, ws !! i = Some w → i = 0%nat ∧ gw_wire w = demo_sent) as Hws.
  { intros i w Hi. assert ((gw_wire <$> ws) !! i = Some (gw_wire w)) as E by (by rewrite list_lookup_fmap, Hi).
    rewrite Hw in E. destruct i as [|i]; cbn in E; [by simplify_eq|done]. }
  assert (∀ i v f, rs !! i = Some v → f ∈ sw_seen v → i = 0%nat) as Hrs.
  { intros i v f Hi Hf. assert ((sw_seen <$> rs) !! i = Some (sw_seen v)) as E by (by rewrite list_lookup_fmap, Hi).
    rewrite Hr in E. destruct i as [|[|i]]; cbn in E; [done|simplify_eq; rewrite <- E in Hf; by apply elem_of_nil in Hf|done]. }
  assert (received rs 0 = [demo_first; demo_last]) as Erec.
  { unfold received. rewrite Hr. cbn [concat app].
    rewrite filter_cons_True, filter_cons_True, filter_nil by (by rewrite ?S1, ?S2). done. }
  split.
  - rewrite Hr. cbn [concat app]. intros f Hf. destruct ws as [|w [|]]; [done| |done].
    exists 0%nat, w. split; [done|]. destruct (Hws 0%nat w eq_refl) as [_ ->]. rewrite Es.
    apply elem_of_cons in Hf as [->|Hf]; [by left|]. apply list_elem_of_singleton in Hf as ->.
    do 3 right. by left.
  - intros i w Hi. destruct (Hws i w Hi) as [-> ->]. rewrite Erec, Es.
    apply sublist_skip, sublist_cons, sublist_cons, sublist_skip, sublist_nil.
  - intros i w Hi. destruct (Hws i w Hi) as [-> ->]. rewrite Erec, Es. done.
  - intros i j v w f g Hi Hj Hf Hg _. by rewrite (Hrs i v f Hi Hf), (Hrs j w g Hj Hg).
Qed.

(** Four frames sent, two received: the loss is two frames and what the
    worker left out. *)
Lemma xdp_any_schedule_witness :
  mkCounters 424 4 0 = added (4 * 106) 4 0 Counters_default ∧ 4 ≤ 4
  ∧ ∃ skipped, mkCounters 212 2 3 = added (2 * 106) 2 (4 - 2 + skipped) Counters_default ∧ 0 ≤ skipped ≤ 2.
Proof.
  assert (demo_xdp = (demo_xdp.1, mkCounters 424 4 0)) as Ex by (vm_compute; reflexivity).
  assert (zlen (concat (sw_seen <$> demo_rws)) = 2) as Eg by (rewrite demo_seen; reflexivity).
  assert (sent_frames demo_xdp.1 = 4) as Et by (vm_compute; reflexivity).
  assert (zsum gw_iters demo_xdp.1 = 2) as Ei by (vm_compute; reflexivity).
  pose proof (xdp_any_schedule Release haswell None _ _ _ _ _ _ 1 1 [0; 4096] 64 0 100 [demo_tx] (λ _, 0)
    Counters_default (mkCounters 424 4 0) demo_xdp.1 Release 50 1 1 [0; 4096] [empty_sock; empty_sock]
    Counters_default (mkCounters 212 2 3) demo_rws demo_flow_ok) as H.
  assert (handed_over demo_xdp.1 = 4) as Eh by (vm_compute; reflexivity).
  cbv zeta in H. rewrite Eg, Et, Ei, Eh in H. clear Eg Et Ei Eh. apply H; clear H.
  - vm_compute. discriminate.
  - vm_compute. discriminate.
  - vm_compute. discriminate.
  - vm_compute. discriminate.
  - constructor; [exact demo_tx_inv|constructor].
  - exact Counters_default_ok.
  - vm_compute. reflexivity.
  - rewrite <- Ex. unfold demo_xdp. apply demo_exec_rtc.
  - apply (bool_decide_unpack _). vm_compute. exact I.
  - apply (bool_decide_unpack _). vm_compute. exact I.
  - vm_compute. discriminate.
  - vm_compute. discriminate.
  - exact demo_socks_inv.
  - exact Counters_default_ok.
  - exact demo_rws_run.
  - apply (bool_decide_unpack _). vm_compute. exact I.
  - apply demo_network; [exact demo_xdp_wire|exact demo_seen].
Defined.

(** *** Two hosts, and one frame between them *)

(** A worker that finds the flag cleared at once. *)
Definition gen_leave (w : gworker) : gworker :=
  GWorker (gl_at (gw w) GDone) (gw_fl w) (gw_wire w) (gw_log w ++ []) (gw_iters w + 0) (gw_steps w + 1).
Definition sink_leave (w : sworker) : sworker :=
  SWorker (sl_at (sw w) SDone) (sw_held w) (sw_got w) (sw_seen w ++ []) (sw_log w ++ []).

Lemma gen_leave_move p c LEVEL frame_len pps deadline kt kc w :
  gl_pc (gw w) = GTest → gmove p c LEVEL frame_len pps deadline kt kc w None (gen_leave w).
Proof.
  intros E. destruct w as [l fl wire log iters steps]. cbn [gw] in E. unfold gen_leave.
  cbn [gw gw_fl gw_wire gw_log gw_iters gw_steps].
  replace 0 with (begins l) at 1 by (unfold begins; by rewrite E).
  apply (g_prog p c LEVEL frame_len pps deadline kt kc false 0 l None (gl_at l GDone)); [by rewrite E|].
  unfold gen_step. by rewrite E.
Qed.

Lemma sink_leave_move p deadline kr kf w : sl_pc (sw w) = STest → smove p deadline kr kf w None (sink_leave w).
Proof.
  intros E. destruct w as [l held got seen log]. cbn [sw] in E. unfold sink_leave. cbn [sw sw_held sw_got sw_seen sw_log].
  replace [] with (finishes l) at 1 by (unfold finishes; by rewrite E).
  apply (s_prog p deadline kr kf false 0 l None (sl_at l SDone)); [by rewrite E|].
  unfold sink_step. by rewrite E.
Qed.

Lemma leave_all {W} (move : W → option atom → W → Prop) (f : W → W) ws :
  (∀ w, w ∈ ws → move w None (f w)) → Forall2 (rtc (moves move)) ws (f <$> ws).
Proof.
  induction ws as [|w ws IH]; intros H; [constructor|]. constructor.
  - apply rtc_once. exists None. apply H. by left.
  - apply IH. intros v Hv. apply H. by right.
Qed.

(** Where the workers start. *)
Lemma gen_workers_start states payload_len start w : w ∈ gen_workers states payload_len start →
  gl_pc (gw w) = GTest ∧ gw_wire w = [] ∧ gw_steps w = 0.
Proof.
  intros (i & Hi)%list_elem_of_lookup. unfold gen_workers in Hi. rewrite list_lookup_imap in Hi.
  destruct (states !! i) as [s|]; cbn in Hi; [|discriminate Hi]. injection Hi as <-. done.
Qed.

Lemma sink_workers_start socks w : w ∈ sink_workers socks → sl_pc (sw w) = STest ∧ sw_seen w = [].
Proof. by intros (s & -> & _)%list_elem_of_fmap. Qed.

(** One worker sends one frame, and it arrives. *)
Lemma one_frame_network w ws r rs f : frame_sid f = 0 → gw_wire w = [f] → Forall (λ w, gw_wire w = []) ws →
  sw_seen r = [f] → Forall (λ r, sw_seen r = []) rs →
  network (w :: ws) (r :: rs) ∧ concat (sw_seen <$> r :: rs) = [f] ∧ sent_frames (w :: ws) = 1.
Proof.
  intros Hsid Hw Hws Hr Hrs.
  assert (concat (sw_seen <$> r :: rs) = [f]) as E.
  { rewrite fmap_cons. cbn [concat]. rewrite Hr. cbn [app]. f_equal.
    induction Hrs as [|v rs Hv _ IH]; [done|]. rewrite fmap_cons. cbn [concat]. by rewrite Hv, IH. }
  assert (∀ i, received (r :: rs) i = if decide (i = 0%nat) then [f] else []) as Erec.
  { intros i. unfold received. rewrite E. case_decide as Hi.
    - subst i. by rewrite filter_cons_True by done.
    - rewrite filter_cons_False by (rewrite Hsid; lia). done. }
  assert (∀ i v, (w :: ws) !! i = Some v → gw_wire v = if decide (i = 0%nat) then [f] else []) as Ew.
  { intros [|i] v Hi; [by cbn in Hi; simplify_eq|]. rewrite decide_False by lia. cbn in Hi. by eapply (Forall_lookup_1 _ _ _ _ Hws). }
  assert (∀ i v, (r :: rs) !! i = Some v → sw_seen v = if decide (i = 0%nat) then [f] else []) as Er.
  { intros [|i] v Hi; [by cbn in Hi; simplify_eq|]. rewrite decide_False by lia. cbn in Hi. by eapply (Forall_lookup_1 _ _ _ _ Hrs). }
  split; [split|split; [exact E|]].
  - rewrite E. intros g Hg. exists 0%nat, w. by rewrite Hw.
  - intros i v Hi. by rewrite Erec, (Ew i v Hi).
  - intros i v Hi. by rewrite Erec, (Ew i v Hi).
  - intros i j v v' g g' Hi Hj Hg Hg' _. rewrite (Er i v Hi) in Hg. rewrite (Er j v' Hj) in Hg'.
    destruct (decide (i = 0%nat)); [|by apply elem_of_nil in Hg].
    destruct (decide (j = 0%nat)); [lia|by apply elem_of_nil in Hg'].
  - unfold sent_frames. rewrite zsum_cons, Hw. rewrite zsum_zero; [done|]. intros v Hv. rewrite Forall_forall in Hws.
    by rewrite (Hws v Hv).
Qed.

Lemma handed_over_nonneg ws : 0 ≤ handed_over ws.
Proof.
  unfold handed_over. induction ws as [|w ws IH]; [done|]. rewrite zsum_cons. unfold handed at 1, in_ring. lia.
Qed.

Lemma frames_not_nil : frames RING_SIZE FRAME_COUNT ≠ [] ∧ frames 0 RING_SIZE ≠ [].
Proof.
  split; intros E; apply (f_equal (λ l, zlen l)) in E; rewrite length_frames in E; unfold RING_SIZE, FRAME_COUNT in *;
    cbn [length] in E; lia.
Qed.

(** The generator's first worker hands a batch to its ring, of which the
    kernel takes the first frame; the others leave at once. *)
Lemma blast_one_frame p k XDP_PROG c LEVEL H xdp iface dst_ip dst_port payload_len target cpus h plan h' deadline start :
  xsk_contract k → isa_ok c → oncelock_ok c LEVEL → addrs_ok (h_ifaddrs H) →
  is_ip dst_ip → is_u16 dst_port → payload_len ≤ FRAME_SIZE - OUTER_HDR →
  xdp_udp_blast p k XDP_PROG H xdp iface dst_ip dst_port payload_len target cpus h = (Ok (Okay plan), h') →
  let len := plan_payload_len plan in
  ∃ w ws f gcs, rtc (sys_step (gmove p c LEVEL (OUTER_HDR + len) (plan_pps plan) deadline 11 11))
      (gen_workers (plan_states plan) len start, Counters_default) (w :: ws, gcs)
    ∧ Forall (λ w, gw_steps w < 2 ^ 64 - 2 ∧ gl_pc (gw w) = GDone) (w :: ws)
    ∧ gw_wire w = [f] ∧ Forall (λ w, gw_wire w = []) ws ∧ 1 ≤ handed_over (w :: ws)
    ∧ zlen f = OUTER_HDR + len ∧ frame_sid f = 0 ∧ seq_ok (frame_num f).
Proof.
  intros Hk Hisa Hcell Ha Hip Hport Hlen E len.
  destruct (blast_plan_ok p k XDP_PROG c LEVEL H xdp iface dst_ip dst_port payload_len target cpus h plan h')
    as (sm & dm & si & Hflow & H16 & Hframe & Hst & Hn); try done.
  destruct ring_caps as [Hcap _].
  destruct (wp_outcome _ _ _ _ _ (wp_xdp_udp_blast p k XDP_PROG Hk H xdp iface dst_ip dst_port
    payload_len target cpus h Ha) E) as (r & [= <-] & Hw & _).
  pose proof (workers_pos cpus (Z.max (get_rx_queue_count (h_fs H) iface) 1)) as Hpos.
  destruct (plan_states plan) as [|s states]; [cbn [length] in Hw; lia|]. clear Hw Hpos.
  apply Forall_cons in Hst as [Hs _].
  destruct (first_frame_run p c LEVEL sm dm si dst_ip 40000 dst_port 11 11 (frames RING_SIZE FRAME_COUNT) len
    (plan_pps plan) deadline Hflow Hcap Hcap H16 Hframe 0 s (start 0%nat)) as (w & f & Hrun & Hd & Hlt & Ew & Hh & F1 & F2 & F3);
    [lia|done|apply frames_not_nil|].
  unfold gen_workers. cbn [imap]. set (ws0 := imap _ states).
  assert (∀ v, v ∈ ws0 → gl_pc (gw v) = GTest ∧ gw_wire v = [] ∧ gw_steps v = 0) as Hws0.
  { intros v Hv. apply (gen_workers_start (s :: states) len start). unfold gen_workers. cbn [imap]. by right. }
  destruct (sys_all (gmove p c LEVEL (OUTER_HDR + len) (plan_pps plan) deadline 11 11)
    (gworker_init (gen_init s (Z.of_nat 0) len (start 0%nat)) :: ws0) (w :: (gen_leave <$> ws0)) Counters_default) as [gcs Hsys].
  { constructor; [exact Hrun|]. apply leave_all. intros v Hv. by apply gen_leave_move, Hws0. }
  exists w, (gen_leave <$> ws0), f, gcs. split; [exact Hsys|]. split; [|split; [done|split; [|split]]].
  - constructor; [done|]. apply Forall_fmap, Forall_forall. intros v Hv. cbn. destruct (Hws0 v Hv) as (_ & _ & ->). done.
  - apply Forall_fmap, Forall_forall. intros v Hv. cbn. apply (Hws0 v Hv).
  - unfold handed_over. rewrite zsum_cons. pose proof (handed_over_nonneg (gen_leave <$> ws0)) as H0. unfold handed_over in H0. lia.
  - done.
Qed.

(** The sink's first worker is handed a frame; the others leave at once. *)
Lemma sink_one_frame k XDP_PROG H iface cpus h socks h' deadline f :
  xsk_contract k → xdp_udp_sink Release k XDP_PROG H iface cpus h = (Ok (Okay socks), h') → 0 < zlen f ≤ 3840 →
  ∃ r rs cs, rtc (sys_step (smove Release deadline 11 11)) (sink_workers (rx_sock <$> socks), Counters_default) (r :: rs, cs)
    ∧ Forall (λ w, sl_pc (sw w) = SDone) (r :: rs)
    ∧ sw_seen r = [f] ∧ Forall (λ r, sw_seen r = []) rs.
Proof.
  intros Hk E Hf. pose proof (sink_plan_ok Release k XDP_PROG H iface cpus h socks h' Hk E) as Hall.
  destruct ring_caps as [_ Hcap].
  destruct (wp_outcome _ _ _ _ _ (wp_xdp_udp_sink Release k XDP_PROG Hk H iface cpus h) E) as (r & [= <-] & _ & Hn & _).
  pose proof (workers_pos cpus (Z.max (get_rx_queue_count (h_fs H) iface) 1)) as Hpos.
  destruct socks as [|s socks]; [cbn [length] in Hn; lia|]. clear Hn Hpos. rewrite fmap_cons in *.
  apply Forall_cons in Hall as [[qf Hs] _].
  destruct (first_delivery_run Release deadline 11 11 (frames 0 RING_SIZE) (rx_sock s) qf f) as (r & Hrun & Hd & Er);
    [lia|apply NoDup_frames|done|done|apply frames_not_nil|done|done|by left|].
  set (rs0 := sink_workers (rx_sock <$> socks)).
  assert (∀ v, v ∈ rs0 → sl_pc (sw v) = STest ∧ sw_seen v = []) as Hrs0 by (intros v; apply sink_workers_start).
  destruct (sys_all (smove Release deadline 11 11) (sworker_init (sink_init (rx_sock s)) :: rs0)
    (r :: (sink_leave <$> rs0)) Counters_default) as [cs Hsys].
  { constructor; [exact Hrun|]. apply leave_all. intros v Hv. by apply sink_leave_move, Hrs0. }
  exists r, (sink_leave <$> rs0), cs. split; [exact Hsys|]. split; [|split; [done|]].
  - constructor; [done|]. by apply Forall_fmap, Forall_forall.
  - apply Forall_fmap, Forall_forall. intros v Hv. cbn. by destruct (Hrs0 v Hv) as [_ ->].
Qed.

(** Two queues each; one frame crosses, the others stay in the ring. *)
Lemma xdp_hosts_any_schedule_witness :
  ∃ plan h' socks g' gcs cs n skipped,
    xdp_udp_blast Release (demo_kernel no_zerocopy) demo_prog demo_host true (lit "eth0") [10;0;0;9]
      5201 1400 0 [0; 1; 2; 3] [] = (Ok (Okay plan), h')
    ∧ xdp_udp_sink Release (demo_kernel no_zerocopy) demo_prog demo_host (lit "eth0") [0; 1; 2; 3] [] = (Ok (Okay socks), g')
    ∧ gcs = added (n * (OUTER_HDR + plan_payload_len plan)) n 0 Counters_default ∧ 1 ≤ n
    ∧ cs = added (1 * (OUTER_HDR + plan_payload_len plan)) 1 (1 - 1 + skipped) Counters_default ∧ 0 ≤ skipped.
Proof.
  destruct (blast_header demo_host (lit "eth0") [10;0;0;9] 5201) as [x|e] eqn:Eh;
    [|vm_compute in Eh; discriminate Eh].
  destruct (good_xdp_udp_blast Release _ demo_prog (demo_kernel_contract _) no_zerocopy_grants demo_host true
    (lit "eth0") [10;0;0;9] 5201 1400 0 [0; 1; 2; 3] [] x Eh) as ([plan|e] & h' & E & Hr);
    [|destruct Hr].
  destruct (good_xdp_udp_sink Release _ demo_prog (demo_kernel_contract _) no_zerocopy_grants
    no_zerocopy_aya demo_host (lit "eth0") [0; 1; 2; 3] [] 2 eq_refl) as ([socks|e] & g' & E' & Hr');
    [|destruct Hr'].
  clear Hr Hr' Eh x.
  assert (isa_ok haswell) as Hisa by (intros [=]).
  assert (oncelock_ok haswell None) as Hcell by by left.
  assert (is_ip [10;0;0;9]) as Hip by (apply (bool_decide_unpack _); vm_compute; exact I).
  assert (is_u16 5201) as Hport by (apply (bool_decide_unpack _); vm_compute; exact I).
  assert (1400 ≤ FRAME_SIZE - OUTER_HDR) as Hlen by (vm_compute; discriminate).
  assert (cpus_fit [0; 1; 2; 3]) as Hfit by (apply (bool_decide_unpack _); vm_compute; exact I).
  pose proof (demo_kernel_contract no_zerocopy) as Hk.
  assert (plan_payload_len plan = 1400) as Hpl.
  { destruct (wp_outcome _ _ _ _ _ (wp_xdp_udp_blast Release _ demo_prog Hk demo_host true (lit "eth0") [10;0;0;9] 5201
      1400 0 [0; 1; 2; 3] [] demo_addrs_ok) E) as (r & [= <-] & _ & Hpl & _). exact Hpl. }
  destruct (blast_one_frame Release _ demo_prog haswell None demo_host true (lit "eth0") [10;0;0;9] 5201 1400 0
    [0; 1; 2; 3] [] plan h' 100 (λ _, 0) Hk Hisa Hcell demo_addrs_ok Hip Hport Hlen E)
    as (w & ws & f & gcs & Hgen & Hgdone & Hw & Hws & Hh & F1 & F2 & _).
  destruct (sink_one_frame _ demo_prog demo_host (lit "eth0") [0; 1; 2; 3] [] socks g' 50 f Hk E')
    as (r & rs & cs & Hsink & Hsdone & Hrs & Hrss); [rewrite F1, Hpl; change OUTER_HDR with 42; lia|].
  destruct (one_frame_network w ws r rs f F2 Hw Hws Hrs Hrss) as (Hnet & Hgot & Hsent).
  destruct (@xdp_hosts_any_schedule (bit_sets 4) (bit_sets 4) (bit_sets_ok 4) (bit_sets_ok 4)
    Release _ demo_prog haswell None demo_host true (lit "eth0") [10;0;0;9] 5201 1400
    0 [0; 1; 2; 3] [] plan h' 100 (λ _, 0) Release _ demo_prog demo_host (lit "eth0") [0; 1; 2; 3] [] socks g' 50
    Hk Hisa Hcell demo_addrs_ok Hip Hport Hlen E Hk E') as (pins & ws0 & pins' & rs0 & Egt & _ & Est & _ & Hrun);
    [intros [=]|exact Hfit|intros [=]|exact Hfit|].
  apply res_bind_inv in Egt as (? & _ & [= _ <-]). apply res_bind_inv in Est as (? & _ & [= _ <-]).
  destruct (Hrun gcs (w :: ws) cs (r :: rs) Hgen Hgdone Hsink Hsdone Hnet) as (H1 & _ & skipped & H2 & H3).
  rewrite Hgot, Hsent in H2.
  exists plan, h', socks, g', gcs, cs, (handed_over (w :: ws)), skipped.
  split; [exact E|]. split; [exact E'|]. split; [exact H1|]. split; [exact Hh|]. split; [exact H2|apply H3].
Defined.
