(* ===== verification/Float.v ===== *)
(** * Non-negative [f64] arithmetic

    The rates and percentages the program prints are [f64].  IEEE 754
    defines every operation as the exact result rounded to 53 significant
    bits, to the nearest and to even on a tie; here that is one function on
    quotients of integers, and the operations are its instances.  No value
    in the program is negative, so neither is any here.  The theorem about
    [rnd] is that it is off by at most one part in [2^53]; the rules for
    products, quotients and sums follow. *)

From S2P Require Import Prelude.
From Stdlib Require Import QArith Qabs Qpower Qfield Lqa.
From Stdlib Require Import SetoidTactics.
Open Scope Z_scope.

#[local] Instance q_default : DefaultRelation Qeq := {}.

(** A finite value is [m * 2^e]. *)
Inductive f64 : Type := Fin (m e : Z) | Inf | NaN.

#[export] Instance f64_eq_dec : EqDecision f64.
Proof. solve_decision. Defined.

(** [n / d] to the nearest integer, to even on a tie. *)
Definition rne (n d : Z) : Z :=
  let q := n / d in
  match 2 * (n mod d) ?= d with
  | Lt => q
  | Gt => q + 1
  | Eq => if Z.even q then q else q + 1
  end.

(** [m * 2^e] as a fraction. *)
Definition num (m e : Z) : Z := m * 2 ^ Z.max e 0.
Definition den (e : Z) : Z := 2 ^ Z.max (- e) 0.

(** The exponent that leaves 53 bits in front of the point of [n / d]. *)
Definition exponent (n d : Z) : Z :=
  let e := Z.log2 n - Z.log2 d - 52 in
  if n * den e <? 2 ^ 52 * num d e then e - 1 else e.

(** [n / d] rounded to a double; [-1074] is the exponent of the subnormal
    numbers. *)
Definition rnd (n d : Z) : f64 :=
  if n =? 0 then Fin 0 0 else
  let e := Z.max (exponent n d) (-1074) in
  let m := rne (n * den e) (num d e) in
  if 1024 <=? Z.log2 m + e then Inf else Fin m e.

(** [x as f64] of an unsigned integer. *)
Definition of_int (z : Z) : f64 := rnd z 1.

Definition fmul (a b : f64) : f64 :=
  match a, b with
  | NaN, _ | _, NaN => NaN
  | Inf, Fin m _ | Fin m _, Inf => if m =? 0 then NaN else Inf
  | Inf, Inf => Inf
  | Fin m e, Fin m' e' => rnd (num m e * num m' e') (den e * den e')
  end.

Definition fdiv (a b : f64) : f64 :=
  match a, b with
  | NaN, _ | _, NaN | Inf, Inf => NaN
  | Inf, Fin _ _ => Inf
  | Fin _ _, Inf => Fin 0 0
  | Fin m e, Fin m' e' =>
      if m' =? 0 then if m =? 0 then NaN else Inf
      else rnd (num m e * den e') (den e * num m' e')
  end.

Definition fadd (a b : f64) : f64 :=
  match a, b with
  | NaN, _ | _, NaN => NaN
  | Inf, _ | _, Inf => Inf
  | Fin m e, Fin m' e' => rnd (num m e * den e' + num m' e' * den e) (den e * den e')
  end.

(** ** Values *)

Definition val (f : f64) : Q :=
  match f with Fin m e => (inject_Z (num m e) / inject_Z (den e))%Q | _ => 0%Q end.

(** The unit roundoff. *)
Definition u : Q := (1 # 9007199254740992)%Q.

Fixpoint pow (q : Q) (k : nat) : Q := match k with O => 1%Q | S k => (q * pow q k)%Q end.

(** [v] is [x] up to [k] roundings. *)
Definition near (k : nat) (v x : Q) : Prop :=
  (x * pow (1 - u) k <= v <= x * pow (1 + u) k)%Q.

(** A positive double whose exponent is at most [k] in size. *)
Definition pos (k : Z) (f : f64) : Prop :=
  ∃ m e, f = Fin m e ∧ 0 < m ≤ 2 ^ 53 ∧ - k ≤ e ≤ k.

(** ** Rounding *)

Lemma rne_near n d : 0 ≤ n → 0 < d → 2 * Z.abs (rne n d * d - n) ≤ d.
Proof.
  intros Hn Hd. unfold rne. pose proof (Z.div_mod n d ltac:(lia)) as E.
  pose proof (Z.mod_pos_bound n d Hd). set (q := n / d) in *. set (r := n mod d) in *. clearbody q r.
  destruct (Z.compare_spec (2 * r) d); [destruct (Z.even q)|..]; nia.
Qed.

Lemma den_pos e : 0 < den e.
Proof. unfold den. apply Z.pow_pos_nonneg; lia. Qed.

Lemma num_pos m e : 0 < m → 0 < num m e.
Proof. intros. unfold num. pose proof (Z.pow_pos_nonneg 2 (Z.max e 0)). nia. Qed.

Lemma pow_split a b : 0 ≤ a → 0 ≤ b → 2 ^ (a + b) = 2 ^ a * 2 ^ b.
Proof. apply Z.pow_add_r. Qed.

(** With [l = log2 n - log2 d], the quotient [n / d] is between [2^(l-1)]
    and [2^(l+1)]. *)
Lemma log2_quotient n d : 0 < n → 0 < d →
  let l := Z.log2 n - Z.log2 d in
  2 ^ 51 * num d (l - 52) < n * den (l - 52) < 2 ^ 53 * num d (l - 52).
Proof.
  intros Hn Hd l. pose proof (Z.log2_spec n Hn) as [N1 N2]. pose proof (Z.log2_spec d Hd) as [D1 D2].
  pose proof (Z.log2_nonneg n) as Ln. pose proof (Z.log2_nonneg d) as Ld.
  rewrite Z.pow_succ_r in N2, D2 by lia. subst l. set (a := Z.log2 n) in *. set (b := Z.log2 d) in *.
  clearbody a b. unfold num, den.
  assert (2 ^ 52 * (2 ^ b * 2 ^ Z.max (a - b - 52) 0) = 2 ^ a * 2 ^ Z.max (- (a - b - 52)) 0) as E.
  { rewrite <- !pow_split by lia. f_equal. lia. }
  change (2 ^ 52) with (2 * 2 ^ 51) in E. change (2 ^ 53) with (4 * 2 ^ 51).
  set (X := 2 ^ Z.max (a - b - 52) 0) in *. set (Y := 2 ^ Z.max (- (a - b - 52)) 0) in *.
  assert (0 < X ∧ 0 < Y) as [HX HY] by (split; apply Z.pow_pos_nonneg; lia).
  clearbody X Y. set (A := 2 ^ a) in *. set (B := 2 ^ b) in *. clearbody A B.
  change (2 ^ 51) with 2251799813685248 in *. nia.
Qed.

Lemma num_pred d e : num d (e - 1) * den e * 2 = num d e * den (e - 1).
Proof.
  unfold num, den. destruct (Z.le_gt_cases 1 e) as [He|He].
  - rewrite (Z.max_r (- e) 0), (Z.max_r (- (e - 1)) 0), (Z.max_l (e - 1) 0), (Z.max_l e 0) by lia.
    replace e with (e - 1 + 1) at 2 by lia.
    rewrite (pow_split (e - 1) 1) by lia. lia.
  - rewrite (Z.max_l (- e) 0), (Z.max_l (- (e - 1)) 0), (Z.max_r (e - 1) 0), (Z.max_r e 0) by lia.
    replace (- (e - 1)) with (- e + 1) by lia.
    rewrite (pow_split (- e) 1) by lia. lia.
Qed.

(** The exponent leaves a quotient between [2^52] and [2^53]. *)
Lemma exponent_bounds n d : 0 < n → 0 < d →
  let e := exponent n d in 2 ^ 52 * num d e ≤ n * den e < 2 ^ 53 * num d e.
Proof.
  intros Hn Hd e. pose proof (log2_quotient n d Hn Hd) as H. cbv zeta in H. subst e. unfold exponent.
  set (e := Z.log2 n - Z.log2 d - 52) in *.
  destruct (Z.ltb_spec (n * den e) (2 ^ 52 * num d e)); [|lia].
  pose proof (num_pred d e) as E. pose proof (den_pos e). pose proof (den_pos (e - 1)).
  pose proof (num_pos d e Hd). pose proof (num_pos d (e - 1) Hd).
  change (2 ^ 53) with (4 * 2 ^ 51) in *. change (2 ^ 52) with (2 * 2 ^ 51) in *.
  set (X := num d (e - 1)) in *. set (Y := num d e) in *. set (V := den e) in *. set (W := den (e - 1)) in *.
  set (K := 2 ^ 51) in *. clearbody X Y V W K e.
  assert (K * Y * W = 2 * K * X * V) as E' by (rewrite <- Z.mul_assoc, <- E; ring).
  assert (n * V * W < 2 * K * Y * W) by (apply Z.mul_lt_mono_pos_r; lia).
  assert (K * Y * W < n * V * W) by (apply Z.mul_lt_mono_pos_r; lia).
  split; [|apply (Z.mul_lt_mono_pos_r V); lia].
  apply Z.lt_le_incl, (Z.mul_lt_mono_pos_r V); lia.
Qed.

Lemma exponent_size n d : 0 < n → 0 < d → - Z.log2 d - 53 ≤ exponent n d ≤ Z.log2 n - 52.
Proof.
  intros Hn Hd. pose proof (Z.log2_nonneg n). pose proof (Z.log2_nonneg d).
  unfold exponent. destruct (_ <? _); lia.
Qed.

Lemma inject_pos z : 0 < z → (0 < inject_Z z)%Q.
Proof. intros H. change 0%Q with (inject_Z 0). by rewrite <- Zlt_Qlt. Qed.

(** A comparison of fractions from one of integers. *)
Lemma near_fraction a b c d : 0 < b → 0 < d → 0 < c →
  2 ^ 53 * Z.abs (a * d - c * b) ≤ c * b →
  near 1 (inject_Z a / inject_Z b) (inject_Z c / inject_Z d).
Proof.
  intros Hb Hd Hc H. set (v := (inject_Z a / inject_Z b)%Q). set (x := (inject_Z c / inject_Z d)%Q).
  pose proof (inject_pos b Hb) as Qb. pose proof (inject_pos d Hd) as Qd.
  assert (v * inject_Z b == inject_Z a)%Q as Ev by (unfold v; field; intros E; rewrite E in Qb; lra).
  assert (x * inject_Z d == inject_Z c)%Q as Ex by (unfold x; field; intros E; rewrite E in Qd; lra).
  clearbody v x.
  change (2 ^ 53) with 9007199254740992 in H.
  assert (9007199254740992 * (a * d - c * b) ≤ c * b ∧ 9007199254740992 * (c * b - a * d) ≤ c * b)
    as [H1 H2] by lia.
  rewrite Zle_Qle in H1, H2. unfold Zminus in H1, H2.
  rewrite ?inject_Z_mult, ?inject_Z_plus, ?inject_Z_opp, ?inject_Z_mult, <- ?Ev, <- ?Ex in H1, H2.
  change (inject_Z 9007199254740992) with 9007199254740992%Q in H1, H2.
  set (B := inject_Z b) in *. set (D := inject_Z d) in *. clearbody B D. clear Ev Ex H.
  pose proof (Qmult_lt_0_compat B D Qb Qd) as Hbd.
  unfold near, u. cbn [pow].
  split; apply Qnot_lt_le; intros Hlt.
  - assert (0 < 9007199254740992 * (x - v) - x)%Q as Hp by lra.
    pose proof (Qmult_lt_0_compat _ _ Hbd Hp). lra.
  - assert (0 < 9007199254740992 * (v - x) - x)%Q as Hp by lra.
    pose proof (Qmult_lt_0_compat _ _ Hbd Hp). lra.
Qed.

(** Rounding a quotient of moderate size. *)
Lemma rnd_near n d : 0 < n → 0 < d → Z.log2 n ≤ 900 → Z.log2 d ≤ 900 →
  ∃ m e, rnd n d = Fin m e ∧ 0 < m ≤ 2 ^ 53 ∧ - Z.log2 d - 53 ≤ e ≤ Z.log2 n - 52
    ∧ near 1 (val (Fin m e)) (inject_Z n / inject_Z d).
Proof.
  intros Hn Hd Ln Ld. pose proof (exponent_size n d Hn Hd) as He.
  pose proof (exponent_bounds n d Hn Hd) as [B1 B2]. unfold rnd.
  rewrite (proj2 (Z.eqb_neq n 0)) by lia. rewrite Z.max_l by lia. set (e := exponent n d) in *.
  pose proof (den_pos e) as Hden. pose proof (num_pos d e Hd) as Hnum.
  pose proof (rne_near (n * den e) (num d e) ltac:(nia) Hnum) as Hr.
  set (m := rne (n * den e) (num d e)) in *.
  assert (0 < m ≤ 2 ^ 53) as Hm.
  { clearbody m. set (D := num d e) in *. set (N := n * den e) in *. clearbody D N.
    change (2 ^ 53) with 9007199254740992 in *. change (2 ^ 52) with 4503599627370496 in *. nia. }
  assert (Z.log2 m ≤ 53) as Hl.
  { change 53 with (Z.log2 (2 ^ 53)). apply Z.log2_le_mono. lia. }
  rewrite (proj2 (Z.leb_gt _ _)) by lia. exists m, e. split_and!; try done; try lia.
  apply near_fraction; [done..|nia|].
  replace (num m e * d) with (m * num d e) by (unfold num; ring).
  clearbody m. set (D := num d e) in *. set (N := n * den e) in *. clearbody D N.
  change (2 ^ 53) with (2 * 2 ^ 52). nia.
Qed.

(** ** Combining roundings *)

#[export] Instance near_proper : Proper (eq ==> Qeq ==> Qeq ==> iff) near.
Proof. intros k ? <- v v' Ev x x' Ex. unfold near. by rewrite Ev, Ex. Qed.

Lemma pow_nonneg q k : (0 <= q)%Q → (0 <= pow q k)%Q.
Proof. intros H. induction k as [|k IH]; cbn [pow]; [lra|]. by apply Qmult_le_0_compat. Qed.

Lemma pow_pos q k : (0 < q)%Q → (0 < pow q k)%Q.
Proof. intros H. induction k as [|k IH]; cbn [pow]; [lra|]. by apply Qmult_lt_0_compat. Qed.

Lemma pow_add q j k : (pow q (j + k) == pow q j * pow q k)%Q.
Proof. induction j as [|j IH]; cbn [pow Nat.add]; [ring|]. rewrite IH. ring. Qed.

Lemma u_range : (0 < u < 1)%Q.
Proof. unfold u. lra. Qed.

Lemma lo_pos k : (0 < pow (1 - u) k)%Q.
Proof. apply pow_pos. pose proof u_range. lra. Qed.
Lemma hi_pos k : (0 < pow (1 + u) k)%Q.
Proof. apply pow_pos. pose proof u_range. lra. Qed.

Lemma near_pos k v x : near k v x → (0 < x)%Q → (0 < v)%Q.
Proof.
  intros [H _] Hx. eapply Qlt_le_trans; [|exact H]. apply Qmult_lt_0_compat; [done|apply lo_pos].
Qed.

(** Rounding a rounded value. *)
Lemma near_trans j k w v x : near j w v → near k v x → near (j + k) w x.
Proof.
  intros [A1 A2] [B1 B2]. pose proof (lo_pos j). pose proof (hi_pos j). unfold near. rewrite !pow_add. split.
  - eapply Qle_trans; [|exact A1]. setoid_replace (x * (pow (1 - u) j * pow (1 - u) k))%Q
      with (x * pow (1 - u) k * pow (1 - u) j)%Q by ring. apply Qmult_le_compat_r; lra.
  - eapply Qle_trans; [exact A2|]. setoid_replace (x * (pow (1 + u) j * pow (1 + u) k))%Q
      with (x * pow (1 + u) k * pow (1 + u) j)%Q by ring. apply Qmult_le_compat_r; lra.
Qed.

Lemma near_scale k v x q : (0 <= q)%Q → near k v x → near k (v * q) (x * q).
Proof.
  intros Hq [H1 H2]. unfold near.
  setoid_replace (x * q * pow (1 - u) k)%Q with (x * pow (1 - u) k * q)%Q by ring.
  setoid_replace (x * q * pow (1 + u) k)%Q with (x * pow (1 + u) k * q)%Q by ring.
  split; by apply Qmult_le_compat_r.
Qed.

Lemma pow_hi_mono j k : (j ≤ k)%nat → (pow (1 + u) j <= pow (1 + u) k)%Q.
Proof.
  induction 1 as [|k _ IH]; [lra|]. cbn [pow]. pose proof (hi_pos k). pose proof u_range.
  pose proof (Qmult_lt_0_compat u (pow (1 + u) k)). lra.
Qed.

Lemma pow_lo_mono j k : (j ≤ k)%nat → (pow (1 - u) k <= pow (1 - u) j)%Q.
Proof.
  induction 1 as [|k _ IH]; [lra|]. cbn [pow]. pose proof (lo_pos k). pose proof u_range.
  pose proof (Qmult_lt_0_compat u (pow (1 - u) k)). lra.
Qed.

Lemma near_weaken j k v x : (0 <= x)%Q → (j ≤ k)%nat → near j v x → near k v x.
Proof.
  intros Hx Hjk [H1 H2]. pose proof (pow_lo_mono j k Hjk). pose proof (pow_hi_mono j k Hjk). split.
  - eapply Qle_trans; [|exact H1]. rewrite !(Qmult_comm x). by apply Qmult_le_compat_r.
  - eapply Qle_trans; [exact H2|]. rewrite !(Qmult_comm x). by apply Qmult_le_compat_r.
Qed.

Lemma near_add k v x w y : near k v x → near k w y → near k (v + w) (x + y).
Proof. intros [A1 A2] [B1 B2]. unfold near. rewrite !Qmult_plus_distr_l. lra. Qed.

(** Dividing by a rounded value costs two roundings for each of its own. *)
Lemma near_div k v x y : (0 < y)%Q → (0 <= x)%Q → near k v y → near (2 * k) (x / v) (x / y).
Proof.
  intros Hy Hx H. pose proof (near_pos k v y H Hy) as Hv. destruct H as [H1 H2].
  pose proof (lo_pos k). pose proof (hi_pos k). pose proof (lo_pos (2 * k)). pose proof (hi_pos (2 * k)).
  assert (pow (1 - u) (2 * k) * pow (1 + u) k <= 1)%Q as L.
  { clear. replace (2 * k)%nat with (k + k)%nat by lia. rewrite pow_add.
    induction k as [|k IH]; cbn [pow]; [lra|].
    setoid_replace ((1 - u) * pow (1 - u) k * ((1 - u) * pow (1 - u) k) * ((1 + u) * pow (1 + u) k))%Q
      with ((1 - u) * (1 - u) * (1 + u) * (pow (1 - u) k * pow (1 - u) k * pow (1 + u) k))%Q by ring.
    set (t := (pow (1 - u) k * pow (1 - u) k * pow (1 + u) k)%Q) in *.
    assert (0 <= t)%Q by (unfold t; pose proof (lo_pos k); pose proof (hi_pos k);
      repeat apply Qmult_le_0_compat; lra).
    clearbody t. setoid_replace 1%Q with (1 * 1)%Q at 4 by ring.
    apply Qle_trans with (1 * t)%Q; [apply Qmult_le_compat_r; [unfold u; lra|done]|lra]. }
  assert (1 <= pow (1 + u) (2 * k) * pow (1 - u) k)%Q as U.
  { clear. replace (2 * k)%nat with (k + k)%nat by lia. rewrite pow_add.
    induction k as [|k IH]; cbn [pow]; [lra|].
    setoid_replace ((1 + u) * pow (1 + u) k * ((1 + u) * pow (1 + u) k) * ((1 - u) * pow (1 - u) k))%Q
      with ((1 + u) * (1 + u) * (1 - u) * (pow (1 + u) k * pow (1 + u) k * pow (1 - u) k))%Q by ring.
    set (t := (pow (1 + u) k * pow (1 + u) k * pow (1 - u) k)%Q) in *. clearbody t.
    apply Qle_trans with (1 * t)%Q; [lra|]. apply Qmult_le_compat_r; [unfold u; lra|lra]. }
  assert (0 <= x / y)%Q as Hxy by (apply Qle_shift_div_l; lra).
  assert (x == x / y * y)%Q as Ex by (field; intros E; rewrite E in Hy; lra).
  set (q := (x / y)%Q) in *. clearbody q. split.
  - apply Qle_shift_div_l; [done|]. rewrite Ex.
    apply Qle_trans with (q * pow (1 - u) (2 * k) * (y * pow (1 + u) k))%Q.
    + rewrite !(Qmult_comm (q * _)). apply Qmult_le_compat_r; [done|]. apply Qmult_le_0_compat; lra.
    + setoid_replace (q * pow (1 - u) (2 * k) * (y * pow (1 + u) k))%Q
        with (pow (1 - u) (2 * k) * pow (1 + u) k * (q * y))%Q by ring.
      setoid_replace (q * y)%Q with (1 * (q * y))%Q at 2 by ring.
      apply Qmult_le_compat_r; [done|]. apply Qmult_le_0_compat; lra.
  - apply Qle_shift_div_r; [done|]. rewrite Ex.
    apply Qle_trans with (q * pow (1 + u) (2 * k) * (y * pow (1 - u) k))%Q.
    + setoid_replace (q * pow (1 + u) (2 * k) * (y * pow (1 - u) k))%Q
        with (pow (1 + u) (2 * k) * pow (1 - u) k * (q * y))%Q by ring.
      setoid_replace (q * y)%Q with (1 * (q * y))%Q at 1 by ring.
      apply Qmult_le_compat_r; [done|]. apply Qmult_le_0_compat; lra.
    + rewrite !(Qmult_comm (q * _)). apply Qmult_le_compat_r; [done|]. apply Qmult_le_0_compat; lra.
Qed.

(** ** The operations *)

Lemma log2_num m e k : 0 < m ≤ 2 ^ 53 → - k ≤ e ≤ k → Z.log2 (num m e) ≤ 53 + k.
Proof.
  intros Hm He. unfold num. rewrite Z.log2_mul_pow2 by lia.
  assert (Z.log2 m ≤ 53); [|lia]. change 53 with (Z.log2 (2 ^ 53)). apply Z.log2_le_mono. lia.
Qed.

Lemma log2_den e k : - k ≤ e ≤ k → Z.log2 (den e) ≤ k.
Proof. intros He. unfold den. rewrite Z.log2_pow2; lia. Qed.

Lemma log2_product a b i j : 0 < a → 0 < b → Z.log2 a ≤ i → Z.log2 b ≤ j → Z.log2 (a * b) ≤ i + j + 1.
Proof. intros. pose proof (Z.log2_mul_above a b). lia. Qed.

Lemma log2_sum a b i : 0 < a → 0 < b → Z.log2 a ≤ i → Z.log2 b ≤ i → Z.log2 (a + b) ≤ i + 1.
Proof.
  intros Ha Hb La Lb. pose proof (Z.log2_nonneg a). pose proof (Z.log2_spec a Ha). pose proof (Z.log2_spec b Hb).
  pose proof (Z.pow_le_mono_r 2 (Z.succ (Z.log2 a)) (i + 1)). pose proof (Z.pow_le_mono_r 2 (Z.succ (Z.log2 b)) (i + 1)).
  assert (Z.log2 (a + b) < i + 2); [|lia]. apply Z.log2_lt_pow2; [lia|].
  replace (i + 2) with (i + 1 + 1) by lia. rewrite (Z.pow_add_r 2 (i + 1) 1) by lia. lia.
Qed.

Lemma val_pos k f : pos k f → (0 < val f)%Q.
Proof.
  intros (m & e & -> & Hm & _). cbn [val]. apply Qlt_shift_div_l; [apply inject_pos, den_pos|].
  rewrite Qmult_0_l. apply inject_pos, num_pos. lia.
Qed.

Lemma of_int_near z : 0 < z < 2 ^ 64 → pos 53 (of_int z) ∧ near 1 (val (of_int z)) (inject_Z z).
Proof.
  intros Hz. assert (Z.log2 z < 64) by (apply Z.log2_lt_pow2; lia).
  destruct (rnd_near z 1) as (m & e & E & Hm & He & Hn); [lia|lia|lia|vm_compute; discriminate|]. unfold of_int. rewrite E.
  change (Z.log2 1) with 0 in He. split; [exists m, e; split_and!; [done|lia..]|].
  assert (inject_Z z / inject_Z 1 == inject_Z z)%Q as <- by (change (inject_Z 1) with 1%Q; field). done.
Qed.

Lemma fmul_near j k a b : 0 ≤ j → 0 ≤ k → j + k ≤ 790 → pos j a → pos k b →
  pos (j + k + 108) (fmul a b) ∧ near 1 (val (fmul a b)) (val a * val b).
Proof.
  intros Hj Hk Hjk (m & e & -> & Hm & He) (m' & e' & -> & Hm' & He'). cbn [fmul].
  pose proof (num_pos m e ltac:(lia)). pose proof (num_pos m' e' ltac:(lia)).
  pose proof (den_pos e). pose proof (den_pos e').
  pose proof (log2_product (num m e) (num m' e') _ _ ltac:(done) ltac:(done) (log2_num m e j Hm He) (log2_num m' e' k Hm' He')).
  pose proof (log2_product (den e) (den e') _ _ ltac:(done) ltac:(done) (log2_den e j He) (log2_den e' k He')).
  destruct (rnd_near (num m e * num m' e') (den e * den e')) as (m1 & e1 & -> & Hm1 & He1 & Hn); [nia|nia|lia|lia|].
  split; [exists m1, e1; split_and!; [done|lia..]|].
  assert (inject_Z (num m e * num m' e') / inject_Z (den e * den e') == val (Fin m e) * val (Fin m' e'))%Q as <-; [|done].
  rewrite !inject_Z_mult. cbn [val]. pose proof (inject_pos _ (den_pos e)). pose proof (inject_pos _ (den_pos e')).
  field. split; intros E; rewrite E in *; lra.
Qed.

Lemma fdiv_near j k a b : 0 ≤ j → 0 ≤ k → j + k ≤ 790 → pos j a → pos k b →
  pos (j + k + 108) (fdiv a b) ∧ near 1 (val (fdiv a b)) (val a / val b).
Proof.
  intros Hj Hk Hjk (m & e & -> & Hm & He) (m' & e' & -> & Hm' & He'). cbn [fdiv].
  rewrite (proj2 (Z.eqb_neq m' 0)) by lia.
  pose proof (num_pos m e ltac:(lia)). pose proof (num_pos m' e' ltac:(lia)).
  pose proof (den_pos e). pose proof (den_pos e').
  pose proof (log2_product (num m e) (den e') _ _ ltac:(done) ltac:(done) (log2_num m e j Hm He) (log2_den e' k He')).
  pose proof (log2_product (den e) (num m' e') _ _ ltac:(done) ltac:(done) (log2_den e j He) (log2_num m' e' k Hm' He')).
  destruct (rnd_near (num m e * den e') (den e * num m' e')) as (m1 & e1 & -> & Hm1 & He1 & Hn); [nia|nia|lia|lia|].
  split; [exists m1, e1; split_and!; [done|lia..]|].
  assert (inject_Z (num m e * den e') / inject_Z (den e * num m' e') == val (Fin m e) / val (Fin m' e'))%Q as <-; [|done].
  rewrite !inject_Z_mult. cbn [val]. pose proof (inject_pos _ (den_pos e)). pose proof (inject_pos _ (den_pos e')).
  pose proof (inject_pos _ (num_pos m' e' ltac:(lia))).
  field. split_and!; intros E; rewrite E in *; lra.
Qed.

Lemma fadd_near j k a b : 0 ≤ j → 0 ≤ k → j + k ≤ 350 → pos j a → pos k b →
  pos (j + k + 108) (fadd a b) ∧ near 1 (val (fadd a b)) (val a + val b).
Proof.
  intros Hj Hk Hjk (m & e & -> & Hm & He) (m' & e' & -> & Hm' & He'). cbn [fadd].
  pose proof (num_pos m e ltac:(lia)). pose proof (num_pos m' e' ltac:(lia)).
  pose proof (den_pos e). pose proof (den_pos e').
  pose proof (log2_product (num m e) (den e') _ _ ltac:(done) ltac:(done) (log2_num m e j Hm He) (log2_den e' k He')).
  pose proof (log2_product (num m' e') (den e) _ _ ltac:(done) ltac:(done) (log2_num m' e' k Hm' He') (log2_den e j He)).
  pose proof (log2_product (den e) (den e') _ _ ltac:(done) ltac:(done) (log2_den e j He) (log2_den e' k He')).
  set (A := num m e * den e') in *. set (B := num m' e' * den e) in *. set (D := den e * den e') in *.
  assert (0 < A ∧ 0 < B ∧ 0 < D) as (HA & HB & HD) by (subst A B D; split_and!; nia).
  pose proof (log2_sum A B (53 + j + k + 1) ltac:(lia) ltac:(lia) ltac:(lia) ltac:(lia)).
  destruct (rnd_near (A + B) D) as (m1 & e1 & -> & Hm1 & He1 & Hn); [lia..|].
  split; [exists m1, e1; split_and!; [done|lia..]|].
  assert (inject_Z (A + B) / inject_Z D == val (Fin m e) + val (Fin m' e'))%Q as <-; [|done].
  subst A B D. rewrite inject_Z_plus, !inject_Z_mult. cbn [val].
  pose proof (inject_pos _ (den_pos e)). pose proof (inject_pos _ (den_pos e')).
  field. split; intros E; rewrite E in *; lra.
Qed.

(** ** Values that may be zero

    [approx j k f x]: the double [f] is the non-negative [x] up to [k]
    roundings; [j] bounds its exponent. *)
Definition approx (j : Z) (k : nat) (f : f64) (x : Q) : Prop :=
  (f = Fin 0 0 ∧ (x == 0)%Q) ∨ ((0 < x)%Q ∧ pos j f ∧ near k (val f) x).

#[export] Instance approx_proper j k f : Proper (Qeq ==> iff) (approx j k f).
Proof. intros x y E. unfold approx. by rewrite E. Qed.

Lemma near_mul j k v x w y : (0 <= w)%Q → (0 <= x)%Q →
  near j v x → near k w y → near (j + k) (v * w) (x * y).
Proof.
  intros Hw Hx H1 H2. apply (near_trans j k _ (x * w)); [by apply near_scale|].
  rewrite !(Qmult_comm x). by apply near_scale.
Qed.

Lemma near_div2 j k v x w y : (0 < w)%Q → (0 < y)%Q → (0 <= x)%Q →
  near j v x → near k w y → near (j + 2 * k) (v / w) (x / y).
Proof.
  intros Hw Hy Hx H1 H2. apply (near_trans j _ _ (x / w)); [|by apply near_div].
  apply near_scale; [|done]. apply Qlt_le_weak, Qinv_lt_0_compat. done.
Qed.

Lemma rnd_zero d : rnd 0 d = Fin 0 0.
Proof. done. Qed.

Lemma approx_int z : 0 ≤ z < 2 ^ 64 → approx 53 1 (of_int z) (inject_Z z).
Proof.
  intros Hz. destruct (decide (z = 0)) as [->|]; [by left|]. right.
  split; [apply inject_pos; lia|]. apply of_int_near. lia.
Qed.

Lemma approx_pos j k f x : (0 < x)%Q → approx j k f x → pos j f ∧ near k (val f) x.
Proof. intros Hx [[_ E]|(_ & H)]; [rewrite E in Hx; by apply Qlt_irrefl in Hx|done]. Qed.

Lemma approx_mul i j k l f c x y : 0 ≤ i → 0 ≤ j → i + j ≤ 790 → (0 < y)%Q →
  approx i k f x → approx j l c y → approx (i + j + 108) (S (k + l)) (fmul f c) (x * y).
Proof.
  intros Hi Hj Hij Hy Hf Hc. apply (approx_pos _ _ _ _ Hy) in Hc as [Pc Nc].
  destruct Hf as [[-> E]|(Hx & Pf & Nf)].
  - left. destruct Pc as (m & e & -> & _). split; [|rewrite E; ring]. done.
  - right. destruct (fmul_near i j f c Hi Hj Hij Pf Pc) as [P N].
    split_and!; [by apply Qmult_lt_0_compat|done|].
    apply (near_trans 1 (k + l) _ _ _ N). apply near_mul; [|by apply Qlt_le_weak|done..].
    apply Qlt_le_weak. by eapply val_pos.
Qed.

Lemma approx_div i j k l f c x y : 0 ≤ i → 0 ≤ j → i + j ≤ 790 → (0 < y)%Q →
  approx i k f x → approx j l c y → approx (i + j + 108) (S (k + 2 * l)) (fdiv f c) (x / y).
Proof.
  intros Hi Hj Hij Hy Hf Hc. apply (approx_pos _ _ _ _ Hy) in Hc as [Pc Nc].
  destruct Hf as [[-> E]|(Hx & Pf & Nf)].
  - left. destruct Pc as (m & e & -> & Hm & _). split.
    + cbn [fdiv]. rewrite (proj2 (Z.eqb_neq m 0)) by lia. done.
    + rewrite E. unfold Qdiv. ring.
  - right. destruct (fdiv_near i j f c Hi Hj Hij Pf Pc) as [P N].
    split_and!; [by apply Qmult_lt_0_compat, Qinv_lt_0_compat|done|].
    apply (near_trans 1 (k + 2 * l) _ _ _ N).
    apply near_div2; [by eapply val_pos|done|by apply Qlt_le_weak|done..].
Qed.

(** Adding zero rounds a double to itself, up to one rounding. *)
Lemma rnd_val j m e n d : 0 ≤ j ≤ 790 → 0 < m ≤ 2 ^ 53 → - j ≤ e ≤ j →
  n = num m e → d = den e →
  pos (j + 108) (rnd n d) ∧ near 1 (val (rnd n d)) (val (Fin m e)).
Proof.
  intros Hj Hm He -> ->. pose proof (num_pos m e ltac:(lia)). pose proof (den_pos e).
  pose proof (log2_num m e j Hm He). pose proof (log2_den e j He).
  destruct (rnd_near (num m e) (den e)) as (m1 & e1 & -> & Hm1 & He1 & Hn); [lia..|].
  split; [exists m1, e1; split_and!; [done|lia..]|done].
Qed.

Lemma approx_add i j k f g x y : 0 ≤ i → 0 ≤ j → i + j ≤ 350 →
  approx i k f x → approx j k g y → approx (i + j + 108) (S k) (fadd f g) (x + y).
Proof.
  intros Hi Hj Hij [[-> Ex]|(Hx & Pf & Nf)] [[-> Ey]|(Hy & Pg & Ng)].
  - left. split; [done|]. rewrite Ex, Ey. ring.
  - right. rewrite Ex, Qplus_0_l. destruct Pg as (m & e & -> & Hm & He). cbn [fadd].
    destruct (rnd_val (i + j) m e (num 0 0 * den e + num m e * den 0) (den 0 * den e)) as [P N];
      [lia|done|lia|change (den 0) with 1; change (num 0 0) with 0; lia..|].
    split_and!; [done|done|exact (near_trans 1 k _ _ _ N Ng)].
  - right. rewrite Ey, Qplus_0_r. destruct Pf as (m & e & -> & Hm & He). cbn [fadd].
    destruct (rnd_val (i + j) m e (num m e * den 0 + num 0 0 * den e) (den e * den 0)) as [P N];
      [lia|done|lia|change (den 0) with 1; change (num 0 0) with 0; lia..|].
    split_and!; [done|done|exact (near_trans 1 k _ _ _ N Nf)].
  - right. destruct (fadd_near i j f g Hi Hj Hij Pf Pg) as [P N].
    split_and!; [lra|done|]. exact (near_trans 1 k _ _ _ N (near_add _ _ _ _ _ Nf Ng)).
Qed.

Lemma approx_weaken i j k l f x : i ≤ j → (k ≤ l)%nat → approx i k f x → approx j l f x.
Proof.
  intros Hij Hkl [?|(Hx & (m & e & -> & Hm & He) & N)]; [by left|]. right. split_and!; [done| |].
  - exists m, e. split_and!; [done|lia..].
  - apply (near_weaken k); [by apply Qlt_le_weak|done..].
Qed.

(** Sixteen roundings are less than one part in [2^48]. *)
Lemma near_16 k v x : (0 <= x)%Q → (k ≤ 16)%nat → near k v x →
  (x * (1 - 32 * u) <= v <= x * (1 + 32 * u))%Q.
Proof.
  intros Hx Hk H. apply (near_weaken _ 16) in H as [H1 H2]; [|done..].
  assert (1 - 32 * u <= pow (1 - u) 16)%Q as A by (apply Qle_bool_iff; vm_compute; reflexivity).
  assert (pow (1 + u) 16 <= 1 + 32 * u)%Q as B by (apply Qle_bool_iff; vm_compute; reflexivity).
  split; [eapply Qle_trans; [|exact H1]|eapply Qle_trans; [exact H2|]];
    rewrite !(Qmult_comm x); by apply Qmult_le_compat_r.
Qed.
