(* ===== verification/Report.v ===== *)
(** * What the program prints ([src/main.rs], [src/net.rs])

    Summaries, the reporter's lines, the usage text and the start-up line,
    as strings.  The rates are [f64] (file [Float]); [{:.3}] prints the
    exact value of a double rounded to three decimals, half to even. *)

From Stdlib Require Import QArith Lqa String SetoidTactics.
From S2P Require Import Prelude Strs Simd Loss Net Float.
Open Scope Z_scope.

#[local] Instance q_default : DefaultRelation Qeq := {}.

(** ** Formatting *)

(** [{}] of an unsigned integer of any size. *)
Definition dec_full (z : Z) : str := dec_go (S (Z.to_nat (Z.log2 z))) z.

(** The last [k] digits. *)
Fixpoint dec_pad (k : nat) (z : Z) : str :=
  match k with
  | O => []
  | S k => dec_pad k (z / 10) ++ [48 + z mod 10]
  end.

(** The value in units of the last printed digit. *)
Definition fixed_int (k : nat) (m e : Z) : Z := rne (num m e * 10 ^ Z.of_nat k) (den e).

(** [{:.k}] of an [f64], for [k > 0]. *)
Definition fixed (k : nat) (f : f64) : str :=
  match f with
  | NaN => lit "NaN"
  | Inf => lit "inf"
  | Fin m e =>
      let n := fixed_int k m e in
      dec_full (n / 10 ^ Z.of_nat k) ++ 46 :: dec_pad k (n mod 10 ^ Z.of_nat k)
  end.

(** A width: blanks in front of a number. *)
Definition pad (w : nat) (s : str) : str := replicate (w - List.length s) 32 ++ s.

(** [format!("\"{k}\":")] without the colon, and an object as the format
    strings of the source spell it. *)
Definition quoted (k : str) : str := 34 :: k ++ [34].
Definition object (l : list (string * str)) : str :=
  123 :: join 44 ((λ '(k, v), quoted (lit k) ++ 58 :: v) <$> l) ++ [125].

(** ** [net::Summary] *)

Record Summary : Type := mkSummary {
  s_bytes : Z;
  s_packets : Z;
  s_secs : f64;
}.

(** [Duration::as_secs_f64] of a duration in nanoseconds. *)
Definition as_secs_f64 (ns : Z) : f64 :=
  fadd (of_int (ns / 10 ^ 9)) (fdiv (of_int (ns mod 10 ^ 9)) (of_int (10 ^ 9))).

Definition gbps (s : Summary) : f64 :=
  fdiv (fdiv (fmul (of_int (s_bytes s)) (of_int 8)) (s_secs s)) (of_int (10 ^ 9)).

Definition mpps (s : Summary) : f64 :=
  fdiv (fdiv (of_int (s_packets s)) (s_secs s)) (of_int (10 ^ 6)).

(** [dp as f64 * 100.0 / total as f64], zero when nothing was due. *)
Definition loss_rate (drops total : Z) : f64 :=
  if total =? 0 then Fin 0 0 else fdiv (fmul (of_int drops) (of_int 100)) (of_int total).

(** ** The reporter's line *)

Definition report_text (udp : bool) (l : report_line) : str :=
  let gbps := fdiv (fmul (of_int (rl_bytes l)) (of_int 8)) (of_int (10 ^ 9)) in
  let start := lit "[" ++ pad 3 (dec (rl_t l)) ++ lit "s] " ++ pad 7 (fixed 3 gbps) ++ lit " Gb/s" in
  if udp then
    let pps := fdiv (of_int (rl_packets l)) (of_int (10 ^ 6)) in
    start ++ lit "  " ++ pad 7 (fixed 3 pps) ++ lit " Mpps  "
      ++ pad 5 (fixed 2 (loss_rate (rl_drops l) (rl_total l))) ++ lit "% loss"
  else start.

(** ** [main.rs] *)

(** A line of 42 box-drawing characters. *)
Definition rule : str := replicate 42 9472.

(** [print_summary]: the lines it prints. *)
Definition print_summary (s : Summary) (udp json : bool) : list str :=
  if json then
    if udp then
      [object [("proto", quoted (lit "udp")); ("seconds", fixed 3 (s_secs s));
               ("bytes", dec (s_bytes s)); ("packets", dec (s_packets s));
               ("gbps", fixed 4 (gbps s)); ("mpps", fixed 4 (mpps s))]%string]
    else
      [object [("proto", quoted (lit "tcp")); ("seconds", fixed 3 (s_secs s));
               ("bytes", dec (s_bytes s)); ("gbps", fixed 4 (gbps s))]%string]
  else
    [rule] ++
    (if udp then
       [lit "UDP  " ++ fixed 3 (s_secs s) ++ lit " s  |  " ++ fixed 3 (gbps s) ++ lit " Gb/s  |  "
          ++ fixed 4 (mpps s) ++ lit " Mpps  |  " ++ dec (s_packets s) ++ lit " packets";
        lit "(loss is reported by the server via sequence gaps)"]
     else
       [lit "TCP  " ++ fixed 3 (s_secs s) ++ lit " s  |  " ++ fixed 3 (gbps s) ++ lit " Gb/s  |  "
          ++ dec (s_bytes s) ++ lit " bytes"])
    ++ [rule].

(** The AF_XDP generator's summary: [main] computes the same rates from the
    time around [xdp_udp_blast] and the counters it passed in. *)
Definition xdp_blast_summary (elapsed b p : Z) (json : bool) : list str :=
  let secs := as_secs_f64 elapsed in
  let gbps := fdiv (fdiv (fmul (of_int b) (of_int 8)) secs) (of_int (10 ^ 9)) in
  let mpps := fdiv (fdiv (of_int p) secs) (of_int (10 ^ 6)) in
  if json then
    [object [("proto", quoted (lit "xdp-udp")); ("seconds", fixed 3 secs); ("bytes", dec b);
             ("packets", dec p); ("gbps", fixed 4 gbps); ("mpps", fixed 4 mpps)]%string]
  else
    [rule;
     lit "AF_XDP  " ++ fixed 3 secs ++ lit " s  |  " ++ fixed 3 gbps ++ lit " Gb/s  |  "
       ++ fixed 4 mpps ++ lit " Mpps  |  " ++ dec p ++ lit " frames";
     rule].

(** The AF_XDP sink's line. *)
Definition xdp_sink_summary (pr : profile) (elapsed p d : Z) : res str :=
  let secs := as_secs_f64 elapsed in
  let mpps := fdiv (fdiv (of_int p) secs) (of_int (10 ^ 6)) in
  total ← arith pr 64 (p + d);
  loss ← (if total =? 0 then Ok (Fin 0 0)
          else total ← arith pr 64 (p + d);
               Ok (fdiv (fmul (of_int d) (of_int 100)) (of_int total)));
  Ok (lit "AF_XDP sink: " ++ dec p ++ lit " frames | " ++ fixed 4 mpps ++ lit " Mpps | loss "
        ++ fixed 3 loss ++ lit "%").

(** [usage] for the package version [ver]; it exits with status 2. *)
Definition usage (ver : str) : list str :=
  [lit "runperf " ++ ver;
   lit "";
   lit "SERVER:";
   lit "  runperf server [--bind 0.0.0.0:5201] [--udp] [--len 1400] [--cpus 0,1|--numa 0]";
   lit "  runperf server --xdp --iface <nic> [--udp] [--len 1400]   (AF_XDP RX sink, feature xdp)";
   lit "";
   lit "CLIENT:";
   lit "  runperf client --connect HOST:PORT [--udp] [--duration 10] [--threads 1] \";
   lit "                 [--len 1400] [--target-pps 0] [--cpus 0,1|--numa 0] [--json]";
   lit "  runperf client --connect IPv4:PORT --xdp --iface <nic> --udp   (AF_XDP kernel-bypass generator)";
   lit "";
   lit "--udp           UDP packet-rate test (default: TCP throughput)";
   lit "--target-pps N  cap send rate (0 = blast, default)";
   lit "--cpus LIST     pin worker threads to these CPUs (e.g. 0-3,8)";
   lit "--numa N        pin worker threads to NUMA node N's CPUs";
   lit "--json          machine-readable summary (client)";
   lit "--xdp           AF_XDP kernel-bypass datapath (needs --iface; zero-copy with feature xdp)";
   lit "--iface NIC     NIC for the --xdp datapath (e.g. eth0)"].

(** ** [simd.rs] *)

Definition as_str (l : SimdLevel) : str :=
  lit match l with
      | Scalar => "Scalar"
      | Sse2 => "SSE2"
      | Sse42 => "SSE4.2"
      | Avx2 => "AVX2"
      | Avx512 => "AVX-512"
      end%string.

Definition bool_str (b : bool) : str := lit (if b then "true" else "false")%string.

(** [log_simd_info]: the line, and the cell [simd_level] fills. *)
Definition log_simd_info (c : cpu) (LEVEL : option SimdLevel) : str * option SimdLevel :=
  let '(level, LEVEL) := simd_level c LEVEL in
  (if x86_64 c then
     lit "[runperf] CPU SIMD: " ++ as_str level ++ lit " | sse4.2=" ++ bool_str (has_sse42 c)
       ++ lit " avx2=" ++ bool_str (has_avx2 c) ++ lit " avx512f=" ++ bool_str (has_avx512f c)
   else lit "[runperf] CPU SIMD: " ++ as_str level, LEVEL).

(** ** [tests/loopback.rs] *)

(** The text behind the first occurrence of [pat]. *)
Fixpoint find_after (pat s : str) : option str :=
  match strip_prefix pat s with
  | Some r => Some r
  | None => match s with [] => None | _ :: s => find_after pat s end
  end.

Fixpoint take_while (p : Z → bool) (s : str) : str :=
  match s with
  | [] => []
  | c :: s => if p c then c :: take_while p s else []
  end.

Definition is_ascii_digit (c : Z) : bool := (48 <=? c) && (c <=? 57).

(** [field]: an unsigned integer of the one-line summary. *)
Definition field (json key : str) : res Z :=
  match find_after (quoted key ++ [58]) json with
  | None => Panic
  | Some rest => Ok (default 0 (parse_u64 (take_while is_ascii_digit rest)))
  end.

(** [str::contains]. *)
Definition contains (s pat : str) : bool := match find_after pat s with Some _ => true | None => false end.

(** ** Lemmas: decimal text *)

Lemma dec_go_digit f : ∀ z, Forall is_dec_digit (dec_go f z).
Proof.
  induction f as [|f IH]; intros z; [constructor|]. cbn [dec_go]. apply Forall_app. split.
  - by destruct (z <? 10).
  - constructor; [|constructor]. unfold is_dec_digit. pose proof (Z.mod_pos_bound z 10). lia.
Qed.

Lemma dec_pad_digit k : ∀ z, Forall is_dec_digit (dec_pad k z).
Proof.
  induction k as [|k IH]; intros z; [constructor|]. cbn [dec_pad]. apply Forall_app. split; [done|].
  constructor; [|constructor]. unfold is_dec_digit. pose proof (Z.mod_pos_bound z 10). lia.
Qed.

Lemma dec_pad_length k : ∀ z, List.length (dec_pad k z) = k.
Proof.
  induction k as [|k IH]; intros z; [done|]. cbn [dec_pad]. rewrite length_app, IH. cbn. lia.
Qed.

Lemma dec_pad_val k : ∀ z acc, 0 ≤ z < 10 ^ Z.of_nat k →
  digits_val 10 acc (dec_pad k z) = Some (acc * 10 ^ Z.of_nat k + z).
Proof.
  induction k as [|k IH]; intros z acc Hz.
  { cbn in *. f_equal. lia. }
  rewrite Nat2Z.inj_succ, Z.pow_succ_r in * by lia. cbn [dec_pad].
  pose proof (Z.mod_pos_bound z 10 ltac:(lia)). pose proof (Z.div_mod z 10).
  rewrite digits_val_app, IH by lia. cbn [mbind option_bind digits_val].
  rewrite to_digit_dec by done. cbn [mbind option_bind]. f_equal. lia.
Qed.

Lemma dec_full_val z : 0 ≤ z → digits_val 10 0 (dec_full z) = Some z.
Proof.
  intros Hz. apply dec_go_val. split; [done|]. rewrite Nat2Z.inj_succ, Z2Nat.id by apply Z.log2_nonneg.
  destruct (decide (z = 0)) as [->|]; [done|]. pose proof (Z.log2_spec z ltac:(lia)) as [_ H].
  eapply Z.lt_le_trans; [exact H|]. apply Z.pow_le_mono_l. lia.
Qed.

(** The text [s] is a decimal number with [k] places after the point, and
    [n] of its last place. *)
Definition reads (k : nat) (s : str) (n : Z) : Prop :=
  ∃ i f, split_once 46 s = Some (i, f) ∧ List.length f = k ∧ digits_val 10 0 (i ++ f) = Some n.

Lemma fixed_reads k m e : 0 ≤ fixed_int k m e → reads k (fixed k (Fin m e)) (fixed_int k m e).
Proof.
  intros Hn. cbn [fixed]. set (n := fixed_int k m e) in *.
  assert (0 < 10 ^ Z.of_nat k) as Hk by (apply Z.pow_pos_nonneg; lia).
  eexists _, _. split; [|split].
  - apply split_once_app. eapply Forall_impl; [apply dec_go_digit|]. unfold is_dec_digit. intros c Hc. cbn in Hc. lia.
  - apply dec_pad_length.
  - rewrite digits_val_app, dec_full_val by (by apply Z.div_pos). cbn [mbind option_bind].
    rewrite dec_pad_val by (by apply Z.mod_pos_bound). f_equal. pose proof (Z.div_mod n (10 ^ Z.of_nat k)). lia.
Qed.

Lemma fixed_no_quote k f : Forall (λ c, c ≠ 34) (fixed k f).
Proof.
  destruct f as [m e| |]; [|apply (bool_decide_unpack _); vm_compute; exact I..].
  cbn [fixed]. unfold dec_full. apply Forall_app. split; [|constructor; [done|]].
  - eapply Forall_impl; [apply dec_go_digit|]. unfold is_dec_digit. intros c Hc. cbn in Hc. lia.
  - eapply Forall_impl; [apply dec_pad_digit|]. unfold is_dec_digit. intros c Hc. cbn in Hc. lia.
Qed.

Lemma dec_no_quote z : Forall (λ c, c ≠ 34) (dec z).
Proof. eapply Forall_impl; [apply dec_go_digit|]. unfold is_dec_digit. intros c Hc. cbn in Hc. lia. Qed.

(** ** Lemmas: finding a field *)

Lemma find_after_skip p s r :
  Forall (λ c, c ≠ 34) s → find_after (34 :: p) (s ++ r) = find_after (34 :: p) r.
Proof.
  induction 1 as [|c s Hc _ IH]; [done|]. cbn [app find_after strip_prefix].
  by rewrite (proj2 (Z.eqb_neq 34 c)) by done.
Qed.

Lemma take_while_digits s c r :
  Forall is_dec_digit s → is_ascii_digit c = false → take_while is_ascii_digit (s ++ c :: r) = s.
Proof.
  intros Hs Hr. induction Hs as [|d s Hd _ IH]; cbn [app take_while]; [by rewrite Hr|].
  unfold is_dec_digit in Hd. unfold is_ascii_digit at 1.
  rewrite (proj2 (Z.leb_le 48 d)), (proj2 (Z.leb_le d 57)) by lia. cbn [andb]. by rewrite IH.
Qed.

(** The digits of a field end at the comma behind it. *)
Lemma take_while_dec z r : take_while is_ascii_digit (dec z ++ 44 :: r) = dec z.
Proof. by apply take_while_digits; [apply dec_go_digit|]. Qed.

Lemma trim_line a s b :
  is_whitespace a = false → is_whitespace b = false → trim (unlines [a :: s ++ [b]]) = a :: s ++ [b].
Proof.
  intros Ha Hb. unfold trim, trim_end, unlines. cbn [fmap list_fmap concat app]. rewrite app_nil_r.
  cbn [trim_start]. rewrite Ha.
  change (a :: (s ++ [b]) ++ [10]) with ((a :: s ++ [b]) ++ [10]).
  rewrite reverse_app. change (reverse [10]) with [10]. cbn [app trim_start].
  change (is_whitespace 10) with true. cbv iota.
  change (a :: s ++ [b]) with ((a :: s) ++ [b]). rewrite reverse_app. change (reverse [b]) with [b].
  cbn [app trim_start]. rewrite Hb. rewrite reverse_cons, reverse_involutive. done.
Qed.

Lemma trim_object l : trim (unlines [object l]) = object l.
Proof. unfold object. by apply trim_line. Qed.

(** ** Lemmas: figures *)

(** [n] is [a / b] to the nearest integer, up to one part in [2^48] of
    [a / b]. *)
Definition close (n a b : Z) : Prop := 2 ^ 54 * Z.abs (n * b - a) ≤ 2 ^ 53 * b + 64 * a.

Lemma inject_abs z q : (- q <= inject_Z z <= q)%Q → (inject_Z (Z.abs z) <= q)%Q.
Proof.
  intros [H1 H2]. destruct (Z.abs_spec z) as [[_ ->]|[_ ->]]; [done|]. rewrite inject_Z_opp. lra.
Qed.

(** Rounding is off by half at most. *)
Lemma rne_half n d x : 0 ≤ n → 0 < d → (inject_Z n / inject_Z d == x)%Q →
  (- (1 # 2) <= inject_Z (rne n d) - x <= (1 # 2))%Q.
Proof.
  intros Hn Hd Ex. pose proof (rne_near n d Hn Hd) as Hr. set (r := rne n d) in *. clearbody r.
  pose proof (inject_pos d Hd) as Qd.
  assert (inject_Z r - x == inject_Z (r * d - n) / inject_Z d)%Q as ->.
  { rewrite <- Ex. unfold Zminus. rewrite inject_Z_plus, inject_Z_opp, inject_Z_mult. field.
    intros E; rewrite E in Qd; lra. }
  split; [apply Qle_shift_div_l|apply Qle_shift_div_r]; try done.
  - setoid_replace (- (1 # 2) * inject_Z d)%Q with (inject_Z (- d) / 2)%Q by (rewrite inject_Z_opp; field).
    apply Qle_shift_div_r; [lra|]. change 2%Q with (inject_Z 2). rewrite <- inject_Z_mult, <- Zle_Qle. lia.
  - setoid_replace ((1 # 2) * inject_Z d)%Q with (inject_Z d / 2)%Q by field.
    apply Qle_shift_div_l; [lra|]. change 2%Q with (inject_Z 2). rewrite <- inject_Z_mult, <- Zle_Qle. lia.
Qed.

(** From the distance of two fractions to the integers. *)
Lemma close_q r a b y : 0 < b → (y * inject_Z b == inject_Z a)%Q →
  (- ((1 # 2) + 32 * u * y) <= inject_Z r - y <= (1 # 2) + 32 * u * y)%Q → close r a b.
Proof.
  intros Hb Ey [L1 L2]. pose proof (inject_pos b Hb) as Qb. unfold close.
  rewrite Zle_Qle, inject_Z_plus, !inject_Z_mult.
  assert (inject_Z (Z.abs (r * b - a)) <= ((1 # 2) + 32 * u * y) * inject_Z b)%Q as H.
  { apply inject_abs.
    assert (inject_Z (r * b - a) == (inject_Z r - y) * inject_Z b)%Q as ->.
    { unfold Zminus. rewrite inject_Z_plus, inject_Z_opp, inject_Z_mult, <- Ey. ring. }
    split.
    - setoid_replace (- (((1 # 2) + 32 * u * y) * inject_Z b))%Q with (- ((1 # 2) + 32 * u * y) * inject_Z b)%Q by ring.
      apply Qmult_le_compat_r; [done|by apply Qlt_le_weak].
    - apply Qmult_le_compat_r; [done|by apply Qlt_le_weak]. }
  rewrite <- Ey. change (inject_Z (2 ^ 54)) with (18014398509481984 # 1)%Q.
  change (inject_Z (2 ^ 53)) with (9007199254740992 # 1)%Q. change (inject_Z 64) with 64%Q.
  set (w := inject_Z (Z.abs (r * b - a))) in *. clearbody w. revert H. unfold u. set (yb := (y * inject_Z b)%Q).
  setoid_replace (((1 # 2) + 32 * (1 # 9007199254740992) * y) * inject_Z b)%Q
    with ((1 # 2) * inject_Z b + 32 * (1 # 9007199254740992) * yb)%Q by (subst yb; ring).
  clearbody yb. intros H. lra.
Qed.

Lemma frac_nonneg a b : 0 ≤ a → 0 < b → (0 <= inject_Z a / inject_Z b)%Q.
Proof.
  intros Ha Hb. apply Qle_shift_div_l; [by apply inject_pos|]. rewrite Qmult_0_l.
  change 0%Q with (inject_Z 0). by rewrite <- Zle_Qle.
Qed.

(** Rounding at a decimal place, against the exact value. *)
Lemma rne_close n d a b x : 0 ≤ n → 0 < d → 0 ≤ a → 0 < b →
  (inject_Z n / inject_Z d == x)%Q →
  (inject_Z a / inject_Z b * (1 - 32 * u) <= x <= inject_Z a / inject_Z b * (1 + 32 * u))%Q →
  close (rne n d) a b ∧ 0 ≤ rne n d.
Proof.
  intros Hn Hd Ha Hb Ex Hx. pose proof (rne_half n d x Hn Hd Ex). pose proof (rne_near n d Hn Hd).
  pose proof (inject_pos b Hb) as Qb. pose proof (frac_nonneg a b Ha Hb) as Hy.
  set (y := (inject_Z a / inject_Z b)%Q) in *. split; [|nia]. apply (close_q _ _ _ y Hb).
  - subst y. field. intros E; rewrite E in Qb; lra.
  - unfold u in *. lra.
Qed.

(** The printed decimal of a double that approximates [a / b]. *)
Lemma fixed_close j k l f a b : 0 ≤ a → 0 < b → (k ≤ 16)%nat →
  approx j k f (inject_Z a / inject_Z b) →
  ∃ n, reads l (fixed l f) n ∧ 0 ≤ n ∧ close n (a * 10 ^ Z.of_nat l) b.
Proof.
  intros Ha Hb Hk Hf. assert (0 < 10 ^ Z.of_nat l) as Hl by (apply Z.pow_pos_nonneg; lia).
  set (t := 10 ^ Z.of_nat l) in *. pose proof (inject_pos b Hb) as Qb. pose proof (inject_pos t Hl) as Qt.
  assert (∃ m e, f = Fin m e ∧ 0 ≤ m
    ∧ (inject_Z a / inject_Z b * (1 - 32 * u) <= val f <= inject_Z a / inject_Z b * (1 + 32 * u))%Q) as (m & e & -> & Hm & Hv).
  { destruct Hf as [[-> E]|(Hx & (m & e & -> & Hm & _) & N)].
    - exists 0, 0. rewrite E. split_and!; [done..|]. assert (val (Fin 0 0) == 0)%Q as -> by reflexivity. lra.
    - exists m, e. split; [done|]. split; [lia|]. apply (near_16 k); [by apply Qlt_le_weak|done..]. }
  destruct (rne_close (num m e * t) (den e) (a * t) b (val (Fin m e) * inject_Z t)%Q) as [H1 H2]; try done.
  - apply Z.mul_nonneg_nonneg; [|lia]. unfold num. apply Z.mul_nonneg_nonneg; [done|]. apply Z.pow_nonneg. lia.
  - apply den_pos.
  - nia.
  - cbn [val]. rewrite inject_Z_mult. pose proof (inject_pos _ (den_pos e)) as Qe. field. intros E; rewrite E in Qe; lra.
  - rewrite inject_Z_mult. set (v := val (Fin m e)) in *.
    assert (inject_Z a * inject_Z t / inject_Z b == inject_Z a / inject_Z b * inject_Z t)%Q as ->
      by (field; intros E; rewrite E in Qb; lra).
    set (y := (inject_Z a / inject_Z b)%Q) in *. split.
    + setoid_replace (y * inject_Z t * (1 - 32 * u))%Q with (y * (1 - 32 * u) * inject_Z t)%Q by ring.
      apply Qmult_le_compat_r; [apply Hv|by apply Qlt_le_weak].
    + setoid_replace (y * inject_Z t * (1 + 32 * u))%Q with (y * (1 + 32 * u) * inject_Z t)%Q by ring.
      apply Qmult_le_compat_r; [apply Hv|by apply Qlt_le_weak].
  - exists (fixed_int l m e). split_and!; [by apply fixed_reads|done..].
Qed.

(** An integer that is a double. *)
Lemma approx_exact c m e : 0 < c → of_int c = Fin m e → 0 < m ≤ 2 ^ 53 → - 53 ≤ e ≤ 53 →
  (val (Fin m e) == inject_Z c)%Q → approx 53 0 (of_int c) (inject_Z c).
Proof.
  intros Hc -> Hm He Hv. right. split_and!; [by apply inject_pos|by exists m, e|].
  unfold near. cbn [pow]. rewrite Hv. lra.
Qed.

Ltac constant :=
  eapply approx_exact; [lia|vm_compute; reflexivity|vm_compute; split; congruence..|vm_compute; reflexivity].

Lemma approx_8 : approx 53 0 (of_int 8) (inject_Z 8).
Proof. constant. Qed.
Lemma approx_100 : approx 53 0 (of_int 100) (inject_Z 100).
Proof. constant. Qed.
Lemma approx_mega : approx 53 0 (of_int (10 ^ 6)) (inject_Z (10 ^ 6)).
Proof. constant. Qed.
Lemma approx_giga : approx 53 0 (of_int (10 ^ 9)) (inject_Z (10 ^ 9)).
Proof. constant. Qed.

Lemma approx_secs ns : 0 ≤ ns < 2 ^ 64 →
  approx 375 3 (as_secs_f64 ns) (inject_Z ns / inject_Z (10 ^ 9)).
Proof.
  intros H. pose proof (Z.mod_pos_bound ns (10 ^ 9) ltac:(lia)). pose proof (Z.div_mod ns (10 ^ 9)) as E.
  pose proof (Z.div_pos ns (10 ^ 9)). pose proof (Z.div_le_upper_bound ns (10 ^ 9) ns).
  assert (inject_Z ns / inject_Z (10 ^ 9) == inject_Z (ns / 10 ^ 9) + inject_Z (ns mod 10 ^ 9) / inject_Z (10 ^ 9))%Q as ->.
  { rewrite E at 1 by lia. rewrite inject_Z_plus, inject_Z_mult. field. discriminate. }
  apply (approx_add 53 214 2).
  - done.
  - done.
  - done.
  - apply (approx_weaken 53 _ 1); [lia..|]. apply approx_int. lia.
  - apply (approx_div 53 53 1 0); [done..|apply approx_int; lia|apply approx_giga].
Qed.

Lemma secs_pos ns : 0 < ns → (0 < inject_Z ns / inject_Z (10 ^ 9))%Q.
Proof. intros H. apply Qlt_shift_div_l; [done|]. rewrite Qmult_0_l. by apply inject_pos. Qed.

Section rates.
Context (b ns : Z) (Hb : is_u64 b) (Hns : 0 < ns < 2 ^ 64).

(** Gigabits: bits per nanosecond. *)
Lemma approx_gbps : approx 858 10
  (fdiv (fdiv (fmul (of_int b) (of_int 8)) (as_secs_f64 ns)) (of_int (10 ^ 9)))
  (inject_Z (8 * b) / inject_Z ns).
Proof.
  pose proof (inject_pos ns ltac:(lia)) as Qn.
  assert (inject_Z (8 * b) / inject_Z ns
    == inject_Z b * inject_Z 8 / (inject_Z ns / inject_Z (10 ^ 9)) / inject_Z (10 ^ 9))%Q as ->.
  { rewrite inject_Z_mult. field. repeat split; first [discriminate|intros E; rewrite E in Qn; lra]. }
  apply (approx_div 697 53 9 0); [done..| |apply approx_giga].
  apply (approx_div 214 375 2 3); [done..|apply secs_pos; lia| |apply approx_secs; lia].
  apply (approx_mul 53 53 1 0); [done..|apply approx_int, Hb|apply approx_8].
Qed.

(** Millions per second: thousands per nanosecond. *)
Lemma approx_mpps : approx 697 9
  (fdiv (fdiv (of_int b) (as_secs_f64 ns)) (of_int (10 ^ 6)))
  (inject_Z (1000 * b) / inject_Z ns).
Proof.
  pose proof (inject_pos ns ltac:(lia)) as Qn.
  assert (inject_Z (1000 * b) / inject_Z ns
    == inject_Z b / (inject_Z ns / inject_Z (10 ^ 9)) / inject_Z (10 ^ 6))%Q as ->.
  { rewrite inject_Z_mult. assert (inject_Z 1000 == inject_Z (10 ^ 9) / inject_Z (10 ^ 6))%Q as -> by reflexivity.
    field. repeat split; first [discriminate|intros E; rewrite E in Qn; lra]. }
  apply (approx_div 536 53 8 0); [done..| |apply approx_mega].
  apply (approx_div 53 375 1 3); [done..|apply secs_pos; lia|apply approx_int, Hb|apply approx_secs; lia].
Qed.
End rates.

Lemma approx_loss d t : is_u64 d → is_u64 t → 0 < t →
  approx 375 5 (loss_rate d t) (inject_Z (100 * d) / inject_Z t).
Proof.
  intros Hd Ht H0. unfold loss_rate. rewrite (proj2 (Z.eqb_neq t 0)) by lia.
  rewrite Z.mul_comm, inject_Z_mult.
  apply (approx_div 214 53 2 1); [done..|by apply inject_pos| |by apply approx_int].
  apply (approx_mul 53 53 1 0); [done..|by apply approx_int|apply approx_100].
Qed.

(** ** Properties *)

(** Peeling the first member off an object. *)
Definition members (l : list (string * str)) : str := tail (object l).

Lemma object_members l : object l = 123 :: members l.
Proof. done. Qed.

Lemma members_cons k v m l :
  members ((k, v) :: m :: l) = quoted (lit k) ++ 58 :: v ++ 44 :: members (m :: l).
Proof. unfold members, object. rewrite !fmap_cons. cbn [join tail]. by rewrite <- !app_assoc. Qed.

Lemma find_bytes proto t rest : proto ∈ ["udp"; "tcp"; "xdp-udp"]%string →
  Forall (λ c, c ≠ 34) t →
  find_after (quoted (lit "bytes") ++ [58])
    (123 :: quoted (lit "proto") ++ 58 :: quoted (lit proto) ++ 44 :: quoted (lit "seconds")
      ++ 58 :: t ++ 44 :: quoted (lit "bytes") ++ 58 :: rest) = Some rest.
Proof.
  intros Hp Ht. transitivity (find_after (quoted (lit "bytes") ++ [58]) (t ++ 44 :: quoted (lit "bytes") ++ 58 :: rest)).
  - rewrite !elem_of_cons, elem_of_nil in Hp. by destruct Hp as [->|[->|[->|[]]]].
  - unfold quoted at 1. cbn [app]. rewrite find_after_skip by done. done.
Qed.

Lemma find_packets proto t b rest : proto ∈ ["udp"; "xdp-udp"]%string →
  Forall (λ c, c ≠ 34) t → Forall (λ c, c ≠ 34) b →
  find_after (quoted (lit "packets") ++ [58])
    (123 :: quoted (lit "proto") ++ 58 :: quoted (lit proto) ++ 44 :: quoted (lit "seconds")
      ++ 58 :: t ++ 44 :: quoted (lit "bytes") ++ 58 :: b ++ 44 :: quoted (lit "packets") ++ 58 :: rest) = Some rest.
Proof.
  intros Hp Ht Hb. set (rest' := b ++ 44 :: quoted (lit "packets") ++ 58 :: rest).
  transitivity (find_after (quoted (lit "packets") ++ [58]) (t ++ 44 :: quoted (lit "bytes") ++ 58 :: rest')).
  { rewrite !elem_of_cons, elem_of_nil in Hp. by destruct Hp as [->|[->|[]]]. }
  unfold quoted at 1. cbn [app]. rewrite find_after_skip by done.
  transitivity (find_after (quoted (lit "packets") ++ [58]) rest'); [done|].
  subst rest'. unfold quoted at 1. cbn [app]. rewrite find_after_skip by done. done.
Qed.

(** The JSON summary reads back.  Whatever the time and the rates in
    between are, infinite and undefined ones included, the test's [field]
    gets from the printed line of a UDP run exactly the bytes and the
    packets of the summary, and from that of a TCP run the bytes. *)
Lemma json_summary_fields s :
  is_u64 (s_bytes s) → is_u64 (s_packets s) →
  let udp := trim (unlines (print_summary s true true)) in
  let tcp := trim (unlines (print_summary s false true)) in
  field udp (lit "bytes") = Ok (s_bytes s) ∧ field udp (lit "packets") = Ok (s_packets s)
  ∧ field tcp (lit "bytes") = Ok (s_bytes s).
Proof.
  intros Hb Hp udp tcp. subst udp tcp. unfold print_summary. rewrite !trim_object.
  rewrite !object_members, !members_cons. unfold field.
  pose proof (fixed_no_quote 3 (s_secs s)). pose proof (dec_no_quote (s_bytes s)).
  rewrite !find_bytes, find_packets by (done || set_solver). by rewrite !take_while_dec, !parse_dec.
Qed.

(** And it names its protocol. *)
Lemma json_summary_proto s udp :
  contains (trim (unlines (print_summary s udp true)))
    (quoted (lit "proto") ++ 58 :: quoted (lit (if udp then "udp" else "tcp")%string)) = true.
Proof.
  unfold print_summary. destruct udp; rewrite trim_object, object_members, members_cons; unfold contains; done.
Qed.

(** So does the AF_XDP generator's. *)
Lemma xdp_json_fields ns b q : is_u64 b → is_u64 q →
  let line := trim (unlines (xdp_blast_summary ns b q true)) in
  field line (lit "bytes") = Ok b ∧ field line (lit "packets") = Ok q.
Proof.
  intros Hb Hq line. subst line. unfold xdp_blast_summary. rewrite !trim_object.
  rewrite !object_members, !members_cons. unfold field.
  pose proof (fixed_no_quote 3 (as_secs_f64 ns)). pose proof (dec_no_quote b).
  rewrite find_bytes, find_packets by (done || set_solver). by rewrite !take_while_dec, !parse_dec.
Qed.

(** C21: the figures of a summary are right.  For a run of [ns]
    nanoseconds, each printed number is the exact quotient (seconds, bits
    per nanosecond, thousands of packets per nanosecond) rounded to its last
    printed digit: half a unit of it plus one part in [2^48], for all the
    divisions and roundings of [as_secs_f64], [gbps] and [mpps] and of the
    printing together.  The AF_XDP generator prints the same figures. *)
Theorem summary_figures b q ns :
  is_u64 b → is_u64 q → 0 < ns < 2 ^ 64 →
  let s := mkSummary b q (as_secs_f64 ns) in
  ∃ t g m nt ng nm,
    print_summary s true true
      = [object [("proto", quoted (lit "udp")); ("seconds", t); ("bytes", dec b);
                 ("packets", dec q); ("gbps", g); ("mpps", m)]%string]
  ∧ xdp_blast_summary ns b q true
      = [object [("proto", quoted (lit "xdp-udp")); ("seconds", t); ("bytes", dec b);
                 ("packets", dec q); ("gbps", g); ("mpps", m)]%string]
  ∧ reads 3 t nt ∧ close nt (ns * 10 ^ 3) (10 ^ 9)
  ∧ reads 4 g ng ∧ close ng (8 * b * 10 ^ 4) ns
  ∧ reads 4 m nm ∧ close nm (1000 * q * 10 ^ 4) ns.
Proof.
  intros Hb Hq Hns s. pose proof Hb as [Hb0 Hb1]. pose proof Hq as [Hq0 Hq1].
  destruct (fixed_close 375 3 3 (as_secs_f64 ns) ns (10 ^ 9)) as (nt & T1 & _ & T2);
    [lia|done|lia|by apply approx_secs; lia|].
  destruct (fixed_close 858 10 4 (gbps s) (8 * b) ns) as (ng & G1 & _ & G2);
    [lia..|by apply approx_gbps|].
  destruct (fixed_close 697 9 4 (mpps s) (1000 * q) ns) as (nm & M1 & _ & M2);
    [lia..|by apply approx_mpps|].
  exists (fixed 3 (as_secs_f64 ns)), (fixed 4 (gbps s)), (fixed 4 (mpps s)), nt, ng, nm.
  split_and!; done.
Qed.

Lemma summary_figures_witness :
  ∃ t g m nt ng nm,
    print_summary (mkSummary (125 * 10 ^ 8) (893 * 10 ^ 4) (as_secs_f64 10000300000)) true true
      = [object [("proto", quoted (lit "udp")); ("seconds", t); ("bytes", lit "12500000000");
                 ("packets", lit "8930000"); ("gbps", g); ("mpps", m)]%string]
  ∧ reads 3 t nt ∧ reads 4 g ng ∧ reads 4 m nm.
Proof.
  destruct (summary_figures (125 * 10 ^ 8) (893 * 10 ^ 4) 10000300000)
    as (t & g & m & nt & ng & nm & H & _ & H1 & _ & H2 & _ & H3 & _); [split; done..|].
  exists t, g, m, nt, ng, nm. split; [exact H|]. split; [exact H1|]. split; [exact H2|exact H3].
Defined.

(** A printed percentage with [l] places. *)
Lemma loss_printed l d t : (l ≤ 3)%nat → is_u64 d → is_u64 t → d ≤ t →
  ∃ n, reads l (fixed l (loss_rate d t)) n ∧ 0 ≤ n ≤ 100 * 10 ^ Z.of_nat l
    ∧ (0 < t → close n (100 * d * 10 ^ Z.of_nat l) t)
    ∧ (d = 0 → n = 0) ∧ (0 < t → d = t → n = 100 * 10 ^ Z.of_nat l).
Proof.
  intros Hl [Hd Hd'] [Ht Ht'] Hdt. assert (1 ≤ 10 ^ Z.of_nat l ≤ 1000) as Hk.
  { destruct l as [|[|[|[|]]]]; [done..|lia]. }
  destruct (decide (t = 0)) as [->|Hz].
  { exists 0. unfold loss_rate. cbn [Z.eqb]. assert (fixed_int l 0 0 = 0) as E by done.
    split_and!; [|lia..]. pose proof (fixed_reads l 0 0) as H. rewrite E in H. by apply H. }
  destruct (fixed_close 375 5 l (loss_rate d t) (100 * d) t) as (n & R & H0 & C); [lia..|by apply approx_loss; [split|split|lia]|].
  exists n. set (k := 10 ^ Z.of_nat l) in *. clearbody k.
  assert (n ≤ 100 * k ∧ (d = 0 → n = 0) ∧ (d = t → n = 100 * k)) as (B1 & B2 & B3).
  { unfold close in C. change (2 ^ 54) with 18014398509481984 in C. change (2 ^ 53) with 9007199254740992 in C.
    split_and!; [|intros ->|intros ->]; nia. }
  split_and!; done || lia.
Qed.

Lemma approx_line_gbps b : is_u64 b →
  approx 375 3 (fdiv (fmul (of_int b) (of_int 8)) (of_int (10 ^ 9))) (inject_Z (8 * b) / inject_Z (10 ^ 9)).
Proof.
  intros Hb. rewrite Z.mul_comm, inject_Z_mult. apply (approx_div 214 53 2 0); [done..| |apply approx_giga].
  apply (approx_mul 53 53 1 0); [done..|by apply approx_int|apply approx_8].
Qed.

Lemma approx_line_mpps q : is_u64 q →
  approx 214 2 (fdiv (of_int q) (of_int (10 ^ 6))) (inject_Z q / inject_Z (10 ^ 6)).
Proof. intros Hq. apply (approx_div 53 53 1 0); [done..|by apply approx_int|apply approx_mega]. Qed.

(** The sink's percentage is the reporter's. *)
Lemma sink_text pr ns q d : is_u64 (q + d) →
  xdp_sink_summary pr ns q d = Ok (lit "AF_XDP sink: " ++ dec q ++ lit " frames | "
    ++ fixed 4 (fdiv (fdiv (of_int q) (as_secs_f64 ns)) (of_int (10 ^ 6))) ++ lit " Mpps | loss "
    ++ fixed 3 (loss_rate d (q + d)) ++ lit "%").
Proof.
  intros Ht. unfold xdp_sink_summary, loss_rate. rewrite (arith_fits pr 64 (q + d)) by done.
  cbn [mbind res_bind]. by destruct (q + d =? 0).
Qed.

(** C22: the loss the program prints is sane and right.  For [q] packets
    and [d] drops of an interval, the reporter's line and the AF_XDP sink's
    last line show a percentage between 0 and 100; it is 0 without drops, 100
    without packets, and else the exact [100 d / (q + d)] rounded to the
    printed places.  The line's rates are right in the same sense. *)
Theorem loss_figures pr t b q d ns :
  is_u64 b → is_u64 q → is_u64 d → is_u64 (q + d) →
  ∃ g m x y ng nm nx ny tail,
    report_text true (ReportLine t b q d (q + d))
      = lit "[" ++ pad 3 (dec t) ++ lit "s] " ++ pad 7 g ++ lit " Gb/s  " ++ pad 7 m ++ lit " Mpps  "
          ++ pad 5 x ++ lit "% loss"
  ∧ xdp_sink_summary pr ns q d = Ok (lit "AF_XDP sink: " ++ dec q ++ lit " frames | " ++ tail ++ lit " Mpps | loss " ++ y ++ lit "%")
  ∧ reads 3 g ng ∧ close ng (8 * b * 10 ^ 3) (10 ^ 9)
  ∧ reads 3 m nm ∧ close nm (q * 10 ^ 3) (10 ^ 6)
  ∧ reads 2 x nx ∧ 0 ≤ nx ≤ 10 ^ 4 ∧ reads 3 y ny ∧ 0 ≤ ny ≤ 10 ^ 5
  ∧ (0 < q + d → close nx (10 ^ 4 * d) (q + d) ∧ close ny (10 ^ 5 * d) (q + d))
  ∧ (d = 0 → nx = 0 ∧ ny = 0) ∧ (0 < d → q = 0 → nx = 10 ^ 4 ∧ ny = 10 ^ 5).
Proof.
  intros Hb Hq Hd Ht. pose proof Hb as [Hb0 _]. pose proof Hq as [Hq0 _]. pose proof Hd as [Hd0 _].
  destruct (fixed_close 375 3 3 _ (8 * b) (10 ^ 9) ltac:(lia) ltac:(lia) ltac:(lia) (approx_line_gbps b Hb))
    as (ng & G1 & _ & G2).
  destruct (fixed_close 214 2 3 _ q (10 ^ 6) ltac:(lia) ltac:(lia) ltac:(lia) (approx_line_mpps q Hq))
    as (nm & M1 & _ & M2).
  destruct (loss_printed 2 d (q + d)) as (nx & X1 & X2 & X3 & X4 & X5); [lia|done|done|lia|].
  destruct (loss_printed 3 d (q + d)) as (ny & Y1 & Y2 & Y3 & Y4 & Y5); [lia|done|done|lia|].
  eexists _, _, _, _, ng, nm, nx, ny, _.
  split; [unfold report_text; cbn [rl_bytes rl_packets rl_drops rl_total rl_t]; by rewrite <- !app_assoc|].
  split; [by apply sink_text|]. do 4 (split; [eassumption|]).
  split; [exact X1|]. split; [exact X2|]. split; [exact Y1|]. split; [exact Y2|].
  split; [intros H; specialize (X3 H); specialize (Y3 H); split; [replace (10 ^ 4 * d) with (100 * d * 10 ^ Z.of_nat 2) by lia|replace (10 ^ 5 * d) with (100 * d * 10 ^ Z.of_nat 3) by lia]; done|].
  split; [intros ->; split; [by apply X4|by apply Y4]|].
  intros H ->. rewrite Z.add_0_l in X5, Y5. split; [by apply X5|by apply Y5].
Qed.

(** An interval in which everything was lost. *)
Lemma loss_figures_witness :
  ∃ x nx, xdp_sink_summary Debug (10 ^ 10) 0 12 = Ok x ∧ nx = 10 ^ 4.
Proof.
  assert (is_u64 0 ∧ is_u64 12) as [H0 H12] by (apply (bool_decide_unpack _); vm_compute; exact I).
  destruct (loss_figures Debug 1 0 0 12 (10 ^ 10) H0 H0 H12 H12)
    as (g & m & x & y & ng & nm & nx & ny & t & _ & Hs & _ & _ & _ & _ & _ & _ & _ & _ & _ & _ & H).
  eexists _, nx. split; [exact Hs|]. destruct H as [Hx _]; [done|done|exact Hx].
Defined.
