(* ===== verification/Cli.v ===== *)
(** * The command line ([src/main.rs])

    Argument lookup, the memory guard, the decision [main] takes (which
    engine runs, with which parameters, or which error ends the process),
    and the whole run: what the process prints and its exit status, given
    what the engine returned.  The engines themselves are modelled in their
    own files. *)

From S2P Require Import Prelude Strs Simd Frame Affinity Net Float Report.

(** ** Arguments *)

(** [flag]: the argument behind the first occurrence of [name]. *)
Fixpoint flag (args : list str) (name : str) : option str :=
  match args with
  | [] => None
  | a :: args => if bool_decide (a = name) then head args else flag args name
  end.

Definition has (args : list str) (name : str) : bool := existsb (λ a, bool_decide (a = name)) args.

(** [flag(..).and_then(|s| s.parse().ok()).unwrap_or(d)]. *)
Definition flag_or (args : list str) (name : str) (d : Z) : Z :=
  default d (flag args name ≫= parse_u64).

(** [SocketAddrV4::from_str]: four decimal octets of at most three digits
    without leading zeros, a colon, and a decimal port. *)
Definition parse_octet (s : str) : option Z :=
  if bool_decide (s = [] ∨ (3 < length s)%nat ∨ (head s = Some 48 ∧ (1 < length s)%nat)) then None
  else digits 8 10 0 s.

Definition parse_ipv4 (s : str) : option (list Z) :=
  match split_char 46 s with
  | [a; b; c; d] =>
      a ← parse_octet a; b ← parse_octet b; c ← parse_octet c; d ← parse_octet d;
      Some [a; b; c; d]
  | _ => None
  end.

Definition parse_port (s : str) : option Z :=
  match s with [] => None | _ => digits 16 10 0 s end.

Definition parse_socket_addr_v4 (s : str) : option (list Z * Z) :=
  '(ip, port) ← split_once 58 s;
  ip ← parse_ipv4 ip;
  port ← parse_port port;
  Some (ip, port).

(** ** The memory guard *)

Section guard.
Context (p : profile).

(** The line loop of [mem_available_bytes]. *)
Fixpoint mem_lines (l : list str) : res (option Z) :=
  match l with
  | [] => Ok None
  | line :: l =>
      match strip_prefix (lit "MemAvailable:") line with
      | Some rest =>
          match head (split_whitespace rest) ≫= parse_u64 with
          | Some kb => b ← arith p 64 (kb * 1024); Ok (Some b)
          | None => Ok None
          end
      | None => mem_lines l
      end
  end.

(** [meminfo] is what reading [/proc/meminfo] gave. *)
Definition mem_available_bytes (meminfo : option str) : res (option Z) :=
  match meminfo with
  | None => Ok None
  | Some s => mem_lines (lines s)
  end.

(** The limit of [oom_guard]: a quarter of the available memory, 1 GiB when
    that is unknown. *)
Definition oom_cap (meminfo : option str) : res Z :=
  m ← mem_available_bytes meminfo;
  Ok (match m with Some m => m / 4 | None => Z.shiftl 1 30 end).

Definition oom_message (planned_bytes cap : Z) : str :=
  lit "error: refusing to allocate " ++ dec (planned_bytes / Z.shiftl 1 20)
    ++ lit " MiB of buffers (anti-OOM limit " ++ dec (cap / Z.shiftl 1 20) ++ lit " MiB) "
    ++ 8212 :: lit " reduce --threads or --len.".

(** [oom_guard]: a message stands for the exit after it. *)
Definition oom_guard (meminfo : option str) (planned_bytes : Z) : res (option str) :=
  cap ← oom_cap meminfo;
  Ok (if cap <? planned_bytes then Some (oom_message planned_bytes cap) else None).
End guard.

(** ** [main] *)

(** The environment of a run. *)
Record env : Type := Env {
  feature_xdp : bool;
  env_meminfo : option str;
  env_node_file : Z → option str;
  env_affinity : option (Z → bool);
}.

(** What [main] does once the arguments are read.  [Usage] and [Exit] carry
    the lines printed before the process ends with status 2 or 1. *)
Inductive action : Type :=
| Usage (err : list str)
| Version
| Exit (err : list str)
| UdpServer (bind : str) (len : Z) (cpus : list Z)
| TcpServer (bind : str) (cpus : list Z)
| XdpSink (iface : str) (duration : Z) (cpus : list Z)
| UdpClient (connect : str) (threads duration len target_pps : Z) (cpus : list Z) (json : bool)
| TcpClient (connect : str) (threads duration : Z) (cpus : list Z) (json : bool)
| XdpBlast (iface : str) (dst_ip : list Z) (dst_port : Z)
    (len duration target_pps : Z) (cpus : list Z) (json : bool).

Section main.
Context (p : profile) (E : env).

(** The CPU list: as given, or all CPUs of the process. *)
Definition main_cpus (args : list str) : list Z :=
  let explicit := resolve_cpus (env_node_file E) (flag args (lit "--cpus"))
                    (flag args (lit "--numa") ≫= parse_u64) in
  match explicit with [] => online_cpus (env_affinity E) | _ => explicit end.

Definition main_server (args : list str) (udp : bool) (len : Z) (cpus : list Z) : res action :=
  let bind := default (lit "0.0.0.0:5201") (flag args (lit "--bind")) in
  if has args (lit "--xdp") then
    if feature_xdp E then
      match flag args (lit "--iface") with
      | None => Ok (Usage [lit "error: --xdp sink needs --iface <nic>"])
      | Some iface => Ok (XdpSink iface (flag_or args (lit "--duration") 3600) cpus)
      end
    else Ok (Exit [lit "error: --xdp sink requires a build with --features xdp"])
  else if udp then
    planned ← arith p 64 (Z.of_nat BATCH * Z.max len 2048);
    ok ← oom_guard p (env_meminfo E) planned;
    Ok (match ok with None => UdpServer bind len cpus | Some m => Exit [m] end)
  else Ok (TcpServer bind cpus).

(** [{:?}] of a vector of integers. *)
Definition debug_list (l : list Z) : str :=
  lit "[" ++ match l with [] => [] | x :: l => dec x ++ concat ((λ y, lit ", " ++ dec y) <$> l) end ++ lit "]".

Definition pinning (threads : Z) (cpus : list Z) : list str :=
  match cpus with
  | [] => []
  | _ => [lit "pinning " ++ dec threads ++ lit " thread(s) to CPUs " ++ debug_list cpus]
  end.

Definition main_client (args : list str) (udp : bool) (len : Z) (cpus : list Z) : res action :=
  match flag args (lit "--connect") with
  | None => Ok (Usage [lit "error: client needs --connect HOST:PORT"])
  | Some connect =>
      let duration := flag_or args (lit "--duration") 10 in
      let threads := flag_or args (lit "--threads") (if udp then zlen cpus else 1) in
      let target_pps := flag_or args (lit "--target-pps") 0 in
      let json := has args (lit "--json") in
      if has args (lit "--xdp") then
        match flag args (lit "--iface") with
        | None => Ok (Usage [lit "error: --xdp needs --iface <nic>"])
        | Some iface =>
            match parse_socket_addr_v4 connect with
            | None => Ok (Exit [lit "error: --xdp --connect needs IPv4 HOST:PORT"])
            | Some (ip, port) => Ok (XdpBlast iface ip port len duration target_pps cpus json)
            end
        end
      else
        planned ←
          (if udp then
             a ← arith p 64 (threads * Z.of_nat BATCH);
             arith p 64 (a * len)
           else
             a ← arith p 64 (threads * 256);
             arith p 64 (a * 1024));
        ok ← oom_guard p (env_meminfo E) planned;
        Ok (match ok with
            | Some m => Exit (pinning threads cpus ++ [m])
            | None =>
                if udp then UdpClient connect threads duration len target_pps cpus json
                else TcpClient connect threads duration cpus json
            end)
  end.

(** [main] up to the call of an engine. *)
Definition main (args : list str) : res action :=
  match args with
  | [] => Ok (Usage [])
  | mode :: _ =>
      if has args (lit "--version") || has args (lit "-V") then Ok Version
      else if has args (lit "--help") || has args (lit "-h") then Ok (Usage [])
      else
        let udp := has args (lit "--udp") in
        let len := flag_or args (lit "--len") 1400 in
        let cpus := main_cpus args in
        if bool_decide (mode = lit "server") then main_server args udp len cpus
        else if bool_decide (mode = lit "client") then main_client args udp len cpus
        else Ok (Usage [])
  end.
End main.

(** ** The whole run *)

(** What an engine returned: the counters and the nanoseconds the run took,
    or the text of its error. *)
Inductive outcome : Type :=
| Finished (b q d ns : Z)
| Failed (message : str).

(** What the process leaves behind. *)
Record process : Type := Process {
  out : list str;
  err : list str;
  status : Z;
}.

(** [main] from the call of an engine to its end. *)
Definition finish (p : profile) (ver : str) (a : action) (r : outcome) : res process :=
  match a, r with
  | Usage e, _ => Ok (Process [] (e ++ usage ver) 2)
  | Version, _ => Ok (Process [lit "runperf " ++ ver] [] 0)
  | Exit e, _ => Ok (Process [] e 1)
  | XdpSink _ _ _, Failed e => Ok (Process [] [lit "xdp sink error: " ++ e] 1)
  | XdpSink _ _ _, Finished _ q d ns => line ← xdp_sink_summary p ns q d; Ok (Process [line] [] 0)
  | (UdpServer _ _ _ | TcpServer _ _), Failed e => Ok (Process [] [lit "server error: " ++ e] 1)
  | (UdpServer _ _ _ | TcpServer _ _), Finished _ _ _ _ => Ok (Process [] [] 0)
  | XdpBlast _ _ _ _ _ _ _ _, Failed e => Ok (Process [] [lit "xdp error: " ++ e] 1)
  | XdpBlast _ _ _ _ _ _ _ json, Finished b q _ ns => Ok (Process (xdp_blast_summary ns b q json) [] 0)
  | UdpClient _ threads _ _ _ cpus _, Failed e | TcpClient _ threads _ cpus _, Failed e =>
      Ok (Process [] (pinning threads cpus ++ [lit "client error: " ++ e]) 1)
  | UdpClient _ threads _ _ _ cpus json, Finished b q _ ns =>
      Ok (Process (print_summary (mkSummary b q (as_secs_f64 ns)) true json) (pinning threads cpus) 0)
  | TcpClient _ threads _ cpus json, Finished b _ _ ns =>
      Ok (Process (print_summary (mkSummary b 0 (as_secs_f64 ns)) false json) (pinning threads cpus) 0)
  end.

(** The start-up line is printed once the arguments ask for neither the
    usage text nor the version. *)
Definition banner (c : cpu) (args : list str) : list str :=
  match args with
  | [] => []
  | _ => if has args (lit "--version") || has args (lit "-V") || has args (lit "--help") || has args (lit "-h")
         then [] else [(log_simd_info c None).1]
  end.

(** A run whose engine, if one starts, returns [engine a]; what the
    engine's own threads print is not part of it. *)
Definition run (p : profile) (E : env) (ver : str) (c : cpu) (args : list str) (engine : action → outcome) : res process :=
  a ← main p E args;
  pr ← finish p ver a (engine a);
  Ok (Process (out pr) (banner c args ++ err pr) (status pr)).

(** ** Properties *)

(** The CPU list an action passes on. *)
Definition action_cpus (a : action) : option (list Z) :=
  match a with
  | UdpServer _ _ c | TcpServer _ c | XdpSink _ _ c | UdpClient _ _ _ _ _ c _
  | TcpClient _ _ _ c _ | XdpBlast _ _ _ _ _ _ c _ => Some c
  | _ => None
  end.

Lemma main_cpus_not_nil E args : main_cpus E args ≠ [].
Proof.
  unfold main_cpus. destruct (resolve_cpus _ _ _) eqn:Er; [|done]. apply online_cpus_not_nil.
Qed.

(** What an action carries when [main] chose it. *)
Lemma main_server_cpus p E args udp len cpus a c :
  main_server p E args udp len cpus = Ok a → action_cpus a = Some c → c = cpus.
Proof.
  unfold main_server. destruct (has args (lit "--xdp")); [|destruct udp].
  - destruct (feature_xdp E); [destruct (flag args _)|]; intros [= <-] Ha; by simplify_eq/=.
  - intros H Ha. apply res_bind_inv in H as (n & _ & H). apply res_bind_inv in H as (ok & _ & H).
    destruct ok; by simplify_eq/=.
  - intros [= <-] Ha. by simplify_eq/=.
Qed.

Lemma main_client_cpus p E args udp len cpus a c :
  main_client p E args udp len cpus = Ok a → action_cpus a = Some c → c = cpus.
Proof.
  unfold main_client. destruct (flag args (lit "--connect")); [|by intros [= <-]].
  destruct (has args (lit "--xdp")).
  - destruct (flag args (lit "--iface")); [|by intros [= <-]].
    destruct (parse_socket_addr_v4 _) as [[? ?]|]; intros [= <-] Ha; by simplify_eq/=.
  - intros H Ha. apply res_bind_inv in H as (n & _ & H). apply res_bind_inv in H as (ok & _ & H).
    destruct ok; [|destruct udp]; by simplify_eq/=.
Qed.

(** Every engine [main] starts gets at least one CPU, whatever the
    arguments, the NUMA files and the affinity mask, so the expressions
    [cpus[w % cpus.len()]] of the worker threads cannot panic. *)
Theorem main_cpus_nonempty p E args a cpus :
  main p E args = Ok a → action_cpus a = Some cpus → cpus ≠ [].
Proof.
  intros Hm Ha. assert (cpus = main_cpus E args) as ->; [|apply main_cpus_not_nil].
  unfold main in Hm. destruct args as [|mode args]; [by simplify_eq|].
  destruct (_ || _); [by simplify_eq|]. destruct (_ || _); [by simplify_eq|]. cbv zeta in Hm.
  case_bool_decide; [by eapply main_server_cpus|].
  case_bool_decide; [by eapply main_client_cpus|by simplify_eq].
Qed.

Definition demo_environment : env := Env false None (λ _, None) None.

Lemma main_cpus_nonempty_witness :
  main Release demo_environment (lit <$> ["server"; "--numa"; "7"])
    = Ok (TcpServer (lit "0.0.0.0:5201") [0]) ∧ [0] ≠ [].
Proof.
  assert (main Release demo_environment (lit <$> ["server"; "--numa"; "7"])
    = Ok (TcpServer (lit "0.0.0.0:5201") [0])) as E by (vm_compute; reflexivity).
  split; [exact E|]. exact (main_cpus_nonempty _ _ _ _ [0] E eq_refl).
Defined.

(** *** Destinations *)

Lemma parse_octet_dec b : is_u8 b → parse_octet (dec b) = Some b.
Proof. revert b. apply (u8_cases _). vm_compute. reflexivity. Qed.

Lemma parse_ipv4_display ip : is_ip ip → parse_ipv4 (ipv4_display ip) = Some ip.
Proof.
  intros [HL Hb]. unfold parse_ipv4, ipv4_display.
  destruct ip as [|a [|b [|c [|d [|]]]]]; try done. unfold is_bytes in Hb. rewrite !Forall_cons in Hb.
  destruct Hb as (Ha & Hb & Hc & Hd & _).
  rewrite split_join; [|done|].
  2:{ apply Forall_fmap. repeat (apply Forall_cons_2; [apply dec_no_sep; [apply Ha || apply Hb || apply Hc || apply Hd|lia]|]). apply Forall_nil_2. }
  rewrite !fmap_cons. cbn [fmap list_fmap]. by rewrite !parse_octet_dec.
Qed.

Lemma parse_port_dec port : is_u16 port → parse_port (dec port) = Some port.
Proof.
  intros [H0 H1]. unfold parse_port. pose proof (dec_not_nil port) as Hne.
  destruct (dec port) eqn:E; [done|]. rewrite <- E. clear E Hne.
  rewrite digits_spec by (lia || width). unfold dec. rewrite dec_go_val.
  - by rewrite (proj2 (Z.ltb_lt _ _) H1).
  - split; [done|]. etrans; [exact H1|]. vm_compute. done.
Qed.

(** A destination printed as [a.b.c.d:port] is read back as exactly
    that address and port. *)
Theorem destination_roundtrip ip port :
  is_ip ip → is_u16 port →
  parse_socket_addr_v4 (ipv4_display ip ++ 58 :: dec port) = Some (ip, port).
Proof.
  intros Hi Hp. unfold parse_socket_addr_v4. rewrite split_once_app.
  - cbn [mbind option_bind]. by rewrite parse_ipv4_display, parse_port_dec.
  - destruct Hi as [_ Hb]. apply join_forall; [done|]. apply Forall_fmap.
    eapply Forall_impl; [exact Hb|]. intros b [Hb0 _].
    eapply Forall_impl; [by apply dec_go_digits|]. unfold is_dec_digit. intros c Hc. cbn in Hc. lia.
Qed.

Lemma destination_roundtrip_witness :
  parse_socket_addr_v4 (lit "192.0.2.7:5201") = Some ([192; 0; 2; 7], 5201).
Proof.
  apply (destination_roundtrip [192; 0; 2; 7] 5201);
    apply (bool_decide_unpack _); vm_compute; exact I.
Defined.

(** *** The guard *)

(** The line of [/proc/meminfo] with the available memory. *)
Definition mem_line (pad : nat) (kb : Z) : str :=
  lit "MemAvailable:" ++ replicate pad 32 ++ dec kb ++ lit " kB".

Lemma mem_lines_skip p pre l :
  Forall (λ s, strip_prefix (lit "MemAvailable:") s = None) pre →
  mem_lines p (pre ++ l) = mem_lines p l.
Proof. induction 1 as [|s pre Hs _ IH]; [done|]. cbn [app mem_lines]. by rewrite Hs. Qed.

Lemma strip_prefix_refl q s : strip_prefix q (q ++ s) = Some s.
Proof. induction q as [|a q IH]; [done|]. cbn. by rewrite Z.eqb_refl. Qed.

Lemma mem_lines_found p pad kb l :
  is_u64 (kb * 1024) → 0 ≤ kb → mem_lines p (mem_line pad kb :: l) = Ok (Some (kb * 1024)).
Proof.
  intros Hk H0. cbn [mem_lines]. unfold mem_line. rewrite strip_prefix_refl.
  rewrite split_whitespace_run by (by apply Forall_replicate).
  change (lit " kB") with (32 :: lit "kB").
  rewrite split_whitespace_word by
    (first [done | split; [apply dec_not_nil|by apply dec_not_space]]).
  cbn [head mbind option_bind]. rewrite parse_dec by (split; width).
  rewrite arith_fits by done. done.
Qed.

(** On the text the kernel prints, whatever lines surround it, the
    guard's limit is a quarter of [MemAvailable]; without such a line it is
    1 GiB. *)
Theorem oom_cap_meminfo p pre pad kb post :
  0 ≤ kb → is_u64 (kb * 1024) →
  Forall is_line pre → Forall is_line post →
  Forall (λ s, strip_prefix (lit "MemAvailable:") s = None) pre →
  oom_cap p (Some (unlines (pre ++ mem_line pad kb :: post))) = Ok (kb * 1024 / 4)
  ∧ oom_cap p (Some (unlines pre)) = Ok (2 ^ 30).
Proof.
  intros H0 Hk Hpre Hpost Hno. unfold oom_cap, mem_available_bytes. split.
  - rewrite lines_unlines.
    + by rewrite mem_lines_skip, mem_lines_found by done.
    + apply Forall_app. split; [done|]. constructor; [|done]. split.
      * unfold mem_line. rewrite !Forall_app. split_and!.
        -- apply (bool_decide_unpack _). done.
        -- by apply Forall_replicate.
        -- apply dec_no_sep; lia.
        -- apply (bool_decide_unpack _). done.
      * unfold mem_line. change (lit " kB") with (lit " k" ++ [66]). rewrite !app_assoc.
        by apply strip_cr_snoc.
  - rewrite lines_unlines by done. rewrite <- (app_nil_r pre), mem_lines_skip by done. done.
Qed.

Lemma oom_cap_meminfo_witness :
  oom_cap Debug (Some (unlines ([lit "MemTotal:       16000 kB"] ++ mem_line 3 8000 ::
    [lit "Buffers: 1 kB"]))) = Ok (8000 * 1024 / 4)
  ∧ oom_cap Debug (Some (unlines [lit "MemTotal:       16000 kB"])) = Ok (2 ^ 30).
Proof.
  apply oom_cap_meminfo; try (apply (bool_decide_unpack _); vm_compute; exact I); try lia.
Defined.

Lemma oom_guard_passes p mi n cap :
  oom_cap p mi = Ok cap → oom_guard p mi n = Ok None → n ≤ cap.
Proof.
  intros Hc Hg. unfold oom_guard in Hg. rewrite Hc in Hg. cbn [mbind res_bind] in Hg.
  destruct (Z.ltb_spec cap n); [by simplify_eq|done].
Qed.

(** What a server or client that starts has passed. *)
Lemma main_server_udp p E args udp len cpus b l c :
  main_server p E args udp len cpus = Ok (UdpServer b l c) →
  l = len ∧ ∃ n, arith p 64 (64 * Z.max len 2048) = Ok n ∧ oom_guard p (env_meminfo E) n = Ok None.
Proof.
  unfold main_server. repeat (case_match; try done). intros Hm.
  apply res_bind_inv in Hm as (n & Hn & Hm). apply res_bind_inv in Hm as (ok & Ho & Hm).
  destruct ok; simplify_eq. split; [done|]. by exists n.
Qed.

Lemma main_client_planned p E args udp len cpus a :
  main_client p E args udp len cpus = Ok a →
  match a with
  | UdpClient _ threads _ l _ _ _ => l = len ∧ ∃ x n, arith p 64 (threads * 64) = Ok x
      ∧ arith p 64 (x * len) = Ok n ∧ oom_guard p (env_meminfo E) n = Ok None
  | TcpClient _ threads _ _ _ => ∃ x n, arith p 64 (threads * 256) = Ok x
      ∧ arith p 64 (x * 1024) = Ok n ∧ oom_guard p (env_meminfo E) n = Ok None
  | UdpServer _ _ _ | TcpServer _ _ | XdpSink _ _ _ => False
  | _ => True
  end.
Proof.
  unfold main_client. destruct (flag args _); [|by intros [= <-]].
  destruct (has args (lit "--xdp")).
  { destruct (flag args (lit "--iface")); [|by intros [= <-]].
    destruct (parse_socket_addr_v4 _) as [[? ?]|]; by intros [= <-]. }
  intros H. apply res_bind_inv in H as (n & Hn & H). apply res_bind_inv in H as (ok & Ho & H).
  destruct udp; apply res_bind_inv in Hn as (x & Hx & Hn);
    destruct ok; simplify_eq; try done; [split; [done|]|]; by exists x, n.
Qed.

(** The anti-OOM guard.  A UDP client that starts asks for at most the
    limit in packet buffers, and so does a TCP client, provided the product
    of threads, batch and length fits 64 bits. *)
Theorem oom_guard_bounds p E args cap :
  oom_cap p (env_meminfo E) = Ok cap →
  match main p E args with
  | Ok (UdpClient _ threads _ len _ _ _) =>
      threads * 64 * len < 2 ^ 64 → threads * 64 < 2 ^ 64 → 0 ≤ threads → 0 ≤ len →
      threads * 64 * len ≤ cap
  | Ok (TcpClient _ threads _ _ _) =>
      threads * 256 * 1024 < 2 ^ 64 → 0 ≤ threads → threads * 256 * 1024 ≤ cap
  | Ok (UdpServer _ len _) => 64 * Z.max len 2048 < 2 ^ 64 → 64 * Z.max len 2048 ≤ cap
  | _ => True
  end.
Proof.
  intros Hc. unfold main. destruct args as [|mode args']; [done|].
  destruct (_ || _); [done|]. destruct (_ || _); [done|]. cbn zeta.
  set (args := mode :: args'). case_bool_decide; [|case_bool_decide; [|done]].
  - destruct (main_server _ _ _ _ _ _) as [[]| |] eqn:Em; try done.
    + apply main_server_udp in Em as (-> & n & Hn & Hg). intros Hlt.
      rewrite arith_fits in Hn by (split; lia). simplify_eq. by eapply oom_guard_passes.
    + exfalso. revert Em. unfold main_server. repeat (case_match; try done). intros H'.
      apply res_bind_inv in H' as (? & _ & H'). by apply res_bind_inv in H' as ([] & _ & ?).
    + exfalso. revert Em. unfold main_server. repeat (case_match; try done). intros H'.
      apply res_bind_inv in H' as (? & _ & H'). by apply res_bind_inv in H' as ([] & _ & ?).
  - destruct (main_client _ _ _ _ _ _) as [a| |] eqn:Em; try done.
    apply main_client_planned in Em. destruct a; try done.
    + destruct Em as (-> & x & n & Hx & Hn & Hg). intros H1 H2 H3 H4.
      rewrite (arith_fits p 64 (threads * 64)) in Hx by (split; lia). simplify_eq.
      rewrite (arith_fits p 64) in Hn by (split; nia). simplify_eq. by eapply oom_guard_passes.
    + destruct Em as (x & n & Hx & Hn & Hg). intros H1 H2.
      rewrite (arith_fits p 64 (threads * 256)) in Hx by (split; lia). simplify_eq.
      rewrite (arith_fits p 64) in Hn by (split; lia). simplify_eq. by eapply oom_guard_passes.
Qed.

Lemma oom_guard_bounds_witness :
  match main Debug demo_environment
    (lit <$> ["client"; "--connect"; "h:1"; "--udp"; "--threads"; "8"]) with
  | Ok (UdpClient _ threads _ len _ _ _) => threads * 64 * len ≤ 2 ^ 30
  | _ => False
  end.
Proof.
  pose proof (oom_guard_bounds Debug demo_environment
    (lit <$> ["client"; "--connect"; "h:1"; "--udp"; "--threads"; "8"]) (2 ^ 30) eq_refl) as H.
  vm_compute in H. vm_compute. apply H; first [reflexivity | discriminate].
Defined.

(** The guard computes its product modulo [2^64] in the release
    profile: with 2^58 threads the planned size wraps to zero and the
    client starts, while the debug profile panics in the guard's own
    arithmetic; and a length of zero is not raised to the 16-byte minimum
    the buffers have, so any number of threads passes. *)
Theorem oom_guard_bypassed :
  let args n l := lit <$> ["client"; "--connect"; "h:1"; "--udp"; "--threads"; n; "--len"; l] in
  main Release demo_environment (args "288230376151711744" "1400")
    = Ok (UdpClient (lit "h:1") (2 ^ 58) 10 1400 0 [0] false)
  ∧ main Debug demo_environment (args "288230376151711744" "1400") = Panic
  ∧ main Debug demo_environment (args "1000000000" "0")
    = Ok (UdpClient (lit "h:1") 1000000000 10 0 0 [0] false).
Proof. vm_compute. split_and!; reflexivity. Qed.

(** *** The whole run *)

(** Actions for which an engine starts. *)
Definition starts (a : action) : bool :=
  match a with Usage _ | Version | Exit _ => false | _ => true end.

(** An equivalence of two finite descriptions. *)
Local Ltac outcome_iff :=
  split;
  [intros E; first [discriminate E | left; reflexivity | solve [left; eauto] | solve [right; eauto 8] | eauto]
  |intros E; decompose [or and ex] E; first [reflexivity | discriminate]].

(** Which status stands for what, and that a process that fails says why,
    and only there. *)
Lemma finish_status p ver a r pr : finish p ver a r = Ok pr →
  (status pr = 0 ↔ a = Version ∨ starts a = true ∧ ∃ b q d ns, r = Finished b q d ns)
  ∧ (status pr = 1 ↔ (∃ e, a = Exit e) ∨ starts a = true ∧ ∃ m, r = Failed m)
  ∧ (status pr = 2 ↔ ∃ e, a = Usage e)
  ∧ (status pr ≠ 0 → out pr = [])
  ∧ (∀ m, starts a = true → r = Failed m → ∃ before label, err pr = before ++ [label ++ m])
  ∧ (∀ e, a = Exit e → err pr = e) ∧ (∀ e, a = Usage e → err pr = e ++ usage ver)
  ∧ (starts a = false → ∀ r', finish p ver a r' = Ok pr).
Proof.
  assert (∀ x y : process, Ok x = Ok y → x = y) as Hok by congruence.
  intros H. destruct a, r; cbn [finish starts] in *;
    try (apply res_bind_inv in H as (line & Hline & H)); apply Hok in H as <-; cbn [status out err];
    (split; [outcome_iff|]); (split; [outcome_iff|]); (split; [outcome_iff|]);
    (split; [intros E; first [reflexivity | by destruct E]|]);
    (split; [intros m E1 E2; first [discriminate E1 | discriminate E2
                                   |injection E2 as <-; first [eexists [], _; reflexivity | eexists _, _; reflexivity]]|]);
    (split; [intros e' E; first [discriminate E | by injection E as <-]|]);
    (split; [intros e' E; first [discriminate E | by injection E as <-]|]);
    intros E; first [discriminate E | intros r'; reflexivity].
Qed.

Lemma main_server_exit p E args udp len cpus e :
  main_server p E args udp len cpus = Ok (Exit e) → e ≠ [].
Proof.
  unfold main_server. destruct (has args (lit "--xdp")); [|destruct udp].
  - destruct (feature_xdp E); [by destruct (flag args _)|]. by intros [= <-].
  - intros H. apply res_bind_inv in H as (n & _ & H). apply res_bind_inv in H as (ok & _ & H).
    destruct ok; by simplify_eq/=.
  - done.
Qed.

Lemma main_client_exit p E args udp len cpus e :
  main_client p E args udp len cpus = Ok (Exit e) → e ≠ [].
Proof.
  unfold main_client. destruct (flag args (lit "--connect")); [|done].
  destruct (has args (lit "--xdp")).
  - destruct (flag args (lit "--iface")); [|done].
    destruct (parse_socket_addr_v4 _) as [[? ?]|]; [done|]. by intros [= <-].
  - intros H. apply res_bind_inv in H as (n & _ & H). apply res_bind_inv in H as (ok & _ & H).
    destruct ok as [m|]; [|by destruct udp]. simplify_eq. intros E'. by apply app_eq_nil in E' as [_ ?].
Qed.

Lemma main_exit p E args e : main p E args = Ok (Exit e) → e ≠ [].
Proof.
  unfold main. destruct args as [|mode args]; [done|]. destruct (_ || _); [done|]. destruct (_ || _); [done|].
  cbv zeta. case_bool_decide; [apply main_server_exit|]. case_bool_decide; [apply main_client_exit|done].
Qed.

(** C34: exit statuses.  A run that does not panic ends with status 0, 1 or
    2.  The status is 0 exactly when the version was asked for or an engine
    finished, 1 exactly when the arguments or the memory guard were refused
    or an engine failed, and 2 exactly when the usage text was.  A script that
    reads standard output after status 0 never reads half an error: with any
    other status nothing is there, and standard error has the reason, for a
    failed engine its own text on the last line.  Without an engine the run
    does not depend on what one would have done. *)
Theorem run_status p E ver c args engine pr :
  run p E ver c args engine = Ok pr →
  ∃ a, main p E args = Ok a
  ∧ (status pr = 0 ∨ status pr = 1 ∨ status pr = 2)
  ∧ (status pr = 0 ↔ a = Version ∨ starts a = true ∧ ∃ b q d ns, engine a = Finished b q d ns)
  ∧ (status pr = 1 ↔ (∃ e, a = Exit e) ∨ starts a = true ∧ ∃ m, engine a = Failed m)
  ∧ (status pr = 2 ↔ ∃ e, a = Usage e)
  ∧ (status pr ≠ 0 → out pr = [])
  ∧ (∀ m, starts a = true → engine a = Failed m → ∃ before label, err pr = before ++ [label ++ m])
  ∧ (∀ e, a = Exit e → err pr = banner c args ++ e ∧ e ≠ [])
  ∧ (∀ e, a = Usage e → err pr = banner c args ++ e ++ usage ver)
  ∧ (starts a = false → ∀ engine', run p E ver c args engine' = Ok pr).
Proof.
  unfold run. intros H. apply res_bind_inv in H as (a & Ha & H). apply res_bind_inv in H as (pr' & Hf & H).
  injection H as <-. exists a. split; [exact Ha|]. rewrite Ha. cbn [mbind res_bind status out err].
  destruct (finish_status p ver a (engine a) pr' Hf) as (H0 & H1 & H2 & Hout & Hm & He & Hu & Hs).
  split_and!; try assumption.
  - destruct a; try (right; right; apply H2; by eauto); try (left; apply H0; by left);
      try (right; left; apply H1; left; by eauto);
      (match type of Hf with finish _ _ ?a _ = _ => destruct (engine a) as [b q d ns|m] end;
       [left; apply H0; right; by eauto 6|right; left; apply H1; right; by eauto]).
  - intros m E1 E2. destruct (Hm m E1 E2) as (before & label & ->). exists (banner c args ++ before), label. by rewrite app_assoc.
  - intros e ->. rewrite (He e eq_refl). split; [done|]. by eapply main_exit.
  - intros e ->. by rewrite (Hu e eq_refl).
  - intros E1 engine'. by rewrite (Hs E1 (engine' a)).
Qed.

Definition demo_cpu : cpu := Cpu true true true false.

(** A client without a destination. *)
Definition no_destination : list str := lit <$> ["client"; "--udp"].

Definition no_destination_process : process :=
  Process [] (banner demo_cpu no_destination ++ [lit "error: client needs --connect HOST:PORT"] ++ usage (lit "0.3.1")) 2.

(** A client without a destination, and one whose engine fails. *)
Lemma run_status_witness :
  run Debug demo_environment (lit "0.3.1") demo_cpu no_destination (λ _, Finished 1 1 0 1) = Ok no_destination_process
  ∧ ∃ pr, run Debug demo_environment (lit "0.3.1") demo_cpu (lit <$> ["client"; "--connect"; "10.0.0.9:5201"; "--udp"])
      (λ _, Failed (lit "no route")) = Ok pr
    ∧ status pr = 1 ∧ out pr = [] ∧ ∃ before label, err pr = before ++ [label ++ lit "no route"].
Proof.
  split.
  - assert (run Debug demo_environment (lit "0.3.1") demo_cpu no_destination (λ _, Failed []) = Ok no_destination_process)
      as E by (vm_compute; reflexivity).
    destruct (run_status Debug demo_environment (lit "0.3.1") demo_cpu no_destination (λ _, Failed []) _ E)
      as (a & Ha & _ & _ & _ & _ & _ & _ & _ & _ & H).
    vm_compute in Ha. injection Ha as <-. exact (H eq_refl (λ _, Finished 1 1 0 1)).
  - eexists. assert (∀ pr, run Debug demo_environment (lit "0.3.1") demo_cpu
      (lit <$> ["client"; "--connect"; "10.0.0.9:5201"; "--udp"]) (λ _, Failed (lit "no route")) = Ok pr →
      status pr = 1 ∧ out pr = [] ∧ ∃ before label, err pr = before ++ [label ++ lit "no route"]) as Hr.
    { intros pr E. destruct (run_status Debug demo_environment (lit "0.3.1") demo_cpu _ (λ _, Failed (lit "no route")) _ E)
        as (a & Ha & _ & _ & H1 & _ & Hout & Hm & _). vm_compute in Ha. injection Ha as <-.
      assert (status pr = 1) as Hs by (apply H1; right; split; [reflexivity|by eexists]).
      split; [exact Hs|]. split; [apply Hout; by rewrite Hs|]. by apply Hm. }
    split; [|apply Hr]; vm_compute; reflexivity.
Defined.

Lemma main_server_json p E args udp len cpus a :
  main_server p E args udp len cpus = Ok a →
  match a with UdpClient _ _ _ _ _ _ _ | TcpClient _ _ _ _ _ => False | _ => True end.
Proof.
  unfold main_server. destruct (has args (lit "--xdp")); [|destruct udp].
  - destruct (feature_xdp E); [destruct (flag args _)|]; by intros [= <-].
  - intros H. apply res_bind_inv in H as (n & _ & H). apply res_bind_inv in H as (ok & _ & H).
    destruct ok; by simplify_eq/=.
  - by intros [= <-].
Qed.

(** The protocol and the format are those of the flags. *)
Lemma main_client_json p E args udp len cpus a :
  main_client p E args udp len cpus = Ok a →
  match a with
  | UdpClient _ _ _ _ _ _ json => udp = true ∧ json = has args (lit "--json")
  | TcpClient _ _ _ _ json => udp = false ∧ json = has args (lit "--json")
  | _ => True
  end.
Proof.
  unfold main_client. destruct (flag args (lit "--connect")); [|by intros [= <-]].
  destruct (has args (lit "--xdp")).
  - destruct (flag args (lit "--iface")); [|by intros [= <-]].
    destruct (parse_socket_addr_v4 _) as [[? ?]|]; by intros [= <-].
  - intros H. apply res_bind_inv in H as (n & _ & H). apply res_bind_inv in H as (ok & _ & H).
    destruct ok; [|destruct udp]; by simplify_eq/=.
Qed.

Lemma main_json p E args a : main p E args = Ok a →
  match a with
  | UdpClient _ _ _ _ _ _ json => has args (lit "--udp") = true ∧ json = has args (lit "--json")
  | TcpClient _ _ _ _ json => has args (lit "--udp") = false ∧ json = has args (lit "--json")
  | _ => True
  end.
Proof.
  unfold main. destruct args as [|mode args]; [by intros [= <-]|].
  destruct (_ || _); [by intros [= <-]|]. destruct (_ || _); [by intros [= <-]|].
  cbv zeta. case_bool_decide.
  - intros Hm. apply main_server_json in Hm. by destruct a.
  - case_bool_decide; [|by intros [= <-]]. apply main_client_json.
Qed.

(** The engine an action starts is one of the two socket clients. *)
Definition is_client (a : action) : bool :=
  match a with UdpClient _ _ _ _ _ _ _ | TcpClient _ _ _ _ _ => true | _ => false end.

(** What the loopback tests rely on.  When the arguments start a
    client with [--json] and its engine returns [b] bytes and [q] packets
    after [ns] nanoseconds, the process exits with status 0, and the test's
    [field], applied to the trimmed standard output, finds exactly those
    numbers (the packets of a UDP run only), whatever the time and the
    rates printed between them. *)
Theorem json_run_reads_back p E ver c args engine a b q d ns :
  main p E args = Ok a → is_client a = true → has args (lit "--json") = true →
  engine a = Finished b q d ns → is_u64 b → is_u64 q →
  ∃ pr, run p E ver c args engine = Ok pr ∧ status pr = 0
  ∧ field (trim (unlines (out pr))) (lit "bytes") = Ok b
  ∧ (has args (lit "--udp") = true → field (trim (unlines (out pr))) (lit "packets") = Ok q).
Proof.
  intros Hm Hc Hj He Hb Hq. pose proof (main_json p E args a Hm) as Ha.
  unfold run. rewrite Hm. cbn [mbind res_bind]. rewrite He.
  destruct a; try done; destruct Ha as [Hu ->]; rewrite Hj; cbn [finish mbind res_bind];
    (eexists; split; [reflexivity|]); cbn [out status].
  - destruct (json_summary_fields (mkSummary b q (as_secs_f64 ns)) Hb Hq) as (H1 & H2 & _). done.
  - destruct (json_summary_fields (mkSummary b 0 (as_secs_f64 ns)) Hb) as (_ & _ & H3); [done|].
    split; [done|]. split; [done|]. by rewrite Hu.
Qed.

(** The arguments of the UDP loopback test. *)
Definition loopback_args : list str :=
  lit <$> ["client"; "--connect"; "127.0.0.1:53111"; "--duration"; "1"; "--cpus"; "0"; "--json"; "--udp"].

Lemma json_run_reads_back_witness :
  ∃ pr, run Debug demo_environment (lit "0.3.1") demo_cpu loopback_args (λ _, Finished 89600 64 0 1000054321) = Ok pr
  ∧ field (trim (unlines (out pr))) (lit "packets") = Ok 64.
Proof.
  assert (is_u64 89600 ∧ is_u64 64) as [Hb Hq] by (apply (bool_decide_unpack _); vm_compute; exact I).
  assert (main Debug demo_environment loopback_args
    = Ok (UdpClient (lit "127.0.0.1:53111") 1 1 1400 0 [0] true)) as Hm by (vm_compute; reflexivity).
  destruct (json_run_reads_back Debug demo_environment (lit "0.3.1") demo_cpu loopback_args
    (λ _, Finished 89600 64 0 1000054321) _ 89600 64 0 1000054321 Hm eq_refl
    ltac:(vm_compute; reflexivity) eq_refl Hb Hq) as (pr & H & _ & _ & Hp).
  exists pr. split; [exact H|]. apply Hp. vm_compute. reflexivity.
Defined.
