(* ===== verification/Program.v ===== *)
(** * A whole client process ([src/main.rs], [src/net.rs])

    From the command line to the exit status: [main] reads the arguments
    ([Cli]), a client's threads run under any schedule ([Engine],
    [Threads]), the main thread reads its totals and prints them
    ([Report]).  The step relation below joins these; the theorems say what a
    user who reads the output can rely on. *)

From S2P Require Import Prelude Strs Affinity Simd Loss Net Threads Engine Float Report Cli.

(** ** The process *)

(** What a client's threads meet, by destination: the clock when the
    deadline is computed, and what the operating system answers each
    thread. *)
Record world : Type := World {
  wo_now : Z;
  wo_udp : str → Z → udp_env;
  wo_tcp : str → Z → option (list (Z * io_result));
}.

Inductive state : Type :=
| Starting
| Running (a : action) (udp : bool) (e : engine)
| Ended (pr : process)
| Panicked.

(** Actions without an engine. *)
Definition immediate (a : action) : bool :=
  match a with Usage _ | Version | Exit _ => true | _ => false end.

Section process.
Context {L : CpuSets} (p : profile) (E : env) (ver : str) (c : cpu) (args : list str) (W : world).

(** The threads a client action starts, and whether the reporter prints
    packets. *)
Definition client_engine (a : action) : option (bool * res (list worker)) :=
  match a with
  | UdpClient connect threads duration len target_pps cpus _ =>
      Some (true, udp_client p cpus threads duration len target_pps (wo_now W) (wo_udp W connect))
  | TcpClient connect threads duration cpus _ =>
      Some (false, tcp_client p cpus threads duration (wo_now W) (wo_tcp W connect))
  | _ => None
  end.

(** The start-up line comes first. *)
Definition conclude (pr : process) : process :=
  Process (out pr) (banner c args ++ err pr) (status pr).

(** The steps of the process.  A panic of the main thread or of a client's
    thread ends it ([panic = "abort"] of the release build; a development
    build goes on after the panic of a thread); the time printed is whatever
    the clock says at the end.  The servers' and the AF_XDP engines are not
    started here. *)
Inductive proc_step : state → state → Prop :=
| p_panic : main p E args = Panic → proc_step Starting Panicked
| p_exit a pr : main p E args = Ok a → immediate a = true → finish p ver a (Failed []) = Ok pr →
    proc_step Starting (Ended (conclude pr))
| p_start a udp ws : main p E args = Ok a → client_engine a = Some (udp, Ok ws) →
    proc_step Starting (Running a udp (engine_init (w_atoms <$> ws)))
| p_start_panic a udp : main p E args = Ok a → client_engine a = Some (udp, Panic) →
    proc_step Starting Panicked
| p_run a udp e e' : step p udp e e' → proc_step (Running a udp e) (Running a udp e')
| p_end a udp e b q ns pr : e_main e = MDone b q → finish p ver a (Finished b q 0 ns) = Ok pr →
    proc_step (Running a udp e) (Ended (conclude pr)).

(** ** Lemmas *)

Lemma main_client_engine a udp r :
  client_engine a = Some (udp, r) → is_client a = true.
Proof. by destruct a. Qed.

(** A client that has its totals can print them. *)
Lemma client_finish a b q ns : is_client a = true → ∃ pr, finish p ver a (Finished b q 0 ns) = Ok pr.
Proof. destruct a; try done; by eexists. Qed.

(** What ends a process is a run of [Cli]. *)
Lemma conclude_run a r pr : main p E args = Ok a → finish p ver a r = Ok pr →
  run p E ver c args (λ _, r) = Ok (conclude pr).
Proof. intros Hm Hf. unfold run. rewrite Hm. cbn [mbind res_bind]. by rewrite Hf. Qed.

Section client.
Context (a : action) (udp : bool) (ws : list worker).
Context (Hmain : main p E args = Ok a) (Hengine : client_engine a = Some (udp, Ok ws)).

(** Where a client can be. *)
Definition client_state (s : state) : Prop :=
  match s with
  | Starting => True
  | Running a' udp' e => a' = a ∧ udp' = udp ∧ rtc (step p udp) (engine_init (w_atoms <$> ws)) e
  | Ended pr => ∃ e b q ns pr', rtc (step p udp) (engine_init (w_atoms <$> ws)) e ∧ e_main e = MDone b q
      ∧ finish p ver a (Finished b q 0 ns) = Ok pr' ∧ pr = conclude pr'
  | Panicked => False
  end.

Lemma client_state_step s s' : proc_step s s' → client_state s → client_state s'.
Proof.
  intros Hs Hi. destruct Hs as [Hm|a' pr Hm Hx _|a' udp' ws' Hm He|a' udp' Hm He|a' udp' e e' He|a' udp' e b q ns pr Hd Hf];
    try (assert (a' = a) as -> by congruence).
  - congruence.
  - by destruct a.
  - assert (udp' = udp ∧ ws' = ws) as [-> ->] by (split; congruence). split_and!; [done..|apply rtc_refl].
  - congruence.
  - destruct Hi as (-> & -> & Hr). split_and!; [done..|]. by eapply rtc_r.
  - destruct Hi as (-> & -> & Hr). by exists e, b, q, ns, pr.
Qed.

Lemma client_state_run s : rtc proc_step Starting s → client_state s.
Proof.
  revert s. refine (rtc_ind_r client_state _ _ _); [done|]. intros s s' _ Hs IH. by eapply client_state_step.
Qed.

Lemma running_steps e e' : rtc (step p udp) e e' → rtc proc_step (Running a udp e) (Running a udp e').
Proof. induction 1 as [|e e' e'' H1 _ IH]; [done|]. eapply rtc_l; [by apply p_run|done]. Qed.

(** A client can always come to its end. *)
Lemma running_ends e : rtc (step p udp) (engine_init (w_atoms <$> ws)) e →
  ∃ pr, rtc proc_step (Running a udp e) (Ended pr).
Proof.
  intros Hr. destruct (can_finish p udp e (flag_inv_run p udp _ e Hr)) as (e' & b & q & Hr' & Hd).
  destruct (client_finish a b q 1 (main_client_engine a _ _ Hengine)) as [pr Hpr].
  exists (conclude pr). eapply rtc_r; [by apply running_steps|]. by eapply p_end.
Qed.

Lemma client_ends s : rtc proc_step Starting s → ∃ pr, rtc proc_step s (Ended pr).
Proof.
  intros Hs. pose proof (client_state_run s Hs) as Hi. destruct s as [|a' udp' e|pr|]; cbn in Hi; [..|done].
  - destruct (running_ends (engine_init (w_atoms <$> ws))) as [pr Hpr]; [apply rtc_refl|].
    exists pr. eapply rtc_l; [by eapply p_start|done].
  - destruct Hi as (-> & -> & Hr). by apply running_ends.
  - by exists pr.
Qed.

(** What it prints with [--json]. *)
Lemma client_output pr : rtc proc_step Starting (Ended pr) →
  status pr = 0 ∧
  (has args (lit "--json") = true →
     field (trim (unlines (out pr))) (lit "bytes") = Ok (wrap 64 (total b_of (w_atoms <$> ws)))
     ∧ (has args (lit "--udp") = true → udp = true →
        field (trim (unlines (out pr))) (lit "packets") = Ok (wrap 64 (total p_of (w_atoms <$> ws))))).
Proof.
  intros Hs. destruct (client_state_run _ Hs) as (e & b & q & ns & pr' & Hr & Hd & Hf & ->).
  pose proof (main_client_engine a _ _ Hengine) as Hc.
  split; [destruct a; try done; cbn [finish] in Hf; by simplify_eq|]. intros Hj.
  destruct (summary_totals p udp _ e b q Hr Hd) as [-> ->].
  destruct (json_run_reads_back p E ver c args (λ _, Finished (wrap 64 (total b_of (w_atoms <$> ws)))
    (if udp then wrap 64 (total p_of (w_atoms <$> ws)) else 0) 0 ns) a _ _ 0 ns Hmain Hc Hj eq_refl) as (pr & Hrun & _ & H1 & H2).
  - by apply wrap_fits.
  - destruct udp; [by apply wrap_fits|]. split; [done|vm_compute; done].
  - rewrite (conclude_run a _ pr' Hmain Hf) in Hrun. simplify_eq. split; [done|]. intros Hu ->. by apply H2.
Qed.
End client.
End process.

(** A UDP client, from its arguments to its end. *)
Lemma udp_process_run {L : CpuSets} `{!CpuSetsOk L} p E ver c args W connect threads duration len target cpus json :
  main p E args = Ok (UdpClient connect threads duration len target cpus json) →
  64 * Z.max len HDR < 2 ^ 64 → (∀ t, client_env_ok (wo_udp W connect t)) →
  wo_now W + duration * SEC < 2 ^ 63 * SEC → target = 0 ∨ threads ≠ 0 → cpus_fit cpus →
  ∃ ws, udp_client p cpus threads duration len target (wo_now W) (wo_udp W connect) = Ok ws ∧
  let sent := zlen (concat (w_wire <$> ws)) in
  ∀ s, rtc (proc_step p E ver c args W) Starting s →
    s ≠ Panicked
    ∧ (∃ pr, rtc (proc_step p E ver c args W) s (Ended pr))
    ∧ ∀ pr, s = Ended pr → status pr = 0 ∧
        (json = true →
         field (trim (unlines (out pr))) (lit "packets") = Ok (wrap 64 sent)
         ∧ field (trim (unlines (out pr))) (lit "bytes") = Ok (wrap 64 (sent * Z.max len HDR))).
Proof.
  intros Hm Hml Henv Hclk Hth Hfit. pose proof (main_json p E args _ Hm) as [Hu Hj].
  assert (∃ pps, pps_per_thread target threads = Ok pps) as [pps Hpps].
  { unfold pps_per_thread. destruct (Z.eqb_spec target 0); [by eexists|].
    destruct (Z.eqb_spec threads 0); [by destruct Hth|by eexists]. }
  destruct (udp_client_starts p cpus threads len pps (wo_now W + duration * SEC) (wo_udp W connect) Hml Henv)
    as [[ws Hws]|[_ []]]; [|done].
  destruct (udp_client_threads p cpus threads len pps (wo_now W + duration * SEC) (wo_udp W connect) ws Hml Henv Hws)
    as (_ & _ & Hp & Hb & _).
  assert (udp_client p cpus threads duration len target (wo_now W) (wo_udp W connect) = Ok ws) as Hc.
  { unfold udp_client, instant_add. rewrite (proj2 (Z.ltb_lt _ _) Hclk). cbn [mbind res_bind].
    rewrite Hpps. cbn [mbind res_bind]. exact Hws. }
  exists ws. split; [done|]. intros sent s Hs.
  assert (client_engine p W (UdpClient connect threads duration len target cpus json) = Some (true, Ok ws)) as He
    by (cbn [client_engine]; by rewrite Hc).
  split_and!.
  - pose proof (client_state_run p E ver c args W _ _ _ Hm He s Hs) as Hi. by intros ->.
  - by eapply client_ends.
  - intros pr ->. destruct (client_output p E ver c args W _ _ _ Hm He pr Hs) as [H1 H2]. split; [done|].
    intros ->. destruct (H2 (eq_sym Hj)) as [H3 H4]. rewrite Hp in H4. rewrite Hb in H3. split; [by apply H4|done].
Qed.

(** What it prints. *)
Lemma udp_process_output {L : CpuSets} `{!CpuSetsOk L} p E ver c args W connect threads duration len target cpus json :
  main p E args = Ok (UdpClient connect threads duration len target cpus json) →
  64 * Z.max len HDR < 2 ^ 64 → (∀ t, client_env_ok (wo_udp W connect t)) →
  wo_now W + duration * SEC < 2 ^ 63 * SEC → target = 0 ∨ threads ≠ 0 → cpus_fit cpus →
  ∃ ws, udp_client p cpus threads duration len target (wo_now W) (wo_udp W connect) = Ok ws ∧
  let sent := zlen (concat (w_wire <$> ws)) in
  ∀ pr, rtc (proc_step p E ver c args W) Starting (Ended pr) → status pr = 0 ∧
    (json = true →
     field (trim (unlines (out pr))) (lit "packets") = Ok (wrap 64 sent)
     ∧ field (trim (unlines (out pr))) (lit "bytes") = Ok (wrap 64 (sent * Z.max len HDR))).
Proof.
  intros Hm Hml Henv Hclk Hth Hfit.
  destruct (udp_process_run p E ver c args W connect threads duration len target cpus json Hm Hml Henv Hclk Hth Hfit)
    as (ws & Hws & H). exists ws. split; [done|]. intros sent pr Hs. destruct (H _ Hs) as (_ & _ & Ho). by apply Ho.
Qed.

(** ** Properties *)


(** C36: The bound on the CPUs is needed: with one beyond it for a thread,
    whatever the other arguments and the sockets are, the client of a release
    build can end in nothing but a panic, without a summary. *)
Theorem large_cpu_panics {L : CpuSets} `{!CpuSetsOk L} E ver c args W connect threads duration len target cpus json t cpu :
  main Release E args = Ok (UdpClient connect threads duration len target cpus json) →
  64 * Z.max len HDR < 2 ^ 64 → (∀ t, client_env_ok (wo_udp W connect t)) →
  0 ≤ t < threads → pin_target cpus t = Some cpu → CPU_SETSIZE ≤ cpu →
  rtc (proc_step Release E ver c args W) Starting Panicked
  ∧ ∀ s, rtc (proc_step Release E ver c args W) Starting s → s = Starting ∨ s = Panicked.
Proof.
  intros Hm Hml Henv Ht Hc Hcpu.
  assert (udp_client Release cpus threads duration len target (wo_now W) (wo_udp W connect) = Panic) as Hpanic.
  { unfold udp_client, instant_add. destruct (_ <? _); [|done]. cbn [mbind res_bind].
    unfold pps_per_thread. destruct (target =? 0); [|destruct (threads =? 0); [done|]]; cbn [mbind res_bind];
      (eapply udp_client_pin_panics; [exact Hml|exact Henv|exact Ht|exact Hc|exact Hcpu]). }
  assert (client_engine Release W (UdpClient connect threads duration len target cpus json) = Some (true, Panic)) as He
    by (cbn [client_engine]; by rewrite Hpanic).
  split; [eapply rtc_once, p_start_panic; [exact Hm|exact He]|].
  refine (rtc_ind_r (λ s, s = Starting ∨ s = Panicked) _ _ _); [by left|].
  intros s s' _ Hs [-> | ->]; [|inversion Hs].
  inversion Hs as [|a pr Hm' Hx|a udp ws Hm' He'|a udp Hm' He'| |]; subst; try (by right);
    assert (a = UdpClient connect threads duration len target cpus json) as -> by congruence; [done|congruence].
Qed.

(** What [runperf client] tells its user: the same over TCP, where the bytes
    are those the connections took. *)
Theorem tcp_process {L : CpuSets} p E ver c args W connect threads duration cpus json ws :
  main p E args = Ok (TcpClient connect threads duration cpus json) →
  tcp_client p cpus threads duration (wo_now W) (wo_tcp W connect) = Ok ws →
  (∀ t, conn_ok (wo_tcp W connect t)) →
  ∀ s, rtc (proc_step p E ver c args W) Starting s →
    s ≠ Panicked
    ∧ (∃ pr, rtc (proc_step p E ver c args W) s (Ended pr))
    ∧ ∀ pr, s = Ended pr → status pr = 0 ∧
        (json = true → field (trim (unlines (out pr))) (lit "bytes")
          = Ok (wrap 64 (zlen (concat (sent_stream <$> ws))))).
Proof.
  intros Hm Hc Hok s Hs. pose proof (main_json p E args _ Hm) as [Hu Hj].
  assert (client_engine p W (TcpClient connect threads duration cpus json) = Some (false, Ok ws)) as He
    by (cbn [client_engine]; by rewrite Hc).
  split_and!.
  - pose proof (client_state_run p E ver c args W _ _ _ Hm He s Hs) as Hi. by intros ->.
  - by eapply client_ends.
  - intros pr ->. destruct (client_output p E ver c args W _ _ _ Hm He pr Hs) as [H1 H2]. split; [done|].
    intros ->. destruct (H2 (eq_sym Hj)) as [H3 _]. rewrite H3. do 2 f_equal.
    rewrite zlen_concat. by eapply tcp_client_bytes.
Qed.

(** One batch to whatever address. *)
Definition demo_world : world :=
  World 0 (λ _ _, UdpEnv true true 0 [SendEnv 1 64 2 2; SendEnv SEC 64 0 0])
    (λ _ _, Some [(1, IoOk 4096); (2, IoOk 100)]).


(** The arguments of the TCP loopback test. *)
Definition tcp_loopback_args : list str :=
  lit <$> ["client"; "--connect"; "127.0.0.1:53112"; "--duration"; "1"; "--cpus"; "0"; "--json"].

Lemma demo_world_conn_ok addr t : conn_ok (wo_tcp demo_world addr t).
Proof.
  cbn [demo_world wo_tcp conn_ok]. repeat (apply Forall_cons_2;
    [unfold write_ok; cbn [snd]; rewrite length_tcp_buf; lia|]). apply Forall_nil_2.
Qed.

Lemma demo_world_sent : ∃ ws, tcp_client (L:=bit_sets 4) Debug [0] 1 1 0 (wo_tcp demo_world (lit "127.0.0.1:53112")) = Ok ws
  ∧ sent_stream <$> ws = [ab 4196].
Proof.
  unfold tcp_client, instant_add, tcp_client_body. rewrite (proj2 (Z.ltb_lt _ _)) by (unfold SEC; lia).
  cbn [mbind res_bind]. change (seqZ 0 1) with [0].
  eexists. split; [reflexivity|]. unfold sent_stream.
  cbn -[take tcp_buf ab]. rewrite !tcp_buf_take by lia.
  change (1 <? 0 + 1 * SEC) with true. change (2 <? 0 + 1 * SEC) with true. cbn [concat].
  unfold ab. rewrite app_nil_r, <- replicate_add. reflexivity.
Qed.

Lemma tcp_process_witness :
  ∃ pr, rtc (proc_step (L:=bit_sets 4) Debug demo_environment (lit "0.3.1") demo_cpu tcp_loopback_args demo_world) Starting (Ended pr)
  ∧ status pr = 0 ∧ field (trim (unlines (out pr))) (lit "bytes") = Ok 4196.
Proof.
  destruct demo_world_sent as (ws & Hws & Hsent).
  pose proof (@tcp_process (bit_sets 4) Debug demo_environment (lit "0.3.1") demo_cpu tcp_loopback_args demo_world
    (lit "127.0.0.1:53112") 1 1 [0] true ws ltac:(vm_compute; reflexivity) Hws (demo_world_conn_ok _)) as H.
  rewrite Hsent in H.
  destruct (H Starting (rtc_refl _ _)) as (_ & (pr & Hpr) & _). destruct (H _ Hpr) as (_ & _ & Hout).
  destruct (Hout pr eq_refl) as (Hs & Hj). exists pr. split; [exact Hpr|]. split; [exact Hs|].
  rewrite (Hj eq_refl). vm_compute. reflexivity.
Defined.

(** [--cpus 5000]. *)
Definition large_cpu_args : list str :=
  lit <$> ["client"; "--connect"; "127.0.0.1:53111"; "--duration"; "1"; "--cpus"; "5000"; "--udp"].

Lemma large_cpu_panics_witness :
  rtc (proc_step (L:=bit_sets 4) Release demo_environment (lit "0.3.1") demo_cpu large_cpu_args demo_world) Starting Panicked.
Proof.
  destruct (@large_cpu_panics (bit_sets 4) (bit_sets_ok 4) demo_environment (lit "0.3.1") demo_cpu large_cpu_args
    demo_world (lit "127.0.0.1:53111") 1 1 1400 0 [5000] false 0 5000) as [H _].
  - vm_compute. reflexivity.
  - vm_compute. reflexivity.
  - intros t. split; apply (bool_decide_unpack _); vm_compute; exact I.
  - lia.
  - reflexivity.
  - vm_compute. discriminate.
  - exact H.
Defined.
