(* ===== verification/XdpProcess.v ===== *)
(** * A whole AF_XDP process ([src/main.rs], [src/xdp/])

    [runperf client --xdp] and [runperf server --xdp] from the command line to
    the exit status: [main] ([Cli]), the set-up of the sockets ([Blast]), the
    deadline and the threads that pin themselves ([Xdp]), the threads under any
    interleaving with each other and with the kernel ([TxSteps], [RxSteps]),
    and the summary ([Report]).  A panic anywhere, in [main], in the set-up or
    in a thread, ends the process: the release build has [panic = "abort"]. *)

From S2P Require Import Prelude Strs Affinity Sys Ring Simd Frame Loss Gen Sink Wire Net Threads Share TxSteps RxSteps.
From S2P Require Import Xdp Xsk Loader Netif Engine Blast Float Report Cli Program.

(** ** The process *)

Inductive xstate : Type :=
| XStarting
| XSending (a : action) (plan : blast_plan) (deadline : Z) (ws : list gworker) (cs : Counters)
| XReceiving (a : action) (socks : list XskSocket) (deadline : Z) (ws : list sworker) (cs : Counters)
| XEnded (pr : process)
| XPanicked.

(** The level the start-up line has left in the cell. *)
Definition level_after (c : cpu) : option SimdLevel := (log_simd_info c None).2.

(** A computation that does not return. *)
Definition crashed {A} (r : res A) : Prop := match r with Ok _ => False | Panic | Undefined => True end.

Section process.
Context {L : CpuSets} (p : profile) (E : env) (ver : str) (c : cpu) (args : list str).
(** The host, the system calls and what happened before, the embedded program,
    the text of an error, and the clock at the deadline and in the threads. *)
Context (H : host) (k : kernel) (h : history) (XDP_PROG : list Z) (text : blast_err → str).
Context (now : Z) (start : nat → Z).

Definition client_setup (iface : str) (ip : list Z) (port len target_pps : Z) (cpus : list Z) :=
  (xdp_udp_blast p k XDP_PROG H (feature_xdp E) iface ip port len target_pps cpus h).1.

Definition server_setup (iface : str) (cpus : list Z) := (xdp_udp_sink p k XDP_PROG H iface cpus h).1.

(** [xdp_udp_blast] to the point where its threads are in their loops: the
    set-up, the deadline, and the threads that pin themselves. *)
Definition client_start (iface : str) (ip : list Z) (port len duration target_pps : Z) (cpus : list Z)
    : res (result blast_err (blast_plan * Z * list gworker)) :=
  r ← client_setup iface ip port len target_pps cpus;
  match r with
  | Err e => Ok (Err e)
  | Okay plan =>
      deadline ← instant_add now duration;
      '(_, ws) ← gen_threads cpus (plan_states plan) (plan_payload_len plan) start;
      Ok (Okay (plan, deadline, ws))
  end.

(** [xdp_udp_sink]: here the deadline is computed before the sockets are
    opened, but behind the interface lookup and the loading. *)
Definition server_start (iface : str) (duration : Z) (cpus : list Z)
    : res (result blast_err (list XskSocket * Z * list sworker)) :=
  match server_setup iface cpus with
  | Ok (Err IfaceNotFound) => Ok (Err IfaceNotFound)
  | Ok (Err (LoadFailed e)) => Ok (Err (LoadFailed e))
  | r =>
      deadline ← instant_add now (Z.max duration 1);
      r ← r;
      match r with
      | Err e => Ok (Err e)
      | Okay socks =>
          '(_, ws) ← sink_threads cpus (rx_sock <$> socks);
          Ok (Okay (socks, deadline, ws))
      end
  end.

Abbreviation gen_prog plan deadline :=
  (gen_step p c (level_after c) (OUTER_HDR + plan_payload_len plan) (plan_pps plan) deadline).
Abbreviation send_step plan deadline :=
  (sys_step (gmove p c (level_after c) (OUTER_HDR + plan_payload_len plan) (plan_pps plan) deadline 11 11)).
Abbreviation receive_step deadline := (sys_step (smove p deadline 11 11)).

(** Where the engine has returned to [main], and with what: at once, from a
    set-up that failed, or behind the last join. *)
Inductive returns : xstate → action → outcome → Prop :=
| r_exit a : main p E args = Ok a → immediate a = true → returns XStarting a (Failed [])
| r_blast_err iface ip port len duration target cpus json e :
    main p E args = Ok (XdpBlast iface ip port len duration target cpus json) →
    client_start iface ip port len duration target cpus = Ok (Err e) →
    returns XStarting (XdpBlast iface ip port len duration target cpus json) (Failed (text e))
| r_sink_err iface duration cpus e :
    main p E args = Ok (XdpSink iface duration cpus) → server_start iface duration cpus = Ok (Err e) →
    returns XStarting (XdpSink iface duration cpus) (Failed (text e))
| r_sent a plan deadline ws cs ns :
    Forall (λ w, gl_pc (gw w) = GDone) ws →
    returns (XSending a plan deadline ws cs) a (Finished (bytes cs) (packets cs) 0 ns)
| r_received a socks deadline ws cs ns :
    Forall (λ w, sl_pc (sw w) = SDone) ws →
    returns (XReceiving a socks deadline ws cs) a (Finished (bytes cs) (packets cs) (drops cs) ns).

(** The steps of the process. *)
Inductive xstep : xstate → xstate → Prop :=
| x_main_crash : crashed (main p E args) → xstep XStarting XPanicked
| x_blast iface ip port len duration target cpus json plan deadline ws :
    main p E args = Ok (XdpBlast iface ip port len duration target cpus json) →
    client_start iface ip port len duration target cpus = Ok (Okay (plan, deadline, ws)) →
    xstep XStarting (XSending (XdpBlast iface ip port len duration target cpus json) plan deadline ws Counters_default)
| x_blast_crash iface ip port len duration target cpus json :
    main p E args = Ok (XdpBlast iface ip port len duration target cpus json) →
    crashed (client_start iface ip port len duration target cpus) → xstep XStarting XPanicked
| x_sink iface duration cpus socks deadline ws :
    main p E args = Ok (XdpSink iface duration cpus) →
    server_start iface duration cpus = Ok (Okay (socks, deadline, ws)) →
    xstep XStarting (XReceiving (XdpSink iface duration cpus) socks deadline ws Counters_default)
| x_sink_crash iface duration cpus :
    main p E args = Ok (XdpSink iface duration cpus) → crashed (server_start iface duration cpus) →
    xstep XStarting XPanicked
| x_send a plan deadline ws cs ws' cs' :
    send_step plan deadline (ws, cs) (ws', cs') →
    xstep (XSending a plan deadline ws cs) (XSending a plan deadline ws' cs')
| x_send_crash a plan deadline ws cs i w run t :
    ws !! i = Some w → gl_pc (gw w) ≠ GDone → crashed (gen_prog plan deadline run t (gw w)) →
    xstep (XSending a plan deadline ws cs) XPanicked
| x_receive a socks deadline ws cs ws' cs' :
    receive_step deadline (ws, cs) (ws', cs') →
    xstep (XReceiving a socks deadline ws cs) (XReceiving a socks deadline ws' cs')
| x_receive_crash a socks deadline ws cs i w run t :
    ws !! i = Some w → sl_pc (sw w) ≠ SDone → crashed (sink_step p deadline run t (sw w)) →
    xstep (XReceiving a socks deadline ws cs) XPanicked
| x_return s a r pr : returns s a r → finish p ver a r = Ok pr → xstep s (XEnded (conclude c args pr))
| x_return_crash s a r : returns s a r → crashed (finish p ver a r) → xstep s XPanicked.

(** ** Lemmas *)

(** The threads run. *)
Lemma sending_steps a plan deadline st st' : rtc (send_step plan deadline) st st' →
  rtc xstep (XSending a plan deadline st.1 st.2) (XSending a plan deadline st'.1 st'.2).
Proof.
  induction 1 as [|[ws cs] [ws1 cs1] st' H1 _ IH]; [apply rtc_refl|]. eapply rtc_l; [by apply x_send|exact IH].
Qed.

(** What has started. *)
Lemma client_start_inv iface ip port len duration target cpus plan deadline ws :
  client_start iface ip port len duration target cpus = Ok (Okay (plan, deadline, ws)) →
  client_setup iface ip port len target cpus = Ok (Okay plan) ∧ instant_add now duration = Ok deadline
  ∧ ws = gen_workers (plan_states plan) (plan_payload_len plan) start.
Proof.
  unfold client_start. intros (r & Hr & Hx)%res_bind_inv. destruct r as [pl|e]; [|done].
  apply res_bind_inv in Hx as (d & Hd & ([pins ws'] & Hg & [= -> -> ->])%res_bind_inv).
  apply res_bind_inv in Hg as (pins' & _ & [= _ <-]). by split_and!.
Qed.

Lemma server_start_inv iface duration cpus socks deadline ws :
  server_start iface duration cpus = Ok (Okay (socks, deadline, ws)) →
  server_setup iface cpus = Ok (Okay socks) ∧ ws = sink_workers (rx_sock <$> socks).
Proof.
  unfold server_start. destruct (server_setup iface cpus) as [[so|e]| |]; [|destruct e; try done|..];
    intros (d & Hd & Hx)%res_bind_inv; try done; cbn [mbind res_bind] in Hx.
  apply res_bind_inv in Hx as ([pins ws'] & Hg & [= -> _ ->]).
  apply res_bind_inv in Hg as (pins' & _ & [= _ <-]). by split.
Qed.

Lemma server_start_err iface duration cpus e :
  server_start iface duration cpus = Ok (Err e) → server_setup iface cpus = Ok (Err e).
Proof.
  unfold server_start. destruct (server_setup iface cpus) as [[so|e']| |]; [|destruct e'; try done|..];
    try (by intros [= <-]); intros (d & Hd & Hx)%res_bind_inv; try done; cbn [mbind res_bind] in Hx; try congruence.
  by apply res_bind_inv in Hx as ([pins ws'] & _ & [=]).
Qed.

(** Where a process with this action can be. *)
Section run.
Context (a : action) (Hmain : main p E args = Ok a).

Definition xinv (s : xstate) : Prop :=
  match s with
  | XSending a' plan deadline ws cs => a' = a
      ∧ rtc (send_step plan deadline)
          (gen_workers (plan_states plan) (plan_payload_len plan) start, Counters_default) (ws, cs)
      ∧ ∃ iface ip port len duration target cpus json,
          a = XdpBlast iface ip port len duration target cpus json
          ∧ client_setup iface ip port len target cpus = Ok (Okay plan) ∧ instant_add now duration = Ok deadline
  | XReceiving a' socks deadline ws cs => a' = a
      ∧ rtc (receive_step deadline) (sink_workers (rx_sock <$> socks), Counters_default) (ws, cs)
      ∧ ∃ iface duration cpus, a = XdpSink iface duration cpus ∧ server_setup iface cpus = Ok (Okay socks)
  | _ => True
  end.

Lemma xinv_step s s' : xstep s s' → xinv s → xinv s'.
Proof.
  intros Hs Hi. destruct Hs as [| iface ip port len duration target cpus json plan deadline ws Hm Hst|
    |iface duration cpus socks deadline ws Hm Hst| | | | | | |]; try done; cbn [xinv] in *.
  - destruct (client_start_inv _ _ _ _ _ _ _ _ _ _ Hst) as (H1 & H2 & ->). rewrite Hm in Hmain. injection Hmain as <-.
    split; [done|]. split; [apply rtc_refl|]. by repeat eexists.
  - destruct (server_start_inv _ _ _ _ _ _ Hst) as (H1 & ->). rewrite Hm in Hmain. injection Hmain as <-.
    split; [done|]. split; [apply rtc_refl|]. by repeat eexists.
  - destruct Hi as (-> & Hr & Hx). split; [done|]. split; [by eapply rtc_r|done].
  - destruct Hi as (-> & Hr & Hx). split; [done|]. split; [by eapply rtc_r|done].
Qed.

Lemma xinv_run s : rtc xstep XStarting s → xinv s.
Proof.
  revert s. refine (rtc_ind_r xinv _ _ _); [done|]. intros s s' _ Hs IH. by eapply xinv_step.
Qed.

(** How it ended. *)
Lemma xended s pr : rtc xstep XStarting s → xstep s (XEnded pr) →
  xinv s ∧ ∃ r pr', returns s a r ∧ finish p ver a r = Ok pr' ∧ pr = conclude c args pr'.
Proof.
  intros Hr Hs. pose proof (xinv_run s Hr) as Hi. split; [exact Hi|].
  inversion Hs as [| | | | | | | | |s' a' r pr' Hret Hfin|]; subst.
  assert (a' = a) as ->; [|by exists r, pr'].
  destruct Hret; cbn [xinv] in Hi; try congruence; by destruct Hi.
Qed.
End run.
End process.

(** What [main] hands to the generator. *)
Lemma parse_octet_u8 s b : parse_octet s = Some b → is_u8 b.
Proof.
  unfold parse_octet. case_bool_decide as Hs; [done|]. intros H.
  rewrite digits_spec in H by (lia || width). destruct (digits_val 10 0 s) as [v|] eqn:Ev; [|done].
  destruct (Z.ltb_spec v (2 ^ 8)); [|done]. simplify_eq. apply digits_val_ge in Ev; [|lia..]. split; lia.
Qed.

Lemma parse_ipv4_is_ip s ip : parse_ipv4 s = Some ip → is_ip ip.
Proof.
  unfold parse_ipv4. destruct (split_char 46 s) as [|s1 [|s2 [|s3 [|s4 [|]]]]]; try done. intros H.
  destruct (parse_octet s1) as [b1|] eqn:E1; [|done]. destruct (parse_octet s2) as [b2|] eqn:E2; [|done].
  destruct (parse_octet s3) as [b3|] eqn:E3; [|done]. destruct (parse_octet s4) as [b4|] eqn:E4; [|done].
  cbn in H. simplify_eq. split; [done|]. unfold is_bytes. repeat constructor; by eapply parse_octet_u8.
Qed.

Lemma parse_port_u16 s port : parse_port s = Some port → is_u16 port.
Proof.
  unfold parse_port. destruct s as [|x s]; [done|]. intros H.
  rewrite digits_spec in H by (lia || width). destruct (digits_val 10 0 (x :: s)) as [v|] eqn:Ev; [|done].
  destruct (Z.ltb_spec v (2 ^ 16)); [|done]. simplify_eq. apply digits_val_ge in Ev; [|lia..]. split; lia.
Qed.

Lemma main_blast p E args iface ip port len duration target cpus json :
  main p E args = Ok (XdpBlast iface ip port len duration target cpus json) →
  is_ip ip ∧ is_u16 port ∧ cpus ≠ [].
Proof.
  unfold main. destruct args as [|mode args']; [done|]. destruct (_ || _); [done|]. destruct (_ || _); [done|].
  cbv zeta. set (args := mode :: args'). case_bool_decide; [|case_bool_decide; [|done]].
  - unfold main_server. destruct (has args (lit "--xdp")).
    { destruct (feature_xdp E); [by destruct (flag args (lit "--iface"))|done]. }
    intros H'. destruct (has args (lit "--udp")); [|done].
    apply res_bind_inv in H' as (n & _ & H'). apply res_bind_inv in H' as ([] & _ & H'); done.
  - unfold main_client. destruct (flag args (lit "--connect")) as [connect|]; [|done].
    destruct (has args (lit "--xdp")).
    + destruct (flag args (lit "--iface")); [|done]. unfold parse_socket_addr_v4.
      destruct (split_once 58 connect) as [[a b]|]; cbn [mbind option_bind]; [|done].
      destruct (parse_ipv4 a) as [ip'|] eqn:Ei; cbn [mbind option_bind]; [|done].
      destruct (parse_port b) as [port'|] eqn:Ep; cbn [mbind option_bind]; [|done].
      intros [= <- <- <- <- <- <- <- <-]. split; [by eapply parse_ipv4_is_ip|]. split; [by eapply parse_port_u16|apply main_cpus_not_nil].
    + intros H'. apply res_bind_inv in H' as (n & _ & H'). apply res_bind_inv in H' as (ok & _ & H').
      destruct ok; [done|]. by destruct (has args (lit "--udp")).
Qed.

(** ** The generator's threads *)

Section sending.
Context (p : profile) (k : kernel) (XDP_PROG : list Z) (c : cpu) (LEVEL : option SimdLevel) (H : host) (xdp : bool).
Context (iface : str) (dst_ip : list Z) (dst_port payload_len target : Z) (cpus : list Z) (h : history).
Context (plan : blast_plan) (deadline : Z) (start : nat → Z) (ws : list gworker) (cs : Counters).
Context (Hk : xsk_contract k) (Hisa : isa_ok c) (Hcell : oncelock_ok c LEVEL) (Ha : addrs_ok (h_ifaddrs H)).
Context (Hip : is_ip dst_ip) (Hport : is_u16 dst_port) (Hlen : payload_len ≤ FRAME_SIZE - OUTER_HDR).
Context (Hset : (xdp_udp_blast p k XDP_PROG H xdp iface dst_ip dst_port payload_len target cpus h).1 = Ok (Okay plan)).

Abbreviation frame_len := (OUTER_HDR + plan_payload_len plan).
Abbreviation move := (gmove p c LEVEL frame_len (plan_pps plan) deadline 11 11).

Context (Hrun : rtc (sys_step move) (gen_workers (plan_states plan) (plan_payload_len plan) start, Counters_default) (ws, cs)).

(** The set-up hands its threads what they need. *)
Lemma plan_ready : ∃ src_mac dst_mac src_ip,
  flow_ok c LEVEL src_mac dst_mac src_ip dst_ip 40000 dst_port
  ∧ 16 ≤ plan_payload_len plan ∧ frame_len ≤ FRAME_SIZE
  ∧ Forall (λ s, tx_inv src_mac dst_mac src_ip dst_ip 40000 dst_port 11 11 (frames RING_SIZE FRAME_COUNT) s [] [] [])
      (plan_states plan).
Proof.
  destruct (xdp_udp_blast _ _ _ _ _ _ _ _ _ _ _ _) as [r h'] eqn:E. cbn [fst] in Hset. subst r.
  destruct (blast_plan_ok p k XDP_PROG c LEVEL H xdp iface dst_ip dst_port payload_len target cpus h plan h')
    as (sm & dm & si & H1 & H2 & H3 & H4 & _); try done. by exists sm, dm, si.
Qed.

(** No thread panics before its sequence number overflows. *)
Lemma threads_go i w run now : ws !! i = Some w → gw_steps w < 2 ^ 64 - 2 → gl_pc (gw w) ≠ GDone →
  ¬ crashed (gen_step p c LEVEL frame_len (plan_pps plan) deadline run now (gw w)).
Proof.
  intros Hi Hlt Hd Hc. destruct plan_ready as (sm & dm & si & Hflow & H16 & Hfit & Hst). destruct ring_caps as [Hcap _].
  destruct (winv_steps p c LEVEL sm dm si dst_ip 40000 dst_port 11 11 (frames RING_SIZE FRAME_COUNT) (plan_payload_len plan)
    (plan_pps plan) deadline Hflow Hcap H16 Hfit i w run now) as (l & a & E); [|done|done|by rewrite E in Hc].
  by apply (good_reachable p c LEVEL sm dm si dst_ip 40000 dst_port 11 11 (frames RING_SIZE FRAME_COUNT)
    (plan_payload_len plan) (plan_pps plan) deadline Hflow Hcap Hcap H16 Hfit _ _ _ _ _ Hst Hrun i w Hi).
Qed.

(** Behind the deadline they all leave their loops. *)
Lemma threads_leave : Forall (λ w, gw_steps w < 2 ^ 64 - 80) ws →
  ∃ ws' cs', rtc (sys_step move) (ws, cs) (ws', cs') ∧ Forall (λ w, gl_pc (gw w) = GDone) ws'.
Proof.
  intros Hsteps. destruct plan_ready as (sm & dm & si & Hflow & H16 & Hfit & Hst). destruct ring_caps as [Hcap _].
  assert (∀ i w, ws !! i = Some w → ∃ w', rtc (moves move) w w' ∧ gl_pc (gw w') = GDone) as Hend.
  { intros i w Hi. pose proof (Forall_lookup_1 _ _ _ _ Hsteps Hi) as Hlt. cbv beta in Hlt.
    pose proof (good_reachable p c LEVEL sm dm si dst_ip 40000 dst_port 11 11 (frames RING_SIZE FRAME_COUNT)
      (plan_payload_len plan) (plan_pps plan) deadline Hflow Hcap Hcap H16 Hfit _ _ _ _ _ Hst Hrun i w Hi ltac:(lia)) as Hw.
    pose proof (rank_bound _ (gi_pc _ _ _ _ _ _ _ _ _ _ _ Hw)) as Hr.
    destruct (late_alone p c LEVEL sm dm si dst_ip 40000 dst_port 11 11 (frames RING_SIZE FRAME_COUNT) (plan_payload_len plan)
      (plan_pps plan) deadline Hflow Hcap Hcap H16 Hfit i w) as (w' & Hm & _ & Hd & _); [split; [exact Hw|lia]|].
    by exists w'. }
  assert (∃ ws', Forall2 (λ w w', rtc (moves move) w w' ∧ gl_pc (gw w') = GDone) ws ws') as [ws' Hws'].
  { clear - Hend. induction ws as [|w l IH]; [by exists []|]. destruct (Hend 0%nat w eq_refl) as [w' Hw'].
    destruct IH as [l' Hl']; [intros i v Hv; by apply (Hend (S i))|]. exists (w' :: l'). by constructor. }
  destruct (sys_all move ws ws' cs) as [cs' Hcs'].
  { eapply Forall2_impl; [exact Hws'|]. by intros w w' [? _]. }
  exists ws', cs'. split; [exact Hcs'|]. eapply Forall2_Forall_r; [exact Hws'|].
  apply Forall_forall. by intros w _ w' [_ ?].
Qed.

(** What they have counted by then. *)
Lemma threads_totals : Forall (λ w, gw_steps w < 2 ^ 64 - 2) ws → Forall (λ w, gl_pc (gw w) = GDone) ws →
  plan_payload_len plan = Z.max payload_len 16
  ∧ cs = added (handed_over ws * (OUTER_HDR + Z.max payload_len 16)) (handed_over ws) 0 Counters_default
  ∧ sent_frames ws ≤ handed_over ws.
Proof.
  intros Hsteps Hdone. destruct plan_ready as (sm & dm & si & Hflow & H16 & Hfit & Hst). destruct ring_caps as [Hcap _].
  assert (plan_payload_len plan = Z.max payload_len 16) as Hpl.
  { destruct (xdp_udp_blast _ _ _ _ _ _ _ _ _ _ _ _) as [r h'] eqn:E. cbn [fst] in Hset. subst r.
    destruct (wp_outcome _ _ _ _ _ (wp_xdp_udp_blast p k XDP_PROG Hk H xdp iface dst_ip dst_port
      payload_len target cpus h Ha) E) as (r & [= <-] & _ & Hpl & _). exact Hpl. }
  split; [exact Hpl|]. rewrite <- Hpl.
  exact (gen_totals p c LEVEL sm dm si dst_ip 40000 dst_port 11 11 (frames RING_SIZE FRAME_COUNT) (plan_payload_len plan)
    (plan_pps plan) deadline _ _ _ _ _ Hflow Hcap Hcap H16 Hfit Hst Counters_default_ok Hrun Hsteps Hdone).
Qed.
End sending.

(** The start, when every thread has a CPU it may name: the set-up's error,
    or the threads. *)
Lemma client_starts {L : CpuSets} `{!CpuSetsOk L} p E H k h XDP_PROG now start iface ip port len duration target cpus :
  xsk_contract k → addrs_ok (h_ifaddrs H) → cpus ≠ [] → cpus_fit cpus → now + duration * SEC < 2 ^ 63 * SEC →
  (∃ e, client_setup p E H k h XDP_PROG iface ip port len target cpus = Ok (Err e)
     ∧ client_start p E H k h XDP_PROG now start iface ip port len duration target cpus = Ok (Err e))
  ∨ (∃ plan, client_setup p E H k h XDP_PROG iface ip port len target cpus = Ok (Okay plan)
     ∧ client_start p E H k h XDP_PROG now start iface ip port len duration target cpus
       = Ok (Okay (plan, now + duration * SEC, gen_workers (plan_states plan) (plan_payload_len plan) start))).
Proof.
  intros Hk Ha Hne Hfit Hclk. unfold client_start.
  destruct (wp_xdp_udp_blast p k XDP_PROG Hk H (feature_xdp E) iface ip port len target cpus h Ha) as (r & h' & Er & _).
  unfold client_setup. rewrite Er. cbn [fst mbind res_bind]. destruct r as [plan|e]; [right|left; by exists e].
  exists plan. split; [done|]. unfold instant_add. rewrite (proj2 (Z.ltb_lt _ _) Hclk). cbn [mbind res_bind].
  unfold gen_threads. destruct (pin_workers_ok cpus (zlen (plan_states plan)) Hne Hfit) as (pins & -> & _). done.
Qed.

(** The cell behind the start-up line. *)
Lemma level_after_ok c : oncelock_ok c (level_after c).
Proof. right. unfold level_after, log_simd_info. rewrite simd_level_detect by (by left). done. Qed.

(** ** Properties *)


(** A run in which a frame is sent. *)
Definition demo_xargs : list str :=
  lit <$> ["client"; "--connect"; "10.0.0.9:5201"; "--xdp"; "--iface"; "eth0"; "--udp"; "--cpus"; "0-3"; "--json"].

Definition demo_xenv : env := Env true None (λ _, None) None.

Abbreviation demo_xstep :=
  (xstep (L:=bit_sets 4) Release demo_xenv (lit "0.3.1") haswell demo_xargs demo_host (demo_kernel no_zerocopy) [] demo_prog
     (λ _, []) 0 (λ _, 0)).


(** What a sink that has left its loops counted. *)
Lemma sink_packets p k XDP_PROG H iface cpus h socks deadline ws cs :
  xsk_contract k → (xdp_udp_sink p k XDP_PROG H iface cpus h).1 = Ok (Okay socks) →
  rtc (sys_step (smove p deadline 11 11)) (sink_workers (rx_sock <$> socks), Counters_default) (ws, cs) →
  Forall (λ w, sl_pc (sw w) = SDone) ws →
  packets cs = wrap 64 (zlen (concat (sw_seen <$> ws))).
Proof.
  intros Hk Hset Hrun Hdone.
  destruct (xdp_udp_sink _ _ _ _ _ _ _) as [r0 h'] eqn:Eb. cbn [fst] in Hset. subst r0.
  destruct (wp_outcome _ _ _ _ _ (wp_xdp_udp_sink p k XDP_PROG Hk H iface cpus h) Eb) as (r & [= <-] & Hall & _ & _).
  assert (zlen (frames 0 RING_SIZE) ≤ 2 ^ 11) as Hcap.
  { rewrite length_frames by (unfold RING_SIZE; lia). unfold RING_SIZE. lia. }
  assert (Forall (λ s, ∃ qf, rx_inv 11 11 (frames 0 RING_SIZE) s [] qf []) (rx_sock <$> socks)) as Hsocks.
  { apply Forall_fmap. eapply Forall_impl; [exact Hall|]. intros s Hs. eexists. by apply rx_sock_inv. }
  rewrite (sink_counters p deadline 11 11 (rx_sock <$> socks) Counters_default cs ws Counters_default_ok Hrun).
  unfold added. cbn [packets Counters_default]. rewrite Z.add_0_l. f_equal.
  unfold total. rewrite zlen_concat, !zsum_fmap. apply zsum_ext. intros w Hw. apply (winv_counts p 11 11 (frames 0 RING_SIZE)).
  - apply list_elem_of_lookup in Hw as (i & Hi).
    by eapply (sink_winv p deadline 11 11 (frames 0 RING_SIZE) (NoDup_frames _ _) Hcap Hcap); [exact Hsocks|exact Hrun|].
  - rewrite Forall_forall in Hdone. by rewrite (Hdone w Hw).
Qed.

(** What [runperf server --xdp] tells its user: a process that ends either
    failed in the set-up, with status 1, or prints one line, about exactly the
    frames its threads took from the rings, with status 0. *)
Theorem xdp_server_process {L : CpuSets} p E ver c args H k h XDP_PROG text now start iface duration cpus :
  main p E args = Ok (XdpSink iface duration cpus) → xsk_contract k →
  let step := xstep p E ver c args H k h XDP_PROG text now start in
  ∀ s pr, rtc step XStarting s → step s (XEnded pr) →
    (∃ e, s = XStarting ∧ server_setup p H k h XDP_PROG iface cpus = Ok (Err e)
       ∧ status pr = 1 ∧ out pr = [] ∧ err pr = banner c args ++ [lit "xdp sink error: " ++ text e])
    ∨ (∃ socks deadline (ws : list sworker) cs ns line, server_setup p H k h XDP_PROG iface cpus = Ok (Okay socks)
       ∧ s = XReceiving (XdpSink iface duration cpus) socks deadline ws cs
       ∧ Forall (λ w, sl_pc (sw w) = SDone) ws
       ∧ packets cs = wrap 64 (zlen (concat (sw_seen <$> ws)))
       ∧ xdp_sink_summary p ns (packets cs) (drops cs) = Ok line ∧ out pr = [line] ∧ status pr = 0).
Proof.
  intros Hm Hk step s pr Hs Hst. set (a := XdpSink iface duration cpus) in *.
  destruct (xended p E ver c args H k h XDP_PROG text now start a Hm s pr Hs Hst) as (Hi & r & pr' & Hr & Hfin & ->).
  destruct s as [|a' plan d ws cs|a' socks d ws cs| |].
  - left. inversion Hr as [|? ? ? ? ? ? ? ? ? Hm' Hst'|? ? ? e Hm' Hst'| |]; subst; [done|].
    cbn [finish] in Hfin. injection Hfin as <-. exists e. apply server_start_err in Hst'. by split_and!.
  - by destruct Hi as (_ & _ & (? & ? & ? & ? & ? & ? & ? & ? & [=] & _)).
  - right. inversion Hr as [| | | |? ? ? ? ? ns Hd]; subst.
    destruct Hi as (_ & Hrun & (i' & du' & cp' & Ea & Hset)). injection Ea as <- <- <-.
    cbn [finish] in Hfin. apply res_bind_inv in Hfin as (line & Hline & [= <-]).
    exists socks, d, ws, cs, ns, line. split_and!; try done. by eapply sink_packets.
  - inversion Hr.
  - inversion Hr.
Qed.
