(* ===== verification/Build.v ===== *)
(** * The build script ([build.rs])

    With the feature [xdp] the script compiles the eBPF program with clang
    and tells cargo where the object file is; [src/xdp/loader.rs] embeds it.
    The environment (variables, the build host's architecture, the file
    system, what clang returns) is an argument.  The script's effects are
    the lines it prints to cargo and the clang command it runs, in order. *)

From S2P Require Import Prelude Strs.

(** What the script sees.  [clang args] is [Some success] when the process
    ran. *)
Record build_env : Type := BuildEnv {
  feature_xdp : bool;
  out_dir : option str;
  host_arch : str;
  exists_path : str → bool;
  clang : list str → option bool;
}.

(** A line for cargo, or a run of clang with its arguments. *)
Inductive effect : Type :=
| Println (line : str)
| RunClang (args : list str).

#[export] Instance effect_eq_dec : EqDecision effect.
Proof. solve_decision. Defined.

(** The multiarch name of the host, empty for any other architecture. *)
Definition host_multiarch (arch : str) : str :=
  if decide (arch = lit "x86_64") then lit "x86_64-linux-gnu"
  else if decide (arch = lit "aarch64") then lit "aarch64-linux-gnu"
  else if decide (arch = lit "arm") then lit "arm-linux-gnueabihf"
  else [].

(** The loop over the candidates. *)
Fixpoint first_existing (ex : str → bool) (l : list str) : option str :=
  match l with
  | [] => None
  | multiarch :: l =>
      if decide (multiarch = []) then first_existing ex l
      else let path := lit "/usr/include/" ++ multiarch in
           if ex path then Some path else first_existing ex l
  end.

Definition arch_include_path (e : build_env) : option str :=
  first_existing (exists_path e)
    [host_multiarch (host_arch e); lit "x86_64-linux-gnu"; lit "aarch64-linux-gnu"].

Definition SRC : str := lit "ebpf/runperf_xdp.c".

(** [compile_xdp_program]: its effects, and whether it returned. *)
Definition compile_xdp_program (e : build_env) : list effect * res unit :=
  match out_dir e with
  | None => ([], Panic)
  | Some dir =>
      let out := dir ++ lit "/runperf_xdp.o" in
      let cmd := [lit "-target"; lit "bpf"; lit "-O2"; lit "-g"; lit "-c"; SRC; lit "-o"; out]
        ++ match arch_include_path e with Some inc => [lit "-I" ++ inc] | None => [] end in
      let log := [Println (lit "cargo:rerun-if-changed=" ++ SRC); RunClang cmd] in
      match clang e cmd with
      | None => (log, Panic)
      | Some false => (log, Panic)
      | Some true => (log ++ [Println (lit "cargo:rustc-env=XDP_BPF_OBJ=" ++ out)], Ok ())
      end
  end.

Definition main (e : build_env) : list effect * res unit :=
  if feature_xdp e then compile_xdp_program e else ([], Ok ()).

(** ** Lemmas *)

Lemma first_existing_find ex l p :
  first_existing ex l = Some p ↔
  ∃ l1 m l2, l = l1 ++ m :: l2 ∧ m ≠ [] ∧ p = lit "/usr/include/" ++ m ∧ ex p = true
    ∧ Forall (λ m', m' = [] ∨ ex (lit "/usr/include/" ++ m') = false) l1.
Proof.
  induction l as [|m l IH]; cbn [first_existing].
  { split; [done|]. intros (l1 & m & l2 & E & _). by destruct l1. }
  assert (∀ P : Prop, (m = [] ∨ ex (lit "/usr/include/" ++ m) = false) →
    (∃ l1 m0 l2, m :: l = l1 ++ m0 :: l2 ∧ m0 ≠ [] ∧ p = lit "/usr/include/" ++ m0 ∧ ex p = true
      ∧ Forall (λ m', m' = [] ∨ ex (lit "/usr/include/" ++ m') = false) l1) ↔
    (∃ l1 m0 l2, l = l1 ++ m0 :: l2 ∧ m0 ≠ [] ∧ p = lit "/usr/include/" ++ m0 ∧ ex p = true
      ∧ Forall (λ m', m' = [] ∨ ex (lit "/usr/include/" ++ m') = false) l1)) as Hskip.
  { intros _ Hm. split.
    - intros ([|x l1] & m0 & l2 & E & Hne & Hp & Hex & Hall).
      + injection E as -> ->. destruct Hm as [->|Hm]; [done|]. congruence.
      + injection E as -> ->. apply Forall_cons in Hall as [_ Hall]. by exists l1, m0, l2.
    - intros (l1 & m0 & l2 & -> & Hne & Hp & Hex & Hall). exists (m :: l1), m0, l2.
      split_and!; try done. by constructor. }
  case_decide as Hm; [rewrite (Hskip True) by (by left); exact IH|].
  cbv zeta. destruct (ex (lit "/usr/include/" ++ m)) eqn:Hex; [|rewrite (Hskip True) by (by right); exact IH]. clear Hskip. split.
  - intros [= <-]. exists [], m, l. by split_and!.
  - intros ([|x l1] & m0 & l2 & E & Hne & Hp & Hex' & Hall); injection E as -> ->; [by f_equal|].
    apply Forall_cons in Hall as [[->|Hall] _]; [done|congruence].
Qed.

Lemma first_existing_none ex l :
  first_existing ex l = None ↔ ∀ m, m ∈ l → m = [] ∨ ex (lit "/usr/include/" ++ m) = false.
Proof.
  induction l as [|m l IH]; cbn [first_existing]; [split; [set_solver|done]|].
  case_decide as Hm; [rewrite IH; set_solver|].
  cbv zeta. destruct (ex (lit "/usr/include/" ++ m)) eqn:Hex; [|rewrite IH; set_solver].
  split; [done|]. intros H. destruct (H m) as [?|?]; [left|done|congruence].
Qed.

(** Which headers the script is to use: those of the first multiarch name
    that has a directory, of the host's, then of two common ones; none
    without any. *)
Definition usable (e : build_env) (m : str) : Prop := m ≠ [] ∧ exists_path e (lit "/usr/include/" ++ m) = true.

Definition include_of (e : build_env) (inc : list str) : Prop :=
  let names := [host_multiarch (host_arch e); lit "x86_64-linux-gnu"; lit "aarch64-linux-gnu"] in
  (∃ before m after, names = before ++ m :: after ∧ usable e m ∧ Forall (λ m', ¬ usable e m') before
     ∧ inc = [lit "-I" ++ lit "/usr/include/" ++ m])
  ∨ Forall (λ m', ¬ usable e m') names ∧ inc = [].

Lemma not_usable e m : m = [] ∨ exists_path e (lit "/usr/include/" ++ m) = false ↔ ¬ usable e m.
Proof.
  unfold usable. split; [intros [->|H] [? ?]; [done|congruence]|]. intros H.
  destruct (decide (m = [])); [by left|right]. destruct (exists_path _ _) eqn:E; [|done]. by destruct H.
Qed.

Lemma arch_include_path_spec e :
  include_of e (match arch_include_path e with Some inc => [lit "-I" ++ inc] | None => [] end).
Proof.
  unfold arch_include_path. destruct (first_existing _ _) as [path|] eqn:E.
  - left. apply first_existing_find in E as (before & m & after & En & Hm & -> & Hex & Hb).
    exists before, m, after. split_and!; [done|by split| |done].
    eapply Forall_impl; [exact Hb|]. intros m'. apply not_usable.
  - right. split; [|done]. apply Forall_forall. intros m Hm. apply not_usable. by apply (proj1 (first_existing_none _ _) E).
Qed.

(** What the script does, by cases. *)
Lemma build_cases e : ∃ inc, include_of e inc ∧
  let args dir := [lit "-target"; lit "bpf"; lit "-O2"; lit "-g"; lit "-c"; SRC; lit "-o"; dir ++ lit "/runperf_xdp.o"] ++ inc in
  main e = if feature_xdp e then
      match out_dir e with
      | None => ([], Panic)
      | Some dir =>
          if decide (clang e (args dir) = Some true) then
            ([Println (lit "cargo:rerun-if-changed=" ++ SRC); RunClang (args dir);
              Println (lit "cargo:rustc-env=XDP_BPF_OBJ=" ++ dir ++ lit "/runperf_xdp.o")], Ok ())
          else ([Println (lit "cargo:rerun-if-changed=" ++ SRC); RunClang (args dir)], Panic)
      end
    else ([], Ok ()).
Proof.
  eexists. split; [apply arch_include_path_spec|]. cbv zeta. unfold main, compile_xdp_program.
  destruct (feature_xdp e), (out_dir e) as [dir|]; try done. cbv zeta. destruct (clang e _) as [[]|] eqn:E; by case_decide.
Qed.

(** ** Properties *)

(** C38: the build script and the loader agree on the object file.  The
    script panics exactly when the feature is on and the output directory is
    not set, or clang cannot be started or fails on the source, with the
    headers of the first multiarch directory there is and with no such
    option when there is none; otherwise it returns.  Without the feature it
    does nothing.  With it, the last line of a run that returns names exactly
    the file clang was told to write, and a run that panics names no object
    file. *)
Theorem build_names_object e : ∃ inc, include_of e inc ∧
  let args dir := [lit "-target"; lit "bpf"; lit "-O2"; lit "-g"; lit "-c"; SRC; lit "-o"; dir ++ lit "/runperf_xdp.o"] ++ inc in
  let '(log, r) := main e in
  r ≠ Undefined
  ∧ (r = Panic ↔ feature_xdp e = true ∧ ∀ dir, out_dir e = Some dir → clang e (args dir) ≠ Some true)
  ∧ (feature_xdp e = false ∨ out_dir e = None → log = [])
  ∧ (∀ dir, feature_xdp e = true → out_dir e = Some dir →
      log = [Println (lit "cargo:rerun-if-changed=" ++ SRC); RunClang (args dir)]
        ++ match r with
           | Ok _ => [Println (lit "cargo:rustc-env=XDP_BPF_OBJ=" ++ dir ++ lit "/runperf_xdp.o")]
           | _ => []
           end)
  ∧ (r = Panic → ∀ f, Println (lit "cargo:rustc-env=XDP_BPF_OBJ=" ++ f) ∉ log).
Proof.
  destruct (build_cases e) as (inc & Hinc & E). exists inc. split; [exact Hinc|]. cbv zeta in *. rewrite E. clear E.
  assert (∀ f, lit "cargo:rustc-env=XDP_BPF_OBJ=" ++ f ≠ lit "cargo:rerun-if-changed=" ++ SRC) as Hd by done.
  destruct (feature_xdp e); [|split_and!; try done; by intros [_ ?] || by split; [|intros []]].
  destruct (out_dir e) as [dir|].
  2:{ split_and!; try done. intros _ f. apply not_elem_of_nil. }
  case_decide as Hc; split_and!; try done.
  - split; [done|]. intros [_ H]. by destruct (H dir).
  - by intros [|].
  - by intros dir' _ [= <-].
  - split; [intros _; split; [done|by intros dir' [= <-]]|done].
  - by intros [|].
  - by intros dir' _ [= <-].
  - intros _ f Hin. repeat (apply elem_of_cons in Hin as [[= Hin]|Hin]; [by apply (Hd f) in Hin|]); set_solver.
Qed.

(** A build on an x86_64 host with Debian's headers, for whatever target. *)
Example build_on_debian :
  main (BuildEnv true (Some (lit "/t")) (lit "x86_64")
    (λ p, bool_decide (p = lit "/usr/include/x86_64-linux-gnu")) (λ _, Some true)) =
  ([Println (lit "cargo:rerun-if-changed=ebpf/runperf_xdp.c");
    RunClang [lit "-target"; lit "bpf"; lit "-O2"; lit "-g"; lit "-c"; lit "ebpf/runperf_xdp.c"; lit "-o";
      lit "/t/runperf_xdp.o"; lit "-I/usr/include/x86_64-linux-gnu"];
    Println (lit "cargo:rustc-env=XDP_BPF_OBJ=/t/runperf_xdp.o")], Ok ()).
Proof. vm_compute. reflexivity. Qed.
