(* ===== verification/Tests.v ===== *)
(** * The crate's unit tests ([src/simd.rs], [src/xdp/frame.rs])

    Each [#[test]] function, run on the model: a failed assertion is a
    panic.  The real tests run on one machine in one build profile; here
    they pass on every CPU and in both profiles, which also ties the model
    to the behaviour the authors recorded. *)

From S2P Require Import Prelude Strs Simd Frame.

(** [assert!]. *)
Definition assert (b : bool) : res unit := if b then Ok () else Panic.
Definition assert_eq {A} `{EqDecision A} (a b : A) : res unit := assert (bool_decide (a = b)).

(** [for x in l { .. }]. *)
Fixpoint for_each {A} (l : list A) (f : A → res unit) : res unit :=
  match l with
  | [] => Ok ()
  | x :: l => f x;; for_each l f
  end.

(** [unwrap]. *)
Definition unwrap {A} (o : option A) : res A := match o with Some a => Ok a | None => Panic end.

(** ** [simd.rs] *)

Section simd_tests.
Context (p : profile) (c : cpu) (LEVEL : option SimdLevel).

(** [(0..len as u8).collect()] and [vec![0u8; n]]. *)
Definition counting (len : Z) : list Z := seqZ 0 (wrap 8 len).
Definition zeros (n : Z) : list Z := replicate (Z.to_nat n) 0.

Definition level_ordering : res unit :=
  assert (level_rank Scalar <? level_rank Sse2);;
  assert (level_rank Sse2 <? level_rank Sse42);;
  assert (level_rank Sse42 <? level_rank Avx2);;
  assert (level_rank Avx2 <? level_rank Avx512).

Definition simd_level_cached : res unit :=
  let '(a, LEVEL) := simd_level c LEVEL in
  let '(b, _) := simd_level c LEVEL in
  assert_eq a b.

(** Compiled on x86_64 only, like the two [_explicit] tests. *)
Definition sse2_always_available : res unit :=
  assert (level_rank Sse2 <=? level_rank (simd_level c LEVEL).1).

Definition memcpy_dispatch_all_lengths : res unit :=
  for_each (seqZ 0 129) (λ len,
    let src := counting len in
    let dst := zeros (len + 4) in
    part ← memcpy_dispatch p c LEVEL (slice dst 0 len) src;
    let dst := splice dst 0 part in
    assert_eq (slice dst 0 len) src;;
    assert_eq (drop (Z.to_nat len) dst) [0; 0; 0; 0]).

Definition sse2_explicit : res unit :=
  for_each (seqZ 0 65) (λ len,
    let src := counting len in
    dst ← memcpy_sse2 (zeros len) src (Z.to_nat len);
    assert_eq dst src).

Definition avx2_explicit : res unit :=
  if negb (has_avx2 c) then Ok () else
  for_each (seqZ 0 129) (λ len,
    let src := counting len in
    dst ← memcpy_avx2 c (zeros len) src (Z.to_nat len);
    assert_eq dst src).

(** ** [frame.rs] *)

Definition frame_checksum_valid : res unit :=
  let hdr := FrameHeader_new [0x00; 0x11; 0x22; 0x33; 0x44; 0x55] [0xAA; 0xBB; 0xCC; 0xDD; 0xEE; 0xFF]
    [198; 51; 100; 1] [198; 51; 100; 2] 12345 53 in
  let dns := lit "hello dns payload" in
  let buf := zeros (OUTER_HDR + zlen dns) in
  '(buf, n) ← write_frame p c LEVEL hdr buf dns;
  assert_eq n (zlen buf);;
  assert_eq (slice buf 12 2) [0x08; 0x00];;
  v ← unwrap (buf !! Z.to_nat ETH_HDR);
  assert_eq (Z.shiftr v 4) 4;;
  assert_eq (Z.land v 0xF) 5;;
  proto ← unwrap (buf !! Z.to_nat (ETH_HDR + 9));
  assert_eq proto 17;;
  assert_eq (drop (Z.to_nat OUTER_HDR) buf) dns;;
  k ← ipv4_checksum p (slice buf ETH_HDR IPV4_HDR);
  assert_eq k 0.

Definition parse_mac_ok : res unit :=
  m ← unwrap (parse_mac (lit "aa:bb:cc:dd:ee:ff"));
  assert_eq m [0xAA; 0xBB; 0xCC; 0xDD; 0xEE; 0xFF].

(** The suite; the tests marked for x86_64 are compiled only there. *)
Definition suite : list (res unit) :=
  [level_ordering; simd_level_cached; memcpy_dispatch_all_lengths; frame_checksum_valid; parse_mac_ok]
  ++ if x86_64 c then [sse2_always_available; sse2_explicit; avx2_explicit] else [].
End simd_tests.

(** ** Lemmas *)

Lemma for_each_ok {A} (l : list A) f : (∀ x, x ∈ l → f x = Ok ()) → for_each l f = Ok ().
Proof.
  induction l as [|x l IH]; intros H; [done|]. cbn [for_each]. rewrite (H x) by left. cbn [mbind res_bind].
  apply IH. intros y Hy. apply H. by right.
Qed.

Lemma assert_eq_refl {A} `{EqDecision A} (a : A) : assert_eq a a = Ok ().
Proof. unfold assert_eq, assert. by rewrite bool_decide_eq_true_2. Qed.

Lemma length_counting len : 0 ≤ len < 256 → zlen (counting len) = len.
Proof.
  intros H. unfold counting. rewrite length_seqZ, wrap_small by (unfold fits; lia). lia.
Qed.

(** What is stamped does not depend on the CPU. *)
Lemma write_frame_cpu p c LEVEL h out dns :
  isa_ok c → oncelock_ok c LEVEL → write_frame p c LEVEL h out dns = write_frame p haswell None h out dns.
Proof.
  intros Hisa Hcell. unfold write_frame.
  destruct (arith p 16 _) as [tot| |]; cbn [mbind res_bind]; [|done..].
  destruct (debug_assert p _) as [[]| |]; cbn [mbind res_bind]; [|done..].
  case_decide; [|done]. destruct (ipv4_checksum p _) as [ck| |]; cbn [mbind res_bind]; [|done..].
  case_decide as Hl; [|done].
  match goal with |- context [memcpy_dispatch p c LEVEL ?d dns] =>
    assert (length dns ≤ length d)%nat as Hd end.
  { pose proof (length_slice (upd (ETH_HDR + IPV4_HDR + 5) (lo8 (wrap 16 (UDP_HDR + zlen dns)))
      (upd (ETH_HDR + IPV4_HDR + 4) (hi8 (wrap 16 (UDP_HDR + zlen dns)))
      (upd (ETH_HDR + 11) (lo8 ck) (upd (ETH_HDR + 10) (hi8 ck)
      (upd (ETH_HDR + 3) (lo8 tot) (upd (ETH_HDR + 2) (hi8 tot) (splice out 0 (tpl h)))))))) OUTER_HDR (zlen dns)) as L.
    change OUTER_HDR with 42 in *. lia. }
  rewrite !memcpy_dispatch_spec; [done|by intros [=]|by left|done..].
Qed.

(** ** Properties *)

(** C35: the crate's unit tests pass on every CPU that reports its features
    consistently, whatever the level cell holds, in both build profiles. *)
Theorem unit_tests_pass p c LEVEL :
  isa_ok c → oncelock_ok c LEVEL → Forall (λ t, t = Ok ()) (suite p c LEVEL).
Proof.
  intros Hisa Hcell. unfold suite. apply Forall_app. split.
  - repeat apply Forall_cons_2; [done| | | |done|apply Forall_nil_2].
    + unfold simd_level_cached. rewrite (simd_level_detect c LEVEL Hcell). cbn. apply assert_eq_refl.
    + apply for_each_ok. intros len Hlen%elem_of_seqZ. cbv beta zeta.
      pose proof (length_counting len ltac:(lia)) as Hc.
      assert (zlen (zeros (len + 4)) = len + 4) as Hz by (unfold zeros; rewrite length_replicate; lia).
      pose proof (length_slice (zeros (len + 4)) 0 len ltac:(lia) ltac:(lia) ltac:(lia)) as Hs.
      rewrite memcpy_dispatch_spec by (done || lia). cbn [mbind res_bind].
      rewrite (splice_full (slice _ 0 len)) by lia.
      pose proof (slice_splice_eq (zeros (len + 4)) 0 (counting len)) as E. rewrite Hc in E.
      rewrite E, assert_eq_refl by lia. cbn [mbind res_bind].
      replace (drop (Z.to_nat len) (splice (zeros (len + 4)) 0 (counting len))) with ([0; 0; 0; 0] : list Z);
        [apply assert_eq_refl|].
      unfold splice. rewrite take_0. cbn [app Z.to_nat Nat.add].
      rewrite drop_app_ge by lia. replace (Z.to_nat len - length (counting len))%nat with 0%nat by lia.
      rewrite drop_0. unfold zeros. rewrite drop_replicate.
      by replace (Z.to_nat (len + 4) - _)%nat with 4%nat by lia.
    + unfold frame_checksum_valid. rewrite write_frame_cpu by done. destruct p; vm_compute; reflexivity.
  - destruct (x86_64 c) eqn:Hx; [|done]. repeat apply Forall_cons_2; [| | |apply Forall_nil_2].
    + unfold sse2_always_available. rewrite (simd_level_detect c LEVEL Hcell). cbn [fst]. unfold detect.
      rewrite Hx. by destruct (has_avx512f c), (has_avx2 c), (has_sse42 c).
    + apply for_each_ok. intros len Hlen%elem_of_seqZ. cbv beta zeta.
      pose proof (length_counting len ltac:(lia)) as Hc.
      assert (zlen (zeros len) = len) as Hz by (unfold zeros; rewrite length_replicate; lia).
      rewrite memcpy_sse2_spec by lia. cbn [mbind res_bind]. rewrite Z2Nat.id by lia.
      pose proof (slice_full (counting len)) as E. rewrite Hc in E.
      rewrite E, splice_full by lia. apply assert_eq_refl.
    + unfold avx2_explicit. destruct (has_avx2 c) eqn:Ha; [|done]. cbn [negb].
      apply for_each_ok. intros len Hlen%elem_of_seqZ. cbv beta zeta.
      pose proof (length_counting len ltac:(lia)) as Hc.
      assert (zlen (zeros len) = len) as Hz by (unfold zeros; rewrite length_replicate; lia).
      rewrite memcpy_avx2_spec by (done || lia). cbn [mbind res_bind]. rewrite Z2Nat.id by lia.
      pose proof (slice_full (counting len)) as E. rewrite Hc in E.
      rewrite E, splice_full by lia. apply assert_eq_refl.
Qed.

Lemma unit_tests_pass_witness : Forall (λ t, t = Ok ()) (suite Release haswell None).
Proof. apply unit_tests_pass; [intros [=]|by left]. Defined.
