(* ===== verification/Loopback.v ===== *)
(** * The loopback tests ([tests/loopback.rs])

    The tests start the program twice, as a server and as a client on
    127.0.0.1, and look at the JSON summary the client prints.  What the
    operating system does (whether a process starts, whether a connection is
    accepted, when) is an argument; the client is the process of [Program]. *)

From S2P Require Import Prelude Strs Affinity Simd Loss Net Threads Engine Float Report Cli Program Tests.

(** ** The test harness *)

(** What a test does to the outside. *)
Inductive event : Type :=
| Spawn (args : list str)
| Sleep (ms : Z)
| Connect (addr : str)
| Output (args : list str)
| Kill
| Wait.

#[export] Instance event_eq_dec : EqDecision event.
Proof. solve_decision. Defined.

(** What it meets: whether the server starts, the clock when the probing
    starts, at each probe the clock and whether the connection is accepted,
    and the client's output if it could be run. *)
Record machine : Type := Machine {
  m_spawns : bool;
  m_now : Z;
  m_probes : list (Z * bool);
  m_client : option process;
}.

(** The loop of [wait_tcp_listening]; the flag tells whether it has left. *)
Fixpoint probe (addr : str) (deadline : Z) (probes : list (Z * bool)) : list event * bool :=
  match probes with
  | [] => ([], false)
  | (now, ok) :: probes =>
      if now <? deadline then
        if ok : bool then ([Connect addr], true)
        else let '(l, done) := probe addr deadline probes in (Connect addr :: Sleep 25 :: l, done)
      else ([], true)
  end.

(** With a timeout in seconds. *)
Definition wait_tcp_listening (addr : str) (timeout : Z) (m : machine) : res (list event * bool) :=
  deadline ← instant_add (m_now m) timeout;
  Ok (probe addr deadline (m_probes m)).

Definition server_args (udp : bool) (addr : str) : list str :=
  [lit "server"; lit "--bind"; addr; lit "--cpus"; lit "0"] ++ (if udp then [lit "--udp"] else []).
Definition client_args (udp : bool) (addr : str) : list str :=
  [lit "client"; lit "--connect"; addr; lit "--duration"; lit "1"; lit "--cpus"; lit "0"; lit "--json"]
    ++ (if udp then [lit "--udp"] else []).

(** How [run_loopback] waits for the server: 300 ms, or until it accepts. *)
Definition wait_for_server (udp : bool) (addr : str) (m : machine) : res (list event * bool) :=
  if udp then Ok ([Sleep 300], true) else wait_tcp_listening addr 10 m.

(** [run_loopback]: what it does, and the summary unless it panics; no result
    while it is still probing. *)
Definition run_loopback (udp : bool) (port : Z) (m : machine) : list event * option (res str) :=
  let addr := lit "127.0.0.1:" ++ dec port in
  let spawned := [Spawn (server_args udp addr)] in
  if negb (m_spawns m) then (spawned, Some Panic) else
  match wait_for_server udp addr m with
  | Ok (waited, false) => (spawned ++ waited, None)
  | Ok (waited, true) =>
      let ran := spawned ++ waited ++ [Output (client_args udp addr)] in
      match m_client m with
      | None => (ran, Some Panic)
      | Some pr => (ran ++ [Kill; Wait], Some (assert (status pr =? 0);; Ok (trim (unlines (out pr)))))
      end
  | Undefined => (spawned, Some Undefined)
  | Panic => (spawned, Some Panic)
  end.

Definition proto_is (udp : bool) : str := quoted (lit "proto") ++ 58 :: quoted (lit (if udp then "udp" else "tcp")%string).

Definition udp_loopback_moves_packets (m : machine) : list event * option (res unit) :=
  let '(events, json) := run_loopback true 53111 m in
  (events, (λ json, json ← json;
     assert (contains json (proto_is true));;
     packets ← field json (lit "packets"); assert (0 <? packets);;
     bytes ← field json (lit "bytes"); assert (0 <? bytes)) <$> json).

Definition tcp_loopback_moves_bytes (m : machine) : list event * option (res unit) :=
  let '(events, json) := run_loopback false 53112 m in
  (events, (λ json, json ← json;
     assert (contains json (proto_is false));;
     bytes ← field json (lit "bytes"); assert (0 <? bytes)) <$> json).

(** ** Lemmas *)

(** Where the two tests run. *)
Definition udp_addr : str := lit "127.0.0.1:53111".
Definition tcp_addr : str := lit "127.0.0.1:53112".

(** Reading one argument. *)
Ltac read_arg e v := replace e with v by (vm_compute; reflexivity).

(** What the arguments of the tests start, if the memory guard lets them. *)
Lemma udp_client_main p E :
  main p E (client_args true udp_addr) =
    (ok ← oom_guard p (env_meminfo E) 89600;
     Ok (match ok with Some m => Exit (pinning 1 [0] ++ [m]) | None => UdpClient udp_addr 1 1 1400 0 [0] true end)).
Proof.
  set (args := client_args true udp_addr).
  assert (main_cpus E args = [0]) as Ec by reflexivity.
  transitivity (main_client p E args true 1400 [0]); [by rewrite <- Ec|]. unfold main_client.
  read_arg (flag args (lit "--connect")) (Some udp_addr). read_arg (has args (lit "--xdp")) false.
  read_arg (flag_or args (lit "--threads") (zlen [0])) 1. read_arg (flag_or args (lit "--duration") 10) 1.
  read_arg (flag_or args (lit "--target-pps") 0) 0. read_arg (has args (lit "--json")) true. by destruct p.
Qed.

Lemma tcp_client_main p E :
  main p E (client_args false tcp_addr) =
    (ok ← oom_guard p (env_meminfo E) 262144;
     Ok (match ok with Some m => Exit (pinning 1 [0] ++ [m]) | None => TcpClient tcp_addr 1 1 [0] true end)).
Proof.
  set (args := client_args false tcp_addr).
  assert (main_cpus E args = [0]) as Ec by reflexivity.
  transitivity (main_client p E args false 1400 [0]); [by rewrite <- Ec|]. unfold main_client.
  read_arg (flag args (lit "--connect")) (Some tcp_addr). read_arg (has args (lit "--xdp")) false.
  read_arg (flag_or args (lit "--threads") 1) 1. read_arg (flag_or args (lit "--duration") 10) 1.
  read_arg (flag_or args (lit "--target-pps") 0) 0. read_arg (has args (lit "--json")) true. by destruct p.
Qed.

Lemma udp_server_main p E :
  main p E (server_args true udp_addr) =
    (ok ← oom_guard p (env_meminfo E) 131072;
     Ok (match ok with Some m => Exit [m] | None => UdpServer udp_addr 1400 [0] end)).
Proof.
  set (args := server_args true udp_addr).
  assert (main_cpus E args = [0]) as Ec by reflexivity.
  transitivity (main_server p E args true 1400 [0]); [by rewrite <- Ec|]. unfold main_server.
  read_arg (flag args (lit "--bind")) (Some udp_addr). read_arg (has args (lit "--xdp")) false. by destruct p.
Qed.

Lemma tcp_server_main p E : main p E (server_args false tcp_addr) = Ok (TcpServer tcp_addr [0]).
Proof.
  set (args := server_args false tcp_addr).
  assert (main_cpus E args = [0]) as Ec by reflexivity.
  transitivity (main_server p E args false 1400 [0]); [by rewrite <- Ec|]. unfold main_server.
  read_arg (flag args (lit "--bind")) (Some tcp_addr). by read_arg (has args (lit "--xdp")) false.
Qed.

Lemma oom_guard_ok p mi n cap : oom_cap p mi = Ok cap → n ≤ cap → oom_guard p mi n = Ok None.
Proof.
  intros Hc Hn. unfold oom_guard. rewrite Hc. cbn [mbind res_bind]. by rewrite (proj2 (Z.ltb_ge _ _) Hn).
Qed.

(** A client that ends names its protocol. *)
Lemma client_proto {L : CpuSets} p E ver c args W a udp ws pr :
  main p E args = Ok a → client_engine p W a = Some (udp, Ok ws) → has args (lit "--json") = true →
  rtc (proc_step p E ver c args W) Starting (Ended pr) → contains (trim (unlines (out pr))) (proto_is udp) = true.
Proof.
  intros Hm He Hj Hs. destruct (client_state_run p E ver c args W a udp ws Hm He _ Hs) as (e & b & q & ns & pr' & _ & _ & Hf & ->).
  pose proof (main_json p E args a Hm) as Hja. destruct a; try done; destruct Hja as [_ ->]; rewrite Hj in Hf;
    cbn [finish client_engine] in *; simplify_eq; cbn [conclude out].
  - exact (json_summary_proto (mkSummary b q (as_secs_f64 ns)) true).
  - exact (json_summary_proto (mkSummary b 0 (as_secs_f64 ns)) false).
Qed.

(** The probing ends: at the first accepted connection, or when the deadline
    has passed. *)
Lemma probe_leaves addr deadline probes now ok :
  (now, ok) ∈ probes → deadline ≤ now ∨ ok = true → (probe addr deadline probes).2 = true.
Proof.
  induction probes as [|[t o] probes IH]; intros Hin Hx; [by apply elem_of_nil in Hin|]. cbn [probe].
  destruct (Z.ltb_spec t deadline) as [Hlt|]; [|done]. destruct o; [done|].
  destruct (probe addr deadline probes) as [l b] eqn:El. cbn [snd] in *. apply IH; [|done].
  apply elem_of_cons in Hin as [[= -> ->]|Hin]; [destruct Hx; [lia|done]|done].
Qed.

(** A server that was started is killed and reaped if the client could be run,
    whatever the client did. *)
Lemma run_loopback_reaps udp port m pr l events r :
  m_spawns m = true → m_client m = Some pr →
  wait_for_server udp (lit "127.0.0.1:" ++ dec port) m = Ok (l, true) →
  run_loopback udp port m = (events, r) →
  events = Spawn (server_args udp (lit "127.0.0.1:" ++ dec port)) :: l
    ++ [Output (client_args udp (lit "127.0.0.1:" ++ dec port)); Kill; Wait]
  ∧ r = Some (if status pr =? 0 then Ok (trim (unlines (out pr))) else Panic).
Proof.
  intros Hs Hc Hl Hr. unfold run_loopback in Hr. rewrite Hs, Hl, Hc in Hr. cbn [negb] in Hr. simplify_eq.
  split; [cbn [app]; by rewrite <- app_assoc|]. unfold assert. by destruct (status pr =? 0).
Qed.

(** ** Properties *)

(** C37: the UDP loopback test tells whether traffic flowed.  On any machine
    with 256 KiB to spare under the memory guard, the test's two command lines
    start the server and the client on the same address, in both profiles.
    When the client process ends, in whatever schedule, the test kills and
    reaps the server, and it passes if the client's thread handed at least one
    datagram to [sendmmsg] and fails if it handed over none. *)
Theorem udp_loopback_exact {L : CpuSets} `{!CpuSetsOk L} p E ver c W cap :
  oom_cap p (env_meminfo E) = Ok cap → 2 ^ 18 ≤ cap →
  (∀ t, client_env_ok (wo_udp W udp_addr t)) → wo_now W + SEC < 2 ^ 63 * SEC →
  main p E (server_args true udp_addr) = Ok (UdpServer udp_addr 1400 [0])
  ∧ ∃ ws, udp_client p [0] 1 1 1400 0 (wo_now W) (wo_udp W udp_addr) = Ok ws
    ∧ ∀ pr m, rtc (proc_step p E ver c (client_args true udp_addr) W) Starting (Ended pr) →
      m_spawns m = true → m_client m = Some pr →
      let sent := zlen (concat (w_wire <$> ws)) in
      sent * 1400 < 2 ^ 64 →
      udp_loopback_moves_packets m =
        ([Spawn (server_args true udp_addr); Sleep 300; Output (client_args true udp_addr); Kill; Wait],
         Some (if 0 <? sent then Ok () else Panic)).
Proof.
  intros Hcap Hle Henv Hclk. rewrite udp_server_main, (oom_guard_ok _ _ _ cap Hcap) by lia. split; [done|].
  assert (main p E (client_args true udp_addr) = Ok (UdpClient udp_addr 1 1 1400 0 [0] true)) as Hm
    by (by rewrite udp_client_main, (oom_guard_ok _ _ _ cap Hcap) by lia).
  destruct (udp_process_output p E ver c (client_args true udp_addr) W udp_addr 1 1 1400 0 [0] true Hm) as (ws & Hws & H);
    [vm_compute; reflexivity|done|lia|by left|by apply (bool_decide_unpack _)|].
  exists ws. split; [done|]. intros pr m Hs Hsp Hmc sent Hlt.
  destruct (H pr Hs) as (Hst & Hf). destruct (Hf eq_refl) as (Hq & Hb). fold sent in Hq, Hb.
  assert (client_engine p W (UdpClient udp_addr 1 1 1400 0 [0] true) = Some (true, Ok ws)) as He
    by (cbn [client_engine]; by rewrite Hws).
  pose proof (client_proto p E ver c _ W _ _ _ pr Hm He ltac:(vm_compute; reflexivity) Hs) as Hc.
  unfold udp_loopback_moves_packets. destruct (run_loopback true 53111 m) as [events r] eqn:Er.
  destruct (run_loopback_reaps true 53111 m pr [Sleep 300] events r Hsp Hmc eq_refl Er) as [-> ->].
  change (lit "127.0.0.1:" ++ dec 53111) with udp_addr. f_equal.
  rewrite Hst. cbn [Z.eqb fmap option_fmap option_map mbind res_bind]. rewrite Hc, Hq, Hb. cbn [assert mbind res_bind].
  change (Z.max 1400 HDR) with 1400. rewrite !wrap_small by (split; lia).
  destruct (Z.ltb_spec 0 sent), (Z.ltb_spec 0 (sent * 1400)); cbn [assert mbind res_bind]; try done; lia.
Qed.

(** Two runs of the test: one batch sent, and a client that cannot connect. *)
Definition test_machine (pr : process) : machine := Machine true 0 [] (Some pr).
Definition deaf_world : world := World 0 (λ _ _, UdpEnv true false 0 []) (λ _ _, None).

Lemma demo_meminfo_cap : oom_cap Debug (env_meminfo demo_environment) = Ok (2 ^ 30).
Proof. vm_compute. reflexivity. Defined.

Lemma udp_loopback_exact_witness :
  ∃ pr pr',
    rtc (proc_step (L:=bit_sets 4) Debug demo_environment (lit "0.3.1") demo_cpu (client_args true udp_addr) demo_world) Starting (Ended pr)
    ∧ (udp_loopback_moves_packets (test_machine pr)).2 = Some (Ok ())
    ∧ rtc (proc_step (L:=bit_sets 4) Debug demo_environment (lit "0.3.1") demo_cpu (client_args true udp_addr) deaf_world) Starting (Ended pr')
    ∧ (udp_loopback_moves_packets (test_machine pr')).2 = Some Panic.
Proof.
  assert (2 ^ 18 ≤ 2 ^ 30) as Hle by (vm_compute; discriminate).
  assert (∀ W, (∀ t, client_env_ok (wo_udp W udp_addr t)) → wo_now W + SEC < 2 ^ 63 * SEC →
    ∃ ws pr, udp_client (L:=bit_sets 4) Debug [0] 1 1 1400 0 (wo_now W) (wo_udp W udp_addr) = Ok ws
    ∧ rtc (proc_step (L:=bit_sets 4) Debug demo_environment (lit "0.3.1") demo_cpu (client_args true udp_addr) W) Starting (Ended pr)
    ∧ (zlen (concat (w_wire <$> ws)) * 1400 < 2 ^ 64 →
       (udp_loopback_moves_packets (test_machine pr)).2 = Some (if 0 <? zlen (concat (w_wire <$> ws)) then Ok () else Panic))) as H.
  { intros W Henv Hclk.
    destruct (@udp_loopback_exact (bit_sets 4) (bit_sets_ok 4) Debug demo_environment (lit "0.3.1") demo_cpu W (2 ^ 30) demo_meminfo_cap Hle Henv Hclk)
      as (_ & ws & Hws & H).
    assert (main Debug demo_environment (client_args true udp_addr) = Ok (UdpClient udp_addr 1 1 1400 0 [0] true)) as Hm
      by (rewrite udp_client_main, (oom_guard_ok _ _ _ _ demo_meminfo_cap) by lia; reflexivity).
    destruct (@client_ends (bit_sets 4) Debug demo_environment (lit "0.3.1") demo_cpu (client_args true udp_addr) W _ true ws Hm
      ltac:(cbn [client_engine]; rewrite Hws; reflexivity) Starting (rtc_refl _ _)) as [pr Hpr].
    exists ws, pr. split; [exact Hws|]. split; [exact Hpr|]. intros Hlt.
    rewrite (H pr (test_machine pr) Hpr eq_refl eq_refl Hlt). reflexivity. }
  destruct (H demo_world) as (ws & pr & Hws & Hpr & Ht).
  { intros t. split; apply (bool_decide_unpack _); vm_compute; exact I. }
  { vm_compute. reflexivity. }
  destruct (H deaf_world) as (ws' & pr' & Hws' & Hpr' & Ht').
  { intros t. split; apply (bool_decide_unpack _); vm_compute; exact I. }
  { vm_compute. reflexivity. }
  exists pr, pr'. clear H.
  assert (zlen (concat (w_wire <$> ws)) = 64) as En.
  { apply (f_equal (λ r, match r with Ok ws => zlen (concat (w_wire <$> ws)) | _ => 0 end)) in Hws.
    rewrite <- Hws. vm_compute. reflexivity. }
  assert (zlen (concat (w_wire <$> ws')) = 0) as En'.
  { apply (f_equal (λ r, match r with Ok ws => zlen (concat (w_wire <$> ws)) | _ => 1 end)) in Hws'.
    rewrite <- Hws'. vm_compute. reflexivity. }
  rewrite En in Ht. rewrite En' in Ht'.
  split; [exact Hpr|]. split; [apply Ht; vm_compute; reflexivity|]. split; [exact Hpr'|apply Ht'; vm_compute; reflexivity].
Defined.

(** The TCP loopback test.  The test probes until the server accepts or ten
    seconds are over; then the same holds, of the bytes the client's connection
    took. *)
Theorem tcp_loopback_exact {L : CpuSets} `{!CpuSetsOk L} p E ver c W cap :
  oom_cap p (env_meminfo E) = Ok cap → 2 ^ 18 ≤ cap → wo_now W + SEC < 2 ^ 63 * SEC →
  (∀ t, conn_ok (wo_tcp W tcp_addr t)) →
  main p E (server_args false tcp_addr) = Ok (TcpServer tcp_addr [0])
  ∧ ∃ ws, tcp_client p [0] 1 1 (wo_now W) (wo_tcp W tcp_addr) = Ok ws ∧
    let moved := zlen (concat (sent_stream <$> ws)) in
    moved < 2 ^ 64 →
    ∀ pr m waited, rtc (proc_step p E ver c (client_args false tcp_addr) W) Starting (Ended pr) →
      m_spawns m = true → m_client m = Some pr → wait_for_server false tcp_addr m = Ok (waited, true) →
      tcp_loopback_moves_bytes m =
        (Spawn (server_args false tcp_addr) :: waited ++ [Output (client_args false tcp_addr); Kill; Wait],
         Some (if 0 <? moved then Ok () else Panic)).
Proof.
  intros Hcap Hle Hclk Hok. rewrite tcp_server_main. split; [done|].
  assert (main p E (client_args false tcp_addr) = Ok (TcpClient tcp_addr 1 1 [0] true)) as Hm
    by (by rewrite tcp_client_main, (oom_guard_ok _ _ _ cap Hcap) by lia).
  assert (∃ ws, tcp_client p [0] 1 1 (wo_now W) (wo_tcp W tcp_addr) = Ok ws) as [ws Hws].
  { unfold tcp_client, instant_add. rewrite (proj2 (Z.ltb_lt _ _)) by lia. cbn [mbind res_bind].
    change (seqZ 0 1) with [0]. cbn [mapM]. unfold tcp_client_body.
    rewrite pin_ok by (by apply (bool_decide_unpack _)). by eexists. }
  exists ws. split; [done|]. intros moved Hmoved pr m waited Hs Hsp Hmc Hw.
  destruct (tcp_process p E ver c (client_args false tcp_addr) W tcp_addr 1 1 [0] true ws Hm Hws Hok _ Hs) as (_ & _ & Ho).
  destruct (Ho pr eq_refl) as (Hst & Hb). specialize (Hb eq_refl). fold moved in Hb. rewrite wrap_small in Hb by (split; [lia|done]).
  assert (client_engine p W (TcpClient tcp_addr 1 1 [0] true) = Some (false, Ok ws)) as He
    by (cbn [client_engine]; by rewrite Hws).
  pose proof (client_proto p E ver c _ W _ _ _ pr Hm He ltac:(vm_compute; reflexivity) Hs) as Hc.
  unfold tcp_loopback_moves_bytes. destruct (run_loopback false 53112 m) as [events r] eqn:Er.
  destruct (run_loopback_reaps false 53112 m pr waited events r Hsp Hmc Hw Er) as [-> ->].
  change (lit "127.0.0.1:" ++ dec 53112) with tcp_addr. f_equal.
  rewrite Hst. cbn [Z.eqb fmap option_fmap option_map mbind res_bind]. rewrite Hc, Hb. cbn [assert mbind res_bind].
  by destruct (0 <? moved).
Qed.

(** The test does not hang on a server that never listens: it sleeps 25 ms
    after each probe, so 401 probes reach the deadline of ten seconds. *)
Lemma wait_tcp_listening_terminates addr m (env : nat → Z * bool) :
  m_now m + 10 * SEC < 2 ^ 63 * SEC →
  (∀ i, m_now m + Z.of_nat i * 25000000 ≤ (env i).1) → m_probes m = env <$> seq 0 401 →
  ∃ l, wait_tcp_listening addr 10 m = Ok (l, true).
Proof.
  intros Hlt Hclk Hp. unfold wait_tcp_listening, instant_add. rewrite (proj2 (Z.ltb_lt _ _) Hlt). cbn [mbind res_bind].
  destruct (probe addr (m_now m + 10 * SEC) (m_probes m)) as [l b] eqn:E. exists l. do 2 f_equal.
  change b with ((l, b).2). rewrite <- E. destruct (env 400%nat) as [now ok] eqn:E400.
  apply (probe_leaves addr _ _ now ok).
  - rewrite Hp, <- E400. apply list_elem_of_fmap_2. apply elem_of_seq. lia.
  - left. specialize (Hclk 400%nat). rewrite E400 in Hclk. cbn [fst] in Hclk. unfold SEC. lia.
Qed.
